(* ===== verification/_CoqProject ===== *)
-Q . S2P
Prelude.v
GoStrings.v
PathMatch.v
StableSort.v
Cron.v
Manifest.v
Wire.v
Chain.v
Pipeline.v
Breaker.v
Instance.v
Registry.v
Menu.v
Manager.v
Launch.v
Supervision.v
Scheduler.v
TxRegistry.v
Sql.v
Documents.v
Schema.v
Migrations.v
Provision.v
Base64.v
SqlText.v
Select.v
Query.v
Queue.v
Auth.v
Egress.v
HostMemory.v
EventBus.v
HostPipeline.v
Gateway.v
UsersApi.v
Admin.v
Files.v
Storage.v
HostServer.v
HostData.v
HostQueue.v
HostEvents.v
HostConfig.v
HostWorld.v
Frontdoor.v
Consoles.v
Startup.v
Sdk.v
SdkHost.v
SdkRuntime.v
SdkServer.v
Transport.v
Goroutine.v
Plugins.v
Inventory.v
ApiKey.v
Redact.v
Syncer.v
Digest.v
AuditTrail.v
Notes.v
Ratelimit.v
