(* ===== verification/Prelude.v ===== *)
(** * Moduless Core: a verification development

    Moduless is a gateway, Core, that runs plugins as separate processes and
    serves their HTTP APIs and consoles. A plugin is a directory with a
    manifest, a binary and a frontend. Core checks the manifest, starts the
    processes, puts the plugin's request filters into the chain every request
    goes through, forwards the requests of the plugin's own API to one of its
    replicas, runs its cron jobs, and answers the calls the plugin makes back:
    documents and transactions, queue, cache, locks, events, files, outbound
    HTTP, settings, logs. This library is a shallow embedding of that code,
    with the theorems that make it correct. This file is the shared
    vocabulary: results, the error monad, and the lemmas on lists, maps and
    integers several components use.

    ** How a request goes

    Frontdoor.v: the audit log (core/middleware/audit.go) wraps Gateway.v (core/gateway/
    plugin_handler.go), which runs the phases of Pipeline.v (core/pipeline/context.go
    and runner.go) around the router's own handlers (Frontdoor.v, UsersApi.v, Admin.v,
    Menu.v, Files.v) or a plugin's backend. The pipeline reaches plugins through
    the class [TargetOps] with the laws [TargetLaws]; Registry.v makes the
    registry of replicas (core/pluginhost/registry.go) an instance and
    discharges the laws. A plugin's calls back into Core enter at HostServer.v
    (core/hostsvc/server.go and rpc_*.go), which checks the permission and
    delegates to a backend, a record of functions; the backends are modelled in
    HostData.v, HostQueue.v, HostMemory.v, HostEvents.v, HostConfig.v, Files.v and Egress.v over
    the stores of TxRegistry.v, Documents.v, Schema.v, Query.v, Queue.v and EventBus.v, and
    HostWorld.v puts them together over one host state.

    ** The files, and what they model

    Foundations
    - GoStrings.v: the functions of [strings], [strconv] and [path] the code calls;
      StableSort.v: [sort.SliceStable]; Base64.v: [base64.RawURLEncoding].
    - PathMatch.v: pathmatch/pathmatch.go, the globs plugins declare.
    - Cron.v, Manifest.v: manifest/cron.go, manifest.go, plugin.go. Masks and the loop
      counter of a cron range keep their machine widths.

    Requests
    - Wire.v: the messages of proto/plugin.proto and core/pipeline/headers.go.
    - Chain.v: core/pipeline/chain.go; Pipeline.v: context.go and runner.go.
    - Gateway.v: core/gateway/plugin_handler.go. Menu.v: menu.go and the menu half of
      apps_handler.go. UsersApi.v: auth_handler.go, users_handler.go. Admin.v:
      plugins_handler.go. Files.v: file_handler.go. Frontdoor.v: router.go, the routes
      of core/main.go, plugin_assets.go, host.go, ui_events.go, middleware/audit.go.
      Consoles.v: the registry's callback, ui_events.go, apps_handler.go and the
      console's subscription as one system.
    - Auth.v: core/auth and the queries of core/db/sqlc it uses.

    Plugin processes (core/pluginhost)
    - Breaker.v: breaker.go. Instance.v: instance.go. Registry.v: registry.go. Manager.v:
      package.go, manager.go, supervisor.go, each operation run to its end. Launch.v:
      launch.go. Supervision.v: the operations of Manager.v cut into the steps of the
      goroutines that run them, with the shutdown of core/main.go. Scheduler.v:
      scheduler.go.
    - Startup.v: core/main.go, from the environment to the started plugins; Storage.v:
      core/storage and db/postgres.go, what it opens.
    - HostPipeline.v runs the pipeline on the registry's own resolver.

    Host services (core/hostsvc, core/db, core/event)
    - TxRegistry.v: db/tx.go, the registry of open transactions. Sql.v, Documents.v:
      db/cmds.go and the writes of tx.go. Schema.v: provisioning;
      Provision.v: where core/main.go asks for it. Migrations.v: db/migrations.go. SqlText.v, Query.v: db/query.go. Queue.v: db/queue.go.
    - HostServer.v, HostData.v, HostQueue.v, HostEvents.v, HostConfig.v, HostMemory.v, Egress.v,
      Files.v, EventBus.v, HostWorld.v: as above.

    The plugin's side (sdk/plugin)
    - Sdk.v: context.go, bridge.go, sdk.go and the plugin server of pluginapi.
      SdkHost.v, SdkRuntime.v: host.go and errors.go, over an interface of remote
      calls. SdkServer.v: that interface made of HostServer.v, and what holds
      across both sides.
    - Transport.v: pluginapi, what either side hands to go-plugin, and Configure from
      the manager of Core to the plugin's own state.

    Plugins (extension-example), written against the SDK as their authors do
    - Plugins.v: the answers they share. Inventory.v, ApiKey.v, Redact.v, Syncer.v,
      Digest.v, AuditTrail.v, Notes.v, Ratelimit.v: the main.go of each. Inventory.v and
      ApiKey.v add the system their handlers make up: reservations on one
      database, replicas that share a cache.

    ** How state and operations correspond to the code

    A struct is a [Record] with the source's fields, an enumeration an [Inductive],
    an operation a function with the source's name that takes the state and
    returns it. A Go map is a [gmap] where the order of a range does not matter
    and an association list in range order where it does; strings are byte
    strings; integers are [Z], with their wrap-around written out where a
    computation can leave the width. An error result is [Err] of the type
    [result] below. What the clock, the random source or another process
    contributes is an argument. A pointer that is shared is an address in a
    heap (replica sets and instances in Registry.v, channels in EventBus.v).

    A database table is a list or map of rows, and an operation on it the
    composition of the statements it sends, each run in autocommit or in an
    open transaction (Sql.v), each of which the server may refuse for reasons of
    its own: that choice is an input, so the theorems hold for every pattern of
    failures.

    Concurrency is a step relation at the grain of the code's critical sections
    and atomic operations: requests against a drain in Instance.v, calls on
    open transactions in TxRegistry.v, lease holders on a lock in HostMemory.v,
    replicas writing one document in Documents.v, consumers of a queue in Queue.v and
    HostQueue.v, plugins calling the host in HostWorld.v, reservations of stock in
    Inventory.v, lookups and revocations of keys in ApiKey.v, watch loops, restarts,
    admin calls, drains and the shutdown in Supervision.v, and these with the open
    consoles in Consoles.v. In the other files an operation runs to completion;
    Supervision.v proves that Enable, Disable and the quarantine of Manager.v are what
    its steps come to when nothing interferes (Enable_alone, Disable_alone,
    quarantine_alone).

    ** What the theorems show

    - Requests. No fail-closed filter is skipped (Pipeline.Run_fail_closed), no
      anonymous request reaches a backend (Gateway.backend_authenticated), the
      chain does not depend on the order of the plugins, the audit log records
      exactly the writes it should (Frontdoor.audit_exact), static files stay in
      their directories. Pipeline.v also gives the branches of runOne, the
      balance of in-flight accounting and what RunAsync may change.
    - Declarations. Matching and scheduling agree with reference semantics
      written on path segments and on sets of minutes; Validate accepts exactly
      the well-formed manifests.
    - Processes. A clean drain loses no admitted request; installing a plugin
      touches no other; crash recovery ends within its threshold; jobs run at
      most once a minute, and a due job of a serving plugin does run. Under every
      interleaving each process has one owner, each routed replica is watched, a
      disabled plugin stays off and a shutdown ends the plugins (Supervision.v), as
      long as no restart is past its last look: the schedules in which one is are
      examples there. At the start one plugin that fails keeps no other from
      starting (Startup.EnableAll_each). A launched plugin has the identity and
      the settings Core has for it (Transport.launched_as_declared), unless it was
      launched by an upgrade. An open console is not out of date without a signal
      on its way (Consoles.console_current).
    - Host calls. Each is gated on exactly its permissions; whatever others
      call, what belongs to a plugin stays (HostWorld.plugin_isolated, with the
      document store a parameter whose isolation is Documents.plugin_isolation).
    - Data. No lost update, atomic batches, versions and indexes stay valid; a
      transaction is finalised once and the quota is exact; the text of a query
      depends on no value; pagination reads everything once; queue messages are
      leased to one consumer, delivered a bounded number of times and not lost.
    - The SDK. What a filter builds is what the request becomes
      (Sdk.mutation_applied), Tx leaves no transaction open, each failure has its
      own sentinel, a query asks what it describes, a consumer settles every
      message, an upload arrives as read, background work starts once and after
      the host is bound.
    - Plugins. No unit of stock is sold twice (Inventory.never_oversold); a revoked
      key works no longer than both caches and two lookups allow
      (ApiKey.revocation_window); no configured field leaves a redacted response,
      and the rest is as it was (Redact.redact_spec); the marker of the digest
      names only what is archived (Digest.archive_keeps); a delivery is
      acknowledged only for work done or put back (Syncer.acked_means); the purge
      of the audit log ends (AuditTrail.purge_terminates). A token bucket keeps to its
      rate in exact arithmetic (Ratelimit.limiter_bound); its definitions are over
      an interface, and their float64 instance is evaluated, not reasoned about.
    - Outside. Fetch reaches only granted, external hosts and audits every
      attempt. Users: only administrators change them, one administrator stays,
      sessions come from logins. Files belong to their plugin and come back
      whole.

    Examples record where the code does something its comments do not say:
    they are the development's findings, each next to the component it is about.

    ** Fuel and bounds

    - A cron range is a loop with 64-bit overflow in its counter: [loop_fuel] is
      256, above the length of the longest field, and Cron.v proves the loop is
      over by then or was refused.
    - Reading all pages of a query takes as fuel the number of rows, and
      pagination_complete proves that enough.
    - The purge of AuditTrail.v takes as fuel one more than the records that have expired,
      and purge_terminates proves that enough.
    - The supervisor's recursion takes the crashes left to the threshold.
    - Loops that only the outside ends (a consumer's loop, waiting for a lock,
      the console's event stream, the scheduler's ticker) are runs over a list of
      what the outside does in each turn: the theorems hold for every list.

    ** Parameters

    Not under src/, and so arguments of the definitions that use them: YAML,
    encoding/json (for the SDK as well), URL parsing, name resolution, sockets and the HTTP client,
    bcrypt, random bytes and UUIDs, the object store, multipart parsing, the
    file system and MIME types, hashing, process start and the go-plugin
    handshake, and PostgreSQL's share of a statement: the folding of names, the value
    of a JSONB column, the texts a VARCHAR takes, the answer to a SELECT, sequences.
    A calendar is a parameter of the scheduler. strconv.ParseFloat and
    strings.ToLower are parameters of the plugins that call them, on any input.

    ** Not modelled, and why

    - gRPC and the protobuf encoding: generated code, and libraries.
    - The plumbing of go-plugin: sockets, log forwarding, reattachment. Its handshake
      and its broker are parameters of Transport.v.
    - What core/main.go starts beside the plugins: the listener, the reaper of
      transactions, the queue's maintenance and the scheduler, whose bodies are
      modelled where they belong, and the order in which they end.
    - The SQL of Core's embedded migrations, and the queries of core/db/sqlc no component
      calls. internal/dbtest, a lock for test suites.
    - The main functions of the plugins beyond what they configure: they register
      handlers, filters and jobs with the SDK. The plugins under tests/fixtures.
    - The consoles (JavaScript), but for when one asks for the list of apps.
    - In modelled files: OnDeadLetter's logging, the rendering of a metric's
      labels in its log line, the clock setters tests use. *)

From stdpp Require Export base gmap strings list sorting option numbers.
From Stdlib Require Export ZArith Lia.
From Stdlib Require Ascii.

#[export] Set Default Goal Selector "!".

(** Let [simpl] compute concatenations whose first string is known. *)
Global Arguments String.append !s1 s2 : simpl nomatch.
Global Arguments String.eqb !s1 !s2 : simpl nomatch.
Global Arguments Ascii.eqb !a !b : simpl nomatch.

Declare Scope go_scope.
Delimit Scope go_scope with go.

(** ** Errors as values

    Go functions return [(T, error)]; the model returns [Ok t] when the error
    is nil and [Err e] otherwise. *)

Inductive result (E A : Type) : Type :=
| Ok (a : A)
| Err (e : E).
Arguments Ok {E A} a.
Arguments Err {E A} e.

Definition res_bind {E A B} (r : result E A) (k : A -> result E B) : result E B :=
  match r with
  | Ok a => k a
  | Err e => Err e
  end.

Definition is_ok {E A} (r : result E A) : bool :=
  match r with Ok _ => true | Err _ => false end.

Definition res_to_option {E A} (r : result E A) : option A :=
  match r with Ok a => Some a | Err _ => None end.

(** [reject? b with e ;; k] is the Go idiom [if b { return e }; k]. *)

Notation "'let?' x ':=' r 'in' k" := (res_bind r (fun x => k))
  (at level 10, x pattern, r at level 100, k at level 200) : go_scope.
Notation "'reject?' b 'with' e ;; k" := (if b then Err e else k)
  (at level 10, b at level 99, e at level 99, k at level 200) : go_scope.

Global Open Scope go_scope.

(** A fold that stops at the first error, as a Go [for] loop with an early
    return does. *)
Fixpoint res_fold {E A S} (f : S -> A -> result E S) (s : S) (l : list A) : result E S :=
  match l with
  | [] => Ok s
  | a :: l => let? s' := f s a in res_fold f s' l
  end.

Fixpoint res_map {E A B} (f : A -> result E B) (l : list A) : result E (list B) :=
  match l with
  | [] => Ok []
  | a :: l => let? b := f a in let? bs := res_map f l in Ok (b :: bs)
  end.

Lemma res_bind_ok {E A B} (r : result E A) (k : A -> result E B) b :
  res_bind r k = Ok b <-> exists a, r = Ok a /\ k a = Ok b.
Proof. destruct r; simpl; naive_solver. Qed.

Lemma res_bind_err {E A B} (r : result E A) (k : A -> result E B) e :
  res_bind r k = Err e <-> r = Err e \/ exists a, r = Ok a /\ k a = Err e.
Proof. destruct r; simpl; naive_solver. Qed.

Lemma Ok_inj {E A} (a b : A) : Ok (E := E) a = Ok b -> a = b.
Proof. congruence. Qed.

Lemma is_ok_spec {E A} (r : result E A) : is_ok r = true <-> exists a, r = Ok a.
Proof. destruct r; naive_solver. Qed.

Lemma res_fold_app {E A S} (f : S -> A -> result E S) s l1 l2 :
  res_fold f s (l1 ++ l2) = (let? s' := res_fold f s l1 in res_fold f s' l2).
Proof. revert s. induction l1 as [|a l1 IH]; intros s; simpl; [done|]. destruct (f s a); simpl; auto. Qed.

Lemma res_map_ok {E A B} (f : A -> result E B) l bs :
  res_map f l = Ok bs <-> Forall2 (fun a b => f a = Ok b) l bs.
Proof.
  revert bs. induction l as [|a l IH]; intros bs; simpl.
  - split; [intros [= <-]; constructor | by inversion 1].
  - rewrite res_bind_ok. setoid_rewrite res_bind_ok. split.
    + intros (b & Hb & bs' & Hbs & [= <-]). constructor; [done|]. by apply IH.
    + inversion 1 as [|? b ? bs' Hb Hbs]; subst. exists b. split; [done|].
      exists bs'. split; [by apply IH | done].
Qed.

(** [peel H] takes one guard or bind off a hypothesis [H : _ = Ok _]. *)
Ltac peel H :=
  match type of H with
  | res_bind _ _ = Ok _ =>
      let a := fresh "r" in let E := fresh "Hr" in
      apply res_bind_ok in H as (a & E & H)
  | (if ?b then Err _ else _) = Ok _ =>
      let E := fresh "Hg" in destruct b eqn:E; [discriminate H|]
  | (if ?b then _ else Err _) = Ok _ =>
      let E := fresh "Hg" in destruct b eqn:E; [|discriminate H]
  end.
Ltac peel_all H := repeat (peel H).

(** ** Machine integers *)

Definition wrap_s (w x : Z) : Z := (x + 2 ^ (w - 1)) `mod` 2 ^ w - 2 ^ (w - 1).
Definition wrap_u (w x : Z) : Z := x `mod` 2 ^ w.
(** Go's [int] and [int64] on the 64-bit targets Core is built for. *)
Definition int64 (x : Z) : Z := wrap_s 64 x.
Definition int32 (x : Z) : Z := wrap_s 32 x.
Definition uint64 (x : Z) : Z := wrap_u 64 x.
Definition in_int64 (x : Z) : Prop := (- 2 ^ 63 <= x < 2 ^ 63)%Z.

Lemma int64_id x : in_int64 x -> int64 x = x.
Proof.
  unfold in_int64, int64, wrap_s. intros H. change (64 - 1)%Z with 63%Z.
  rewrite Z.mod_small; lia.
Qed.

Lemma int64_range x : in_int64 (int64 x).
Proof.
  unfold in_int64, int64, wrap_s. change (64 - 1)%Z with 63%Z.
  pose proof (Z.mod_pos_bound (x + 2 ^ 63) (2 ^ 64)). lia.
Qed.

Lemma wrap_s_add w x y : (0 < w)%Z -> wrap_s w (wrap_s w x + y) = wrap_s w (x + y).
Proof.
  intros Hw. unfold wrap_s. f_equal.
  replace ((x + 2 ^ (w - 1)) `mod` 2 ^ w - 2 ^ (w - 1) + y + 2 ^ (w - 1))%Z
    with ((x + 2 ^ (w - 1)) `mod` 2 ^ w + y)%Z by lia.
  rewrite Zplus_mod_idemp_l. f_equal. lia.
Qed.

Lemma int64_add x y : int64 (int64 x + y) = int64 (x + y).
Proof. by apply wrap_s_add. Qed.

Lemma int64_idem x : int64 (int64 x) = int64 x.
Proof. apply int64_id, int64_range. Qed.

Lemma int32_id x : (- 2 ^ 31 <= x < 2 ^ 31)%Z -> int32 x = x.
Proof.
  unfold int32, wrap_s. intros H. change (32 - 1)%Z with 31%Z. rewrite Z.mod_small; lia.
Qed.

(** [x <? y] and friends as propositions, for goals that mix both. *)
Ltac zbool :=
  repeat match goal with
  | H : (_ <? _)%Z = true |- _ => apply Z.ltb_lt in H
  | H : (_ <? _)%Z = false |- _ => apply Z.ltb_ge in H
  | H : (_ <=? _)%Z = true |- _ => apply Z.leb_le in H
  | H : (_ <=? _)%Z = false |- _ => apply Z.leb_gt in H
  | H : (_ =? _)%Z = true |- _ => apply Z.eqb_eq in H
  | H : (_ =? _)%Z = false |- _ => apply Z.eqb_neq in H
  | H : negb _ = true |- _ => apply negb_true_iff in H
  | H : negb _ = false |- _ => apply negb_false_iff in H
  | H : _ && _ = true |- _ => apply andb_true_iff in H as [? ?]
  | H : _ || _ = false |- _ => apply orb_false_iff in H as [? ?]
  end.

(** ** Lists *)

Create HintDb gohints.

Lemma existsb_elem {A} (f : A -> bool) l :
  existsb f l = true <-> exists a, a ∈ l /\ f a = true.
Proof.
  rewrite existsb_exists. by setoid_rewrite list_elem_of_In.
Qed.

Lemma forallb_elem {A} (f : A -> bool) l :
  forallb f l = true <-> forall a, a ∈ l -> f a = true.
Proof.
  rewrite forallb_forall. by setoid_rewrite list_elem_of_In.
Qed.

Definition zsum (l : list Z) : Z := foldr Z.add 0%Z l.

Lemma zsum_app l1 l2 : zsum (l1 ++ l2) = (zsum l1 + zsum l2)%Z.
Proof. induction l1; simpl; lia. Qed.

Lemma zsum_insert l i x y :
  l !! i = Some x -> zsum (<[i := y]> l) = (zsum l - x + y)%Z.
Proof.
  revert i. induction l as [|a l IH]; intros [|i] H; simplify_eq/=; [lia|].
  rewrite (IH i H). lia.
Qed.

Lemma zsum_nonneg l : Forall (Z.le 0) l -> (0 <= zsum l)%Z.
Proof. induction 1; simpl; lia. Qed.

(** In a list of non-negative numbers whose sum is 0 every number is 0. *)
Lemma zsum_zero_all l : Forall (Z.le 0) l -> zsum l = 0%Z -> Forall (eq 0%Z) l.
Proof.
  induction 1 as [|x l Hx Hl IH]; simpl; [by constructor|].
  pose proof (zsum_nonneg l Hl). intros Hs. constructor; [lia|]. apply IH. lia.
Qed.

(** How many elements of a list satisfy a predicate, as an integer. *)
Definition count {A} (P : A -> Prop) `{forall a, Decision (P a)} (l : list A) : Z :=
  Z.of_nat (length (filter P l)).

Section count.
Context {A : Type} (P : A -> Prop) `{HP : forall a, Decision (P a)}.

Lemma count_nil : count P [] = 0%Z.
Proof using Type. done. Qed.

Lemma count_cons a l : count P (a :: l) = ((if decide (P a) then 1 else 0) + count P l)%Z.
Proof using Type. unfold count. rewrite filter_cons. case_decide; simpl; lia. Qed.

Lemma count_app l1 l2 : count P (l1 ++ l2) = (count P l1 + count P l2)%Z.
Proof using Type. unfold count. rewrite list.filter_app, length_app. lia. Qed.

Lemma count_nonneg l : (0 <= count P l)%Z.
Proof using Type. unfold count. lia. Qed.

Lemma count_perm l1 l2 : l1 ≡ₚ l2 -> count P l1 = count P l2.
Proof using Type. intros Hl. unfold count. by rewrite Hl. Qed.

Lemma count_insert l i x y :
  l !! i = Some x ->
  count P (<[i := y]> l) =
    (count P l - (if decide (P x) then 1 else 0) + (if decide (P y) then 1 else 0))%Z.
Proof using Type.
  revert i. induction l as [|a l IH]; intros [|i] Hi; simplify_eq/=; rewrite !count_cons; [lia|].
  rewrite (IH i Hi). lia.
Qed.

Lemma count_zero l : (forall a, a ∈ l -> ~ P a) -> count P l = 0%Z.
Proof using Type.
  intros H. induction l as [|a l IH]; [done|].
  rewrite count_cons, decide_False by (apply H; by left). rewrite IH; [done|].
  intros b Hb. apply H. by right.
Qed.

Lemma count_pos l a : a ∈ l -> P a -> (1 <= count P l)%Z.
Proof using Type.
  intros Ha HPa. unfold count. assert (a ∈ filter P l) as Hf by (by apply list_elem_of_filter).
  destruct (filter P l); [by apply not_elem_of_nil in Hf|]. simpl. lia.
Qed.
End count.

Lemma bind_insert_perm {A B} (f : A -> list B) l i x y :
  l !! i = Some x -> f x ++ (<[i := y]> l ≫= f) ≡ₚ f y ++ (l ≫= f).
Proof.
  revert i. induction l as [|a l IH]; intros [|i] Hi; simplify_eq/=.
  - rewrite !app_assoc. apply Permutation_app_tail, Permutation_app_comm.
  - rewrite (app_assoc (f x)), (Permutation_app_comm (f x)), <- app_assoc, (IH i Hi).
    rewrite !app_assoc. apply Permutation_app_tail, Permutation_app_comm.
Qed.

(** Conjunctions of membership facts, freshness and [Forall]. *)
Ltac fresh_solver := repeat split; first [done | by constructor | apply NoDup_singleton | set_solver].

(** A loop that keeps a set of the keys seen so far and refuses a repeated one
    accepts a list exactly when every element passes its own checks [P] and no
    key occurs twice. *)
Section unique.
Context {E A K : Type} `{Countable K}.
Context (f : gset K -> A -> result E (gset K)) (keys : A -> list K) (P : A -> Prop).

Definition unique_step : Prop := forall seen a seen',
  f seen a = Ok seen' <->
  P a /\ NoDup (keys a) /\ (forall k, k ∈ keys a -> k ∉ seen) /\
  seen' = list_to_set (keys a) ∪ seen.

Lemma res_fold_unique :
  unique_step -> forall l seen seen',
  res_fold f seen l = Ok seen' <->
  Forall P l /\ NoDup (l ≫= keys) /\ (forall k, k ∈ l ≫= keys -> k ∉ seen) /\
  seen' = list_to_set (l ≫= keys) ∪ seen.
Proof.
  intros Hf. induction l as [|a l IH]; intros seen seen'; simpl.
  - rewrite union_empty_l_L. split.
    + intros [= <-]. repeat split; [constructor|constructor|set_solver].
    + by intros (_ & _ & _ & ->).
  - rewrite res_bind_ok, list.Forall_cons, list.NoDup_app, list_to_set_app_L. split.
    + intros (s1 & (HP & HN & Hs & ->)%Hf & (HPl & HNl & Hsl & ->)%IH).
      repeat split; set_solver.
    + intros ((HP & HPl) & (HN & Hd & HNl) & Hs & ->).
      eexists. split; [by apply Hf; repeat split; set_solver|].
      apply IH. repeat split; set_solver.
Qed.

Corollary res_fold_unique_ok :
  unique_step -> forall l,
  (exists seen', res_fold f ∅ l = Ok seen') <-> Forall P l /\ NoDup (l ≫= keys).
Proof.
  intros Hf l. split.
  - by intros (s & (? & ? & _)%(res_fold_unique Hf)).
  - intros [? ?]. eexists. apply (res_fold_unique Hf). repeat split; set_solver.
Qed.
End unique.

(** ** Reachability *)

Section reach.
Context {S : Type} (step : S -> S -> Prop).

Lemma rtc_invariant (I : S -> Prop) :
  (forall s s', I s -> step s s' -> I s') ->
  forall s s', rtc step s s' -> I s -> I s'.
Proof. intros Hpres s s' Hrtc. induction Hrtc; eauto. Qed.
End reach.
