(* ===== verification/GoStrings.v ===== *)
(** * The string functions the sources use

    Go strings are byte sequences; they are modelled by [string], whose
    characters are bytes.  This file defines what the sources call from the
    packages [strings], [strconv] and [path], one definition per function, and
    the laws the components rely on. [ToLower], [ToUpper] and [TrimSpace] are
    given on ASCII input: methods, header names, host names, environment values;
    [Fields] on UTF-8, with every white space of Unicode. The one caller a
    plugin can send other input is the operator of a query filter, see
    SqlText.v. *)

From S2P Require Import Prelude.
From stdpp Require Import pretty.
From Stdlib Require Import Ascii.


Fixpoint cut_prefix (p s : string) : option string :=
  match p, s with
  | EmptyString, _ => Some s
  | String a p', String b s' => if Ascii.eqb a b then cut_prefix p' s' else None
  | String _ _, EmptyString => None
  end.

Definition has_prefix (s p : string) : bool :=
  match cut_prefix p s with Some _ => true | None => false end.
Definition trim_prefix (s p : string) : string := default s (cut_prefix p s).

Fixpoint cut_suffix (suf s : string) : option string :=
  if String.eqb s suf then Some "" else
  match s with
  | EmptyString => None
  | String a s' => String a <$> cut_suffix suf s'
  end.

Definition has_suffix (s suf : string) : bool :=
  match cut_suffix suf s with Some _ => true | None => false end.
Definition trim_suffix (s suf : string) : string := default s (cut_suffix suf s).

(** [strings.Contains]. *)
Fixpoint contains (sub s : string) : bool :=
  has_prefix s sub ||
  match s with
  | EmptyString => false
  | String _ s' => contains sub s'
  end.

(** [strings.IndexByte] followed by slicing, and [strings.Cut] with a one-byte
    separator. *)
Fixpoint cut_byte (c : ascii) (s : string) : option (string * string) :=
  match s with
  | EmptyString => None
  | String a s' =>
      if Ascii.eqb a c then Some ("", s')
      else (fun '(l, r) => (String a l, r)) <$> cut_byte c s'
  end.

Fixpoint has_byte (c : ascii) (s : string) : bool :=
  match s with
  | EmptyString => false
  | String a s' => Ascii.eqb a c || has_byte c s'
  end.

(** [strings.Split] and [strings.SplitSeq] with a one-byte separator. *)
Fixpoint split_byte (c : ascii) (s : string) : list string :=
  match s with
  | EmptyString => [""]
  | String a s' =>
      if Ascii.eqb a c then "" :: split_byte c s'
      else match split_byte c s' with
           | [] => [String a ""]
           | x :: l => String a x :: l
           end
  end.

Fixpoint join (sep : string) (l : list string) : string :=
  match l with
  | [] => ""
  | [x] => x
  | x :: l => x +:+ sep +:+ join sep l
  end.

Fixpoint trim_left (f : ascii -> bool) (s : string) : string :=
  match s with
  | EmptyString => ""
  | String a s' => if f a then trim_left f s' else s
  end.

Fixpoint trim_right (f : ascii -> bool) (s : string) : string :=
  match s with
  | EmptyString => ""
  | String a s' =>
      match trim_right f s' with
      | EmptyString => if f a then "" else String a ""
      | r => String a r
      end
  end.

Definition trim (f : ascii -> bool) (s : string) : string := trim_right f (trim_left f s).

Definition trim_byte (c : ascii) : string -> string := trim (fun a => Ascii.eqb a c).

(** ASCII white space as [unicode.IsSpace] sees it: tab, newline, vertical tab,
    form feed, carriage return and space. *)
Definition is_space (a : ascii) : bool :=
  let n := nat_of_ascii a in (Nat.leb 9 n && Nat.leb n 13) || Nat.eqb n 32.

Definition trim_space : string -> string := trim is_space.

Fixpoint string_map (f : ascii -> ascii) (s : string) : string :=
  match s with
  | EmptyString => ""
  | String a s' => String (f a) (string_map f s')
  end.

Definition upper_ascii (a : ascii) : ascii :=
  let n := nat_of_ascii a in
  if Nat.leb 97 n && Nat.leb n 122 then ascii_of_nat (n - 32) else a.
Definition lower_ascii (a : ascii) : ascii :=
  let n := nat_of_ascii a in
  if Nat.leb 65 n && Nat.leb n 90 then ascii_of_nat (n + 32) else a.
Definition to_upper : string -> string := string_map upper_ascii.
Definition to_lower : string -> string := string_map lower_ascii.

(** [strings.ContainsAny]. *)
Fixpoint contains_any (cs s : string) : bool :=
  match s with
  | EmptyString => false
  | String a s' => has_byte a cs || contains_any cs s'
  end.

(** The bytes of the white space character [s] begins with, 0 if it begins with
    none: ASCII white space, and in UTF-8 the others of [unicode.IsSpace],
    U+0085, U+00A0, U+1680, U+2000 to U+200A, U+2028, U+2029, U+202F, U+205F and
    U+3000. *)
Definition space_width (s : string) : nat :=
  match nat_of_ascii <$> String.list_ascii_of_string (String.substring 0 3 s) with
  | [] => 0
  | a :: bs =>
      if (Nat.leb 9 a && Nat.leb a 13) || Nat.eqb a 32 then 1
      else match a, bs with
           | 194, b :: _ => if Nat.eqb b 133 || Nat.eqb b 160 then 2 else 0
           | 225, 154 :: 128 :: _ => 3
           | 226, 128 :: b :: _ =>
               if (Nat.leb 128 b && Nat.leb b 138) || Nat.eqb b 168 || Nat.eqb b 169 || Nat.eqb b 175 then 3 else 0
           | 226, 129 :: 159 :: _ => 3
           | 227, 128 :: 128 :: _ => 3
           | _, _ => 0
           end
  end%nat.

(** [strings.Fields]: the maximal runs of characters that are not white space.
    [skip] counts the bytes left of a white space character. *)
Fixpoint fields_go (skip : nat) (cur : string) (s : string) : list string :=
  match s with
  | EmptyString => if String.eqb cur "" then [] else [cur]
  | String a s' =>
      match skip with
      | S skip => fields_go skip cur s'
      | O =>
          match space_width s with
          | O => fields_go 0 (cur +:+ String a "") s'
          | S more => if String.eqb cur "" then fields_go more "" s' else cur :: fields_go more "" s'
          end
      end
  end.
Definition fields (s : string) : list string := fields_go 0 "" s.

Example fields_spaces :
  fields (" 0  0" +:+ String (ascii_of_nat 194) (String (ascii_of_nat 160) "1" +:+
          String (ascii_of_nat 226) (String (ascii_of_nat 128) (String (ascii_of_nat 131) "* 1 "))))
  = ["0"; "0"; "1"; "*"; "1"].
Proof. vm_compute. reflexivity. Qed.

(** [strconv.Atoi]: an optional sign and at least one decimal digit, in the
    range of [int]. *)
Definition digit_val (a : ascii) : option Z :=
  let n := nat_of_ascii a in
  if Nat.leb 48 n && Nat.leb n 57 then Some (Z.of_nat n - 48)%Z else None.

Fixpoint digits_go (acc : Z) (s : string) : option Z :=
  match s with
  | EmptyString => Some acc
  | String a s' => d ← digit_val a; digits_go (10 * acc + d)%Z s'
  end.

Definition digits (s : string) : option Z :=
  if String.eqb s "" then None else digits_go 0%Z s.

Definition in_int64b (x : Z) : bool := ((- 2 ^ 63 <=? x) && (x <? 2 ^ 63))%Z.

Definition atoi (s : string) : option Z :=
  let v := match s with
           | String "-" s' => Z.opp <$> digits s'
           | String "+" s' => digits s'
           | _ => digits s
           end in
  v ≫= fun x => if in_int64b x then Some x else None.

(** [strconv.Itoa]. *)
Definition itoa (z : Z) : string := pretty z.

(** [hex.EncodeToString]. *)
Definition hex_digit (d : Z) : ascii :=
  ascii_of_nat (Z.to_nat (if d <? 10 then 48 + d else 87 + d)%Z).

Definition hex_encode (b : list Z) : string :=
  foldr (fun x s => String (hex_digit (x / 16)%Z) (String (hex_digit (x mod 16)%Z) s)) EmptyString b.

(** [path.Clean], on the list of segments: empty and "." segments vanish, ".."
    removes the segment before it, and a rooted path has nothing above its
    root. *)
Fixpoint clean_segs (rooted : bool) (stack segs : list string) : list string :=
  match segs with
  | [] => rev stack
  | s :: segs =>
      if String.eqb s "" || String.eqb s "." then clean_segs rooted stack segs
      else if String.eqb s ".." then
        match stack with
        | t :: stack' =>
            if String.eqb t ".." then clean_segs rooted (s :: stack) segs
            else clean_segs rooted stack' segs
        | [] => if rooted then clean_segs rooted [] segs
                else clean_segs rooted [s] segs
        end
      else clean_segs rooted (s :: stack) segs
  end.

Definition path_clean (p : string) : string :=
  let rooted := has_prefix p "/" in
  let body := join "/" (clean_segs rooted [] (split_byte "/" p)) in
  if rooted then "/" +:+ body else if String.eqb body "" then "." else body.

(** ** Laws *)

Lemma sapp_nil_r s : s +:+ "" = s.
Proof. induction s; simpl; congruence. Qed.

Lemma sapp_assoc a b c : a +:+ (b +:+ c) = (a +:+ b) +:+ c.
Proof. induction a; simpl; congruence. Qed.

Lemma sapp_nil_inv a b : a +:+ b = "" -> a = "" /\ b = "".
Proof. destruct a; simpl; [done|discriminate]. Qed.

Lemma sapp_inj_l a b c : a +:+ b = a +:+ c -> b = c.
Proof. induction a; simpl; [done|]. intros [= H]. auto. Qed.

Lemma sapp_length a b : String.length (a +:+ b) = String.length a + String.length b.
Proof. induction a; simpl; congruence. Qed.

Lemma sapp_inj_r a b c : a +:+ c = b +:+ c -> a = b.
Proof.
  intros H. assert (String.length a = String.length b) as Hl.
  { apply (f_equal String.length) in H. rewrite !sapp_length in H. lia. }
  revert b H Hl. induction a as [|x a IH]; intros [|y b] H Hl; simplify_eq/=; [done|].
  f_equal. by apply IH.
Qed.

#[export] Hint Rewrite sapp_nil_r : gohints.

Lemma snoc_case s : s = "" \/ exists s' a, s = s' +:+ String a "".
Proof.
  induction s as [|a s [->|(s' & b & ->)]]; [by left|right..].
  - by exists "", a.
  - by exists (String a s'), b.
Qed.

Lemma snoc_ind (P : string -> Prop) :
  P "" -> (forall s a, P s -> P (s +:+ String a "")) -> forall s, P s.
Proof.
  intros H0 HS s. remember (String.length s) as n eqn:Hn. revert s Hn.
  induction n as [n IH] using lt_wf_ind. intros s ->.
  destruct (snoc_case s) as [->|(s' & a & ->)]; [done|].
  apply HS. eapply IH; [|done]. rewrite sapp_length. simpl. lia.
Qed.

Lemma snoc_inj u v a b : u +:+ String a "" = v +:+ String b "" -> u = v /\ a = b.
Proof.
  revert v. induction u as [|x u IH]; intros [|y v] H; simpl in H.
  - by injection H.
  - injection H as _ H. by destruct v.
  - injection H as _ H. by destruct u.
  - injection H as -> H. by destruct (IH _ H) as [-> ->].
Qed.

(** The end of a concatenation lies in its second half when that is long
    enough. *)
Lemma sapp_suffix_long u v r w :
  u +:+ v = r +:+ w -> String.length w <= String.length v -> exists v', v = v' +:+ w.
Proof.
  revert r. induction u as [|a u IH]; intros r H Hl; simpl in H; [by exists r|].
  destruct r as [|b r]; simpl in H; [|simplify_eq; by eapply IH].
  subst w. simpl in Hl. rewrite sapp_length in Hl. lia.
Qed.

Lemma cut_prefix_spec p s r : cut_prefix p s = Some r <-> s = p +:+ r.
Proof.
  revert s. induction p as [|a p IH]; intros s; simpl; [naive_solver|].
  destruct s as [|b s]; [naive_solver|].
  destruct (Ascii.eqb_spec a b) as [->|Hne]; [rewrite IH|]; naive_solver.
Qed.

Lemma has_prefix_iff s p : has_prefix s p = true <-> exists r, s = p +:+ r.
Proof.
  unfold has_prefix. setoid_rewrite <- cut_prefix_spec.
  destruct (cut_prefix p s); naive_solver.
Qed.

Lemma trim_prefix_app p r : trim_prefix (p +:+ r) p = r.
Proof. unfold trim_prefix. by rewrite (proj2 (cut_prefix_spec p (p +:+ r) r) eq_refl). Qed.

Lemma trim_prefix_none s p : has_prefix s p = false -> trim_prefix s p = s.
Proof. unfold has_prefix, trim_prefix. by destruct (cut_prefix p s). Qed.

Lemma cut_suffix_spec suf s r : cut_suffix suf s = Some r <-> s = r +:+ suf.
Proof.
  revert r. induction s as [|a s IH]; intros r; simpl.
  - destruct (String.eqb_spec "" suf) as [<-|Hne].
    + rewrite sapp_nil_r. naive_solver.
    + split; [done|]. intros H. symmetry in H. apply sapp_nil_inv in H as [-> ->]. done.
  - destruct (String.eqb_spec (String a s) suf) as [<-|Hne].
    + split; [by intros [= <-]|]. intros H. f_equal. symmetry.
      by apply (sapp_inj_r r "" (String a s)).
    + rewrite fmap_Some. setoid_rewrite IH. split.
      * by intros (x & -> & ->).
      * destruct r as [|b r]; simpl; intros H; [done|]. injection H as -> ->. by exists r.
Qed.

Lemma has_suffix_iff s suf : has_suffix s suf = true <-> exists r, s = r +:+ suf.
Proof.
  unfold has_suffix. setoid_rewrite <- cut_suffix_spec.
  destruct (cut_suffix suf s); naive_solver.
Qed.

Lemma trim_suffix_app r suf : trim_suffix (r +:+ suf) suf = r.
Proof. unfold trim_suffix. by rewrite (proj2 (cut_suffix_spec suf (r +:+ suf) r) eq_refl). Qed.

Lemma has_byte_app c a b : has_byte c (a +:+ b) = has_byte c a || has_byte c b.
Proof. induction a; simpl; [done|]. rewrite IHa. by rewrite orb_assoc. Qed.

Lemma cut_byte_spec c s l r :
  cut_byte c s = Some (l, r) <-> s = l +:+ String c r /\ has_byte c l = false.
Proof.
  revert l r. induction s as [|a s IH]; intros l r; simpl.
  - split; [done|]. intros [H _]. by destruct l.
  - destruct (Ascii.eqb_spec a c) as [->|Hne].
    + split; [by intros [= <- <-]|]. intros [H Hb]. destruct l as [|x l]; simplify_eq/=; [done|].
      by rewrite Ascii.eqb_refl in Hb.
    + rewrite fmap_Some. split.
      * intros ([l' r'] & H & [= -> ->]). apply IH in H as [-> Hb]. simpl.
        split; [done|]. by rewrite (proj2 (Ascii.eqb_neq a c) Hne).
      * intros [H Hb]. destruct l as [|x l]; simplify_eq/=.
        apply orb_false_iff in Hb as [_ Hb]. exists (l, r). split; [|done]. by apply IH.
Qed.

Lemma cut_byte_none c s : cut_byte c s = None <-> has_byte c s = false.
Proof.
  induction s as [|a s IH]; simpl; [done|].
  destruct (Ascii.eqb a c); [done|]. rewrite fmap_None. done.
Qed.

(** A separator byte makes the concatenation of two keys injective as long as
    the first key does not contain the byte. *)
Lemma sep_inj c a b a' b' :
  has_byte c a = false -> has_byte c a' = false ->
  a +:+ String c b = a' +:+ String c b' -> a = a' /\ b = b'.
Proof.
  intros Ha Ha' H.
  assert (cut_byte c (a +:+ String c b) = Some (a, b)) as H1 by by apply cut_byte_spec.
  assert (cut_byte c (a' +:+ String c b') = Some (a', b')) as H2 by by apply cut_byte_spec.
  rewrite H in H1. by simplify_eq.
Qed.

Lemma split_byte_ne c s : split_byte c s <> [].
Proof.
  destruct s as [|a s]; simpl; [done|].
  destruct (Ascii.eqb a c); [done|]. by destruct (split_byte c s).
Qed.

Lemma split_byte_no_sep c s : Forall (fun x => has_byte c x = false) (split_byte c s).
Proof.
  induction s as [|a s IH]; simpl; [by repeat constructor|].
  destruct (Ascii.eqb a c) eqn:E; [by constructor|].
  destruct (split_byte c s); inversion IH; subst; repeat constructor; simpl;
    rewrite ?E; done.
Qed.

Lemma join_cons sep x l : l <> [] -> join sep (x :: l) = x +:+ sep +:+ join sep l.
Proof. by destruct l. Qed.

(** [strings.Join] undoes [strings.Split]. *)
Lemma join_split c s : join (String c "") (split_byte c s) = s.
Proof.
  induction s as [|a s IH]; [done|]. simpl.
  pose proof (split_byte_ne c s) as Hne.
  destruct (Ascii.eqb_spec a c) as [->|Hac].
  - rewrite join_cons by done. rewrite IH. done.
  - destruct (split_byte c s) as [|x l]; [done|].
    destruct l; simpl in *; by rewrite IH.
Qed.

Lemma split_byte_app c a b :
  has_byte c a = false -> split_byte c (a +:+ String c b) = a :: split_byte c b.
Proof.
  induction a as [|x a IH]; simpl; intros H; [by rewrite Ascii.eqb_refl|].
  apply orb_false_iff in H as [-> H]. by rewrite IH.
Qed.

Lemma split_byte_single c a : has_byte c a = false -> split_byte c a = [a].
Proof.
  induction a as [|x a IH]; simpl; [done|]. intros H.
  apply orb_false_iff in H as [-> H]. by rewrite IH.
Qed.

Lemma split_join c l :
  l <> [] -> Forall (fun x => has_byte c x = false) l ->
  split_byte c (join (String c "") l) = l.
Proof.
  intros Hne Hl. induction Hl as [|x l Hx Hl IH]; [done|].
  destruct l as [|y l]; [by apply split_byte_single|].
  rewrite join_cons by done.
  change (x +:+ String c "" +:+ join (String c "") (y :: l))
    with (x +:+ String c (join (String c "") (y :: l))).
  rewrite split_byte_app by done. by rewrite IH.
Qed.

Lemma split_byte_glue c a b : split_byte c (a +:+ String c b) = split_byte c a ++ split_byte c b.
Proof.
  induction a as [|x a IH]; simpl; [by rewrite Ascii.eqb_refl|].
  destruct (Ascii.eqb x c); rewrite IH; [done|].
  pose proof (split_byte_ne c a). by destruct (split_byte c a).
Qed.

Lemma join_app sep l1 l2 : l1 <> [] -> l2 <> [] -> join sep (l1 ++ l2) = join sep l1 +:+ sep +:+ join sep l2.
Proof.
  intros H1 H2. induction l1 as [|x l1 IH]; [done|]. destruct l1 as [|y l1].
  - simpl. by destruct l2.
  - change ((x :: y :: l1) ++ l2) with (x :: ((y :: l1) ++ l2)).
    rewrite !join_cons by (by destruct l1). rewrite IH by done. by rewrite !sapp_assoc.
Qed.

(** A rooted path keeps no "..", ".", or empty segment. *)
Definition plain_seg (s : string) : Prop := s <> "" /\ s <> "." /\ s <> "..".

Lemma clean_segs_plain stack segs :
  Forall plain_seg stack -> Forall plain_seg (clean_segs true stack segs).
Proof.
  revert stack. induction segs as [|s segs IH]; intros stack Hs; simpl.
  - by apply Forall_rev.
  - destruct (String.eqb_spec s ""), (String.eqb_spec s "."); simpl; try by apply IH.
    destruct (String.eqb_spec s "..").
    + destruct Hs as [|t stack Ht Hs]; [by apply IH|].
      destruct Ht as (_ & _ & Ht). destruct (String.eqb_spec t ".."); [done|]. by apply IH.
    + apply IH. by constructor.
Qed.

Lemma clean_segs_id rooted stack segs :
  Forall plain_seg segs -> clean_segs rooted stack segs = rev stack ++ segs.
Proof.
  intros H. revert stack. induction H as [|s segs (H1 & H2 & H3) Hs IH]; intros stack; simpl.
  - by rewrite app_nil_r.
  - destruct (String.eqb_spec s ""), (String.eqb_spec s "."), (String.eqb_spec s ".."); try done.
    simpl. rewrite IH. simpl. by rewrite <- app_assoc.
Qed.

Lemma clean_segs_subset rooted stack segs s :
  s ∈ clean_segs rooted stack segs -> s ∈ stack \/ s ∈ segs.
Proof.
  revert stack. induction segs as [|x segs IH]; intros stack; simpl.
  - rewrite list_elem_of_In, <- in_rev, <- list_elem_of_In. auto.
  - intros H.
    destruct (_ || _); [apply IH in H; set_solver|].
    destruct (String.eqb x ".."); [|apply IH in H; set_solver].
    destruct stack as [|t stack]; [destruct rooted; apply IH in H; set_solver|].
    destruct (String.eqb t ".."); apply IH in H; set_solver.
Qed.

Lemma trim_right_snoc f p a :
  trim_right f (p +:+ String a "") = if f a then trim_right f p else p +:+ String a "".
Proof.
  induction p as [|b p IH]; simpl; [done|]. rewrite IH.
  destruct (f a); [done|]. by destruct p.
Qed.

Lemma split_byte_snoc c q : split_byte c (q +:+ String c "") = split_byte c q ++ [""].
Proof.
  induction q as [|a q IH]; simpl; [by rewrite Ascii.eqb_refl|]. rewrite IH.
  destruct (Ascii.eqb a c); [done|]. pose proof (split_byte_ne c q). by destruct (split_byte c q).
Qed.

Lemma contains_byte_spec c s : contains (String c "") s = has_byte c s.
Proof.
  induction s as [|a s IH]; [done|]. simpl. rewrite IH. unfold has_prefix. simpl.
  rewrite (Ascii.eqb_sym c a). by destruct (Ascii.eqb a c).
Qed.

Lemma string_map_app f a b : string_map f (a +:+ b) = string_map f a +:+ string_map f b.
Proof. induction a as [|c a IH]; simpl; [done|]. by rewrite IH. Qed.

Lemma lower_not_underscore a : Ascii.eqb (lower_ascii a) "_" = Ascii.eqb a "_".
Proof. by destruct a as [[] [] [] [] [] [] [] []]. Qed.

Lemma has_byte_underscore_lower s : has_byte "_" (to_lower s) = has_byte "_" s.
Proof.
  induction s as [|a s IH]; [done|]. simpl. fold to_lower. by rewrite lower_not_underscore, IH.
Qed.

Lemma hex_digit_not_slash d : (0 <= d < 16)%Z -> Ascii.eqb (hex_digit d) "/" = false.
Proof.
  intros Hd. assert (exists n, (n < 16)%nat /\ d = Z.of_nat n) as (n & Hn & ->) by (exists (Z.to_nat d); lia).
  do 16 (destruct n as [|n]; [reflexivity|]). lia.
Qed.

Lemma hex_encode_no_slash b : Forall (fun x => 0 <= x < 256)%Z b -> has_byte "/" (hex_encode b) = false.
Proof.
  induction 1 as [|x b Hx _ IH]; [done|]. unfold hex_encode in *. simpl. rewrite IH.
  rewrite !hex_digit_not_slash; [done| |].
  - apply Z.mod_pos_bound. lia.
  - split; [apply Z.div_pos; lia|apply Z.div_lt_upper_bound; lia].
Qed.

Lemma hex_encode_ne b : b <> [] -> hex_encode b <> "".
Proof. by destruct b. Qed.
