(* ===== verification/PathMatch.v ===== *)
(** * pathmatch/pathmatch.go: path globs

    The compiler of the glob patterns a plugin declares, the matcher that runs
    on every request, and pattern sets.  The reference semantics is on the
    list of non-empty path segments; the matcher walks the string. *)

From S2P Require Import Prelude GoStrings.
From Stdlib Require Import Ascii.

(** The outcome of [Compile] on a rejected pattern. *)
Inductive compile_error :=
| EmptyPattern
| NoLeadingSlash
| DoubleStarInside
| PartialWildcard.

Inductive kind := kindAll | kindExact | kindPrefix | kindSegments.

#[export] Instance kind_eq_dec : EqDecision kind.
Proof. solve_decision. Defined.

Record Pattern := mkPattern {
  raw : string;
  pkind : kind;
  literal : string;
  segs : list string;
  trailingAll : bool
}.

Notation slash := "/"%char.

Definition splitSegments (path : string) : list string :=
  let trimmed := trim_byte slash path in
  if String.eqb trimmed "" then [] else split_byte slash trimmed.

Definition Compile (pattern : string) : result compile_error Pattern :=
  reject? String.eqb pattern "" with EmptyPattern ;;
  if String.eqb pattern "**" || String.eqb pattern "/**" then
    Ok (mkPattern pattern kindAll "" [] false)
  else
  reject? negb (has_prefix pattern "/") with NoLeadingSlash ;;
  let trailingAll := has_suffix pattern "/**" in
  let body := if trailingAll then trim_suffix pattern "/**" else pattern in
  reject? contains "**" body with DoubleStarInside ;;
  let segs := splitSegments body in
  reject? existsb (fun s => negb (String.eqb s "*") && contains "*" s) segs
    with PartialWildcard ;;
  let hasWildcard := existsb (String.eqb "*") segs in
  match hasWildcard, trailingAll with
  | false, true => Ok (mkPattern pattern kindPrefix body [] false)
  | false, false => Ok (mkPattern pattern kindExact body [] false)
  | true, _ => Ok (mkPattern pattern kindSegments "" segs trailingAll)
  end.

(** [None] stands for the panic of [MustCompile]. *)
Definition MustCompile (pattern : string) : option Pattern :=
  match Compile pattern with Ok p => Some p | Err _ => None end.

Definition nextSegment (path : string) : string * string :=
  match trim_left (fun a => Ascii.eqb a slash) path with
  | EmptyString => ("", "")
  | p => match cut_byte slash p with
         | Some (seg, rest) => (seg, String slash rest)
         | None => (p, "")
         end
  end.

Fixpoint matchSegments_go (want : list string) (trailingAll : bool) (rest : string) : bool :=
  match want with
  | [] => if trailingAll then true else String.eqb rest "" || String.eqb rest "/"
  | w :: want =>
      let '(got, rest) := nextSegment rest in
      if String.eqb got "" then false
      else if negb (String.eqb w "*") && negb (String.eqb w got) then false
      else matchSegments_go want trailingAll rest
  end.

Definition matchSegments (p : Pattern) (path : string) : bool :=
  matchSegments_go (segs p) (trailingAll p) path.

Definition Match (p : Pattern) (path : string) : bool :=
  match pkind p with
  | kindAll => true
  | kindExact => String.eqb path (literal p)
  | kindPrefix =>
      match cut_prefix (literal p) path with
      | None => false
      | Some rest =>
          String.eqb rest "" || String.eqb rest "/" ||
          match rest with String a _ => Ascii.eqb a slash | EmptyString => false end
      end
  | kindSegments => matchSegments p path
  end.

(** A set of patterns. *)
Record PSet := mkPSet { patterns : list Pattern; matchAll : bool }.

Definition CompileSet (ps : list string) : result compile_error PSet :=
  res_fold (fun s raw =>
      let? p := Compile raw in
      Ok (mkPSet (patterns s ++ [p])
                 (if decide (pkind p = kindAll) then true else matchAll s)))
    (mkPSet [] false) ps.

Definition SetMatch (s : PSet) (path : string) : bool :=
  if matchAll s then true else existsb (fun p => Match p path) (patterns s).

Definition SetLen (s : PSet) : nat := length (patterns s).

(** ** Reference semantics *)

(** The non-empty segments of a path. *)
Definition path_segs (path : string) : list string :=
  List.filter (fun s => negb (String.eqb s "")) (split_byte slash path).

Definition seg_match (want got : string) : Prop := want = "*" \/ want = got.

(** [covers ws all path]: the segments of [path] are matched one for one by
    [ws], and what follows is anything at all when [all] is set, otherwise at
    most one trailing slash. *)
Definition covers (ws : list string) (all : bool) (path : string) : Prop :=
  exists pre post, path_segs path = pre ++ post /\ Forall2 seg_match ws pre /\
    (all = true \/ (post = [] /\ has_suffix path "//" = false)).

Definition has_wildcard (body : string) : Prop := "*" ∈ splitSegments body.

(** What a pattern text means, independently of how it is compiled. *)
Definition glob_covers (pat path : string) : Prop :=
  pat = "**" \/ pat = "/**" \/
  (pat <> "/**" /\ exists body, pat = body +:+ "/**" /\
     ((has_wildcard body /\ covers (splitSegments body) true path) \/
      (~ has_wildcard body /\ (path = body \/ exists r, path = body +:+ "/" +:+ r)))) \/
  (pat <> "**" /\ has_suffix pat "/**" = false /\
     ((has_wildcard pat /\ covers (splitSegments pat) false path) \/
      (~ has_wildcard pat /\ path = pat))).

(** The patterns that are accepted: "**", or a rooted path whose segments are
    free of "*" or are exactly "*", with "**" allowed as the last one. *)
Definition good_seg (s : string) : Prop := s = "*" \/ has_byte "*" s = false.
Definition valid_pattern (pat : string) : Prop :=
  pat = "**" \/
  (has_prefix pat "/" = true /\
   Forall good_seg (split_byte slash (trim_suffix pat "/**"))).

(** ** Walking a path segment by segment *)

Lemma path_segs_slash s : path_segs (String slash s) = path_segs s.
Proof. done. Qed.

Lemma path_segs_trim_left s :
  path_segs (trim_left (fun a => Ascii.eqb a slash) s) = path_segs s.
Proof.
  induction s as [|a s IH]; [done|]. simpl.
  destruct (Ascii.eqb_spec a slash) as [->|]; [|done]. by rewrite IH.
Qed.

Lemma trim_left_head f s a r : trim_left f s = String a r -> f a = false.
Proof. induction s as [|b s IH]; simpl; [done|]. destruct (f b) eqn:E; naive_solver. Qed.

Lemma trim_left_suffix f s : exists l, s = l +:+ trim_left f s.
Proof.
  induction s as [|a s [l IH]]; simpl; [by exists ""|].
  destruct (f a); [|by exists ""]. exists (String a l). simpl. by f_equal.
Qed.

(** One step of the walk: either the path has no segment left, or the first
    segment is returned, free of slashes, with the unread remainder. *)
Lemma nextSegment_spec path :
  (nextSegment path = ("", "") /\ path_segs path = []) \/
  (exists g rest l, nextSegment path = (g, rest) /\ g <> "" /\ has_byte slash g = false /\
     path_segs path = g :: path_segs rest /\ path = l +:+ g +:+ rest /\
     (rest = "" \/ exists r, rest = String slash r)).
Proof.
  unfold nextSegment. rewrite <- (path_segs_trim_left path).
  destruct (trim_left_suffix (fun a => Ascii.eqb a slash) path) as [l Hl].
  destruct (trim_left _ path) as [|a p] eqn:E; [by left|]. right.
  assert (Ascii.eqb a slash = false) as Ha by exact (trim_left_head _ _ _ _ E).
  destruct (cut_byte slash (String a p)) as [[seg rest]|] eqn:Ec.
  - pose proof (proj1 (cut_byte_spec _ _ _ _) Ec) as [Hp Hb]. exists seg, (String slash rest), l.
    assert (seg <> "") as Hne by (intros ->; simpl in Hp; simplify_eq; by rewrite Ascii.eqb_refl in Ha).
    split_and!; [done|done|done| |by rewrite <- Hp|by eauto].
    rewrite path_segs_slash, Hp. unfold path_segs. rewrite split_byte_app by done.
    simpl. by destruct (String.eqb_spec seg "").
  - apply cut_byte_none in Ec. exists (String a p), "", l. rewrite sapp_nil_r.
    split_and!; [done|done|done| |done|by left].
    unfold path_segs. by rewrite split_byte_single.
Qed.

(** The remainder once all segments are consumed is a run of slashes. *)
Lemma no_segs_slashes s : path_segs s = [] -> s = "" \/ s = "/" \/ exists r, s = r +:+ "//".
Proof.
  induction s as [|a s IH]; [by left|]. unfold path_segs. simpl.
  destruct (Ascii.eqb_spec a slash) as [->|Hne].
  - simpl. intros H. destruct (IH H) as [->|[->|[r ->]]]; [by auto|by right; right; exists ""|].
    right; right. by exists (String slash r).
  - destruct (split_byte slash s); simpl; done.
Qed.

Lemma slash_slash_suffix l g rest :
  g <> "" -> has_byte slash g = false ->
  has_suffix (l +:+ g +:+ rest) "//" = true -> has_suffix rest "//" = true.
Proof.
  intros Hg Hb. rewrite !has_suffix_iff. intros [r Hr].
  destruct (snoc_case g) as [->|(g' & a & ->)]; [done|].
  rewrite has_byte_app in Hb. apply orb_false_iff in Hb as [_ Hb]. simpl in Hb.
  rewrite orb_false_r in Hb.
  destruct rest as [|b [|c rest]].
  - rewrite sapp_nil_r, sapp_assoc in Hr. change "//" with ("/" +:+ "/") in Hr.
    rewrite (sapp_assoc r) in Hr. apply snoc_inj in Hr as [_ ->]. by rewrite Ascii.eqb_refl in Hb.
  - rewrite !sapp_assoc in Hr. change "//" with ("/" +:+ "/") in Hr.
    rewrite (sapp_assoc r) in Hr. apply snoc_inj in Hr as [Hr _]. apply snoc_inj in Hr as [_ ->].
    by rewrite Ascii.eqb_refl in Hb.
  - rewrite sapp_assoc in Hr. apply sapp_suffix_long in Hr as [v' Hv]; [by exists v'|]. simpl. lia.
Qed.

Lemma slash_slash_suffix_l x rest :
  has_suffix rest "//" = true -> has_suffix (x +:+ rest) "//" = true.
Proof. rewrite !has_suffix_iff. intros [r ->]. exists (x +:+ r). by rewrite sapp_assoc. Qed.

Lemma rest_end_ok rest :
  String.eqb rest "" || String.eqb rest "/" = true <->
  path_segs rest = [] /\ has_suffix rest "//" = false.
Proof.
  split.
  - destruct (String.eqb_spec rest "") as [->|]; [done|].
    destruct (String.eqb_spec rest "/") as [->|]; done.
  - intros [Hp Hs]. destruct (no_segs_slashes rest Hp) as [->|[->|[r ->]]]; [done|done|].
    rewrite (proj2 (has_suffix_iff _ _)) in Hs; [done|]. by exists r.
Qed.

(** Reading one segment off the path leaves the rest of the pattern to cover
    the rest of the path. *)
Lemma covers_cons w ws all path l g rest :
  path_segs path = g :: path_segs rest -> path = l +:+ g +:+ rest ->
  g <> "" -> has_byte slash g = false ->
  covers (w :: ws) all path <-> seg_match w g /\ covers ws all rest.
Proof.
  intros Hp Hpath Hg Hb. unfold covers. rewrite Hp. split.
  - intros (pre & post & Heq & Hf & Hor). inversion Hf as [|? x ? pre' Hx Hf']; subst.
    simplify_eq/=. split; [done|]. exists pre', post. split_and!; [done..|].
    destruct Hor as [->|[-> Hs]]; [by left|right]. split; [done|].
    apply not_true_iff_false. intros H. apply not_true_iff_false in Hs. apply Hs.
    rewrite sapp_assoc. by apply slash_slash_suffix_l.
  - intros (Hw & pre & post & Heq & Hf & Hor). exists (g :: pre), post. subst path.
    split_and!; [by rewrite Heq|by constructor|].
    destruct Hor as [->|[-> Hs]]; [by left|right]. split; [done|].
    apply not_true_iff_false. intros H. apply not_true_iff_false in Hs. apply Hs.
    by apply slash_slash_suffix in H.
Qed.

Lemma covers_nil all rest :
  covers [] all rest <-> all = true \/ String.eqb rest "" || String.eqb rest "/" = true.
Proof.
  rewrite rest_end_ok. unfold covers. split.
  - intros (pre & post & Heq & Hf & [?|[-> Hs]]); [by left|]. inversion Hf; subst.
    right. by rewrite Heq.
  - intros [->|[H1 H2]].
    + exists [], (path_segs rest). split_and!; [done|constructor|by left].
    + exists [], []. rewrite H1. split_and!; [done|constructor|by right].
Qed.

Lemma matchSegments_go_spec ws all path :
  matchSegments_go ws all path = true <-> covers ws all path.
Proof.
  revert path. induction ws as [|w ws IH]; intros path; simpl.
  { rewrite covers_nil. destruct all; naive_solver. }
  destruct (nextSegment_spec path) as [[-> Hp]|(g & rest & l & -> & Hg & Hb & Hp & Hpath & _)].
  - simpl. split; [done|]. intros (pre & post & Heq & Hf & _). rewrite Hp in Heq.
    symmetry in Heq. apply app_nil in Heq as [-> ->]. inversion Hf.
  - rewrite (covers_cons w ws all path l g rest) by done. rewrite <- IH. unfold seg_match.
    destruct (String.eqb_spec g ""); [done|].
    destruct (String.eqb_spec w "*"), (String.eqb_spec w g); simpl; naive_solver.
Qed.

Lemma match_prefix_spec lit path :
  Match (mkPattern "" kindPrefix lit [] false) path = true <->
  path = lit \/ exists r, path = lit +:+ "/" +:+ r.
Proof.
  unfold Match. simpl. destruct (cut_prefix lit path) as [rest|] eqn:E.
  - apply cut_prefix_spec in E as ->. destruct rest as [|a rest]; simpl.
    + rewrite sapp_nil_r. split; [by left|done].
    + rewrite !orb_true_iff, String.eqb_eq, Ascii.eqb_eq. split.
      * intros [H| ->]; [simplify_eq; by right; exists ""|by right; exists rest].
      * intros [H|[r H]].
        -- rewrite <- (sapp_nil_r lit) in H at 2. by apply sapp_inj_l in H.
        -- apply sapp_inj_l in H. simplify_eq. by right.
  - split; [done|]. intros H. exfalso.
    assert (exists r, path = lit +:+ r) as [r Hr].
    { destruct H as [->|[r ->]]; [exists ""; by rewrite sapp_nil_r|by eexists]. }
    apply cut_prefix_spec in Hr. congruence.
Qed.

(** ** What [Compile] accepts *)

Lemma path_segs_trim_right s :
  path_segs (trim_right (fun a => Ascii.eqb a slash) s) = path_segs s.
Proof.
  induction s as [|s a IH] using snoc_ind; [done|]. rewrite trim_right_snoc.
  destruct (Ascii.eqb_spec a slash) as [->|]; [|done]. rewrite IH.
  unfold path_segs. rewrite split_byte_snoc, List.filter_app. simpl. by rewrite app_nil_r.
Qed.

(** Trimming slashes only removes empty segments. *)
Lemma splitSegments_elem s p : s <> "" -> s ∈ splitSegments p <-> s ∈ split_byte slash p.
Proof.
  intros Hs.
  assert (forall q, s ∈ split_byte slash q <-> s ∈ path_segs q) as Hq.
  { intros q. unfold path_segs. rewrite !list_elem_of_In, List.filter_In.
    destruct (String.eqb_spec s ""); naive_solver. }
  rewrite (Hq p), <- (path_segs_trim_left p), <- path_segs_trim_right, <- Hq.
  unfold splitSegments, trim_byte, trim.
  destruct (String.eqb_spec (trim_right (fun a => Ascii.eqb a slash)
    (trim_left (fun a => Ascii.eqb a slash) p)) "") as [->|]; set_solver.
Qed.

(** A doubled star lies inside one segment. *)
Lemma contains_in_segment s :
  contains "**" s = true -> exists x, x ∈ split_byte slash s /\ contains "**" x = true.
Proof.
  induction s as [|a s IH]; [done|]. simpl.
  assert (forall x l, split_byte slash s = x :: l -> has_prefix s "*" = true -> has_prefix x "*" = true)
    as Hhd.
  { destruct s as [|b s]; [done|]. intros x l Hx Hp. unfold has_prefix in *. simpl in Hx, Hp.
    destruct (Ascii.eqb_spec "*" b) as [<-|]; [|done]. simpl in Hx.
    destruct (split_byte slash s); simplify_eq; done. }
  pose proof (split_byte_ne slash s) as Hne.
  destruct (split_byte slash s) as [|x l] eqn:E; [done|]. specialize (Hhd x l eq_refl).
  rewrite orb_true_iff. intros [Hp|Hc].
  - unfold has_prefix in Hp. simpl in Hp. destruct (Ascii.eqb_spec "*" a) as [<-|]; [|done].
    simpl. exists (String "*" x). split; [set_solver|]. simpl.
    unfold has_prefix at 1. simpl. unfold has_prefix in Hhd. simpl in Hhd.
    rewrite orb_true_iff. left. by apply Hhd.
  - destruct (IH Hc) as (y & Hy & Hcy). apply elem_of_cons in Hy as [->|Hy].
    + destruct (Ascii.eqb a slash); [by exists x; set_solver|].
      exists (String a x). split; [set_solver|]. simpl. by rewrite Hcy, orb_true_r.
    + exists y. split; [|done]. destruct (Ascii.eqb a slash); set_solver.
Qed.

Lemma contains_two_star x : contains "**" x = true -> x <> "*" /\ has_byte "*" x = true.
Proof.
  intros H. split; [by intros ->|]. induction x as [|a x IH]; [done|]. simpl in *.
  apply orb_true_iff in H as [H|H]; [|by rewrite IH, orb_true_r].
  unfold has_prefix in H. simpl in H. destruct (Ascii.eqb_spec "*" a) as [<-|]; done.
Qed.

Lemma body_checks_iff body :
  contains "**" body = false /\
  existsb (fun s => negb (String.eqb s "*") && contains "*" s) (splitSegments body) = false <->
  Forall good_seg (split_byte slash body).
Proof.
  rewrite Forall_forall. setoid_rewrite <- list_elem_of_In. unfold good_seg. split.
  - intros [_ H] s Hs. destruct (decide (s = "")) as [->|Hne]; [by right|].
    apply splitSegments_elem in Hs; [|done].
    destruct (decide (s = "*")) as [|Hstar]; [by left|right].
    apply not_true_iff_false. intros Hb. apply not_true_iff_false in H. apply H, existsb_elem.
    exists s. split; [done|]. rewrite contains_byte_spec, Hb. by destruct (String.eqb_spec s "*").
  - intros H. split; apply not_true_iff_false; intros Hc.
    + apply contains_in_segment in Hc as (x & Hx & Hc). apply contains_two_star in Hc as [? Hb].
      destruct (H x Hx); congruence.
    + apply existsb_elem in Hc as (s & Hs & Hc). apply andb_true_iff in Hc as [H1 H2].
      rewrite contains_byte_spec in H2.
      destruct (decide (s = "")) as [->|Hne]; [done|].
      apply splitSegments_elem in Hs; [|done]. destruct (String.eqb_spec s "*"); [done|].
      destruct (H s Hs); congruence.
Qed.

(** The part of [Compile] after the special cases, on a rooted pattern. *)
Lemma trailing_body pat :
  (if has_suffix pat "/**" then trim_suffix pat "/**" else pat) = trim_suffix pat "/**".
Proof. unfold has_suffix, trim_suffix. by destruct (cut_suffix "/**" pat). Qed.

Lemma has_wildcard_spec body : existsb (String.eqb "*") (splitSegments body) = true <-> has_wildcard body.
Proof.
  unfold has_wildcard. rewrite existsb_elem. split.
  - intros (a & Ha & He). apply String.eqb_eq in He as <-. done.
  - intros H. exists "*". by rewrite String.eqb_refl.
Qed.

Lemma has_wildcard_spec_false body :
  existsb (String.eqb "*") (splitSegments body) = false <-> ~ has_wildcard body.
Proof. rewrite <- has_wildcard_spec. by destruct (existsb _ _). Qed.

(** [Compile] accepts exactly the documented patterns: "**", or a rooted
    path whose segments are literal (no "*") or exactly "*", where "**" may
    stand only as the last segment. *)
Lemma Compile_accepts pat :
  is_ok (Compile pat) = true <-> valid_pattern pat.
Proof.
  unfold Compile, valid_pattern.
  destruct (String.eqb_spec pat ""); [subst; naive_solver|].
  destruct (String.eqb_spec pat "**"); [naive_solver|].
  destruct (String.eqb_spec pat "/**") as [->|]; simpl.
  { split; [|done]. intros _. right. split; [done|]. vm_compute. constructor; [by right|constructor]. }
  destruct (has_prefix pat "/"); simpl; [|naive_solver].
  rewrite trailing_body, <- body_checks_iff.
  destruct (contains "**" _); [naive_solver|].
  destruct (existsb (fun s => _ && _) _); [naive_solver|].
  destruct (existsb (String.eqb "*") _), (has_suffix pat "/**"); naive_solver.
Qed.

(** C32. For a pattern that compiles, [Match] decides the meaning of the pattern
    text: "/a/**" covers "/a" and everything below it but no sibling such as
    "/ab", "*" stands for exactly one segment, and a pattern without wildcards
    matches only itself. *)
Theorem Match_spec pat p path :
  Compile pat = Ok p -> Match p path = true <-> glob_covers pat path.
Proof.
  unfold Compile. intros H. peel H.
  destruct (String.eqb_spec pat "**") as [->|Hn1].
  { injection H as <-. split; [by left|done]. }
  destruct (String.eqb_spec pat "/**") as [->|Hn2].
  { injection H as <-. split; [by right; left|done]. }
  simpl in H. peel H. unfold glob_covers.
  destruct (has_suffix pat "/**") eqn:Hs.
  - apply has_suffix_iff in Hs as [body ->]. rewrite trim_suffix_app in H. peel_all H.
    assert (forall b, body +:+ "/**" = b +:+ "/**" <-> b = body) as Hb.
    { intros b. split; [|by intros ->]. intros ?%sapp_inj_r. done. }
    destruct (existsb (String.eqb "*") _) eqn:Hw; injection H as <-.
    + apply has_wildcard_spec in Hw. unfold Match. simpl. unfold matchSegments. simpl.
      rewrite matchSegments_go_spec. setoid_rewrite Hb. naive_solver.
    + apply has_wildcard_spec_false in Hw.
      change (Match _ path) with (Match (mkPattern "" kindPrefix body [] false) path).
      rewrite match_prefix_spec. setoid_rewrite Hb. naive_solver.
  - assert (forall b, pat <> b +:+ "/**") as Hb.
    { intros b ->. rewrite (proj2 (has_suffix_iff _ _)) in Hs; [done|]. by exists b. }
    peel_all H. destruct (existsb (String.eqb "*") _) eqn:Hw; injection H as <-.
    + apply has_wildcard_spec in Hw. unfold Match. simpl. unfold matchSegments. simpl.
      rewrite matchSegments_go_spec. naive_solver.
    + apply has_wildcard_spec_false in Hw. unfold Match. simpl. rewrite String.eqb_eq. naive_solver.
Qed.

Lemma Match_spec_witness :
  Match (mkPattern "/api/*/items/**" kindSegments "" ["api"; "*"; "items"] true)
        "/api/42/items/7" = true <->
  glob_covers "/api/*/items/**" "/api/42/items/7".
Proof. apply (Match_spec "/api/*/items/**"). reflexivity. Defined.

Lemma CompileSet_go_spec ps s0 s path :
  res_fold (fun s raw =>
      let? p := Compile raw in
      Ok (mkPSet (patterns s ++ [p])
                 (if decide (pkind p = kindAll) then true else matchAll s))) s0 ps = Ok s ->
  (matchAll s0 = true -> existsb (fun p => Match p path) (patterns s0) = true) ->
  SetMatch s path = existsb (fun p => Match p path) (patterns s) /\
  exists cs, res_map Compile ps = Ok cs /\ patterns s = patterns s0 ++ cs.
Proof.
  revert s0. induction ps as [|raw ps IH]; intros s0 H Hall; simpl in H.
  - injection H as <-. split; [|by exists []; rewrite app_nil_r].
    unfold SetMatch. destruct (matchAll s0); [by rewrite Hall|done].
  - apply res_bind_ok in H as (s1 & H1 & H). apply res_bind_ok in H1 as (p & Hp & [= <-]).
    apply IH in H as [Hm (cs & Hcs & Heq)].
    + split; [done|]. exists (p :: cs). simpl. rewrite Hp. simpl. rewrite Hcs. simpl.
      split; [done|]. rewrite Heq. simpl. by rewrite <- app_assoc.
    + simpl. intros Ht. rewrite existsb_app. simpl. rewrite orb_false_r.
      case_decide as Hk; [|by rewrite Hall].
      unfold Match at 2. rewrite Hk. by rewrite orb_true_r.
Qed.

(** A compiled set matches a path exactly when one of its patterns does:
    the [matchAll] short circuit changes nothing, an empty list matches
    nothing, and compilation keeps every pattern. *)
Lemma SetMatch_spec ps s path :
  CompileSet ps = Ok s ->
  SetMatch s path = true <-> exists pat p, pat ∈ ps /\ Compile pat = Ok p /\ Match p path = true.
Proof.
  intros H. destruct (CompileSet_go_spec ps (mkPSet [] false) s path H) as [-> (cs & Hcs & Hp)]; [done|].
  rewrite Hp. simpl. apply res_map_ok in Hcs. rewrite existsb_elem. clear Hp H.
  induction Hcs as [|pat p ps cs Hc _ IH]; [set_solver|].
  split.
  - intros (a & [->|Ha]%elem_of_cons & Hm); [by exists pat, p; set_solver|].
    destruct (proj1 IH) as (pat' & p' & ? & ? & ?); [by exists a|]. exists pat', p'. set_solver.
  - intros (pat' & p' & [->|Hin]%elem_of_cons & Hc' & Hm).
    + exists p'. assert (p' = p) as -> by congruence. set_solver.
    + destruct (proj2 IH) as (a & ? & ?); [by exists pat', p'|]. exists a. set_solver.
Qed.
