(* ===== verification/StableSort.v ===== *)
(** * sort.SliceStable

    A stable sort driven by a strict "less" function, as the source calls it,
    and the facts the callers need: the result is sorted, is a permutation,
    keeps elements of equal key in their order, and is determined by the
    sub-sequences of equal key alone. *)

From S2P Require Import Prelude.

(** A strict total order given by a boolean test. *)
Class StrictTotal {K : Type} (lt : K -> K -> bool) : Prop := {
  st_irrefl : forall a, lt a a = false;
  st_trans : forall a b c, lt a b = true -> lt b c = true -> lt a c = true;
  st_total : forall a b, lt a b = true \/ a = b \/ lt b a = true
}.

#[export] Instance Z_strict_total : StrictTotal Z.ltb.
Proof.
  split; intros.
  - apply Z.ltb_irrefl.
  - rewrite !Z.ltb_lt in *. lia.
  - rewrite !Z.ltb_lt. lia.
Qed.

Lemma string_ltb_leb s t : String.ltb s t = negb (String.leb t s).
Proof.
  unfold String.ltb, String.leb. rewrite (String.compare_antisym s t).
  by destruct (String.compare t s).
Qed.

#[export] Instance string_strict_total : StrictTotal String.ltb.
Proof.
  split; intros.
  - rewrite string_ltb_leb. pose proof (String.leb_total a a) as [->| ->]; done.
  - rewrite !string_ltb_leb, !negb_true_iff in *.
    destruct (String.leb c a) eqn:Eca; [|done].
    assert (String.leb b c = true) as Hbc by (destruct (String.leb_total b c); congruence).
    assert (String.le b a) as Hba.
    { eapply (transitivity (R := String.le)); apply Is_true_true; [exact Hbc|exact Eca]. }
    apply Is_true_true in Hba. congruence.
  - rewrite !string_ltb_leb. destruct (String.leb b a) eqn:E1; [|by left].
    destruct (String.leb a b) eqn:E2; [|by right; right]. right; left. by apply String.leb_antisym.
Qed.

(** The comparison the source writes: the first components decide unless they
    are equal. *)
Definition lex {K1 K2} `{EqDecision K1} (lt1 : K1 -> K1 -> bool) (lt2 : K2 -> K2 -> bool)
    (a b : K1 * K2) : bool :=
  if decide (a.1 = b.1) then lt2 a.2 b.2 else lt1 a.1 b.1.

#[export] Instance lex_strict_total {K1 K2} `{EqDecision K1} lt1 lt2
    `{!@StrictTotal K1 lt1} `{!@StrictTotal K2 lt2} : StrictTotal (lex lt1 lt2).
Proof.
  unfold lex. split.
  - intros [a1 a2]. simpl. rewrite decide_True by done. apply st_irrefl.
  - intros [a1 a2] [b1 b2] [c1 c2]. simpl. repeat case_decide; subst; simpl;
      eauto using st_trans; try done.
    intros Hx Hy. pose proof (st_trans _ _ _ Hx Hy) as Hz. by rewrite st_irrefl in Hz.
  - intros [a1 a2] [b1 b2]. simpl. destruct (decide (a1 = b1)) as [->|Hne].
    + rewrite decide_True by done. destruct (st_total a2 b2) as [|[->|]]; auto.
    + rewrite decide_False by done. destruct (st_total a1 b1) as [|[|]]; [auto|done|auto].
Qed.

Section stable_sort.
Context {A : Type} (less : A -> A -> bool).

(** [x] stood before every element of [l]. *)
Fixpoint insert_stable (x : A) (l : list A) : list A :=
  match l with
  | [] => [x]
  | y :: l' => if less y x then y :: insert_stable x l' else x :: l
  end.

Definition sort_stable (l : list A) : list A := foldr insert_stable [] l.

Lemma insert_stable_perm x l : insert_stable x l ≡ₚ x :: l.
Proof.
  induction l as [|y l IH]; simpl; [done|]. destruct (less y x); [|done].
  rewrite IH. by constructor.
Qed.

Lemma sort_stable_perm l : sort_stable l ≡ₚ l.
Proof. induction l as [|x l IH]; simpl; [done|]. by rewrite insert_stable_perm, IH. Qed.

(** *** Sorting by a key *)
Context {K : Type} `{EqDecision K} (key : A -> K) (lt : K -> K -> bool) `{!StrictTotal lt}.
Context (less_key : forall a b, less a b = lt (key a) (key b)).

(** [a] may stand before [b]. *)
Definition in_order (a b : A) : Prop := less b a = false.

Lemma in_order_trans a b c : in_order a b -> in_order b c -> in_order a c.
Proof using StrictTotal0 less_key.
  unfold in_order. rewrite !less_key. intros H1 H2.
  destruct (lt (key c) (key a)) eqn:E; [|done].
  destruct (st_total (key b) (key c)) as [H|[H|H]].
  - pose proof (st_trans _ _ _ H E). congruence.
  - rewrite <- H in E. congruence.
  - congruence.
Qed.

Lemma less_in_order a b : less a b = true -> in_order a b.
Proof using StrictTotal0 less_key.
  unfold in_order. rewrite !less_key. intros H. destruct (lt (key b) (key a)) eqn:E; [|done].
  pose proof (st_trans _ _ _ H E) as H'. by rewrite st_irrefl in H'.
Qed.

Lemma insert_stable_sorted x l :
  StronglySorted in_order l -> StronglySorted in_order (insert_stable x l).
Proof using StrictTotal0 less_key.
  induction 1 as [|y l Hl IH Hy]; simpl; [by repeat constructor|].
  destruct (less y x) eqn:E.
  - constructor; [done|]. rewrite insert_stable_perm. constructor; [|done]. by apply less_in_order.
  - constructor; [by constructor|]. constructor; [done|].
    eapply list.Forall_impl; [exact Hy|]. intros z Hz. by apply (in_order_trans _ y).
Qed.

Lemma sort_stable_sorted l : StronglySorted in_order (sort_stable l).
Proof using StrictTotal0 less_key.
  induction l as [|x l IH]; simpl; [constructor|]. by apply insert_stable_sorted.
Qed.

(** The elements of key [k], in their order. *)
Definition with_key (k : K) (l : list A) : list A := filter (fun a => key a = k) l.

Lemma insert_stable_stable k x l : with_key k (insert_stable x l) = with_key k (x :: l).
Proof using StrictTotal0 less_key.
  unfold with_key. induction l as [|y l IH]; simpl; [done|].
  destruct (less y x) eqn:E; [|done]. rewrite !filter_cons, IH, filter_cons.
  repeat case_decide; try done. exfalso.
  rewrite less_key in E. replace (key y) with (key x) in E by congruence.
  by rewrite st_irrefl in E.
Qed.

Lemma sort_stable_stable k l : with_key k (sort_stable l) = with_key k l.
Proof using StrictTotal0 less_key.
  induction l as [|x l IH]; [done|]. simpl. rewrite insert_stable_stable.
  unfold with_key in *. by rewrite !filter_cons, IH.
Qed.

Lemma with_key_elem k a l : a ∈ with_key k l <-> key a = k /\ a ∈ l.
Proof using. unfold with_key. by rewrite list_elem_of_filter. Qed.

Lemma in_order_antisym a b : in_order a b -> in_order b a -> key a = key b.
Proof using StrictTotal0 less_key.
  unfold in_order. rewrite !less_key. intros. destruct (st_total (key a) (key b)) as [|[|]]; congruence.
Qed.

(** A sorted list is determined by its classes of equal key. *)
Lemma sorted_unique l1 l2 :
  StronglySorted in_order l1 -> StronglySorted in_order l2 ->
  (forall k, with_key k l1 = with_key k l2) -> l1 = l2.
Proof using StrictTotal0 less_key.
  intros H1. revert l2. induction H1 as [|a l1 Hl1 IH Ha]; intros l2 H2 Hk.
  - destruct l2 as [|b l2]; [done|]. specialize (Hk (key b)). symmetry in Hk.
    assert (b ∈ with_key (key b) (b :: l2)) as Hb by (apply with_key_elem; set_solver).
    rewrite Hk in Hb. apply with_key_elem in Hb as [_ Hb]. by apply not_elem_of_nil in Hb.
  - destruct H2 as [|b l2 Hl2 Hb].
    { specialize (Hk (key a)).
      assert (a ∈ with_key (key a) (a :: l1)) as Ha' by (apply with_key_elem; set_solver).
      rewrite Hk in Ha'. apply with_key_elem in Ha' as [_ Ha']. by apply not_elem_of_nil in Ha'. }
    assert (in_order a a /\ in_order b b) as [Haa Hbb].
    { unfold in_order. rewrite !less_key, !st_irrefl. done. }
    assert (key a = key b) as Hab.
    { apply in_order_antisym.
      - assert (b ∈ with_key (key b) (a :: l1)) as [_ Hin]%with_key_elem.
        { rewrite Hk. apply with_key_elem. set_solver. }
        apply elem_of_cons in Hin as [->|Hin]; [done|].
        by apply (proj1 (list.Forall_forall _ _) Ha).
      - assert (a ∈ with_key (key a) (b :: l2)) as [_ Hin]%with_key_elem.
        { rewrite <- Hk. apply with_key_elem. set_solver. }
        apply elem_of_cons in Hin as [->|Hin]; [done|].
        by apply (proj1 (list.Forall_forall _ _) Hb). }
    assert (a = b) as ->.
    { specialize (Hk (key a)). unfold with_key in Hk. rewrite !filter_cons in Hk.
      rewrite decide_True in Hk by done. rewrite decide_True in Hk by done. congruence. }
    f_equal. apply IH; [done|]. intros k. specialize (Hk k). unfold with_key in *.
    rewrite !filter_cons in Hk. case_decide; congruence.
Qed.

Lemma sort_stable_unique l1 l2 :
  (forall k, with_key k l1 = with_key k l2) -> sort_stable l1 = sort_stable l2.
Proof using StrictTotal0 less_key.
  intros H. apply sorted_unique; [apply sort_stable_sorted..|].
  intros k. by rewrite !sort_stable_stable.
Qed.
End stable_sort.
