(* ===== verification/Cron.v ===== *)
(** * manifest/cron.go: five-field cron expressions

    The parser of the schedules a manifest declares and the test the scheduler
    makes every minute.  Field masks keep their Go widths (uint64, uint32,
    uint16, uint8) and the loop counter of a range is a 64-bit [int] with its
    wrap-around, because a step can be as large as [int] allows. *)

From S2P Require Import Prelude GoStrings.
From Stdlib Require Import Ascii.

Local Open Scope Z_scope.

Inductive part_error :=
| BadStep | BadRangeStart | BadRangeEnd | BackwardsRange | BadValue | OutOfRange
| LoopFuel (** the fuel of the model ran out; excluded by [parsePart_no_fuel] *).

Inductive cron_field := FMinute | FHour | FDom | FMonth | FDow.

Inductive cron_error :=
| WantFiveFields (got : nat)
| InField (f : cron_field) (e : part_error).

Record Schedule := mkSchedule {
  s_minute : Z; s_hour : Z; s_dom : Z; s_month : Z; s_dow : Z;
  domRestricted : bool; dowRestricted : bool
}.

(** The calendar fields of a [time.Time]; Sunday is weekday 0. *)
Record Time := mkTime {
  t_minute : Z; t_hour : Z; t_day : Z; t_month : Z; t_weekday : Z
}.

(** [1 << uint(v)] in an unsigned type of [w] bits: a count of [w] or more
    shifts the bit out. *)
Definition shl1 (w v : Z) : Z :=
  if uint64 v <? w then 2 ^ uint64 v else 0.

(** [for v := lo; v <= hi; v += step { mask |= 1 << uint(v) }]. *)
Fixpoint fill (fuel : nat) (v hi step mask : Z) : option Z :=
  match fuel with
  | O => None
  | S fuel =>
      if v <=? hi then fill fuel (int64 (v + step)) hi step (Z.lor mask (shl1 64 v))
      else Some mask
  end.

(** More than the 132 iterations the longest loop can take. *)
Definition loop_fuel : nat := 256.

Definition fullMask (min max : Z) : Z :=
  default 0 (fill loop_fuel min max 1 0).

(** The first half of [parsePart]: the range and step a part names. *)
Definition partRange (part : string) (min max : Z) : result part_error (Z * Z * Z) :=
  let? (part, step) :=
    match cut_byte "/" part with
    | Some (base, stepStr) =>
        match atoi stepStr with
        | Some n => if n <=? 0 then Err BadStep else Ok (base, n)
        | None => Err BadStep
        end
    | None => Ok (part, 1)
    end in
  let? (lo, hi) :=
    if String.eqb part "*" then Ok (min, max)
    else match cut_byte "-" part with
         | Some (loStr, hiStr) =>
             match atoi loStr with
             | None => Err BadRangeStart
             | Some lo =>
                 match atoi hiStr with
                 | None => Err BadRangeEnd
                 | Some hi => if hi <? lo then Err BackwardsRange else Ok (lo, hi)
                 end
             end
         | None =>
             match atoi part with
             | None => Err BadValue
             | Some n => Ok (n, n)
             end
         end in
  if (lo <? min) || (max <? hi) then Err OutOfRange else Ok (lo, hi, step).

Definition parsePart (part : string) (min max : Z) : result part_error Z :=
  let? (lo, hi, step) := partRange part min max in
  match fill loop_fuel lo hi step 0 with
  | Some mask => Ok mask
  | None => Err LoopFuel
  end.

Definition parseField (field : string) (min max : Z) : result part_error (Z * bool) :=
  if String.eqb field "*" then Ok (fullMask min max, false)
  else
    let? mask := res_fold (fun mask part =>
                   let? m := parsePart part min max in Ok (Z.lor mask m))
                 0 (split_byte "," field) in
    Ok (mask, true).

Definition in_field {A} (f : cron_field) (r : result part_error A) : result cron_error A :=
  match r with Ok a => Ok a | Err e => Err (InField f e) end.

Definition ParseSchedule (expr : string) : result cron_error Schedule :=
  match fields expr with
  | [f0; f1; f2; f3; f4] =>
      let? (minute, _) := in_field FMinute (parseField f0 0 59) in
      let? (hour, _) := in_field FHour (parseField f1 0 23) in
      let? (dom, domR) := in_field FDom (parseField f2 1 31) in
      let? (month, _) := in_field FMonth (parseField f3 1 12) in
      let? (dow, dowR) := in_field FDow (parseField f4 0 6) in
      Ok (mkSchedule minute (wrap_u 32 hour) (wrap_u 32 dom) (wrap_u 16 month)
                     (wrap_u 8 dow) domR dowR)
  | fs => Err (WantFiveFields (length fs))
  end.

(** [mask & (1 << uint(v)) != 0] at width [w]. *)
Definition mask_has (w mask v : Z) : bool := negb (Z.land mask (shl1 w v) =? 0).

Definition Matches (s : Schedule) (t : Time) : bool :=
  if negb (mask_has 64 (s_minute s) (t_minute t)) then false
  else if negb (mask_has 32 (s_hour s) (t_hour t)) then false
  else if negb (mask_has 16 (s_month s) (t_month t)) then false
  else
    let domOK := mask_has 32 (s_dom s) (t_day t) in
    let dowOK := mask_has 8 (s_dow s) (t_weekday t) in
    if domRestricted s && dowRestricted s then domOK || dowOK else domOK && dowOK.

(** ** Meaning of an expression *)

(** What stands before the slash of a part: "*" for the whole range, a number
    for itself, or two numbers with a dash between them for what lies from the
    one to the other. Numbers are as [strconv.Atoi] reads them. *)
Inductive base_spells (min max : Z) : string -> Z -> Z -> Prop :=
| spells_all : base_spells min max "*" min max
| spells_value s n : has_byte "-" s = false -> atoi s = Some n -> base_spells min max s n n
| spells_range a b lo hi :
    has_byte "-" a = false -> atoi a = Some lo -> atoi b = Some hi -> lo <= hi ->
    base_spells min max (a +:+ "-" +:+ b) lo hi.

(** A part without a slash steps by one, one with a slash by the positive
    number after it; it has to stay in the range of its field. *)
Inductive part_spells (min max : Z) : string -> Z -> Z -> Z -> Prop :=
| spells_each base lo hi :
    has_byte "/" base = false -> base_spells min max base lo hi -> min <= lo -> hi <= max ->
    part_spells min max base lo hi 1
| spells_every base n lo hi step :
    has_byte "/" base = false -> base_spells min max base lo hi -> min <= lo -> hi <= max ->
    atoi n = Some step -> 0 < step -> part_spells min max (base +:+ "/" +:+ n) lo hi step.

(** The values a part names, as cron defines them: from the first of its range,
    by its step, to the last. *)
Definition part_names (part : string) (min max v : Z) : Prop :=
  exists lo hi step, part_spells min max part lo hi step /\ lo <= v <= hi /\ (v - lo) `mod` step = 0.

Definition field_names (field : string) (min max v : Z) : Prop :=
  if String.eqb field "*" then min <= v <= max
  else exists part, part ∈ split_byte "," field /\ part_names part min max v.

(** Steps are far from the top of [int]. *)
Definition modest_part (part : string) (min max : Z) : Prop :=
  forall lo hi step, part_spells min max part lo hi step -> step < 2 ^ 62.
Definition modest_field (field : string) (min max : Z) : Prop :=
  Forall (fun part => modest_part part min max) (split_byte "," field).

Definition valid_time (t : Time) : Prop :=
  0 <= t_minute t <= 59 /\ 0 <= t_hour t <= 23 /\ 1 <= t_day t <= 31 /\
  1 <= t_month t <= 12 /\ 0 <= t_weekday t <= 6.

(** Minute, hour and month must match; of day-of-month and day-of-week, both
    must match, except that when neither is "*" one of them is enough. *)
Definition cron_fires (f0 f1 f2 f3 f4 : string) (t : Time) : Prop :=
  field_names f0 0 59 (t_minute t) /\ field_names f1 0 23 (t_hour t) /\
  field_names f3 1 12 (t_month t) /\
  let dom := field_names f2 1 31 (t_day t) in
  let dow := field_names f4 0 6 (t_weekday t) in
  if negb (String.eqb f2 "*") && negb (String.eqb f4 "*") then dom \/ dow else dom /\ dow.

(** ** The range loop *)

Lemma shl1_small w v : 0 <= v < w -> w <= 64 -> shl1 w v = 2 ^ v.
Proof.
  intros Hv Hw. unfold shl1, uint64, wrap_u. rewrite Z.mod_small by lia.
  by rewrite (proj2 (Z.ltb_lt v w)) by lia.
Qed.

Lemma mask_has_spec w mask v : 0 <= v < w -> w <= 64 -> mask_has w mask v = Z.testbit mask v.
Proof.
  intros Hv Hw. unfold mask_has. rewrite shl1_small by done.
  destruct (Z.testbit mask v) eqn:E.
  - apply negb_true_iff, Z.eqb_neq. intros H0.
    apply (f_equal (fun z => Z.testbit z v)) in H0.
    by rewrite Z.land_spec, Z.pow2_bits_true, Z.bits_0, E in H0 by lia.
  - apply negb_false_iff, Z.eqb_eq, Z.bits_inj'. intros i Hi.
    rewrite Z.land_spec, Z.bits_0.
    destruct (decide (i = v)) as [->|Hne]; [by rewrite E|].
    by rewrite Z.pow2_bits_false, andb_false_r by lia.
Qed.

Lemma range_step i v hi step :
  0 < step ->
  (i = v \/ (v + step <= i <= hi /\ (i - (v + step)) `mod` step = 0)) /\ v <= hi <->
  v <= hi /\ v <= i <= hi /\ (i - v) `mod` step = 0.
Proof.
  intros Hs.
  assert ((i - (v + step)) `mod` step = (i - v) `mod` step) as ->.
  { replace (i - (v + step)) with (i - v + (-1) * step) by lia. by rewrite Z.mod_add by lia. }
  split.
  - intros [[->|[? ?]] ?]; [rewrite Z.sub_diag, Z.mod_0_l by lia|]; lia.
  - intros (? & ? & Hm). split; [|done]. destruct (decide (i = v)); [by left|right].
    destruct (decide (i < v + step)); [|lia]. rewrite Z.mod_small in Hm; lia.
Qed.

(** Away from the overflow boundary the loop sets exactly the bits of the
    arithmetic progression. *)
Lemma fill_spec fuel v hi step mask :
  0 <= v -> hi <= 63 -> 0 < step < 2 ^ 62 -> (Z.to_nat (hi - v + 1) < fuel)%nat ->
  exists m, fill fuel v hi step mask = Some m /\
    forall i, 0 <= i ->
      Z.testbit m i = true <->
      Z.testbit mask i = true \/ (v <= i <= hi /\ (i - v) `mod` step = 0).
Proof.
  revert v mask. induction fuel as [|fuel IH]; intros v mask Hv Hhi Hstep Hf; [lia|]. simpl.
  destruct (Z.leb_spec v hi) as [Hle|Hgt].
  - rewrite int64_id by (unfold in_int64; lia).
    destruct (IH (v + step) (Z.lor mask (shl1 64 v))) as (m & -> & Hm); [lia..|].
    exists m. split; [done|]. intros i Hi. rewrite (Hm i Hi), Z.lor_spec, shl1_small by lia.
    pose proof (range_step i v hi step ltac:(lia)) as Hr. rewrite orb_true_iff.
    assert (Z.testbit (2 ^ v) i = true <-> i = v) as ->.
    { destruct (decide (i = v)) as [->|Hne]; [by rewrite Z.pow2_bits_true by lia|].
      by rewrite Z.pow2_bits_false by lia. }
    clear - Hr Hle. tauto.
  - exists mask. split; [done|]. intros i Hi. split; [by left|]. intros [?|?]; [done|lia].
Qed.

Lemma fill_stop fuel v hi step mask :
  (0 < fuel)%nat -> hi < v -> fill fuel v hi step mask = Some mask.
Proof. destruct fuel; [lia|]. intros _ H. simpl. by rewrite (proj2 (Z.leb_gt v hi)). Qed.

(** Every loop [parsePart] can start comes to an end, steps that overflow the
    counter included. *)
Lemma fill_big_step fuel v hi step mask :
  0 <= v -> hi <= 63 -> 2 ^ 62 <= step < 2 ^ 63 -> (Z.to_nat (2 * v + 4) < fuel)%nat ->
  is_Some (fill fuel v hi step mask).
Proof.
  revert v mask. induction fuel as [fuel IH] using lt_wf_ind. intros v mask Hv Hhi Hs Hf.
  destruct fuel as [|[|[|fuel]]]; [lia..|]. cbn [fill].
  destruct (Z.leb_spec v hi); [|by eauto].
  destruct (decide (v + step < 2 ^ 63)).
  { rewrite int64_id by (unfold in_int64; lia).
    rewrite (proj2 (Z.leb_gt (v + step) hi)) by lia. by eauto. }
  assert (int64 (v + step) = v + step - 2 ^ 64) as ->.
  { unfold int64, wrap_s. change (64 - 1) with 63.
    rewrite <- (Z.mod_unique (v + step + 2 ^ 63) (2 ^ 64) 1 (v + step + 2 ^ 63 - 2 ^ 64)); lia. }
  rewrite (proj2 (Z.leb_le (v + step - 2 ^ 64) hi)) by lia.
  rewrite int64_id by (unfold in_int64; lia).
  set (v' := v + step - 2 ^ 64 + step) in *.
  destruct (decide (0 <= v')).
  { apply (IH (S fuel)); lia. }
  rewrite (proj2 (Z.leb_le v' hi)) by lia.
  rewrite int64_id by (unfold in_int64; lia).
  destruct fuel as [|fuel]; [lia|]. cbn [fill].
  rewrite (proj2 (Z.leb_gt (v' + step) hi)) by lia. by eauto.
Qed.

(** ** Parts, fields and schedules *)

Lemma partRange_bounds part min max lo hi step :
  partRange part min max = Ok (lo, hi, step) -> min <= lo /\ hi <= max /\ 0 < step < 2 ^ 63.
Proof.
  unfold partRange. intros H. apply res_bind_ok in H as ([base st] & Hst & H).
  apply res_bind_ok in H as ([lo' hi'] & _ & H). destruct (_ || _) eqn:Ho; [done|].
  injection H as -> -> ->. zbool. split; [lia|]. split; [lia|].
  destruct (cut_byte "/" part) as [[b s]|]; [|simplify_eq; lia].
  destruct (atoi s) as [n|] eqn:Ha; [|done]. destruct (Z.leb_spec n 0); [done|]. simplify_eq.
  unfold atoi in Ha. apply bind_Some in Ha as (x & _ & Hx).
  destruct (in_int64b x) eqn:Hi; [|done]. simplify_eq. unfold in_int64b in Hi. zbool. lia.
Qed.

(** [partRange] reads a part as it is spelled, and nothing else. *)
Lemma partRange_spells part min max lo hi step :
  partRange part min max = Ok (lo, hi, step) <-> part_spells min max part lo hi step.
Proof.
  assert (forall base lo hi,
    (if String.eqb base "*" then Ok (min, max)
     else match cut_byte "-" base with
         | Some (loStr, hiStr) =>
             match atoi loStr with
             | None => Err BadRangeStart
             | Some lo =>
                 match atoi hiStr with
                 | None => Err BadRangeEnd
                 | Some hi => if hi <? lo then Err BackwardsRange else Ok (lo, hi)
                 end
             end
         | None => match atoi base with None => Err BadValue | Some n => Ok (n, n) end
         end) = Ok (lo, hi) <-> base_spells min max base lo hi) as Hbase.
  { clear. intros base lo hi. split.
    - destruct (String.eqb_spec base "*") as [->|Hne]; [intros [= <- <-]; apply spells_all|].
      destruct (cut_byte "-" base) as [[a b]|] eqn:Ec.
      + apply cut_byte_spec in Ec as [-> Ha]. destruct (atoi a) as [x|] eqn:Ex; [|done].
        destruct (atoi b) as [y|] eqn:Ey; [|done]. destruct (Z.ltb_spec y x); [done|]. intros [= <- <-].
        by apply spells_range.
      + apply cut_byte_none in Ec. destruct (atoi base) as [n|] eqn:En; [|done]. intros [= <- <-]. by apply spells_value.
    - intros [|s n Hs Hn|a b x y Ha Hx Hy Hxy]; [done|..].
      + destruct (String.eqb_spec s "*") as [->|]; [vm_compute in Hn; discriminate Hn|].
        apply cut_byte_none in Hs. by rewrite Hs, Hn.
      + destruct (String.eqb_spec (a +:+ "-" +:+ b) "*") as [E|].
        { destruct a as [|z [|z' a]]; discriminate E. }
        rewrite (proj2 (cut_byte_spec "-" _ a b)) by done. rewrite Hx, Hy. by rewrite (proj2 (Z.ltb_ge y x)). }
  unfold partRange. split.
  - intros H. apply res_bind_ok in H as ([base st] & Hst & H). apply res_bind_ok in H as ([lo' hi'] & Hr & H).
    apply Hbase in Hr. destruct (_ || _) eqn:Ho; [done|]. injection H as -> -> ->. zbool.
    destruct (cut_byte "/" part) as [[b s]|] eqn:Ec.
    + apply cut_byte_spec in Ec as [-> Hb]. destruct (atoi s) as [n|] eqn:Ha; [|done].
      destruct (Z.leb_spec n 0); [done|]. injection Hst as -> ->. by apply spells_every.
    + apply cut_byte_none in Ec. injection Hst as <- <-. by apply spells_each.
  - intros [base l h Hs Hb Hlo Hhi|base n l h st Hs Hb Hlo Hhi Hn Hpos].
    + apply cut_byte_none in Hs. rewrite Hs. cbn [res_bind]. apply Hbase in Hb. rewrite Hb. cbn [res_bind].
      by rewrite (proj2 (Z.ltb_ge l min)), (proj2 (Z.ltb_ge max h)).
    + rewrite (proj2 (cut_byte_spec "/" _ base n)) by done. rewrite Hn, (proj2 (Z.leb_gt st 0)) by done.
      cbn [res_bind]. apply Hbase in Hb. rewrite Hb. cbn [res_bind].
      by rewrite (proj2 (Z.ltb_ge l min)), (proj2 (Z.ltb_ge max h)).
Qed.

(** A part never exhausts the fuel of the model, whatever its step. *)
Lemma parsePart_no_fuel part min max :
  0 <= min -> max <= 63 -> parsePart part min max <> Err LoopFuel.
Proof.
  unfold parsePart. intros Hmin Hmax H. apply res_bind_err in H as [H|([[lo hi] step] & Hr & H)].
  - unfold partRange in H. apply res_bind_err in H as [H|([? ?] & _ & H)].
    { repeat case_match; discriminate. }
    apply res_bind_err in H as [H|([? ?] & _ & H)]; repeat case_match; discriminate.
  - apply partRange_bounds in Hr as (Hlo & Hhi & Hs).
    destruct (decide (step < 2 ^ 62)).
    + destruct (fill_spec loop_fuel lo hi step 0) as (m & Hm & _); [unfold loop_fuel; lia..|].
      by rewrite Hm in H.
    + destruct (decide (lo <= hi)) as [Hle|Hgt].
      * destruct (fill_big_step loop_fuel lo hi step 0) as [m Hm]; [unfold loop_fuel; lia..|].
        by rewrite Hm in H.
      * rewrite fill_stop in H; [done|unfold loop_fuel; lia|lia].
Qed.

Lemma parsePart_spec part min max m :
  0 <= min -> max <= 63 -> modest_part part min max -> parsePart part min max = Ok m ->
  forall i, 0 <= i -> Z.testbit m i = true <-> part_names part min max i.
Proof.
  intros Hmin Hmax Hmod H i Hi. unfold parsePart in H.
  apply res_bind_ok in H as ([[lo hi] step] & Hr & H).
  pose proof (partRange_bounds _ _ _ _ _ _ Hr) as (Hlo & Hhi & Hs).
  pose proof (proj1 (partRange_spells _ _ _ _ _ _) Hr) as Hsp. pose proof (Hmod _ _ _ Hsp) as Hsm.
  destruct (fill_spec loop_fuel lo hi step 0) as (m' & Hm & Hb); [unfold loop_fuel; lia..|].
  rewrite Hm in H. injection H as ->. rewrite (Hb i Hi), Z.bits_0. unfold part_names. split.
  - intros [?|?]; [done|]. by exists lo, hi, step.
  - intros (lo' & hi' & step' & Hr'%partRange_spells & ?). rewrite Hr in Hr'. simplify_eq. by right.
Qed.

Lemma parse_parts_spec parts min max mask m :
  0 <= min -> max <= 63 -> Forall (fun part => modest_part part min max) parts ->
  res_fold (fun mask part => let? m := parsePart part min max in Ok (Z.lor mask m)) mask parts = Ok m ->
  forall i, 0 <= i -> Z.testbit m i = true <->
    Z.testbit mask i = true \/ exists part, part ∈ parts /\ part_names part min max i.
Proof.
  intros Hmin Hmax Hmod. revert mask. induction Hmod as [|part parts Hp _ IH]; intros mask H i Hi.
  - injection H as ->. set_solver.
  - simpl in H. apply res_bind_ok in H as (s & Hs & H). apply res_bind_ok in Hs as (pm & Hpm & [= <-]).
    rewrite (IH _ H i Hi), Z.lor_spec, orb_true_iff, (parsePart_spec _ _ _ _ Hmin Hmax Hp Hpm i Hi).
    setoid_rewrite elem_of_cons. split.
    + intros [[?|?]|(p & ? & ?)]; eauto.
    + intros [?|(p & [->|?] & ?)]; eauto.
Qed.

Lemma parseField_spec field min max m r :
  0 <= min -> max <= 63 -> modest_field field min max -> parseField field min max = Ok (m, r) ->
  r = negb (String.eqb field "*") /\
  forall i, 0 <= i -> Z.testbit m i = true <-> field_names field min max i.
Proof.
  intros Hmin Hmax Hmod H. unfold parseField, field_names in *.
  destruct (String.eqb field "*").
  - injection H as <- <-. split; [done|]. intros i Hi. unfold fullMask.
    destruct (fill_spec loop_fuel min max 1 0) as (m & -> & Hm); [unfold loop_fuel; lia..|].
    simpl. rewrite (Hm i Hi), Z.bits_0, Z.mod_1_r. naive_solver.
  - apply res_bind_ok in H as (mask & Hmask & [= <- <-]). split; [done|]. intros i Hi.
    rewrite (parse_parts_spec _ _ _ _ _ Hmin Hmax Hmod Hmask i Hi), Z.bits_0. naive_solver.
Qed.

Lemma in_field_ok {A} f (r : result part_error A) a : in_field f r = Ok a -> r = Ok a.
Proof. by destruct r; simpl; intros; simplify_eq. Qed.

(** The narrower Go types keep every bit a field can set. *)
Lemma mask_has_wrap w m i : 0 <= i < w -> w <= 64 -> mask_has w (wrap_u w m) i = Z.testbit m i.
Proof.
  intros Hi Hw. rewrite mask_has_spec by done. unfold wrap_u. by rewrite Z.mod_pow2_bits_low by lia.
Qed.

(** C34. A parsed schedule fires in a minute exactly when cron says so: every
    field names the corresponding calendar value, a field being "*" or a list of
    parts that are a number, a range or "*", with or without a step, and of
    day-of-month and day-of-week one is enough when both are restricted. Steps
    have to be below 2^62; see [cron_step_overflow]. *)
Theorem Matches_cron expr s f0 f1 f2 f3 f4 t :
  ParseSchedule expr = Ok s -> fields expr = [f0; f1; f2; f3; f4] ->
  modest_field f0 0 59 -> modest_field f1 0 23 -> modest_field f2 1 31 ->
  modest_field f3 1 12 -> modest_field f4 0 6 -> valid_time t ->
  Matches s t = true <-> cron_fires f0 f1 f2 f3 f4 t.
Proof.
  intros Hp Hf M0 M1 M2 M3 M4 (T0 & T1 & T2 & T3 & T4).
  unfold ParseSchedule in Hp. rewrite Hf in Hp.
  apply res_bind_ok in Hp as ([m0 r0] & H0%in_field_ok & Hp).
  apply res_bind_ok in Hp as ([m1 r1] & H1%in_field_ok & Hp).
  apply res_bind_ok in Hp as ([m2 r2] & H2%in_field_ok & Hp).
  apply res_bind_ok in Hp as ([m3 r3] & H3%in_field_ok & Hp).
  apply res_bind_ok in Hp as ([m4 r4] & H4%in_field_ok & [= <-]).
  apply parseField_spec in H0 as [_ H0]; [|lia..|done].
  apply parseField_spec in H1 as [_ H1]; [|lia..|done].
  apply parseField_spec in H2 as [-> H2]; [|lia..|done].
  apply parseField_spec in H3 as [_ H3]; [|lia..|done].
  apply parseField_spec in H4 as [-> H4]; [|lia..|done].
  unfold Matches, cron_fires. simpl. rewrite mask_has_spec, !mask_has_wrap by lia.
  specialize (H0 (t_minute t)); specialize (H1 (t_hour t)); specialize (H2 (t_day t));
    specialize (H3 (t_month t)); specialize (H4 (t_weekday t)).
  destruct (_ && _); rewrite <- H0, <- H1, <- H2, <- H3, <- H4 by lia; clear;
    destruct (Z.testbit m0 _), (Z.testbit m1 _), (Z.testbit m3 _), (Z.testbit m2 _),
      (Z.testbit m4 _); simpl; intuition congruence.
Qed.

(** "0 0 1 * 1" on a Monday that is not the first fires. *)
Lemma Matches_cron_witness :
  exists s, ParseSchedule "0 0 1 * 1" = Ok s /\
    (Matches s (mkTime 0 0 12 6 1) = true <->
     cron_fires "0" "0" "1" "*" "1" (mkTime 0 0 12 6 1)).
Proof.
  eexists. split; [vm_compute; reflexivity|].
  apply (Matches_cron "0 0 1 * 1"); [vm_compute; reflexivity..| | | | | |].
  1-5: constructor; [|constructor]; intros lo hi st H%partRange_spells; vm_compute in H;
    injection H as <- <- <-; reflexivity.
  unfold valid_time; simpl; lia.
Defined.

(** Parsing always comes to an end: the range loop never exhausts its fuel,
    whatever the ranges and steps written in the expression. *)
Lemma ParseSchedule_terminates expr f : ParseSchedule expr <> Err (InField f LoopFuel).
Proof.
  assert (forall field min max, 0 <= min -> max <= 63 -> parseField field min max <> Err LoopFuel) as Hno.
  { intros field min max Hmin Hmax H. unfold parseField in H. destruct (String.eqb field "*"); [done|].
    apply res_bind_err in H as [H|(? & _ & H)]; [|done]. revert H. generalize 0 as mask.
    induction (split_byte "," field) as [|part parts IH]; intros mask H; simpl in H; [done|].
    apply res_bind_err in H as [H|(mask' & _ & H)]; [|by apply IH in H].
    apply res_bind_err in H as [H|(? & _ & H)]; [|done].
    by apply (parsePart_no_fuel part min max). }
  assert (forall g field min max, 0 <= min -> max <= 63 ->
    in_field g (parseField field min max) <> Err (InField f LoopFuel)) as Hno'.
  { intros g field min max H1 H2 H. specialize (Hno field min max H1 H2).
    destruct (parseField field min max); simplify_eq/=. }
  unfold ParseSchedule. intros H.
  destruct (fields expr) as [|f0 [|f1 [|f2 [|f3 [|f4 [|]]]]]]; try done.
  repeat (apply res_bind_err in H as [H|([? ?] & _ & H)]; [revert H; apply Hno'; lia|]). done.
Qed.

(** The counter of a range overflows when its step is close to 2^63: the
    part "59/9223372036854775807" of a minute field also sets minute 57, which
    it does not name. *)
Lemma cron_step_overflow :
  exists m, parsePart "59/9223372036854775807" 0 59 = Ok m /\
    Z.testbit m 57 = true /\ ~ part_names "59/9223372036854775807" 0 59 57.
Proof.
  eexists. split; [vm_compute; reflexivity|]. split; [vm_compute; reflexivity|].
  intros (lo & hi & step & Hr%partRange_spells & Hv & _).
  assert (partRange "59/9223372036854775807" 0 59 = Ok (59, 59, 9223372036854775807)) as Hr'
    by (vm_compute; reflexivity).
  rewrite Hr' in Hr. injection Hr as <- <- <-. lia.
Qed.
