(* ===== verification/Manifest.v ===== *)
(** * manifest/manifest.go and manifest/plugin.go: declarations

    The data a plugin declares, the checks Core makes before it will run the
    plugin, filter compilation, and the merging of configuration defaults.
    YAML decoding and the file system are parameters of [Load]. *)

From S2P Require Import Prelude GoStrings PathMatch Cron.

(** ** Data *)

Record Runtime := mkRuntime { Entrypoint : string; Args : list string; Replicas : Z }.

Record FilterMatch := mkFilterMatch { Paths : list string; Methods : list string }.

Record FilterDecl := mkFilterDecl {
  f_name : string;
  f_phase : string;
  f_match : FilterMatch;
  f_order : Z;
  FailClosed : bool;
  TimeoutMS : Z;
  NeedsRequestBody : bool;
  NeedsResponseBody : bool;
  MaxBodyBytes : Z
}.

Record JobDecl := mkJobDecl { j_name : string; j_cron : string }.

Record ConfigDecl := mkConfigDecl {
  c_key : string; c_label : string; c_description : string; c_type : string;
  c_default : string; c_required : bool; c_secret : bool
}.

Inductive MenuItem := mkMenuItem {
  m_path : string; m_title : string; m_icon : string; m_order : Z; m_entry : string;
  m_roles : list string; m_children : list MenuItem
}.

Record Index := mkIndex { ix_fields : list string; ix_unique : bool }.
Record Collection := mkCollection { col_name : string; col_indexes : list Index }.

Record Manifest := mkManifest {
  Key : string;
  DisplayName : string;
  Version : string;
  Weight : Z;
  mf_runtime : Runtime;
  Permissions : list string;
  Menus : list MenuItem;
  Collections : list Collection;
  Filters : list FilterDecl;
  Jobs : list JobDecl;
  EgressAllow : list string;
  Config : list ConfigDecl
}.

Definition PermFilterAuthenticate := "filter:authenticate".
Definition PermCron := "cron".
Definition PermHTTPEgress := "http:egress".

Definition knownPermissions : list string :=
  ["db"; "db:tx"; "queue"; "cache"; "lock"; PermCron; "events"; "files:read"; "files:write";
   PermHTTPEgress; PermFilterAuthenticate].

Definition PhaseAuthenticate := "authenticate".
Definition knownPhases : list string :=
  ["pre_route"; PhaseAuthenticate; "authorize"; "pre_handler"; "post_handler"; "on_error"; "log"].

Definition ConfigTypes : list string := ["string"; "int"; "bool"; "duration"; "text"].

Definition MaxFilters := 64.
Definition MaxCollections := 64.
Definition MaxJobs := 64.
Definition MaxConfigKeys := 128.
Definition MaxMenuDepth := 8.
Definition MaxMenuNodes := 256.
Definition MaxManifestBytes : Z := 2 ^ 20.

Definition mem (x : string) (l : list string) : bool := existsb (String.eqb x) l.
Global Arguments mem : simpl never.

(** ** Compiled filters *)

Record CompiledFilter := mkCompiledFilter {
  Decl : FilterDecl;
  cf_paths : PSet;
  cf_methods : option (gset string) (** [None] means all methods *)
}.

Definition MatchesMethod (c : CompiledFilter) (method : string) : bool :=
  match cf_methods c with
  | None => true
  | Some ms => bool_decide (method ∈ ms)
  end.

Definition Matches (c : CompiledFilter) (method path : string) : bool :=
  MatchesMethod c method && SetMatch (cf_paths c) path.

Fixpoint normalizeMethods_go (set : gset string) (methods : list string) : option (gset string) :=
  match methods with
  | [] => Some set
  | m :: methods =>
      let m := to_upper (trim_space m) in
      if String.eqb m "*" || String.eqb m "" then None
      else normalizeMethods_go ({[m]} ∪ set) methods
  end.

Definition normalizeMethods (methods : list string) : option (gset string) :=
  match methods with [] => None | _ => normalizeMethods_go ∅ methods end.

Definition CompileFilter (f : FilterDecl) : result compile_error CompiledFilter :=
  let? set := CompileSet (Paths (f_match f)) in
  Ok (mkCompiledFilter f set (normalizeMethods (Methods (f_match f)))).

Definition CompileFilters (m : Manifest) : result compile_error (list CompiledFilter) :=
  res_map CompileFilter (Filters m).

Definition HasPermission (m : Manifest) (perm : string) : bool := mem perm (Permissions m).

Definition ReplicaCount (m : Manifest) : Z :=
  if (Replicas (mf_runtime m) <=? 0)%Z then 1%Z else Replicas (mf_runtime m).

(** ** Configuration *)

Definition ConfigDefaults (m : Manifest) : gmap string string :=
  foldl (fun out c => if String.eqb (c_default c) "" then out
                      else <[c_key c := c_default c]> out) ∅ (Config m).

Definition MergeConfig (m : Manifest) (set : gmap string string) : gmap string string :=
  let defaults := ConfigDefaults m in
  if decide (defaults = ∅) then set else set ∪ defaults.

(** ** Validation *)

Inductive manifest_error :=
| KeyRequired | KeyBadChars | VersionRequired
| UnknownPermission (p : string)
| UnknownPhase (phase : string) | DuplicateFilter (name : string) | FilterNoPaths
| FilterBadPattern (e : compile_error) | AuthenticateNeedsPermission
| NegativeTimeout | NegativeMaxBody | MaxBodyWithoutBody
| JobNoName | DuplicateJob (name : string) | JobNoCron | JobBadCron (e : cron_error)
| JobsNeedPermission | EgressNeedsPermission | NegativeReplicas
| TooManyFilters | TooManyCollections | TooManyJobs | TooManyConfigKeys
| MenuTooDeep | MenuTooMany
| ConfigNoKey | DuplicateConfigKey (key : string) | UnknownConfigType (type : string)
| MenuNoPath (title : string) | DuplicateMenuPath (path : string).

Definition check_filter (m : Manifest) (seen : gset string) (f : FilterDecl)
    : result manifest_error (gset string) :=
  reject? negb (mem (f_phase f) knownPhases) with UnknownPhase (f_phase f) ;;
  let? seen :=
    if String.eqb (f_name f) "" then Ok seen
    else reject? bool_decide (f_name f ∈ seen) with DuplicateFilter (f_name f) ;;
         Ok ({[f_name f]} ∪ seen) in
  reject? bool_decide (Paths (f_match f) = []) with FilterNoPaths ;;
  match CompileSet (Paths (f_match f)) with
  | Err e => Err (FilterBadPattern e)
  | Ok _ =>
      reject? String.eqb (f_phase f) PhaseAuthenticate && negb (HasPermission m PermFilterAuthenticate)
        with AuthenticateNeedsPermission ;;
      reject? (TimeoutMS f <? 0)%Z with NegativeTimeout ;;
      reject? (MaxBodyBytes f <? 0)%Z with NegativeMaxBody ;;
      reject? (0 <? MaxBodyBytes f)%Z && negb (NeedsRequestBody f) with MaxBodyWithoutBody ;;
      Ok seen
  end.

Definition check_job (seen : gset string) (j : JobDecl) : result manifest_error (gset string) :=
  reject? String.eqb (j_name j) "" with JobNoName ;;
  reject? bool_decide (j_name j ∈ seen) with DuplicateJob (j_name j) ;;
  let seen := {[j_name j]} ∪ seen in
  reject? String.eqb (j_cron j) "" with JobNoCron ;;
  match ParseSchedule (j_cron j) with
  | Err e => Err (JobBadCron e)
  | Ok _ => Ok seen
  end.

Definition check_config (seen : gset string) (c : ConfigDecl) : result manifest_error (gset string) :=
  reject? String.eqb (c_key c) "" with ConfigNoKey ;;
  reject? bool_decide (c_key c ∈ seen) with DuplicateConfigKey (c_key c) ;;
  let seen := {[c_key c]} ∪ seen in
  if String.eqb (c_type c) "" then Ok seen
  else reject? negb (mem (c_type c) ConfigTypes) with UnknownConfigType (c_type c) ;; Ok seen.

(** [walk] of [checkMenuSize] on one node and its subtree; [depth] is the depth
    of the list the node is in. *)
Fixpoint size_node (n : MenuItem) (depth total : nat) : result manifest_error nat :=
  let total := S total in
  reject? Nat.ltb MaxMenuNodes total with MenuTooMany ;;
  reject? Nat.ltb MaxMenuDepth (S depth) with MenuTooDeep ;;
  (fix walk (l : list MenuItem) (total : nat) : result manifest_error nat :=
     match l with
     | [] => Ok total
     | c :: l => let? total := size_node c (S depth) total in walk l total
     end) (m_children n) total.

Definition checkMenuSize (nodes : list MenuItem) : result manifest_error nat :=
  reject? Nat.ltb MaxMenuDepth 1 with MenuTooDeep ;;
  res_fold (fun total n => size_node n 1 total) 0 nodes.

Definition Validate (m : Manifest) : result manifest_error unit :=
  reject? String.eqb (Key m) "" with KeyRequired ;;
  reject? contains_any "/\. " (Key m) with KeyBadChars ;;
  reject? String.eqb (Version m) "" with VersionRequired ;;
  let? _ := res_fold (fun _ p => reject? negb (mem p knownPermissions) with UnknownPermission p ;; Ok tt)
              tt (Permissions m) in
  let? _ := res_fold (check_filter m) ∅ (Filters m) in
  let? _ := res_fold check_job ∅ (Jobs m) in
  reject? negb (bool_decide (Jobs m = [])) && negb (HasPermission m PermCron) with JobsNeedPermission ;;
  reject? negb (bool_decide (EgressAllow m = [])) && negb (HasPermission m PermHTTPEgress)
    with EgressNeedsPermission ;;
  reject? (Replicas (mf_runtime m) <? 0)%Z with NegativeReplicas ;;
  reject? Nat.ltb MaxFilters (length (Filters m)) with TooManyFilters ;;
  reject? Nat.ltb MaxCollections (length (Collections m)) with TooManyCollections ;;
  reject? Nat.ltb MaxJobs (length (Jobs m)) with TooManyJobs ;;
  reject? Nat.ltb MaxConfigKeys (length (Config m)) with TooManyConfigKeys ;;
  let? _ := checkMenuSize (Menus m) in
  let? _ := res_fold check_config ∅ (Config m) in
  Ok tt.

(** ** Loading *)

(** [walk] of [validateMenus] on one node and its subtree. *)
Fixpoint menu_node (n : MenuItem) (seen : gset string) : result manifest_error (gset string) :=
  reject? String.eqb (m_path n) "" with MenuNoPath (m_title n) ;;
  reject? bool_decide (m_path n ∈ seen) with DuplicateMenuPath (m_path n) ;;
  (fix walk (l : list MenuItem) (seen : gset string) : result manifest_error (gset string) :=
     match l with
     | [] => Ok seen
     | c :: l => let? seen := menu_node c seen in walk l seen
     end) (m_children n) ({[m_path n]} ∪ seen).

Definition validateMenus (nodes : list MenuItem) : result manifest_error (gset string) :=
  res_fold (fun seen n => menu_node n seen) ∅ nodes.

Inductive load_error := ManifestTooLarge | ManifestUnreadable | ManifestUnparsable
| ManifestMenus (e : manifest_error).

Section load.
(** [stat] is the size [os.Stat] reports, [read] what [os.ReadFile] returns,
    [decode] the strict YAML decoder; an empty document decodes to the zero
    manifest, as the io.EOF branch of the source lets it. *)
Context (stat : string -> option Z) (read : string -> option string)
        (decode : string -> option Manifest).

Definition Load (path : string) : result load_error Manifest :=
  reject? match stat path with Some size => (MaxManifestBytes <? size)%Z | None => false end
    with ManifestTooLarge ;;
  match read path with
  | None => Err ManifestUnreadable
  | Some data =>
      match decode data with
      | None => Err ManifestUnparsable
      | Some m =>
          match validateMenus (Menus m) with
          | Err e => Err (ManifestMenus e)
          | Ok _ => Ok m
          end
      end
  end.
End load.

(** ** Menus: the shape of an acceptable tree *)

Section menu_ind.
Context (P : MenuItem -> Prop).
Context (IHnode : forall p t i o e r cs, Forall P cs -> P (mkMenuItem p t i o e r cs)).

(** The induction principle that reaches the children. *)
Fixpoint menu_ind (n : MenuItem) : P n :=
  match n with
  | mkMenuItem p t i o e r cs =>
      IHnode p t i o e r cs
        ((fix go (l : list MenuItem) : Forall P l :=
            match l with
            | [] => Forall_nil _
            | c :: l => Forall_cons _ _ _ (menu_ind c) (go l)
            end) cs)
  end.
End menu_ind.

(** The number of levels and of nodes, and the paths in display order. *)
Fixpoint levels (n : MenuItem) : nat := S (foldr (fun c h => levels c `max` h) 0 (m_children n)).
Fixpoint nodes (n : MenuItem) : nat := S (foldr (fun c k => nodes c + k) 0 (m_children n)).
Fixpoint menu_paths (n : MenuItem) : list string := m_path n :: (m_children n ≫= menu_paths).

Definition forest_levels (l : list MenuItem) : nat := foldr (fun c h => levels c `max` h) 0 l.
Definition forest_nodes (l : list MenuItem) : nat := foldr (fun c k => nodes c + k) 0 l.

Lemma size_node_eq n d t :
  size_node n d t =
  (reject? Nat.ltb MaxMenuNodes (S t) with MenuTooMany ;;
   reject? Nat.ltb MaxMenuDepth (S d) with MenuTooDeep ;;
   res_fold (fun total c => size_node c (S d) total) (S t) (m_children n)).
Proof.
  destruct n as [p ti i o e r cs]. cbn [size_node m_children]. repeat case_match; [done..|].
  generalize (S t). induction cs as [|c cs IH]; intros k; simpl; [done|].
  destruct (size_node c (S d) k); simpl; [apply IH|done].
Qed.

Lemma size_fold_spec d :
  d <= MaxMenuDepth ->
  forall l, Forall (fun n => forall t t', size_node n d t = Ok t' <->
                t' = t + nodes n /\ t' <= MaxMenuNodes /\ d + levels n <= MaxMenuDepth) l ->
  forall t t', t <= MaxMenuNodes ->
  res_fold (fun total c => size_node c d total) t l = Ok t' <->
    t' = t + forest_nodes l /\ t' <= MaxMenuNodes /\ d + forest_levels l <= MaxMenuDepth.
Proof.
  intros Hd l Hl. induction Hl as [|n l Hn Hl IH]; intros t t' Ht; simpl.
  - split; [intros [= <-]; lia|intros (-> & _); f_equal; lia].
  - rewrite res_bind_ok. split.
    + intros (t1 & (-> & Hle & Hlv)%Hn & H). apply IH in H; [|done].
      unfold forest_nodes, forest_levels in *. lia.
    + intros (-> & Hle & Hlv). exists (t + nodes n).
      unfold forest_nodes, forest_levels in *.
      split; [apply Hn; lia|]. apply IH; [lia|]. lia.
Qed.

Lemma size_node_spec n : forall d t t',
  size_node n d t = Ok t' <->
  t' = t + nodes n /\ t' <= MaxMenuNodes /\ d + levels n <= MaxMenuDepth.
Proof.
  induction n as [p ti i o e r cs IH] using menu_ind. intros d t t'.
  rewrite size_node_eq. simpl nodes. simpl levels. simpl m_children.
  change (foldr _ 0 cs) with (forest_nodes cs) at 1.
  change (foldr (fun c h => levels c `max` h) 0 cs) with (forest_levels cs).
  destruct (Nat.ltb_spec MaxMenuNodes (S t)); [split; [done|lia]|].
  destruct (Nat.ltb_spec MaxMenuDepth (S d)); [split; [done|lia]|].
  rewrite size_fold_spec; [lia|lia| |lia].
  eapply list.Forall_impl; [exact IH|]. intros c Hc t1 t2. apply Hc.
Qed.

Lemma checkMenuSize_ok l t :
  checkMenuSize l = Ok t <->
  t = forest_nodes l /\ forest_nodes l <= MaxMenuNodes /\ S (forest_levels l) <= MaxMenuDepth.
Proof.
  unfold checkMenuSize. change (Nat.ltb MaxMenuDepth 1) with false. cbv iota.
  rewrite size_fold_spec; [|unfold MaxMenuDepth; lia| |lia].
  - unfold forest_nodes, forest_levels in *. simpl. split; [|lia]. lia.
  - apply Forall_true. intros n t1 t2. apply size_node_spec.
Qed.

(** A chain of [k] nested nodes, one per level. *)
Fixpoint menu_chain (k : nat) : list MenuItem :=
  match k with
  | O => []
  | S k => [mkMenuItem (itoa (Z.of_nat k)) "" "" 0 "" [] (menu_chain k)]
  end.

(** [checkMenuSize] accepts a menu forest exactly when it has at most
    [MaxMenuNodes] nodes and fewer than [MaxMenuDepth] levels. The depth test
    runs on the empty child list of a leaf too, so a tree of exactly eight
    levels, which the limit's name and the documentation allow, is refused. *)
Lemma checkMenuSize_spec l :
  (is_ok (checkMenuSize l) = true <->
   forest_nodes l <= MaxMenuNodes /\ forest_levels l <= MaxMenuDepth - 1) /\
  forest_levels (menu_chain MaxMenuDepth) = MaxMenuDepth /\
  checkMenuSize (menu_chain MaxMenuDepth) = Err MenuTooDeep.
Proof.
  split; [|split; reflexivity]. rewrite is_ok_spec. setoid_rewrite checkMenuSize_ok.
  unfold MaxMenuDepth. split; [intros (? & _ & ? & ?); lia|]. intros [? ?]. eexists. split; [done|]. lia.
Qed.

Lemma menu_node_eq n seen :
  menu_node n seen =
  (reject? String.eqb (m_path n) "" with MenuNoPath (m_title n) ;;
   reject? bool_decide (m_path n ∈ seen) with DuplicateMenuPath (m_path n) ;;
   res_fold (fun seen c => menu_node c seen) ({[m_path n]} ∪ seen) (m_children n)).
Proof.
  destruct n as [p ti i o e r cs]. cbn [menu_node m_children m_path m_title].
  repeat case_match; [done..|]. generalize ({[p]} ∪ seen).
  induction cs as [|c cs IH]; intros k; simpl; [done|].
  destruct (menu_node c k); simpl; [apply IH|done].
Qed.

Lemma menu_node_spec n : forall seen seen',
  menu_node n seen = Ok seen' <->
  Forall (.≠ "") (menu_paths n) /\ NoDup (menu_paths n) /\
  (forall k, k ∈ menu_paths n -> k ∉ seen) /\ seen' = list_to_set (menu_paths n) ∪ seen.
Proof.
  induction n as [p ti i o e r cs IH] using menu_ind. intros seen seen'.
  rewrite menu_node_eq. simpl.
  assert (forall s s', res_fold (fun seen c => menu_node c seen) s cs = Ok s' <->
    Forall (.≠ "") (cs ≫= menu_paths) /\ NoDup (cs ≫= menu_paths) /\
    (forall k, k ∈ cs ≫= menu_paths -> k ∉ s) /\ s' = list_to_set (cs ≫= menu_paths) ∪ s) as Hcs.
  { clear -IH. induction IH as [|c cs Hc _ IH]; intros s s'; simpl.
    - split.
      + intros [= <-]. fresh_solver.
      + intros (_ & _ & _ & ->). f_equal. set_solver.
    - rewrite res_bind_ok, Forall_app, list.NoDup_app, list_to_set_app_L. split.
      + intros (s1 & (? & ? & ? & ->)%Hc & (? & ? & ? & ->)%IH). fresh_solver.
      + intros ((? & ?) & (? & ? & ?) & ? & ->). eexists.
        split; [apply Hc; fresh_solver|]. apply IH; fresh_solver. }
  destruct (String.eqb_spec p "") as [->|Hp]; [split; [done|]; by intros (?%Forall_inv & _)|].
  case_bool_decide as Hs; [split; [done|]; intros (_ & _ & H & _); set_solver|].
  rewrite Hcs, list.Forall_cons, list.NoDup_cons. split.
  - intros (? & ? & ? & ->). fresh_solver.
  - intros ((? & ?) & (? & ?) & ? & ->). fresh_solver.
Qed.

(** [validateMenus] accepts a menu forest exactly when every node, at any
    depth, has a path and no two nodes share one. *)
Lemma validateMenus_spec l :
  is_ok (validateMenus l) = true <->
  Forall (.≠ "") (l ≫= menu_paths) /\ NoDup (l ≫= menu_paths).
Proof.
  rewrite is_ok_spec. unfold validateMenus.
  rewrite (res_fold_unique_ok _ menu_paths (fun n => Forall (.≠ "") (menu_paths n))).
  - by rewrite Forall_bind.
  - intros seen n seen'. apply menu_node_spec.
Qed.

(** ** What [Validate] promises *)

Record FilterOK (m : Manifest) (f : FilterDecl) : Prop := mkFilterOK {
  fo_phase : f_phase f ∈ knownPhases;
  fo_paths : Paths (f_match f) <> [];
  fo_compiles : exists s, CompileSet (Paths (f_match f)) = Ok s;
  fo_identity : f_phase f = PhaseAuthenticate -> PermFilterAuthenticate ∈ Permissions m;
  fo_timeout : (0 <= TimeoutMS f)%Z;
  fo_max_body : (0 <= MaxBodyBytes f)%Z;
  fo_cap_read : (0 < MaxBodyBytes f)%Z -> NeedsRequestBody f = true
}.

Record JobOK (j : JobDecl) : Prop := mkJobOK {
  jo_name : j_name j <> "";
  jo_cron : j_cron j <> "";
  jo_parses : exists s, ParseSchedule (j_cron j) = Ok s
}.

Record ConfigOK (c : ConfigDecl) : Prop := mkConfigOK {
  co_key : c_key c <> "";
  co_type : c_type c = "" \/ c_type c ∈ ConfigTypes
}.

Definition filter_keys (f : FilterDecl) : list string :=
  if String.eqb (f_name f) "" then [] else [f_name f].

Record WellFormed (m : Manifest) : Prop := mkWellFormed {
  wf_key : Key m <> "" /\ contains_any "/\. " (Key m) = false;
  wf_version : Version m <> "";
  wf_permissions : Forall (.∈ knownPermissions) (Permissions m);
  wf_filters : Forall (FilterOK m) (Filters m);
  wf_filter_names : NoDup (Filters m ≫= filter_keys);
  wf_jobs : Forall JobOK (Jobs m);
  wf_job_names : NoDup (j_name <$> Jobs m);
  wf_cron : Jobs m <> [] -> PermCron ∈ Permissions m;
  wf_egress : EgressAllow m <> [] -> PermHTTPEgress ∈ Permissions m;
  wf_replicas : (0 <= Replicas (mf_runtime m))%Z;
  wf_limits : length (Filters m) <= MaxFilters /\ length (Collections m) <= MaxCollections /\
              length (Jobs m) <= MaxJobs /\ length (Config m) <= MaxConfigKeys;
  wf_menus : forest_nodes (Menus m) <= MaxMenuNodes /\ S (forest_levels (Menus m)) <= MaxMenuDepth;
  wf_config : Forall ConfigOK (Config m);
  wf_config_keys : NoDup (c_key <$> Config m)
}.

Lemma mem_spec x l : mem x l = true <-> x ∈ l.
Proof.
  unfold mem. rewrite existsb_elem. split.
  - intros (a & Ha & ->%String.eqb_eq). done.
  - intros H. exists x. by rewrite String.eqb_refl.
Qed.

Lemma mem_false x l : mem x l = false <-> x ∉ l.
Proof. rewrite <- mem_spec. by destruct (mem x l). Qed.

Lemma nil_bool {A} (l : list A) `{!Decision (l = [])} :
  negb (bool_decide (l = [])) = true <-> l <> [].
Proof. by rewrite negb_true_iff, bool_decide_eq_false. Qed.

Lemma bind_single {A B} (g : A -> B) (l : list A) : l ≫= (fun x => [g x]) = g <$> l.
Proof. induction l as [|a l IH]; [done|]. rewrite bind_cons, IH. done. Qed.

Lemma check_filter_step m : unique_step (check_filter m) filter_keys (FilterOK m).
Proof.
  intros seen f seen'. unfold check_filter, filter_keys. split.
  - intros H. peel H. apply negb_false_iff, mem_spec in Hg. peel H. peel H.
    apply bool_decide_eq_false in Hg0.
    destruct (CompileSet _) as [s|] eqn:Ec; [|done]. peel_all H. injection H as <-. zbool.
    assert (FilterOK m f) as Hok.
    { split; [done..|by exists s| |lia|lia|].
      - intros Hp. apply mem_spec. rewrite Hp in Hg1. by destruct (HasPermission _ _) eqn:E.
      - intros Hm. destruct (NeedsRequestBody f); [done|]. simpl in Hg4. zbool.
        apply andb_false_iff in Hg4 as [?%Z.ltb_ge|]; [lia|done]. }
    split; [done|]. destruct (String.eqb_spec (f_name f) ""); simplify_eq/=.
    + fresh_solver.
    + peel Hr. apply bool_decide_eq_false in Hg5. simplify_eq/=. rewrite union_empty_r_L.
      fresh_solver.
  - intros ([Hph Hpa [s Hc] Hid Ht Hb Hcap] & _ & Hf & ->).
    rewrite (proj2 (mem_spec _ _) Hph), Hc. simpl. rewrite (bool_decide_eq_false_2 _ Hpa).
    assert (String.eqb (f_phase f) PhaseAuthenticate && negb (HasPermission m PermFilterAuthenticate)
            = false) as ->.
    { destruct (String.eqb_spec (f_phase f) PhaseAuthenticate) as [He|]; [|done].
      unfold HasPermission. by rewrite (proj2 (mem_spec _ _) (Hid He)). }
    rewrite (proj2 (Z.ltb_ge _ _) Ht), (proj2 (Z.ltb_ge _ _) Hb).
    assert ((0 <? MaxBodyBytes f)%Z && negb (NeedsRequestBody f) = false) as ->.
    { destruct (Z.ltb_spec 0 (MaxBodyBytes f)); [|done]. by rewrite Hcap. }
    destruct (String.eqb_spec (f_name f) ""); simpl; [by rewrite union_empty_l_L|].
    rewrite bool_decide_eq_false_2 by set_solver. simpl. by rewrite union_empty_r_L.
Qed.

Lemma check_job_step : unique_step check_job (fun j => [j_name j]) JobOK.
Proof.
  intros seen j seen'. unfold check_job. simpl. rewrite union_empty_r_L. split.
  - intros H. peel_all H. apply bool_decide_eq_false in Hg0.
    apply String.eqb_neq in Hg, Hg1.
    destruct (ParseSchedule _) as [s|] eqn:E; [|done]. injection H as <-.
    split; [split; eauto|]. fresh_solver.
  - intros ([Hn Hc [s Hs]] & _ & Hf & ->). apply String.eqb_neq in Hn, Hc.
    rewrite Hn, Hc, Hs. by rewrite bool_decide_eq_false_2 by set_solver.
Qed.

Lemma check_config_step : unique_step check_config (fun c => [c_key c]) ConfigOK.
Proof.
  intros seen c seen'. unfold check_config. simpl. rewrite union_empty_r_L. split.
  - intros H. peel_all H. apply bool_decide_eq_false in Hg0. apply String.eqb_neq in Hg.
    destruct (String.eqb_spec (c_type c) ""); [injection H as <-|].
    + split; [split; eauto|]. fresh_solver.
    + peel H. apply negb_false_iff, mem_spec in Hg1. injection H as <-.
      split; [split; eauto|]. fresh_solver.
  - intros ([Hn Ht] & _ & Hf & ->). apply String.eqb_neq in Hn. rewrite Hn.
    rewrite bool_decide_eq_false_2 by set_solver.
    destruct (String.eqb_spec (c_type c) ""); [done|]. destruct Ht as [|Ht]; [done|].
    by rewrite (proj2 (mem_spec _ _) Ht).
Qed.

Lemma check_perms_ok ps :
  (exists u, res_fold (fun _ p => reject? negb (mem p knownPermissions) with UnknownPermission p ;; Ok tt)
     tt ps = Ok u) <-> Forall (.∈ knownPermissions) ps.
Proof.
  induction ps as [|p ps IH]; cbn [res_fold].
  { split; [intros _; constructor|by eexists]. }
  rewrite list.Forall_cons, <- IH. destruct (mem p knownPermissions) eqn:E; cbn [negb res_bind].
  - apply mem_spec in E. naive_solver.
  - apply mem_false in E. naive_solver.
Qed.

Lemma perm_guard {A} (l : list A) `{!Decision (l = [])} m perm :
  negb (bool_decide (l = [])) && negb (HasPermission m perm) = false <->
  (l <> [] -> perm ∈ Permissions m).
Proof.
  unfold HasPermission. destruct (mem perm (Permissions m)) eqn:E.
  - apply mem_spec in E. rewrite andb_false_r. naive_solver.
  - apply mem_false in E. rewrite andb_true_r. case_bool_decide; naive_solver.
Qed.

(** [Validate] accepts exactly the well-formed manifests: a key that can be
    a path segment, known permissions, phases and setting types, patterns that
    compile, schedules that parse, unique filter, job and setting names,
    the permission behind every privileged declaration (an authenticate filter,
    a job, an egress host), and every declaration limit. *)
Lemma Validate_spec m : Validate m = Ok tt <-> WellFormed m.
Proof.
  unfold Validate. split.
  - intros H. peel_all H. clear H.
    apply String.eqb_neq in Hg, Hg1.
    pose proof (proj1 (check_perms_ok _) (ex_intro _ _ Hr)).
    destruct (proj1 (res_fold_unique_ok _ _ _ (check_filter_step m) _) (ex_intro _ _ Hr0)).
    destruct (proj1 (res_fold_unique_ok _ _ _ check_job_step _) (ex_intro _ _ Hr1)) as [? Hj].
    destruct (proj1 (res_fold_unique_ok _ _ _ check_config_step _) (ex_intro _ _ Hr3)) as [? Hc].
    rewrite bind_single in Hj. rewrite bind_single in Hc. apply checkMenuSize_ok in Hr2 as (_ & ? & ?).
    apply Nat.ltb_ge in Hg5, Hg6, Hg7, Hg8. apply Z.ltb_ge in Hg4.
    split; first [done | exact (proj1 (perm_guard _ _ _) Hg2) | exact (proj1 (perm_guard _ _ _) Hg3)].
  - intros [[Hk Hk'] Hv Hp Hf Hfn Hj Hjn Hcr He Hr (H1 & H2 & H3 & H4) [H5 H6] Hc Hcn].
    apply String.eqb_neq in Hk, Hv. rewrite <- bind_single in Hjn. rewrite <- bind_single in Hcn.
    rewrite Hk, Hk', Hv. destruct (proj2 (check_perms_ok _) Hp) as [? ->]. cbn [res_bind].
    destruct (proj2 (res_fold_unique_ok _ _ _ (check_filter_step m) _) (conj Hf Hfn)) as [? ->].
    cbn [res_bind].
    destruct (proj2 (res_fold_unique_ok _ _ _ check_job_step _) (conj Hj Hjn)) as [? ->].
    cbn [res_bind]. rewrite (proj2 (perm_guard (Jobs m) m PermCron) Hcr).
    rewrite (proj2 (perm_guard (EgressAllow m) m PermHTTPEgress) He).
    rewrite (proj2 (Z.ltb_ge _ _) Hr), !(proj2 (Nat.ltb_ge _ _)) by done.
    rewrite (proj2 (checkMenuSize_ok (Menus m) (forest_nodes (Menus m)))); [|done]. cbn [res_bind].
    by destruct (proj2 (res_fold_unique_ok _ _ _ check_config_step _) (conj Hc Hcn)) as [? ->].
Qed.

Lemma CompileFilters_ok m :
  Forall (FilterOK m) (Filters m) ->
  exists cs, CompileFilters m = Ok cs /\ (Decl <$> cs) = Filters m.
Proof.
  intros H. unfold CompileFilters. induction H as [|f fs [_ _ [s Hs] _ _ _ _] _ (cs & Hcs & Hd)]; simpl.
  { by exists []. }
  unfold CompileFilter at 1. rewrite Hs. simpl. rewrite Hcs. simpl.
  eexists. split; [done|]. by rewrite fmap_cons, Hd.
Qed.

(** ** Configuration and methods *)

Lemma ConfigDefaults_lookup cs (d0 : gmap string string) k :
  NoDup (c_key <$> cs) ->
  foldl (fun out c => if String.eqb (c_default c) "" then out
                      else <[c_key c := c_default c]> out) d0 cs !! k =
  match list_find (fun c => c_key c = k) cs with
  | Some (_, c) => if String.eqb (c_default c) "" then d0 !! k else Some (c_default c)
  | None => d0 !! k
  end.
Proof.
  revert d0. induction cs as [|c cs IH]; intros d0 Hn; [done|].
  rewrite fmap_cons in Hn. apply list.NoDup_cons in Hn as [Hnin Hn]. cbn [foldl list_find]. rewrite IH by done.
  destruct (decide (c_key c = k)) as [<-|Hne].
  - destruct (list_find _ cs) as [[i c']|] eqn:E.
    { apply list_find_Some in E as (Hi & Hk & _). destruct Hnin. rewrite <- Hk.
      apply list_elem_of_fmap_2. by apply list_elem_of_lookup_2 in Hi. }
    destruct (String.eqb (c_default c) ""); [done|]. by rewrite lookup_insert_eq.
  - destruct (list_find _ cs) as [[i c']|]; simpl.
    all: destruct (String.eqb (c_default c) ""); [done|]; by rewrite lookup_insert_ne.
Qed.

(** After [Validate], the map a plugin is handed holds for every setting the
    operator's value when there is one, the empty string included, and
    otherwise the declared default when it is not empty. *)
Lemma MergeConfig_spec m set k :
  Validate m = Ok tt ->
  MergeConfig m set !! k =
  match set !! k with
  | Some v => Some v
  | None => match list_find (fun c => c_key c = k) (Config m) with
            | Some (_, c) => if String.eqb (c_default c) "" then None else Some (c_default c)
            | None => None
            end
  end.
Proof.
  intros Hv. assert (NoDup (c_key <$> Config m)) as Hn.
  { unfold Validate in Hv. peel_all Hv.
    destruct (proj1 (res_fold_unique_ok _ _ _ check_config_step _) (ex_intro _ _ Hr3)) as [_ H].
    by rewrite bind_single in H. }
  pose proof (ConfigDefaults_lookup (Config m) ∅ k Hn) as Hl. fold (ConfigDefaults m) in Hl.
  rewrite lookup_empty in Hl. unfold MergeConfig. destruct (decide _) as [He|He].
  - rewrite He, lookup_empty in Hl. destruct (set !! k); [done|].
    destruct (list_find _ _) as [[? ?]|]; [|done]. done.
  - destruct (set !! k) eqn:E; [by apply lookup_union_Some_l|].
    by rewrite lookup_union_r, Hl by done.
Qed.

Definition demo_config : Manifest :=
  mkManifest "notes" "" "1.0.0" 0 (mkRuntime "" [] 0) [] [] [] [] [] []
    [mkConfigDecl "limit" "" "" "int" "10" false false;
     mkConfigDecl "greeting" "" "" "" "hi" false false].

Lemma normalizeMethods_go_spec ms set :
  let up := fun m => to_upper (trim_space m) in
  normalizeMethods_go set ms =
  if existsb (fun m => String.eqb (up m) "*" || String.eqb (up m) "") ms then None
  else Some (list_to_set (up <$> ms) ∪ set).
Proof.
  intros up. revert set. induction ms as [|m ms IH]; intros set; simpl.
  { by rewrite union_empty_l_L. }
  fold up. destruct (_ || _); [done|]. simpl. rewrite IH. destruct (existsb _ _); [done|].
  f_equal. set_solver.
Qed.

(** A compiled filter applies to a method when the declaration names no
    method, names "*" or an empty one, or names the method itself, case and
    surrounding space aside; and to a path when a declared pattern covers it. *)
Lemma CompileFilter_Matches f c method path :
  CompileFilter f = Ok c ->
  let up := fun m => to_upper (trim_space m) in
  let ms := up <$> Methods (f_match f) in
  Matches c method path = true <->
  (ms = [] \/ "*" ∈ ms \/ "" ∈ ms \/ method ∈ ms) /\ SetMatch (cf_paths c) path = true.
Proof.
  intros H up ms. unfold CompileFilter in H. peel H. injection H as <-.
  unfold Matches. rewrite andb_true_iff. simpl. f_equiv.
  unfold MatchesMethod, normalizeMethods. simpl. subst ms.
  destruct (Methods (f_match f)) as [|m0 ms] eqn:E; [naive_solver|].
  rewrite normalizeMethods_go_spec. fold up.
  destruct (existsb _ (m0 :: ms)) eqn:Ex.
  - apply existsb_elem in Ex as (m & Hm & Hor). split; [intros _|done]. right.
    apply orb_true_iff in Hor as [Hu|Hu]; apply String.eqb_eq in Hu; [left|right; left].
    all: rewrite <- Hu; by apply (list_elem_of_fmap_2 up).
  - rewrite bool_decide_eq_true, union_empty_r_L, elem_of_list_to_set.
    split; [by auto|]. intros [?|[Hs|[Hs|Hs]]]; [done| | |done].
    all: apply list_elem_of_fmap in Hs as (m & Hu & Hm).
    all: assert (existsb (fun m => String.eqb (up m) "*" || String.eqb (up m) "") (m0 :: ms) = true)
           as Ht by (apply existsb_elem; exists m; rewrite <- Hu; done).
    all: destruct (eq_true_false_abs _ Ht Ex).
Qed.
