(* ===== verification/Wire.v ===== *)
(** * Messages between Core and plugins, and core/pipeline/headers.go

    The protobuf messages of proto/plugin.proto as records, and the header
    conversions of the pipeline. A Go map that the source ranges over is an
    association list in the order the range visits it; every other map is a
    [gmap]. *)

From Stdlib Require Import Ascii.
From S2P Require Import Prelude GoStrings.

Notation Header := (gmap string (list string)).

Record Identity := mkIdentity { id_UserId : string; id_Username : string; id_Roles : list string }.

#[export] Instance Identity_eq_dec : EqDecision Identity.
Proof. solve_decision. Defined.

Record HttpRequest := mkHttpRequest {
  hr_TraceId : string; hr_Method : string; hr_Path : string; hr_Query : string;
  hr_Headers : Header; hr_Body : string; hr_Identity : option Identity; hr_ClientIp : string
}.

Record HttpResponse := mkHttpResponse {
  StatusCode : Z; rs_Headers : Header; rs_Body : string
}.

#[export] Instance HttpResponse_eq_dec : EqDecision HttpResponse.
Proof. solve_decision. Defined.

(** [pb.Phase] is an open enum: any int32 can arrive. *)
Definition Phase : Type := Z.
Definition PHASE_UNSPECIFIED : Phase := 0%Z.
Definition PHASE_PRE_ROUTE : Phase := 1%Z.
Definition PHASE_AUTHENTICATE : Phase := 2%Z.
Definition PHASE_AUTHORIZE : Phase := 3%Z.
Definition PHASE_PRE_HANDLER : Phase := 4%Z.
Definition PHASE_POST_HANDLER : Phase := 5%Z.
Definition PHASE_ON_ERROR : Phase := 6%Z.
Definition PHASE_LOG : Phase := 7%Z.

Record FilterRequest := mkFilterRequest {
  fr_TraceId : string; fr_Phase : Phase; fr_Method : string; fr_Path : string; fr_Query : string;
  fr_Headers : Header; fr_ClientIp : string; fr_Identity : option Identity; fr_Body : string;
  fr_UpstreamStatus : Z; fr_UpstreamHeaders : Header; fr_UpstreamBody : string;
  fr_Context : gmap string string; fr_ElapsedMicros : Z; fr_FilterName : string
}.

Definition header_edits : Type := list (string * list string).

Record RequestMutation := mkRequestMutation {
  SetRequestHeaders : header_edits;
  RemoveRequestHeaders : list string;
  SetResponseHeaders : header_edits;
  RemoveResponseHeaders : list string;
  RewritePath : string;
  SetIdentity : option Identity;
  SetContext : list (string * string)
}.

Inductive Action := ACTION_CONTINUE | ACTION_SHORT_CIRCUIT | ACTION_MUTATE.

Record FilterResponse := mkFilterResponse {
  fr_Action : Action;
  ShortCircuitResponse : option HttpResponse;
  Mutation : option RequestMutation
}.

(** ** http.CanonicalHeaderKey *)

Definition is_letter (a : ascii) : bool :=
  let n := nat_of_ascii a in
  (Nat.leb 65 n && Nat.leb n 90) || (Nat.leb 97 n && Nat.leb n 122).
Definition is_digit (a : ascii) : bool :=
  let n := nat_of_ascii a in Nat.leb 48 n && Nat.leb n 57.

(** The token characters of RFC 7230. *)
Definition valid_header_byte (a : ascii) : bool :=
  is_letter a || is_digit a || has_byte a "!#$%&'*+-.^_`|~".

Fixpoint string_forall (f : ascii -> bool) (s : string) : bool :=
  match s with
  | EmptyString => true
  | String a s' => f a && string_forall f s'
  end.

Fixpoint canon_go (upper : bool) (s : string) : string :=
  match s with
  | EmptyString => ""
  | String a s' => String (if upper then upper_ascii a else lower_ascii a)
                          (canon_go (Ascii.eqb a "-"%char) s')
  end.

Definition CanonicalHeaderKey (s : string) : string :=
  if string_forall valid_header_byte s then canon_go true s else s.

(** ** headers.go *)

(** The wire map holds the same keys and values, each list wrapped in a
    message of its own. *)
Definition ToProtoHeaders (h : Header) : Header := h.

(** The wire map is ranged over, so two keys with one canonical form leave the
    values of whichever came last. *)
Definition FromProtoHeaders (l : header_edits) : Header :=
  foldl (fun out kv => <[CanonicalHeaderKey kv.1 := kv.2]> out) ∅ l.

Definition Header_Del (k : string) (h : Header) : Header := delete (CanonicalHeaderKey k) h.

Definition Header_Get (h : Header) (k : string) : string :=
  match h !! CanonicalHeaderKey k with
  | Some (v :: _) => v
  | _ => ""
  end.

Definition Header_Set (k v : string) (h : Header) : Header := <[CanonicalHeaderKey k := [v]]> h.

Definition Header_Add (h : Header) (k v : string) : Header :=
  let k := CanonicalHeaderKey k in <[k := default [] (h !! k) ++ [v]]> h.

Definition applyHeaderMutation (h : Header) (set : header_edits) (remove : list string) : Header :=
  let h := foldl (fun h k => Header_Del k h) h remove in
  foldl (fun h kv => <[CanonicalHeaderKey kv.1 := kv.2]> h) h set.

(** ** Facts *)

Lemma upper_upper a : upper_ascii (upper_ascii a) = upper_ascii a.
Proof. destruct a as [[] [] [] [] [] [] [] []]; reflexivity. Qed.
Lemma lower_lower a : lower_ascii (lower_ascii a) = lower_ascii a.
Proof. destruct a as [[] [] [] [] [] [] [] []]; reflexivity. Qed.
Lemma upper_dash a : Ascii.eqb (upper_ascii a) "-" = Ascii.eqb a "-".
Proof. destruct a as [[] [] [] [] [] [] [] []]; reflexivity. Qed.
Lemma lower_dash a : Ascii.eqb (lower_ascii a) "-" = Ascii.eqb a "-".
Proof. destruct a as [[] [] [] [] [] [] [] []]; reflexivity. Qed.
Lemma upper_valid a : valid_header_byte (upper_ascii a) = valid_header_byte a.
Proof. destruct a as [[] [] [] [] [] [] [] []]; reflexivity. Qed.
Lemma lower_valid a : valid_header_byte (lower_ascii a) = valid_header_byte a.
Proof. destruct a as [[] [] [] [] [] [] [] []]; reflexivity. Qed.

Lemma canon_go_idem u s : canon_go u (canon_go u s) = canon_go u s.
Proof.
  revert u. induction s as [|a s IH]; intros u; simpl; [done|]. destruct u.
  - by rewrite upper_upper, upper_dash, IH.
  - by rewrite lower_lower, lower_dash, IH.
Qed.

Lemma canon_go_valid u s :
  string_forall valid_header_byte (canon_go u s) = string_forall valid_header_byte s.
Proof.
  revert u. induction s as [|a s IH]; intros u; simpl; [done|]. rewrite IH.
  destruct u; [by rewrite upper_valid|by rewrite lower_valid].
Qed.

Lemma CanonicalHeaderKey_idem s : CanonicalHeaderKey (CanonicalHeaderKey s) = CanonicalHeaderKey s.
Proof.
  unfold CanonicalHeaderKey at 2 3. destruct (string_forall valid_header_byte s) eqn:E.
  - unfold CanonicalHeaderKey. by rewrite canon_go_valid, E, canon_go_idem.
  - unfold CanonicalHeaderKey. by rewrite E.
Qed.

Lemma delete_all_lookup (h : Header) ks k :
  foldl (fun h k => Header_Del k h) h ks !! k =
  if decide (k ∈ CanonicalHeaderKey <$> ks) then None else h !! k.
Proof.
  revert h. induction ks as [|k' ks IH]; intros h; [done|].
  change (foldl (fun h k => Header_Del k h) (Header_Del k' h) ks !! k =
          if decide (k ∈ CanonicalHeaderKey k' :: (CanonicalHeaderKey <$> ks)) then None else h !! k).
  rewrite IH. clear IH. generalize (CanonicalHeaderKey <$> ks). intros l. unfold Header_Del.
  generalize (CanonicalHeaderKey k'). intros c.
  destruct (decide (k ∈ l)), (decide (k ∈ c :: l)); [done|set_solver| |].
  - assert (k = c) as -> by set_solver. apply lookup_delete_eq.
  - apply lookup_delete_ne. set_solver.
Qed.

(** The edits with their keys in canonical form. *)
Definition canon_edits (l : header_edits) : list (string * list string) :=
  (fun kv => (CanonicalHeaderKey kv.1, kv.2)) <$> l.

Lemma insert_all_map (l : header_edits) (h : Header) :
  foldl (fun h kv => <[CanonicalHeaderKey kv.1 := kv.2]> h) h l =
  list_to_map (reverse (canon_edits l)) ∪ h.
Proof.
  revert h. induction l as [|[k v] l IH]; intros h.
  { symmetry. apply (left_id_L ∅ (∪)). }
  cbn [foldl fst snd].
  change (canon_edits ((k, v) :: l)) with ((CanonicalHeaderKey k, v) :: canon_edits l).
  rewrite reverse_cons.
  rewrite IH, list_to_map_app, <- (assoc_L (∪)). f_equal.
  cbn [list_to_map foldr fst snd]. rewrite insert_empty. apply insert_union_singleton_l.
Qed.

(** Provided no two edits name the same header, the order in which the range
    visits them does not matter. *)
Lemma insert_all_perm (l l' : header_edits) (h : Header) :
  l ≡ₚ l' -> NoDup (canon_edits l).*1 ->
  foldl (fun h kv => <[CanonicalHeaderKey kv.1 := kv.2]> h) h l =
  foldl (fun h kv => <[CanonicalHeaderKey kv.1 := kv.2]> h) h l'.
Proof.
  intros Hp Hn. rewrite !insert_all_map. f_equal. apply list_to_map_proper.
  - by rewrite fmap_reverse, reverse_Permutation.
  - rewrite !reverse_Permutation. unfold canon_edits. by rewrite Hp.
Qed.

(** [applyHeaderMutation] removes before it sets, so a header in both lists
    is replaced; every set header carries exactly the filter's values; a removed
    header that is not set is gone; every other header is untouched. The result
    does not depend on the order of the range as long as no two set headers
    share a canonical name. *)
Lemma applyHeaderMutation_spec h set remove k :
  NoDup (canon_edits set).*1 ->
  (forall v, (k, v) ∈ canon_edits set -> applyHeaderMutation h set remove !! k = Some v) /\
  (k ∉ (canon_edits set).*1 ->
     applyHeaderMutation h set remove !! k =
     if decide (k ∈ CanonicalHeaderKey <$> remove) then None else h !! k) /\
  (forall set', set ≡ₚ set' -> applyHeaderMutation h set' remove = applyHeaderMutation h set remove).
Proof.
  intros Hn. unfold applyHeaderMutation. split; [|split].
  - intros v Hv. rewrite insert_all_map. apply lookup_union_Some_l.
    apply elem_of_list_to_map.
    + by rewrite fmap_reverse, reverse_Permutation.
    + by rewrite elem_of_reverse.
  - intros Hk. rewrite insert_all_map, lookup_union_r, delete_all_lookup; [done|].
    apply not_elem_of_list_to_map. by rewrite fmap_reverse, elem_of_reverse.
  - intros set' Hp. symmetry. by apply insert_all_perm.
Qed.

(** A round trip through the wire keeps a header map whose keys are canonical,
    as [http.Header]'s are. *)
Lemma FromTo_headers (h : Header) :
  (forall k, is_Some (h !! k) -> CanonicalHeaderKey k = k) ->
  FromProtoHeaders (map_to_list (ToProtoHeaders h)) = h.
Proof.
  intros Hc. unfold FromProtoHeaders, ToProtoHeaders. rewrite insert_all_map, (right_id_L ∅ (∪)).
  assert (canon_edits (map_to_list h) = map_to_list h) as ->.
  { unfold canon_edits. rewrite <- (list_fmap_id (map_to_list h)) at 2.
    apply list_fmap_ext. intros i [k v] Hi. simpl. f_equal. apply Hc.
    apply list_elem_of_lookup_2, elem_of_map_to_list in Hi. by eexists. }
  transitivity (list_to_map (M := gmap string _) (map_to_list h)).
  - apply list_to_map_proper.
    + rewrite fmap_reverse, reverse_Permutation. apply NoDup_fst_map_to_list.
    + apply reverse_Permutation.
  - apply list_to_map_to_list.
Qed.
