(* ===== verification/Chain.v ===== *)
(** * core/pipeline/chain.go: the per-phase filter table

    [BuildChain] turns the declarations of every plugin into one ordered list of
    filters per phase. The theorems show that each phase holds exactly the
    filters declared for it, in the documented order, and that the table, and
    what it says of bodies, does not depend on the order in which the plugins
    are presented. *)

From S2P Require Import Prelude GoStrings PathMatch Manifest Wire StableSort.

Definition phaseCount : nat := 8.

Record Defaults := mkDefaults { d_Timeout : Z; d_MaxBodyBytes : Z }.

Definition Millisecond : Z := 1000000.

Definition DefaultDefaults : Defaults := mkDefaults (50 * Millisecond) (2 ^ 20).

Record Filter := mkFilter {
  PluginKey : string;
  flt_Name : string;
  flt_Order : Z;
  flt_match : CompiledFilter;
  flt_Timeout : Z;
  MaxBody : Z;
  AllowIdentityMutation : bool
}.

Definition flt_Decl (f : Filter) : FilterDecl := Decl (flt_match f).

Definition FilterMatches (f : Filter) (method path : string) : bool :=
  Matches (flt_match f) method path.

Definition Label (f : Filter) : string :=
  if negb (String.eqb (flt_Name f) "") then PluginKey f +:+ "/" +:+ flt_Name f
  else PluginKey f +:+ "/" +:+ f_phase (flt_Decl f).

Record PluginFilters := mkPluginFilters {
  pf_Key : string;
  pf_Filters : list CompiledFilter;
  pf_AllowIdentityMutation : bool
}.

Record Chain := mkChain {
  phases : list (list Filter);
  anyNeedsRequestBody : bool;
  maxRequestBody : Z;
  anyNeedsResponseBody : bool
}.

Definition EmptyChain : Chain := mkChain (replicate phaseCount []) false 0 false.

Definition phaseFromName (name : string) : option Phase :=
  if String.eqb name "pre_route" then Some PHASE_PRE_ROUTE
  else if String.eqb name "authenticate" then Some PHASE_AUTHENTICATE
  else if String.eqb name "authorize" then Some PHASE_AUTHORIZE
  else if String.eqb name "pre_handler" then Some PHASE_PRE_HANDLER
  else if String.eqb name "post_handler" then Some PHASE_POST_HANDLER
  else if String.eqb name "on_error" then Some PHASE_ON_ERROR
  else if String.eqb name "log" then Some PHASE_LOG
  else None.

Inductive chain_error := UnknownFilterPhase (plugin phase : string).

(** The [Filter] value one declaration becomes. *)
Definition mk_filter (defaults : Defaults) (p : PluginFilters) (cf : CompiledFilter) : Filter :=
  let d := Decl cf in
  mkFilter (pf_Key p) (f_name d) (f_order d) cf
    (if (0 <? TimeoutMS d)%Z then int64 (TimeoutMS d * Millisecond) else d_Timeout defaults)
    (if (0 <? MaxBodyBytes d)%Z then MaxBodyBytes d else d_MaxBodyBytes defaults)
    (pf_AllowIdentityMutation p).

Definition add_filter (defaults : Defaults) (p : PluginFilters) (c : Chain) (cf : CompiledFilter)
    : result chain_error Chain :=
  match phaseFromName (f_phase (Decl cf)) with
  | None => Err (UnknownFilterPhase (pf_Key p) (f_phase (Decl cf)))
  | Some phase =>
      let f := mk_filter defaults p cf in
      let needs := NeedsRequestBody (Decl cf) in
      Ok (mkChain
            (alter (fun fs => fs ++ [f]) (Z.to_nat phase) (phases c))
            (if needs then true else anyNeedsRequestBody c)
            (if needs && (maxRequestBody c <? MaxBody f)%Z then MaxBody f else maxRequestBody c)
            (if NeedsResponseBody (Decl cf) then true else anyNeedsResponseBody c))
  end.

Definition filter_less (a b : Filter) : bool :=
  if negb (Z.eqb (flt_Order a) (flt_Order b)) then (flt_Order a <? flt_Order b)%Z
  else if negb (String.eqb (PluginKey a) (PluginKey b)) then String.ltb (PluginKey a) (PluginKey b)
  else String.ltb (flt_Name a) (flt_Name b).

Definition fill_defaults (d : Defaults) : Defaults :=
  mkDefaults (if (d_Timeout d <=? 0)%Z then d_Timeout DefaultDefaults else d_Timeout d)
             (if (d_MaxBodyBytes d <=? 0)%Z then d_MaxBodyBytes DefaultDefaults else d_MaxBodyBytes d).

Definition BuildChain (plugins : list PluginFilters) (defaults : Defaults) : result chain_error Chain :=
  let defaults := fill_defaults defaults in
  let? c := res_fold (fun c p => res_fold (add_filter defaults p) c (pf_Filters p)) EmptyChain plugins in
  Ok (mkChain (sort_stable filter_less <$> phases c)
        (anyNeedsRequestBody c) (maxRequestBody c) (anyNeedsResponseBody c)).

Definition ChainFilters (c : Chain) (phase : Phase) : list Filter :=
  if ((phase <? 0) || (Z.of_nat phaseCount <=? phase))%Z then []
  else default [] (phases c !! Z.to_nat phase).

Definition HasPhase (c : Chain) (phase : Phase) : bool :=
  ((0 <=? phase) && (phase <? Z.of_nat phaseCount))%Z &&
  match default [] (phases c !! Z.to_nat phase) with [] => false | _ => true end.

Definition ChainLen (c : Chain) : nat := sum_list (length <$> phases c).

(** ** The table before sorting *)

(** What a plugin contributes to a phase, in declaration order. *)
Definition contribution (d : Defaults) (phase : Phase) (p : PluginFilters) : list Filter :=
  mk_filter d p <$> filter (fun cf => phaseFromName (f_phase (Decl cf)) = Some phase) (pf_Filters p).

Definition known_phases (p : PluginFilters) : Prop :=
  Forall (fun cf => is_Some (phaseFromName (f_phase (Decl cf)))) (pf_Filters p).

Lemma phaseFromName_range name phase :
  phaseFromName name = Some phase -> (1 <= phase < Z.of_nat phaseCount)%Z.
Proof.
  unfold phaseFromName. repeat (case_match; [intros [= <-]; by vm_compute|]). done.
Qed.

Lemma phaseFromName_known name : is_Some (phaseFromName name) <-> name ∈ knownPhases.
Proof.
  unfold phaseFromName, knownPhases, PhaseAuthenticate. split.
  - repeat (match goal with |- context [if String.eqb name ?x then _ else _] =>
              destruct (String.eqb_spec name x) as [->|] end; [intros _; by repeat constructor|]).
    intros [? [=]].
  - intros H. repeat (apply elem_of_cons in H as [->|H]; [by eexists|]). by apply not_elem_of_nil in H.
Qed.

(** The filters of phase number [i]. *)
Definition row (c : Chain) (i : nat) : list Filter := default [] (phases c !! i).

Lemma add_filter_row d p c cf c' (phase : Phase) :
  (0 <= phase)%Z -> length (phases c) = phaseCount -> add_filter d p c cf = Ok c' ->
  length (phases c') = phaseCount /\
  row c' (Z.to_nat phase) = row c (Z.to_nat phase) ++
    (mk_filter d p <$> filter (fun cf => phaseFromName (f_phase (Decl cf)) = Some phase) [cf]).
Proof.
  intros H0 Hl. unfold add_filter, row. destruct (phaseFromName _) as [ph|] eqn:E; [|done].
  intros [= <-]. simpl. split; [by rewrite length_alter|].
  apply phaseFromName_range in E as Hr. rewrite filter_cons, filter_nil.
  destruct (decide (ph = phase)) as [->|Hne].
  - rewrite decide_True by done. rewrite list_lookup_alter_eq.
    assert (Z.to_nat phase < length (phases c)) as [fs Hfs]%lookup_lt_is_Some_2 by lia.
    by rewrite Hfs.
  - rewrite decide_False by congruence. rewrite list_lookup_alter_ne by lia. by rewrite app_nil_r.
Qed.

Lemma add_filters_row d p cfs c c' (phase : Phase) :
  (0 <= phase)%Z -> length (phases c) = phaseCount -> res_fold (add_filter d p) c cfs = Ok c' ->
  length (phases c') = phaseCount /\
  row c' (Z.to_nat phase) = row c (Z.to_nat phase) ++
    (mk_filter d p <$> filter (fun cf => phaseFromName (f_phase (Decl cf)) = Some phase) cfs).
Proof.
  intros H0. revert c. induction cfs as [|cf cfs IH]; intros c Hl H; cbn [res_fold] in H.
  { injection H as <-. split; [done|]. by rewrite filter_nil, app_nil_r. }
  peel H. apply (add_filter_row _ _ _ _ _ phase) in Hr as [Hl1 Hr1]; [|done..].
  apply IH in H as [Hl2 Hr2]; [|done]. split; [done|].
  rewrite Hr2, Hr1, <- app_assoc, <- fmap_app, <- list.filter_app. done.
Qed.

Lemma add_plugins_row d ps c c' (phase : Phase) :
  (0 <= phase)%Z -> length (phases c) = phaseCount ->
  res_fold (fun c p => res_fold (add_filter d p) c (pf_Filters p)) c ps = Ok c' ->
  length (phases c') = phaseCount /\
  row c' (Z.to_nat phase) = row c (Z.to_nat phase) ++ (ps ≫= contribution d phase).
Proof.
  intros H0. revert c. induction ps as [|p ps IH]; intros c Hl H; cbn [res_fold] in H.
  { injection H as <-. split; [done|]. by rewrite app_nil_r. }
  peel H. apply (add_filters_row _ _ _ _ _ phase) in Hr as [Hl1 Hr1]; [|done..].
  apply IH in H as [Hl2 Hr2]; [|done]. split; [done|].
  by rewrite Hr2, Hr1, <- app_assoc, bind_cons.
Qed.

(** ** The order of a phase *)

Definition filter_key (f : Filter) : Z * (string * string) := (flt_Order f, (PluginKey f, flt_Name f)).

Definition key_lt : Z * (string * string) -> Z * (string * string) -> bool :=
  lex Z.ltb (lex String.ltb String.ltb).

Lemma filter_less_key a b : filter_less a b = key_lt (filter_key a) (filter_key b).
Proof.
  unfold filter_less, key_lt, lex, filter_key. simpl.
  destruct (Z.eqb_spec (flt_Order a) (flt_Order b)); [rewrite decide_True by done|by rewrite decide_False].
  simpl. destruct (String.eqb_spec (PluginKey a) (PluginKey b)); [by rewrite decide_True|by rewrite decide_False].
Qed.

(** The documented order: by declared order, then plugin key, then name. *)
Definition runs_before (a b : Filter) : Prop :=
  key_lt (filter_key b) (filter_key a) = false.

Lemma EmptyChain_row i : default [] (phases EmptyChain !! i) = [].
Proof.
  unfold EmptyChain. cbn [phases]. destruct (_ !! i) eqn:E; [|done].
  by apply lookup_replicate in E as [-> _].
Qed.

Lemma BuildChain_row ps d c (phase : Phase) :
  BuildChain ps d = Ok c -> (0 <= phase < Z.of_nat phaseCount)%Z ->
  ChainFilters c phase = sort_stable filter_less (ps ≫= contribution (fill_defaults d) phase).
Proof.
  unfold BuildChain. intros H Hp. peel H. injection H as <-.
  apply (add_plugins_row _ _ _ _ phase) in Hr as [Hl Hr]; [|lia|done].
  unfold ChainFilters. rewrite (proj2 (Z.ltb_ge _ _)) by lia.
  rewrite (proj2 (Z.leb_gt _ _)) by lia. cbn [orb phases].
  rewrite list_lookup_fmap. unfold row in Hr.
  assert (Z.to_nat phase < length (phases r)) as [fs Hfs]%lookup_lt_is_Some_2 by lia.
  rewrite EmptyChain_row, Hfs in Hr. rewrite Hfs. simpl in *. by rewrite Hr.
Qed.

(** Each phase of a built chain holds exactly the filters the plugins
    declared for it, each with the plugin's key and identity permission, sorted
    by declared order, then plugin key, then name; filters that tie on all three
    keep their declaration order. *)
Lemma BuildChain_spec ps d c (phase : Phase) :
  BuildChain ps d = Ok c -> (0 <= phase < Z.of_nat phaseCount)%Z ->
  let declared := ps ≫= contribution (fill_defaults d) phase in
  ChainFilters c phase ≡ₚ declared /\
  StronglySorted runs_before (ChainFilters c phase) /\
  (forall k, filter (fun f => filter_key f = k) (ChainFilters c phase) =
             filter (fun f => filter_key f = k) declared).
Proof.
  intros H Hp declared. rewrite (BuildChain_row _ _ _ _ H Hp). fold declared. split; [|split].
  - apply sort_stable_perm.
  - pose proof (sort_stable_sorted filter_less filter_key key_lt filter_less_key declared) as Hs.
    unfold in_order in Hs. induction Hs as [|f l Hs IH Hf]; constructor; [done|].
    eapply list.Forall_impl; [exact Hf|]. intros g. unfold runs_before. by rewrite filter_less_key.
  - intros k. apply (sort_stable_stable filter_less filter_key key_lt filter_less_key).
Qed.

Lemma contribution_key d phase p f : f ∈ contribution d phase p -> PluginKey f = pf_Key p.
Proof. unfold contribution. intros (cf & -> & _)%list_elem_of_fmap. done. Qed.

Lemma filter_none {A} (P : A -> Prop) `{!forall x, Decision (P x)} (l : list A) :
  (forall x, x ∈ l -> ~ P x) -> filter P l = [].
Proof.
  induction l as [|x l IH]; intros Hl; [done|]. rewrite filter_cons, decide_False by (apply Hl; by left).
  apply IH. intros y Hy. apply Hl. by right.
Qed.

(** Filters of one plugin come from that plugin alone. *)
Lemma with_key_bind d phase ps o key name :
  NoDup (pf_Key <$> ps) ->
  with_key filter_key (o, (key, name)) (ps ≫= contribution d phase) =
  match list_find (fun p => pf_Key p = key) ps with
  | Some (_, p) => with_key filter_key (o, (key, name)) (contribution d phase p)
  | None => []
  end.
Proof.
  unfold with_key. induction ps as [|p ps IH]; intros Hn; [done|].
  rewrite fmap_cons in Hn. apply list.NoDup_cons in Hn as [Hnin Hn].
  rewrite bind_cons, list.filter_app, IH by done. clear IH. cbn [list_find].
  destruct (decide (pf_Key p = key)) as [He|He].
  - destruct (list_find _ ps) as [[i p']|] eqn:E; [|by rewrite app_nil_r].
    apply list_find_Some in E as (Hi & Hk & _). destruct Hnin. rewrite He, <- Hk.
    apply list_elem_of_fmap_2. by apply list_elem_of_lookup_2 in Hi.
  - replace (filter _ (contribution d phase p)) with (@nil Filter).
    + by destruct (list_find _ ps) as [[? ?]|].
    + symmetry. apply filter_none. intros f Hf Hk. apply contribution_key in Hf.
      apply He. rewrite <- Hf. by injection Hk.
Qed.

Lemma list_find_perm {A} (key : A -> string) k l l' :
  NoDup (key <$> l) -> l ≡ₚ l' ->
  snd <$> list_find (fun p => key p = k) l = snd <$> list_find (fun p => key p = k) l'.
Proof.
  intros Hn Hp. assert (NoDup (key <$> l')) as Hn' by by rewrite <- Hp.
  assert (forall l x y, NoDup (key <$> l) -> x ∈ l -> y ∈ l -> key x = key y -> x = y) as Hinj.
  { clear. induction l as [|z l IH]; intros x y Hn Hx Hy Hk; [by apply not_elem_of_nil in Hx|].
    rewrite fmap_cons in Hn. apply list.NoDup_cons in Hn as [Hz Hn].
    assert (forall w, w ∈ l -> key w <> key z) as Hw.
    { intros w Hw He. apply Hz. rewrite <- He. by apply list_elem_of_fmap_2. }
    apply elem_of_cons in Hx as [->|Hx], Hy as [->|Hy]; [done| | |by apply IH].
    - by destruct (Hw y Hy).
    - by destruct (Hw x Hx). }
  destruct (list_find _ l) as [[i x]|] eqn:E; simpl.
  - apply list_find_Some in E as (Hi & Hk & _). apply list_elem_of_lookup_2 in Hi.
    assert (x ∈ l') as Hx by by rewrite <- Hp.
    destruct (list_find_elem_of (fun p => key p = k) l' x Hx Hk) as [[j y] Ej]. rewrite Ej. simpl.
    apply list_find_Some in Ej as (Hj & Hk' & _). apply list_elem_of_lookup_2 in Hj.
    f_equal. apply (Hinj l'); congruence.
  - apply list_find_None in E. rewrite Hp in E.
    by rewrite (proj2 (list_find_None (fun p => key p = k) l') E).
Qed.

(** *** What the chain records beside its phases *)

Definition flags (c : Chain) : bool * Z * bool := (anyNeedsRequestBody c, maxRequestBody c, anyNeedsResponseBody c).

(** Over the filters, in any order: whether one needs request bodies, the
    largest cap of those that do, whether one needs response bodies. *)
Definition bump (x : bool * Z * bool) (f : Filter) : bool * Z * bool :=
  let '(req, m, resp) := x in
  (req || NeedsRequestBody (flt_Decl f), if NeedsRequestBody (flt_Decl f) then Z.max m (MaxBody f) else m,
   resp || NeedsResponseBody (flt_Decl f)).

Lemma bump_comm x f g : bump (bump x f) g = bump (bump x g) f.
Proof.
  destruct x as [[req m] resp]. unfold bump. f_equal; [f_equal|].
  - by rewrite <- !orb_assoc, (orb_comm (NeedsRequestBody (flt_Decl f))).
  - destruct (NeedsRequestBody (flt_Decl f)), (NeedsRequestBody (flt_Decl g)); lia.
  - by rewrite <- !orb_assoc, (orb_comm (NeedsResponseBody (flt_Decl f))).
Qed.

Lemma bump_perm l l' : l ≡ₚ l' -> forall x, foldl bump x l = foldl bump x l'.
Proof.
  induction 1 as [|f l l' _ IH|f g l|l1 l2 l3 _ IH1 _ IH2]; intros x; simpl; [done|apply IH|by rewrite bump_comm|].
  by rewrite IH1.
Qed.

Lemma add_filters_flags d p cfs c c' :
  res_fold (add_filter d p) c cfs = Ok c' -> flags c' = foldl bump (flags c) (mk_filter d p <$> cfs).
Proof.
  revert c. induction cfs as [|cf cfs IH]; intros c H; cbn [res_fold] in H; [by injection H as <-|].
  peel H. rewrite (IH _ H), fmap_cons. cbn [foldl]. f_equal. unfold add_filter in Hr. destruct (phaseFromName _); [|done].
  clear IH H. apply Ok_inj in Hr as <-. assert (flt_Decl (mk_filter d p cf) = Decl cf) as Hd by done. revert Hd.
  generalize (mk_filter d p cf) as f. intros f Hd. unfold flags, bump. rewrite Hd.
  cbn [anyNeedsRequestBody maxRequestBody anyNeedsResponseBody].
  assert (forall b x : bool, (if b then true else x) = x || b) as Hb by (intros [] []; done). rewrite !Hb.
  do 2 f_equal. destruct (NeedsRequestBody (Decl cf)); cbn [andb]; [|done].
  destruct (Z.ltb_spec (maxRequestBody c) (MaxBody f)); lia.
Qed.

Definition all_filters (d : Defaults) (ps : list PluginFilters) : list Filter :=
  ps ≫= fun p => mk_filter d p <$> pf_Filters p.

Lemma add_plugins_flags d ps c c' :
  res_fold (fun c p => res_fold (add_filter d p) c (pf_Filters p)) c ps = Ok c' ->
  flags c' = foldl bump (flags c) (all_filters d ps).
Proof.
  revert c. induction ps as [|p ps IH]; intros c H; cbn [res_fold] in H; [by injection H as <-|].
  peel H. rewrite (IH _ H), (add_filters_flags _ _ _ _ _ Hr). unfold all_filters. by rewrite bind_cons, foldl_app.
Qed.

Lemma add_filters_ok d p cfs c :
  is_ok (res_fold (add_filter d p) c cfs) = true <->
  Forall (fun cf => is_Some (phaseFromName (f_phase (Decl cf)))) cfs.
Proof.
  revert c. induction cfs as [|cf cfs IH]; intros c; cbn [res_fold].
  { split; [constructor|done]. }
  rewrite list.Forall_cons. unfold add_filter at 1.
  destruct (phaseFromName (f_phase (Decl cf))) as [ph|]; cbn [res_bind].
  - rewrite IH. split; [intros ?; split; [by eexists|done]|naive_solver].
  - split; [done|]. by intros [[? [=]] _].
Qed.

Lemma BuildChain_ok ps d : is_ok (BuildChain ps d) = true <-> Forall known_phases ps.
Proof.
  unfold BuildChain. set (dd := fill_defaults d). generalize EmptyChain as c.
  induction ps as [|p ps IH]; intros c; cbn [res_fold]; [by split|].
  rewrite list.Forall_cons. pose proof (add_filters_ok dd p (pf_Filters p) c) as Hp. fold (known_phases p) in Hp.
  destruct (res_fold (add_filter dd p) c (pf_Filters p)) as [c1|e]; cbn [res_bind].
  - rewrite IH. split; [intros ?; split; [by apply Hp|done]|by intros [_ ?]].
  - split; [done|]. intros [H _]. by apply Hp in H.
Qed.

Lemma BuildChain_flags ps d c :
  BuildChain ps d = Ok c ->
  length (phases c) = phaseCount /\ flags c = foldl bump (flags EmptyChain) (all_filters (fill_defaults d) ps).
Proof.
  unfold BuildChain. intros H. peel H. injection H as <-. cbn [phases].
  pose proof (add_plugins_row (fill_defaults d) ps EmptyChain r 0%Z ltac:(lia) eq_refl Hr) as [Hl _].
  split; [by rewrite length_fmap|]. by rewrite <- (add_plugins_flags _ _ _ _ Hr).
Qed.

Lemma BuildChain_phase ps ps' d c c' (phase : Phase) :
  NoDup (pf_Key <$> ps) -> ps ≡ₚ ps' ->
  BuildChain ps d = Ok c -> BuildChain ps' d = Ok c' -> (0 <= phase < Z.of_nat phaseCount)%Z ->
  ChainFilters c phase = ChainFilters c' phase.
Proof.
  intros Hn Hp H H' Hr. rewrite (BuildChain_row _ _ _ _ H Hr), (BuildChain_row _ _ _ _ H' Hr).
  apply (sort_stable_unique filter_less filter_key key_lt filter_less_key).
  intros [o [key name]]. assert (NoDup (pf_Key <$> ps')) as Hn' by by rewrite <- Hp.
  rewrite !with_key_bind by done.
  pose proof (list_find_perm pf_Key key ps ps' Hn Hp) as Hf.
  destruct (list_find _ ps) as [[? ?]|], (list_find _ ps') as [[? ?]|]; simpl in Hf; congruence.
Qed.

(** C36. The chain is a function of the set of plugins. Presenting the same
    plugins (with distinct keys) in another order, as ranging over a map does,
    fails or succeeds alike, and gives the same chain: every phase the same
    filters in the same order, and the same answers to whether bodies have to
    be read, and how much of them. *)
Theorem BuildChain_deterministic ps ps' d :
  NoDup (pf_Key <$> ps) -> ps ≡ₚ ps' ->
  match BuildChain ps d, BuildChain ps' d with
  | Ok c, Ok c' => c = c'
  | Err _, Err _ => True
  | _, _ => False
  end.
Proof.
  intros Hn Hp. pose proof (BuildChain_ok ps d) as Hok. pose proof (BuildChain_ok ps' d) as Hok'.
  assert (Forall known_phases ps <-> Forall known_phases ps') as Hk by by rewrite Hp.
  rewrite <- Hk, <- Hok in Hok'. clear Hok Hk.
  destruct (BuildChain ps d) as [c|e] eqn:H, (BuildChain ps' d) as [c'|e'] eqn:H'; simpl in Hok'; try done.
  - destruct (BuildChain_flags _ _ _ H) as [Hl Hf], (BuildChain_flags _ _ _ H') as [Hl' Hf'].
    assert (all_filters (fill_defaults d) ps ≡ₚ all_filters (fill_defaults d) ps') as Ha by (unfold all_filters; by rewrite Hp).
    rewrite <- (bump_perm _ _ Ha), <- Hf in Hf'.
    assert (phases c = phases c') as Hph.
    { apply list_eq_same_length with (n := phaseCount); [done..|]. intros i x y Hi Hx Hy.
      pose proof (BuildChain_phase ps ps' d c c' (Z.of_nat i) Hn Hp H H' ltac:(lia)) as E.
      unfold ChainFilters in E. rewrite (proj2 (Z.ltb_ge _ _)), (proj2 (Z.leb_gt _ _)) in E by lia.
      simpl orb in E. cbv iota in E. rewrite Nat2Z.id, Hx, Hy in E. exact E. }
    destruct c, c'. unfold flags in Hf'. simpl in *. congruence.
  - discriminate (proj2 Hok' eq_refl).
  - discriminate (proj1 Hok' eq_refl).
Qed.

Definition demo_filter (name phase : string) (order : Z) : CompiledFilter :=
  mkCompiledFilter (mkFilterDecl name phase (mkFilterMatch ["/**"] []) order true 0 true false 4096)
    (mkPSet [mkPattern "/**" kindAll "" [] false] true) None.

Definition demo_plugins : list PluginFilters :=
  [mkPluginFilters "waf" [demo_filter "a" "pre_route" 10; demo_filter "b" "pre_route" 5] false;
   mkPluginFilters "auth" [demo_filter "a" "pre_route" 10] true].

Lemma BuildChain_deterministic_witness :
  exists c, BuildChain demo_plugins DefaultDefaults = Ok c /\ BuildChain (rev demo_plugins) DefaultDefaults = Ok c.
Proof.
  pose proof (BuildChain_deterministic demo_plugins (rev demo_plugins) DefaultDefaults
    ltac:(apply (bool_decide_unpack _); vm_compute; exact I) (Permutation_rev _)) as H.
  destruct (BuildChain demo_plugins DefaultDefaults) as [c|e] eqn:E; [|vm_compute in E; discriminate E].
  exists c. split; [reflexivity|].
  destruct (BuildChain (rev demo_plugins) DefaultDefaults) as [c'|]; [by rewrite H|destruct H].
Defined.

(** ** Bodies and errors *)

(** [BuildChain] fails only on a phase name it does not know, and a manifest
    that passed [Validate] has none: every filter it declares compiles and a
    chain can be built from any set of validated manifests. *)
Lemma BuildChain_total (ms : list Manifest) d :
  Forall (fun m => Validate m = Ok tt) ms ->
  exists css c, Forall2 (fun m cs => CompileFilters m = Ok cs) ms css /\
    BuildChain (zip_with (fun m cs => mkPluginFilters (Key m) cs
                  (HasPermission m PermFilterAuthenticate)) ms css) d = Ok c.
Proof.
  intros H.
  assert (exists css, Forall2 (fun m cs => CompileFilters m = Ok cs /\
            Forall (fun cf => is_Some (phaseFromName (f_phase (Decl cf)))) cs) ms css) as [css Hc].
  { induction H as [|m ms Hm _ [css IH]]; [by exists []|].
    assert (Forall (FilterOK m) (Filters m)) as Hf.
    { unfold Validate in Hm. peel_all Hm.
      by destruct (proj1 (res_fold_unique_ok _ _ _ (check_filter_step m) _) (ex_intro _ _ Hr0)). }
    destruct (CompileFilters_ok m Hf) as (cs & Hcs & Hd). exists (cs :: css). constructor; [|done].
    split; [done|]. rewrite <- Hd, Forall_fmap in Hf. eapply list.Forall_impl; [exact Hf|].
    intros cf [Hph _ _ _ _ _ _]. by apply phaseFromName_known. }
  exists css. unfold BuildChain. clear H. generalize EmptyChain as c0.
  induction Hc as [|m cs ms css [Hm Hcs] _ IH]; intros c0.
  { eexists. split; [constructor|done]. }
  cbn [zip_with res_fold pf_Filters].
  pose proof (proj2 (add_filters_ok (fill_defaults d)
    (mkPluginFilters (Key m) cs (HasPermission m PermFilterAuthenticate)) cs c0) Hcs) as Hok.
  apply is_ok_spec in Hok as [c1 ->]. cbn [res_bind].
  destruct (IH c1) as (c & Hf & Hb). exists c. split; [by constructor|done].
Qed.

(** Over the filters that ask for the request body, [maxRequestBody] is the
    largest cap, so the gateway buffers enough for every one of them. *)
Lemma add_filter_body d p c cf c' :
  add_filter d p c cf = Ok c' ->
  (maxRequestBody c <= maxRequestBody c')%Z /\
  (anyNeedsRequestBody c = true -> anyNeedsRequestBody c' = true) /\
  (NeedsRequestBody (Decl cf) = true ->
     anyNeedsRequestBody c' = true /\ (MaxBody (mk_filter d p cf) <= maxRequestBody c')%Z).
Proof.
  unfold add_filter. destruct (phaseFromName _); [|done]. generalize (mk_filter d p cf) as f.
  intros f [= <-]. cbn [maxRequestBody anyNeedsRequestBody]. destruct (NeedsRequestBody (Decl cf)); cbn [andb].
  - destruct (Z.ltb_spec (maxRequestBody c) (MaxBody f)).
    all: split; [lia|]. all: split; [done|]. all: intros _; split; [done|lia].
  - split; [lia|]. by split.
Qed.

Definition body_covered (c : Chain) (f : Filter) : Prop :=
  NeedsRequestBody (flt_Decl f) = true ->
  anyNeedsRequestBody c = true /\ (MaxBody f <= maxRequestBody c)%Z.

Definition body_grows (c c' : Chain) : Prop :=
  (maxRequestBody c <= maxRequestBody c')%Z /\
  (anyNeedsRequestBody c = true -> anyNeedsRequestBody c' = true).

#[export] Instance body_grows_preorder : PreOrder body_grows.
Proof.
  split.
  - intros c. by split.
  - intros c1 c2 c3 [? ?] [? ?]. split; [lia|auto].
Qed.

Lemma body_covered_grows c c' f : body_grows c c' -> body_covered c f -> body_covered c' f.
Proof. intros [? ?] Hc Hn. destruct (Hc Hn). split; [auto|lia]. Qed.

Lemma add_filters_body d p cfs c c' :
  res_fold (add_filter d p) c cfs = Ok c' ->
  body_grows c c' /\ Forall (fun cf => body_covered c' (mk_filter d p cf)) cfs.
Proof.
  revert c. induction cfs as [|cf cfs IH]; intros c H; cbn [res_fold] in H.
  { injection H as <-. split; [done|constructor]. }
  peel H. apply add_filter_body in Hr as (H1 & H2 & H3). destruct (IH _ H) as [Hg Hf].
  split; [by transitivity r|]. constructor; [|done].
  apply (body_covered_grows r); [done|]. exact H3.
Qed.

(** The buffering decision of a chain covers every filter in it: when a
    filter of any phase asks for the request body, the chain says bodies are
    needed and its limit is at least that filter's own. *)
Lemma BuildChain_body ps d c (phase : Phase) f :
  BuildChain ps d = Ok c -> f ∈ ChainFilters c phase -> body_covered c f.
Proof.
  intros H Hf.
  assert (0 <= phase < Z.of_nat phaseCount)%Z as Hp.
  { unfold ChainFilters in Hf. destruct (_ || _) eqn:E; [by apply not_elem_of_nil in Hf|]. zbool. lia. }
  rewrite (BuildChain_row _ _ _ _ H Hp), sort_stable_perm in Hf.
  unfold BuildChain in H. peel H. injection H as <-. clear Hp.
  assert (body_covered r f) as Hc; [|done]. revert Hr. generalize EmptyChain as c0.
  induction ps as [|p ps IH]; intros c0 Hr; [by apply not_elem_of_nil in Hf|].
  cbn [res_fold] in Hr. peel Hr. rewrite bind_cons in Hf. apply elem_of_app in Hf as [Hf|Hf]; [|by eapply IH].
  apply add_filters_body in Hr0 as [_ Hall].
  unfold contribution in Hf. apply list_elem_of_fmap in Hf as (cf & -> & [_ Hcf]%list_elem_of_filter).
  apply (body_covered_grows r0); [|by apply (proj1 (list.Forall_forall _ _) Hall)].
  clear -Hr. revert r0 Hr. induction ps as [|p ps IH]; intros c Hr; cbn [res_fold] in Hr.
  - by injection Hr as <-.
  - peel Hr. apply add_filters_body in Hr0 as [Hg _]. etransitivity; [exact Hg|]. by apply IH.
Qed.
