(* ===== verification/Pipeline.v ===== *)
(** * core/pipeline/context.go and runner.go: running the filters of a request

    The pipeline reaches plugins through the interfaces [Target] and [Resolver]
    of runner.go, here the class [TargetOps] over a type [W] of host states and
    a type [T] of targets. [TargetLaws] is what the pipeline relies on about
    in-flight accounting; the plugin host discharges it in Registry.v. A release
    function returned by [Begin] is represented by the target it releases. *)

From S2P Require Import Prelude GoStrings PathMatch Manifest Wire Chain.

(** ** Interfaces *)

Class TargetOps (W T : Type) := {
  t_now : W -> Z; (** nanoseconds *)
  t_Target : string -> W -> option T * W;
  t_Filter : T -> Z -> FilterRequest -> W -> option FilterResponse * W;
  t_Allow : T -> W -> bool * W;
  t_RecordSuccess : T -> W -> W;
  t_RecordFailure : T -> W -> W;
  t_Begin : T -> W -> bool * W;
  t_Release : T -> W -> W
}.

(** In-flight accounting: a successful [Begin] adds one to its own target, the
    matching release takes it back, and nothing else touches the counts, which
    are int64. *)
Class TargetLaws (W T : Type) `{TargetOps W T} `{EqDecision T} := {
  t_inflight : T -> W -> Z;
  tl_target : forall k w t, t_inflight t (t_Target k w).2 = t_inflight t w;
  tl_filter : forall t' d q w t, t_inflight t (t_Filter t' d q w).2 = t_inflight t w;
  tl_allow : forall t' w t, t_inflight t (t_Allow t' w).2 = t_inflight t w;
  tl_success : forall t' w t, t_inflight t (t_RecordSuccess t' w) = t_inflight t w;
  tl_failure : forall t' w t, t_inflight t (t_RecordFailure t' w) = t_inflight t w;
  tl_begin : forall t' w t,
    t_inflight t (t_Begin t' w).2 =
    int64 (t_inflight t w + if (t_Begin t' w).1 then (if decide (t' = t) then 1 else 0) else 0);
  tl_release : forall t' w t,
    t_inflight t (t_Release t' w) = int64 (t_inflight t w - if decide (t' = t) then 1 else 0);
  tl_range : forall t w, in_int64 (t_inflight t w)
}.

(** ** RequestContext *)

Record RequestContext (T : Type) := mkRC {
  TraceID : string;
  Method : string;
  Path : string;
  Query : string;
  ClientIP : string;
  rc_Header : Header;
  rc_Identity : option Identity;
  Values : gmap string string;
  RequestBody : string;
  ResponseStatus : Z;
  ResponseHeader : Header;
  ResponseBody : string;
  startedAt : Z;
  protoHeaders : option Header;
  admissions : gmap string T
}.
Arguments mkRC {T}.
Arguments TraceID {T}. Arguments Method {T}. Arguments Path {T}. Arguments Query {T}.
Arguments ClientIP {T}. Arguments rc_Header {T}. Arguments rc_Identity {T}. Arguments Values {T}.
Arguments RequestBody {T}. Arguments ResponseStatus {T}. Arguments ResponseHeader {T}.
Arguments ResponseBody {T}. Arguments startedAt {T}. Arguments protoHeaders {T}.
Arguments admissions {T}.

Section context.
Context {T : Type}.
Implicit Types rc : RequestContext T.

(** Field assignments. *)
Definition set_Header (h : Header) (proto : option Header) rc : RequestContext T :=
  mkRC (TraceID rc) (Method rc) (Path rc) (Query rc) (ClientIP rc) h (rc_Identity rc) (Values rc)
    (RequestBody rc) (ResponseStatus rc) (ResponseHeader rc) (ResponseBody rc) (startedAt rc)
    proto (admissions rc).
Definition set_Path (p : string) rc : RequestContext T :=
  mkRC (TraceID rc) (Method rc) p (Query rc) (ClientIP rc) (rc_Header rc) (rc_Identity rc)
    (Values rc) (RequestBody rc) (ResponseStatus rc) (ResponseHeader rc) (ResponseBody rc)
    (startedAt rc) (protoHeaders rc) (admissions rc).
Definition set_Identity (i : option Identity) rc : RequestContext T :=
  mkRC (TraceID rc) (Method rc) (Path rc) (Query rc) (ClientIP rc) (rc_Header rc) i (Values rc)
    (RequestBody rc) (ResponseStatus rc) (ResponseHeader rc) (ResponseBody rc) (startedAt rc)
    (protoHeaders rc) (admissions rc).
Definition SetValue (k v : string) rc : RequestContext T :=
  mkRC (TraceID rc) (Method rc) (Path rc) (Query rc) (ClientIP rc) (rc_Header rc) (rc_Identity rc)
    (<[k := v]> (Values rc)) (RequestBody rc) (ResponseStatus rc) (ResponseHeader rc)
    (ResponseBody rc) (startedAt rc) (protoHeaders rc) (admissions rc).
Definition set_RequestBody (b : string) rc : RequestContext T :=
  mkRC (TraceID rc) (Method rc) (Path rc) (Query rc) (ClientIP rc) (rc_Header rc) (rc_Identity rc)
    (Values rc) b (ResponseStatus rc) (ResponseHeader rc) (ResponseBody rc)
    (startedAt rc) (protoHeaders rc) (admissions rc).
Definition set_Response (status : Z) (h : Header) (b : string) rc : RequestContext T :=
  mkRC (TraceID rc) (Method rc) (Path rc) (Query rc) (ClientIP rc) (rc_Header rc) (rc_Identity rc)
    (Values rc) (RequestBody rc) status h b (startedAt rc) (protoHeaders rc) (admissions rc).
Definition set_admissions (a : gmap string T) rc : RequestContext T :=
  mkRC (TraceID rc) (Method rc) (Path rc) (Query rc) (ClientIP rc) (rc_Header rc) (rc_Identity rc)
    (Values rc) (RequestBody rc) (ResponseStatus rc) (ResponseHeader rc) (ResponseBody rc)
    (startedAt rc) (protoHeaders rc) a.

Definition NewRequestContext (traceID method path rawQuery clientIP : string) (h : Header) (now : Z)
    : RequestContext T :=
  mkRC traceID method path rawQuery clientIP h None ∅ "" 0 ∅ "" now None ∅.

Definition ForAsync rc : RequestContext T :=
  mkRC (TraceID rc) (Method rc) (Path rc) (Query rc) (ClientIP rc) (rc_Header rc) (rc_Identity rc)
    (Values rc) (RequestBody rc) (ResponseStatus rc) (ResponseHeader rc) (ResponseBody rc)
    (startedAt rc) None ∅.

Definition isResponsePhase (phase : Phase) : bool :=
  (phase =? PHASE_POST_HANDLER)%Z || (phase =? PHASE_ON_ERROR)%Z || (phase =? PHASE_LOG)%Z.

Definition identityMutationAllowed (phase : Phase) : bool :=
  (phase =? PHASE_AUTHENTICATE)%Z || (phase =? PHASE_AUTHORIZE)%Z.

(** Returns the headers in wire form and the context with the cache filled. An
    empty map converts to nil and so stays uncached. *)
Definition wireHeaders rc : Header * RequestContext T :=
  match protoHeaders rc with
  | Some h => (h, rc)
  | None =>
      let h := ToProtoHeaders (rc_Header rc) in
      (h, if decide (h = ∅) then rc else set_Header (rc_Header rc) (Some h) rc)
  end.

Definition buildFilterRequest (phase : Phase) (f : Filter) (now : Z) rc
    : FilterRequest * RequestContext T :=
  let '(hs, rc) := wireHeaders rc in
  let d := flt_Decl f in
  let resp := isResponsePhase phase in
  (mkFilterRequest (TraceID rc) phase (Method rc) (Path rc) (Query rc) hs (ClientIP rc)
     (rc_Identity rc)
     (if NeedsRequestBody d then RequestBody rc else "")
     (if resp then int32 (ResponseStatus rc) else 0%Z)
     (if resp then ToProtoHeaders (ResponseHeader rc) else ∅)
     (if resp && NeedsResponseBody d then ResponseBody rc else "")
     (Values rc) ((now - startedAt rc) `quot` 1000)%Z (f_name d),
   rc).

Definition applyMutation (m : option RequestMutation) (phase : Phase) (allowIdentity : bool) rc
    : RequestContext T :=
  match m with
  | None => rc
  | Some m =>
      let rc := set_Header (applyHeaderMutation (rc_Header rc) (SetRequestHeaders m)
                              (RemoveRequestHeaders m)) None rc in
      let rc := if isResponsePhase phase then
                  set_Response (ResponseStatus rc)
                    (applyHeaderMutation (ResponseHeader rc) (SetResponseHeaders m)
                       (RemoveResponseHeaders m)) (ResponseBody rc) rc
                else rc in
      let rc := if negb (String.eqb (RewritePath m) "") && negb (isResponsePhase phase)
                then set_Path (RewritePath m) rc else rc in
      let rc := match SetIdentity m with
                | Some id => if allowIdentity then set_Identity (Some id) rc else rc
                | None => rc
                end in
      foldl (fun rc kv => SetValue kv.1 kv.2 rc) rc (SetContext m)
  end.
End context.

Section runner.
Context {W T : Type} `{OPS : TargetOps W T}.
Implicit Types (rc : RequestContext T) (w : W).

(** The second and later calls for a plugin reuse the first admission. *)
Definition Admit (pluginKey : string) (t : T) rc w : bool * RequestContext T * W :=
  match admissions rc !! pluginKey with
  | Some _ => (true, rc, w)
  | None =>
      let '(ok, w) := t_Begin t w in
      if ok then (true, set_admissions (<[pluginKey := t]> (admissions rc)) rc, w)
      else (false, rc, w)
  end.

(** The range visits the admissions in some order; [map_to_list] is one. *)
Definition ReleaseAdmissions rc w : RequestContext T * W :=
  (set_admissions ∅ rc, foldl (fun w kt => t_Release kt.2 w) w (map_to_list (admissions rc))).

(** What [OnFilterError] is told. *)
Inductive filter_problem :=
| BodyTooLarge | PluginNotRunning | PluginDraining | FilterCallFailed
| NoShortCircuitResponse | IdentityRefused.

(** Request, host and the failures reported so far. *)
Record run_state := mkRun { rn_rc : RequestContext T; rn_w : W; rn_log : list (string * filter_problem) }.

Definition report (f : Filter) (p : filter_problem) (s : run_state) : run_state :=
  mkRun (rn_rc s) (rn_w s) (rn_log s ++ [(Label f, p)]).

Definition failure (f : Filter) (status : Z) (message : string) : option HttpResponse :=
  if negb (FailClosed (flt_Decl f)) then None
  else Some (mkHttpResponse (int32 status)
               {["Content-Type" := ["text/plain; charset=utf-8"]]} message).

Definition body_len (s : string) : Z := Z.of_nat (String.length s).

Definition runOne (phase : Phase) (f : Filter) (s : run_state) : option HttpResponse * run_state :=
  let rc := rn_rc s in
  if NeedsRequestBody (flt_Decl f) && (MaxBody f <? body_len (RequestBody rc))%Z then
    (failure f 413 ("request body too large for filter " +:+ Label f), report f BodyTooLarge s)
  else
  match t_Target (PluginKey f) (rn_w s) with
  | (None, w) =>
      (failure f 503 ("plugin " +:+ PluginKey f +:+ " is unavailable"),
       report f PluginNotRunning (mkRun rc w (rn_log s)))
  | (Some target, w) =>
  match t_Allow target w with
  | (false, w) =>
      (failure f 503 ("plugin " +:+ PluginKey f +:+ " is unhealthy"), mkRun rc w (rn_log s))
  | (true, w) =>
  match Admit (PluginKey f) target rc w with
  | (false, rc, w) =>
      (failure f 503 ("plugin " +:+ PluginKey f +:+ " is draining"),
       report f PluginDraining (mkRun rc w (rn_log s)))
  | (true, rc, w) =>
  let '(req, rc) := buildFilterRequest phase f (t_now w) rc in
  match t_Filter target (flt_Timeout f) req w with
  | (None, w) =>
      (failure f 503 ("filter " +:+ Label f +:+ " failed"),
       report f FilterCallFailed (mkRun rc (t_RecordFailure target w) (rn_log s)))
  | (Some resp, w) =>
  let s := mkRun rc (t_RecordSuccess target w) (rn_log s) in
  match fr_Action resp with
  | ACTION_SHORT_CIRCUIT =>
      match ShortCircuitResponse resp with
      | None => (None, report f NoShortCircuitResponse s)
      | Some sc => (Some sc, s)
      end
  | ACTION_MUTATE =>
      let allowIdentity := AllowIdentityMutation f && identityMutationAllowed phase in
      let refused := match m ← Mutation resp; SetIdentity m with
                     | Some _ => negb allowIdentity
                     | None => false
                     end in
      let s := if refused then report f IdentityRefused s else s in
      (None, mkRun (applyMutation (Mutation resp) phase allowIdentity (rn_rc s)) (rn_w s) (rn_log s))
  | ACTION_CONTINUE => (None, s)
  end
  end
  end
  end
  end.

Fixpoint run_filters (phase : Phase) (fs : list Filter) (s : run_state)
    : option HttpResponse * run_state :=
  match fs with
  | [] => (None, s)
  | f :: fs =>
      if negb (FilterMatches f (Method (rn_rc s)) (Path (rn_rc s))) then run_filters phase fs s
      else match runOne phase f s with
           | (Some resp, s) => (Some resp, s)
           | (None, s) => run_filters phase fs s
           end
  end.

Definition Run (chain : Chain) (phase : Phase) (s : run_state) : option HttpResponse * run_state :=
  if negb (HasPhase chain phase) then (None, s) else run_filters phase (ChainFilters chain phase) s.

(** The body of the goroutine [RunAsync] starts: the phase, then the release
    of what it admitted. *)
Definition RunAsync (chain : Chain) (phase : Phase) rc w : W * list (string * filter_problem) :=
  if negb (HasPhase chain phase) then (w, [])
  else
    let s := (Run chain phase (mkRun rc w [])).2 in
    ((ReleaseAdmissions (rn_rc s) (rn_w s)).2, rn_log s).
End runner.
Arguments run_state : clear implicits.

(** ** What one filter can do *)

(** The request as filters and backend see it; the header cache and the
    admissions are bookkeeping. *)
Definition same_request {T} (a b : RequestContext T) : Prop :=
  TraceID a = TraceID b /\ Method a = Method b /\ Path a = Path b /\ Query a = Query b /\
  ClientIP a = ClientIP b /\ rc_Header a = rc_Header b /\ rc_Identity a = rc_Identity b /\
  Values a = Values b /\ RequestBody a = RequestBody b /\ ResponseStatus a = ResponseStatus b /\
  ResponseHeader a = ResponseHeader b /\ ResponseBody a = ResponseBody b /\ startedAt a = startedAt b.

#[export] Instance same_request_equiv {T} : Equivalence (@same_request T).
Proof.
  split.
  - intros a. by repeat split.
  - intros a b H. repeat split; symmetry; apply H.
  - intros a b c Hab Hbc. repeat split; (etransitivity; [apply Hab|apply Hbc]).
Qed.

(** The cached wire form describes the current headers. *)
Definition coherent {T} (rc : RequestContext T) : Prop :=
  forall h, protoHeaders rc = Some h -> h = ToProtoHeaders (rc_Header rc).

Section runner_facts.
Context {W T : Type} `{OPS : TargetOps W T}.
Implicit Types (rc : RequestContext T) (w : W) (s : run_state W T).

Lemma same_set_admissions a rc : same_request rc (set_admissions a rc).
Proof using. by repeat split. Qed.

Lemma coherent_same (a b : RequestContext T) :
  same_request a b -> protoHeaders b = protoHeaders a -> coherent a -> coherent b.
Proof using.
  intros Hs Hp Hc h Hh. rewrite Hp in Hh. rewrite (Hc h Hh). f_equal. apply Hs.
Qed.

Lemma Admit_same k t rc w ok rc' w' :
  Admit k t rc w = (ok, rc', w') -> same_request rc rc' /\ protoHeaders rc' = protoHeaders rc.
Proof using.
  unfold Admit. destruct (admissions rc !! k); [by intros [= <- <- <-]|].
  destruct (t_Begin t w) as [[] ?]; intros [= <- <- <-]; split; done || apply same_set_admissions.
Qed.

Lemma buildFilterRequest_same phase f now rc req rc' :
  buildFilterRequest phase f now rc = (req, rc') -> same_request rc rc' /\ admissions rc' = admissions rc.
Proof using.
  unfold buildFilterRequest, wireHeaders. destruct (protoHeaders rc); [by intros [= _ <-]|].
  case_decide; by intros [= _ <-].
Qed.

(** The message a filter receives describes the request as it stands, with
    bodies only for a filter that declared it needs them and response data
    only in the phases after the backend. *)
Definition describes (phase : Phase) (f : Filter) rc (req : FilterRequest) : Prop :=
  fr_TraceId req = TraceID rc /\ fr_Phase req = phase /\ fr_Method req = Method rc /\
  fr_Path req = Path rc /\ fr_Query req = Query rc /\ fr_ClientIp req = ClientIP rc /\
  fr_Headers req = ToProtoHeaders (rc_Header rc) /\
  fr_Identity req = rc_Identity rc /\ fr_Context req = Values rc /\
  fr_FilterName req = f_name (flt_Decl f) /\
  fr_Body req = (if NeedsRequestBody (flt_Decl f) then RequestBody rc else "") /\
  fr_UpstreamBody req =
    (if isResponsePhase phase && NeedsResponseBody (flt_Decl f) then ResponseBody rc else "") /\
  fr_UpstreamStatus req = (if isResponsePhase phase then int32 (ResponseStatus rc) else 0%Z) /\
  fr_UpstreamHeaders req = (if isResponsePhase phase then ResponseHeader rc else ∅).

Lemma describes_same phase f (a b : RequestContext T) req :
  same_request a b -> describes phase f b req -> describes phase f a req.
Proof using.
  unfold same_request, describes.
  intros (-> & -> & -> & -> & -> & -> & -> & -> & -> & -> & -> & -> & _). done.
Qed.

Lemma buildFilterRequest_headers phase f now rc req rc' :
  coherent rc -> buildFilterRequest phase f now rc = (req, rc') ->
  describes phase f rc req /\ coherent rc'.
Proof using.
  unfold buildFilterRequest, wireHeaders, coherent, describes. intros Hc.
  destruct (protoHeaders rc) as [h|] eqn:E.
  - intros [= <- <-]. simpl. rewrite E. rewrite (Hc h eq_refl). by repeat split; intros ? [= <-].
  - case_decide; intros [= <- <-]; simpl.
    + rewrite E. by repeat split.
    + by repeat split; intros ? [= <-].
Qed.

(** The two ways a filter call can end: Core answers for the filter because it
    could not be asked, or the plugin was asked and its decision is applied. *)
Definition not_asked (f : Filter) s (o : option HttpResponse) s' : Prop :=
  exists status msg, o = failure f status msg /\ (status = 413 \/ status = 503)%Z /\
    same_request (rn_rc s) (rn_rc s') /\ (coherent (rn_rc s) -> coherent (rn_rc s')).

(** [f]'s own plugin gives the answer [resp] to the request as it stands in
    [s]: its body is within the filter's limit; the target is the one the
    resolver has for the filter's plugin; its breaker allows the call; the
    request is admitted on it; the message describes the request; and the
    success is recorded. [rc'] is the request afterwards, [w'] the host. *)
Definition answers (phase : Phase) (f : Filter) s (resp : FilterResponse) rc' w' : Prop :=
  exists target req rc1 w1 w2 w3 w4,
    (NeedsRequestBody (flt_Decl f) = true -> (body_len (RequestBody (rn_rc s)) <= MaxBody f)%Z) /\
    t_Target (PluginKey f) (rn_w s) = (Some target, w1) /\
    t_Allow target w1 = (true, w2) /\
    Admit (PluginKey f) target (rn_rc s) w2 = (true, rc1, w3) /\
    t_Filter target (flt_Timeout f) req w3 = (Some resp, w4) /\
    w' = t_RecordSuccess target w4 /\
    admissions rc' = admissions rc1 /\ same_request (rn_rc s) rc' /\
    (coherent (rn_rc s) -> describes phase f (rn_rc s) req /\ coherent rc').

(** What becomes of the request [rc] under the answer [resp]. *)
Definition decides (phase : Phase) (f : Filter) (resp : FilterResponse) rc (o : option HttpResponse) rc' : Prop :=
  match fr_Action resp with
  | ACTION_SHORT_CIRCUIT => o = ShortCircuitResponse resp /\ rc' = rc
  | ACTION_MUTATE =>
      o = None /\
      rc' = applyMutation (Mutation resp) phase (AllowIdentityMutation f && identityMutationAllowed phase) rc
  | ACTION_CONTINUE => o = None /\ rc' = rc
  end.

Definition asked (phase : Phase) (f : Filter) s (o : option HttpResponse) s' : Prop :=
  exists resp rc, answers phase f s resp rc (rn_w s') /\ decides phase f resp rc o (rn_rc s').

Ltac skipped :=
  intros [= <- <-]; left; eexists _, _; split; [reflexivity|]; split; [by auto|];
  split; [first [assumption | reflexivity]|first [assumption | done]].

Lemma runOne_cases phase f s o s' :
  runOne phase f s = (o, s') -> not_asked f s o s' \/ asked phase f s o s'.
Proof using.
  unfold runOne, not_asked, asked, answers, decides.
  destruct (_ && (_ <? _)%Z) eqn:Hbody. { by skipped. }
  assert (NeedsRequestBody (flt_Decl f) = true -> (body_len (RequestBody (rn_rc s)) <= MaxBody f)%Z) as Hlim.
  { intros Hn. rewrite Hn in Hbody. simpl in Hbody. lia. }
  destruct (t_Target _ _) as [[t|] w1] eqn:Ht.
  2: { by skipped. }
  destruct (t_Allow t w1) as [[] w2] eqn:Hall.
  2: { by skipped. }
  destruct (Admit _ t (rn_rc s) w2) as [[ok rc1] w3] eqn:Ha.
  pose proof (Admit_same _ _ _ _ _ _ _ Ha) as [Hs1 Hp1].
  pose proof (coherent_same _ _ Hs1 Hp1) as Hc1. destruct ok.
  2: { by skipped. }
  destruct (buildFilterRequest phase f (t_now w3) rc1) as [req rc2] eqn:Hb.
  pose proof (buildFilterRequest_same _ _ _ _ _ _ Hb) as [Hs2 Had].
  assert (same_request (rn_rc s) rc2) as Hs by by transitivity rc1.
  assert (coherent (rn_rc s) -> describes phase f (rn_rc s) req /\ coherent rc2) as Hd.
  { intros Hc. apply buildFilterRequest_headers in Hb as [Hd Hc2]; [split; [|done]|by auto].
    by apply (describes_same _ _ _ rc1). }
  assert (coherent (rn_rc s) -> coherent rc2) as Hc2 by (intros; by apply Hd).
  destruct (t_Filter t (flt_Timeout f) req w3) as [[resp|] w4] eqn:Hf.
  2: { by skipped. }
  intros H. right. exists resp, rc2. split.
  - exists t, req, rc1, w1, w2, w3, w4. do 5 (split; [done|]). split; [|done].
    destruct (fr_Action resp); [|destruct (ShortCircuitResponse resp)|destruct (match _ with Some _ => _ | None => false end)];
      by injection H as <- <-.
  - destruct (fr_Action resp).
    + by injection H as <- <-.
    + destruct (ShortCircuitResponse resp); by injection H as <- <-.
    + injection H as <- <-. by destruct (match _ with Some _ => _ | None => false end).
Qed.

(** *** Mutations *)

Lemma set_values_same rc l :
  let rc' := foldl (fun rc kv => SetValue kv.1 kv.2 rc) rc l in
  rc' = mkRC (TraceID rc) (Method rc) (Path rc) (Query rc) (ClientIP rc) (rc_Header rc)
          (rc_Identity rc) (Values rc') (RequestBody rc) (ResponseStatus rc) (ResponseHeader rc)
          (ResponseBody rc) (startedAt rc) (protoHeaders rc) (admissions rc).
Proof using.
  simpl. revert rc. induction l as [|kv l IH]; intros rc; [by destruct rc|].
  cbn [foldl]. rewrite IH at 1. done.
Qed.

(** What a mutation may change, by phase. *)
Record gated (phase : Phase) (may_identify : Prop) (a b : RequestContext T) : Prop := mkGated {
  g_trace : TraceID b = TraceID a;
  g_method : Method b = Method a;
  g_query : Query b = Query a;
  g_client : ClientIP b = ClientIP a;
  g_body : RequestBody b = RequestBody a;
  g_status : ResponseStatus b = ResponseStatus a;
  g_resp_body : ResponseBody b = ResponseBody a;
  g_path : isResponsePhase phase = true -> Path b = Path a;
  g_resp_header : isResponsePhase phase = false -> ResponseHeader b = ResponseHeader a;
  g_identity : rc_Identity b = rc_Identity a \/ may_identify
}.

Lemma gated_trans phase P a b c : gated phase P a b -> gated phase P b c -> gated phase P a c.
Proof using.
  intros [? ? ? ? ? ? ? Hp Hh Hi] [? ? ? ? ? ? ? Hp' Hh' Hi']. split; try congruence.
  - intros H. by rewrite Hp', Hp.
  - intros H. by rewrite Hh', Hh.
  - destruct Hi as [Hi|]; [|by right]. destruct Hi' as [Hi'|]; [left; congruence|by right].
Qed.

Lemma gated_same phase P a b : same_request a b -> gated phase P a b.
Proof using.
  intros (? & ? & ? & ? & ? & ? & ? & ? & ? & ? & ? & ? & ?). split; try by intros; congruence.
  left. congruence.
Qed.

Lemma gated_impl phase (P Q : Prop) a b : (P -> Q) -> gated phase P a b -> gated phase Q a b.
Proof using. intros HPQ []. split; try done. naive_solver. Qed.

Lemma applyMutation_gated m phase allow rc :
  gated phase (allow = true) rc (applyMutation m phase allow rc) /\
  (coherent rc -> coherent (applyMutation m phase allow rc)).
Proof using.
  destruct m as [m|]; [|split; [by apply gated_same|done]]. unfold applyMutation.
  rewrite set_values_same. unfold coherent. split.
  - destruct (isResponsePhase phase) eqn:Er; destruct (String.eqb (RewritePath m) "");
      destruct (SetIdentity m); destruct allow; simpl; split; simpl; auto; congruence.
  - intros _ h. destruct (isResponsePhase phase) eqn:Er; destruct (String.eqb (RewritePath m) "");
      destruct (SetIdentity m); destruct allow; simpl; done.
Qed.

Definition may_identify (phase : Phase) (fs : list Filter) : Prop :=
  identityMutationAllowed phase = true /\ exists f, f ∈ fs /\ AllowIdentityMutation f = true.

Lemma runOne_gated phase f s :
  gated phase (may_identify phase [f]) (rn_rc s) (rn_rc (runOne phase f s).2) /\
  (coherent (rn_rc s) -> coherent (rn_rc (runOne phase f s).2)).
Proof using.
  destruct (runOne phase f s) as [o s'] eqn:E. simpl.
  apply runOne_cases in E as [(st & msg & _ & _ & Hs & Hc)|(resp & rc1 & Han & Ha)].
  { split; [by apply gated_same|done]. }
  destruct Han as (t & q & rc0 & w1 & w2 & w3 & w4 & _ & _ & _ & _ & _ & _ & _ & Hs & Hc). unfold decides in Ha.
  destruct (fr_Action resp).
  - destruct Ha as [_ ->]. split; [by apply gated_same|intros; by apply Hc].
  - destruct Ha as [_ ->]. split; [by apply gated_same|intros; by apply Hc].
  - destruct Ha as [_ ->].
    destruct (applyMutation_gated (Mutation resp) phase
                (AllowIdentityMutation f && identityMutationAllowed phase) rc1) as [Hg Hco].
    split.
    + eapply gated_trans; [by apply gated_same|]. eapply gated_impl; [|exact Hg].
      intros [H1 H2]%andb_true_iff. split; [done|]. exists f. set_solver.
    + intros Hs1. apply Hco. by apply Hc.
Qed.

Lemma run_filters_gated phase fs s :
  gated phase (may_identify phase fs) (rn_rc s) (rn_rc (run_filters phase fs s).2) /\
  (coherent (rn_rc s) -> coherent (rn_rc (run_filters phase fs s).2)).
Proof using.
  revert s. induction fs as [|f fs IH]; intros s; simpl; [split; [by apply gated_same|done]|].
  assert (may_identify phase fs -> may_identify phase (f :: fs)) as Hw.
  { intros [? (g & ? & ?)]. split; [done|]. exists g. set_solver. }
  assert (may_identify phase [f] -> may_identify phase (f :: fs)) as Hw1.
  { intros [? (g & ? & ?)]. split; [done|]. exists g. set_solver. }
  destruct (negb _).
  { destruct (IH s) as [Hg Hc]. split; [exact (gated_impl _ _ _ _ _ Hw Hg)|done]. }
  pose proof (runOne_gated phase f s) as [Hg Hc].
  destruct (runOne phase f s) as [[resp|] s1]; simpl in *.
  - split; [exact (gated_impl _ _ _ _ _ Hw1 Hg)|done].
  - destruct (IH s1) as [Hg1 Hc1]. split; [|by auto].
    exact (gated_trans _ _ _ _ _ (gated_impl _ _ _ _ _ Hw1 Hg) (gated_impl _ _ _ _ _ Hw Hg1)).
Qed.

(** Whatever the filters of a phase answer, the request they leave behind
    has the same method, query, client address, trace id, body and response
    status and body; its path can differ only in the phases before the
    backend, its response headers only in the phases after it; and its
    identity only in the authenticate and authorize phases, on the word of a
    filter whose plugin holds the identity permission. *)
Lemma Run_gates chain phase s :
  gated phase (may_identify phase (ChainFilters chain phase))
    (rn_rc s) (rn_rc (Run chain phase s).2).
Proof using.
  unfold Run. destruct (negb _); [by apply gated_same|]. apply run_filters_gated.
Qed.

(** A filter call ends in one of two ways: the plugin could not be asked,
    and the outcome is the fail-open or fail-closed answer with the request
    untouched; or it was asked, with a message that describes the request as
    it stands at that moment (headers edited by earlier filters included),
    and its decision is what happens. *)
Lemma runOne_spec phase f s o s' :
  coherent (rn_rc s) -> runOne phase f s = (o, s') ->
  coherent (rn_rc s') /\ (not_asked f s o s' \/ asked phase f s o s').
Proof using.
  intros Hc H. split; [|by apply runOne_cases].
  pose proof (runOne_gated phase f s) as [_ Hco]. rewrite H in Hco. by apply Hco.
Qed.

Lemma run_filters_app phase l1 l2 s :
  run_filters phase (l1 ++ l2) s =
  match run_filters phase l1 s with
  | (Some resp, s') => (Some resp, s')
  | (None, s') => run_filters phase l2 s'
  end.
Proof using.
  revert s. induction l1 as [|f l1 IH]; intros s; simpl; [done|]. destruct (negb _); [apply IH|].
  destruct (runOne phase f s) as [[] ?]; [done|apply IH].
Qed.

(** C1. No fail-closed filter is skipped: when a phase lets the request pass,
    every fail-closed filter of the phase either did not match the request at
    its turn, in which case nothing happened, or its own plugin answered: the
    body was within the filter's limit, the target the resolver has for that
    plugin allowed and admitted the call, the message it got describes the
    request as it stood, the success was recorded, and what the plugin decided
    is what became of the request. A plugin that is down, draining, tripped,
    timing out or faced with a body over its limit cannot make the request
    pass. *)
Theorem Run_fail_closed chain phase s s' l1 f l2 :
  coherent (rn_rc s) -> HasPhase chain phase = true ->
  ChainFilters chain phase = l1 ++ f :: l2 -> FailClosed (flt_Decl f) = true ->
  Run chain phase s = (None, s') ->
  exists s1 s2, run_filters phase l1 s = (None, s1) /\ run_filters phase l2 s2 = (None, s') /\
    coherent (rn_rc s1) /\
    ((FilterMatches f (Method (rn_rc s1)) (Path (rn_rc s1)) = false /\ s2 = s1) \/
     (FilterMatches f (Method (rn_rc s1)) (Path (rn_rc s1)) = true /\ asked phase f s1 None s2)).
Proof using.
  intros Hco Hp Hf Hc Hr. unfold Run in Hr. rewrite Hp, Hf, run_filters_app in Hr. simpl in Hr.
  pose proof (run_filters_gated phase l1 s) as [_ Hg].
  destruct (run_filters phase l1 s) as [[|] s1]; [done|]. simpl in Hr, Hg.
  destruct (FilterMatches f _ _) eqn:Em; simpl in Hr.
  - destruct (runOne phase f s1) as [[|] s2] eqn:E1; [done|]. exists s1, s2. do 3 (split; [by auto|]).
    right. split; [done|]. apply runOne_cases in E1 as [(st & msg & Ho & _)|Ha]; [|exact Ha].
    unfold failure in Ho. rewrite Hc in Ho. done.
  - exists s1, s1. do 3 (split; [by auto|]). by left.
Qed.
End runner_facts.

(** ** Capacity: what a request reserves it gives back *)

Section accounting.
Context {W T : Type} `{EqDecision T} `{OPS : TargetOps W T} {LAWS : TargetLaws W T}.
Implicit Types (rc : RequestContext T) (w : W) (s : run_state W T).

Definition count_target (t : T) (l : list (string * T)) : Z :=
  Z.of_nat (length (filter (fun kt => kt.2 = t) l)).

(** How many of the request's admissions are on [t]. *)
Definition held rc (t : T) : Z := count_target t (map_to_list (admissions rc)).

Lemma count_target_cons t kt l :
  count_target t (kt :: l) = ((if decide (kt.2 = t) then 1 else 0) + count_target t l)%Z.
Proof using. unfold count_target. rewrite filter_cons. case_decide; simpl length; lia. Qed.

Lemma held_admit rc k t' t :
  admissions rc !! k = None ->
  held (set_admissions (<[k := t']> (admissions rc)) rc) t =
  (held rc t + if decide (t' = t) then 1 else 0)%Z.
Proof using.
  intros Hk. unfold held. simpl.
  assert (forall l l' : list (string * T), l ≡ₚ l' -> count_target t l = count_target t l') as Hp.
  { intros l l' Hl. unfold count_target. by rewrite Hl. }
  rewrite (Hp _ _ (map_to_list_insert _ _ _ Hk)), count_target_cons. simpl. lia.
Qed.

(** Every count is what it was before the request plus what the request
    holds. *)
Definition balanced (base : T -> Z) rc w : Prop := forall t, t_inflight t w = int64 (base t + held rc t).

Lemma Admit_balanced base k t rc w :
  balanced base rc w ->
  let r := Admit k t rc w in balanced base r.1.2 r.2.
Proof using.
  intros Hb. unfold Admit. destruct (admissions rc !! k) as [t0|] eqn:Ek; [done|].
  pose proof (tl_begin t w) as Hbeg. destruct (t_Begin t w) as [[] w'] eqn:Eb; simpl in *.
  - intros u. rewrite Hbeg, (held_admit rc k t u Ek), (Hb u), int64_add. f_equal. lia.
  - intros u. rewrite Hbeg, (Hb u), int64_add. f_equal. lia.
Qed.

Lemma held_same rc rc' t : admissions rc' = admissions rc -> held rc' t = held rc t.
Proof using. unfold held. by intros ->. Qed.

Lemma applyMutation_admissions m phase allow rc :
  admissions (applyMutation m phase allow rc) = admissions rc.
Proof using.
  destruct m as [m|]; [|done]. unfold applyMutation. rewrite set_values_same. simpl.
  by repeat case_match.
Qed.

Lemma runOne_balanced base phase f s :
  balanced base (rn_rc s) (rn_w s) ->
  balanced base (rn_rc (runOne phase f s).2) (rn_w (runOne phase f s).2).
Proof using.
  intros Hb. unfold runOne. destruct (_ && (_ <? _)%Z); [done|].
  pose proof (tl_target (PluginKey f) (rn_w s)) as Ht.
  destruct (t_Target (PluginKey f) (rn_w s)) as [[t|] w1]; simpl in Ht.
  2: { intros u. simpl. rewrite Ht. apply Hb. }
  pose proof (tl_allow t w1) as Hal. destruct (t_Allow t w1) as [[] w2]; simpl in Hal.
  2: { intros u. simpl. rewrite Hal, Ht. apply Hb. }
  assert (balanced base (rn_rc s) w2) as Hb2 by (intros u; rewrite Hal, Ht; apply Hb).
  pose proof (Admit_balanced base (PluginKey f) t _ _ Hb2) as Hb3.
  destruct (Admit (PluginKey f) t (rn_rc s) w2) as [[[] rc3] w3]; simpl in Hb3; [|done].
  destruct (buildFilterRequest phase f (t_now w3) rc3) as [req rc4] eqn:Ereq.
  apply buildFilterRequest_same in Ereq as [_ Hadm].
  pose proof (tl_filter t (flt_Timeout f) req w3) as Hfil.
  destruct (t_Filter t (flt_Timeout f) req w3) as [[resp|] w4]; simpl in Hfil.
  2: { intros u. simpl. rewrite tl_failure, Hfil, (held_same rc3 rc4 u Hadm). apply Hb3. }
  assert (balanced base rc4 (t_RecordSuccess t w4)) as Hb4.
  { intros u. rewrite tl_success, Hfil, (held_same rc3 rc4 u Hadm). apply Hb3. }
  destruct (fr_Action resp); [done|by destruct (ShortCircuitResponse resp)|].
  destruct (match _ with Some _ => _ | None => false end); intros u; simpl.
  all: rewrite (held_same rc4 _ u) by apply applyMutation_admissions; apply Hb4.
Qed.

Lemma Run_balanced base chain phase s :
  balanced base (rn_rc s) (rn_w s) ->
  balanced base (rn_rc (Run chain phase s).2) (rn_w (Run chain phase s).2).
Proof using.
  unfold Run. destruct (negb _); [done|]. generalize (ChainFilters chain phase) as fs. intros fs.
  revert s. induction fs as [|f fs IH]; intros s Hb; simpl; [done|]. destruct (negb _); [by apply IH|].
  pose proof (runOne_balanced base phase f s Hb) as H1.
  destruct (runOne phase f s) as [[] s1]; [done|by apply IH].
Qed.

Lemma release_all base l w :
  (forall t, t_inflight t w = int64 (base t + count_target t l)) ->
  forall t, t_inflight t (foldl (fun w kt => t_Release kt.2 w) w l) = int64 (base t).
Proof using.
  revert w. induction l as [|[k t0] l IH]; intros w Hw t; simpl.
  { rewrite Hw. unfold count_target. simpl. f_equal. lia. }
  apply IH. intros u. rewrite tl_release, Hw, count_target_cons. simpl.
  rewrite <- Z.add_opp_r, int64_add. f_equal. lia.
Qed.

Lemma ReleaseAdmissions_balanced base rc w :
  balanced base rc w -> forall t, t_inflight t (ReleaseAdmissions rc w).2 = int64 (base t).
Proof using. intros Hb. simpl. by apply release_all. Qed.

(** One request's use of the pipeline: any phases of any chains, in any
    order. *)
Definition phase_step s s' : Prop := exists chain phase, s' = (Run chain phase s).2.

(** Capacity is never leaked: a request that starts with no reservation,
    runs any sequence of phases with any outcome (refusals, failures and
    timeouts included) and then releases its admissions leaves the in-flight
    count of every target exactly as it found it. While it runs, each count
    exceeds its initial value by exactly the admissions the request holds. *)
Lemma admissions_released s0 s t :
  admissions (rn_rc s0) = ∅ -> rtc phase_step s0 s ->
  t_inflight t (rn_w s) = int64 (t_inflight t (rn_w s0) + held (rn_rc s) t) /\
  t_inflight t (ReleaseAdmissions (rn_rc s) (rn_w s)).2 = t_inflight t (rn_w s0).
Proof using.
  intros He Hr.
  assert (balanced (fun t => t_inflight t (rn_w s0)) (rn_rc s) (rn_w s)) as Hb.
  { eapply (rtc_invariant phase_step
              (fun s => balanced (fun t => t_inflight t (rn_w s0)) (rn_rc s) (rn_w s))); [|exact Hr|].
    - intros s1 s2 Hs (c & p & ->). by apply Run_balanced.
    - intros u. unfold held. rewrite He, map_to_list_empty. unfold count_target. simpl.
      rewrite Z.add_0_r. symmetry. apply int64_id, tl_range. }
  split; [apply Hb|]. rewrite (ReleaseAdmissions_balanced (fun t => t_inflight t (rn_w s0))) by done.
  apply int64_id, tl_range.
Qed.
End accounting.
