(* ===== verification/Breaker.v ===== *)
(** * core/pluginhost/breaker.go: the per-instance circuit breaker

    The four atomic fields as a record and the methods as functions of the
    clock. The theorems show when the breaker opens, that it lets nothing
    through while open, that one probe at a time decides whether it closes, and
    that callers which record results without asking first can close it early. *)

From S2P Require Import Prelude.

Open Scope Z_scope.

Record BreakerConfig := mkBreakerConfig {
  FailureThreshold : Z; OpenDuration : Z; HalfOpenSuccesses : Z
}.

Definition Second : Z := 1000000000.

Definition DefaultBreakerConfig : BreakerConfig := mkBreakerConfig 5 (5 * Second) 2.

Record Breaker := mkBreaker {
  cfg : BreakerConfig;
  consecutiveFailures : Z;
  openUntilNanos : Z;
  halfOpenSuccesses : Z;
  probing : bool
}.

Definition NewBreaker (c : BreakerConfig) : Breaker :=
  mkBreaker (mkBreakerConfig
      (if FailureThreshold c <=? 0 then 5 else FailureThreshold c)
      (if OpenDuration c <=? 0 then 5 * Second else OpenDuration c)
      (if HalfOpenSuccesses c <=? 0 then 2 else HalfOpenSuccesses c))
    0 0 0 false.

Definition Allow (now : Z) (b : Breaker) : bool * Breaker :=
  if openUntilNanos b =? 0 then (true, b)
  else if now <? openUntilNanos b then (false, b)
  else if probing b then (false, b)
  else (true, mkBreaker (cfg b) (consecutiveFailures b) (openUntilNanos b) (halfOpenSuccesses b) true).

Definition Open (now : Z) (b : Breaker) : bool :=
  negb (openUntilNanos b =? 0) && (now <? openUntilNanos b).

Definition RecordSuccess (b : Breaker) : Breaker :=
  if openUntilNanos b =? 0 then mkBreaker (cfg b) 0 0 (halfOpenSuccesses b) (probing b)
  else
    let n := int32 (halfOpenSuccesses b + 1) in
    if HalfOpenSuccesses (cfg b) <=? n then mkBreaker (cfg b) 0 0 0 false
    else mkBreaker (cfg b) 0 (openUntilNanos b) n false.

Definition RecordFailure (now : Z) (b : Breaker) : Breaker :=
  let until := int64 (now + OpenDuration (cfg b)) in
  if negb (openUntilNanos b =? 0) then mkBreaker (cfg b) (consecutiveFailures b) until 0 false
  else
    let n := int32 (consecutiveFailures b + 1) in
    if FailureThreshold (cfg b) <=? n then mkBreaker (cfg b) 0 until 0 (probing b)
    else mkBreaker (cfg b) n 0 0 (probing b).

Definition Reset (b : Breaker) : Breaker := mkBreaker (cfg b) 0 0 0 false.

(** ** Invariant *)

Definition good_cfg (c : BreakerConfig) : Prop :=
  0 < FailureThreshold c < 2 ^ 31 /\ 0 < OpenDuration c < 2 ^ 62 /\ 0 < HalfOpenSuccesses c < 2 ^ 31.

Record BreakerInv (b : Breaker) : Prop := mkBreakerInv {
  bi_cfg : good_cfg (cfg b);
  bi_failures : 0 <= consecutiveFailures b < FailureThreshold (cfg b);
  bi_successes : 0 <= halfOpenSuccesses b < HalfOpenSuccesses (cfg b);
  bi_closed : openUntilNanos b = 0 -> probing b = false /\ halfOpenSuccesses b = 0
}.

(** Nanosecond clock readings between 1970 and 2116. *)
Definition clock_ok (now : Z) : Prop := 0 < now < 2 ^ 62.

Lemma NewBreaker_inv c :
  FailureThreshold c < 2 ^ 31 -> OpenDuration c < 2 ^ 62 -> HalfOpenSuccesses c < 2 ^ 31 ->
  BreakerInv (NewBreaker c).
Proof.
  intros. unfold NewBreaker, Second.
  split; simpl; [|destruct (Z.leb_spec (FailureThreshold c) 0); lia
                 |destruct (Z.leb_spec (HalfOpenSuccesses c) 0); lia|done].
  unfold good_cfg; simpl.
  destruct (Z.leb_spec (FailureThreshold c) 0), (Z.leb_spec (OpenDuration c) 0),
    (Z.leb_spec (HalfOpenSuccesses c) 0); lia.
Qed.

Lemma until_pos now b :
  BreakerInv b -> clock_ok now -> int64 (now + OpenDuration (cfg b)) = now + OpenDuration (cfg b) /\
  now + OpenDuration (cfg b) <> 0.
Proof.
  intros [(_ & Hd & _) _ _ _] Hn. unfold clock_ok in Hn. rewrite int64_id; [lia|].
  unfold in_int64. lia.
Qed.

Lemma Allow_inv now b : BreakerInv b -> BreakerInv (Allow now b).2.
Proof.
  intros [? ? ? Hc]. unfold Allow. destruct (Z.eqb_spec (openUntilNanos b) 0); [by split|].
  destruct (_ <? _); [by split|]. destruct (probing b) eqn:E; [split; simpl; naive_solver|]. by split.
Qed.

Lemma RecordSuccess_inv b : BreakerInv b -> BreakerInv (RecordSuccess b).
Proof.
  intros [[(? & ?) [? (? & ?)]] ? ? Hc]. unfold RecordSuccess.
  destruct (Z.eqb_spec (openUntilNanos b) 0) as [Hz|Hz].
  - split; simpl; [done|lia|done|]. intros _. by apply Hc.
  - rewrite int32_id by lia. destruct (Z.leb_spec (HalfOpenSuccesses (cfg b)) (halfOpenSuccesses b + 1)).
    + split; simpl; [done|lia|lia|done].
    + split; simpl; [done|lia|lia|done].
Qed.

Lemma RecordFailure_inv now b : BreakerInv b -> clock_ok now -> BreakerInv (RecordFailure now b).
Proof.
  intros Hi Hn. pose proof (until_pos now b Hi Hn) as [Hu Hne].
  destruct Hi as [[(? & ?) [? (? & ?)]] ? ? Hc]. unfold RecordFailure. rewrite Hu.
  destruct (Z.eqb_spec (openUntilNanos b) 0) as [Hz|Hz]; simpl.
  - rewrite int32_id by lia.
    destruct (Z.leb_spec (FailureThreshold (cfg b)) (consecutiveFailures b + 1)); split; simpl.
    + done.
    + lia.
    + lia.
    + done.
    + done.
    + lia.
    + lia.
    + intros _. split; [by apply Hc|done].
  - split; simpl; [done|lia|lia|done].
Qed.

(** ** Tripping *)

Definition fail_at (b : Breaker) (times : list Z) : Breaker := foldl (fun b now => RecordFailure now b) b times.

Lemma fail_below b times :
  BreakerInv b -> openUntilNanos b = 0 ->
  consecutiveFailures b + Z.of_nat (length times) < FailureThreshold (cfg b) ->
  fail_at b times = mkBreaker (cfg b) (consecutiveFailures b + Z.of_nat (length times)) 0 0 (probing b)
    \/ times = [].
Proof.
  revert b. induction times as [|now times IH]; intros b Hi H0 Hl; [by right|left].
  destruct (Hi) as [[(? & ?) _] ? ? _]. simpl length in Hl.
  assert (RecordFailure now b = mkBreaker (cfg b) (consecutiveFailures b + 1) 0 0 (probing b)) as E.
  { unfold RecordFailure. rewrite H0. simpl. rewrite int32_id by lia.
    destruct (Z.leb_spec (FailureThreshold (cfg b)) (consecutiveFailures b + 1)); [lia|done]. }
  simpl fail_at. unfold fail_at in *. simpl. rewrite E.
  assert (BreakerInv (mkBreaker (cfg b) (consecutiveFailures b + 1) 0 0 (probing b))) as Hi'.
  { destruct (Hi) as [(? & ? & ?) ? ? Hcl]. split; simpl; [done|lia|lia|]. intros _. split; [by apply Hcl|done]. }
  destruct (IH _ Hi' eq_refl) as [->| ->]; simpl; [lia|f_equal; lia|f_equal; lia].
Qed.

(** A closed breaker with no recorded failure opens exactly at the
    [FailureThreshold]-th consecutive failure and not before; from then until
    [OpenDuration] has passed it admits no call at all. *)
Lemma breaker_trips b times now now' :
  BreakerInv b -> openUntilNanos b = 0 -> consecutiveFailures b = 0 ->
  clock_ok now -> Z.of_nat (length times) = FailureThreshold (cfg b) - 1 ->
  openUntilNanos (fail_at b times) = 0 /\
  openUntilNanos (fail_at b (times ++ [now])) = now + OpenDuration (cfg b) /\
  (now' < now + OpenDuration (cfg b) -> (Allow now' (fail_at b (times ++ [now]))).1 = false).
Proof.
  intros Hi H0 Hc Hn Hl. pose proof (until_pos now b Hi Hn) as [Hu Hne].
  destruct (Hi) as [[(? & ?) _] _ _ _].
  assert (exists ho pr, fail_at b times =
            mkBreaker (cfg b) (FailureThreshold (cfg b) - 1) 0 ho pr) as (ho & pr & E).
  { destruct (fail_below b times Hi H0) as [->| ->]; [lia|eexists _, _; f_equal; lia|].
    simpl in Hl. exists (halfOpenSuccesses b), (probing b). unfold fail_at. simpl.
    destruct b; simpl in *. f_equal; lia. }
  unfold fail_at in *. rewrite foldl_app, E. simpl. split; [done|].
  assert (RecordFailure now (mkBreaker (cfg b) (FailureThreshold (cfg b) - 1) 0 ho pr) =
          mkBreaker (cfg b) 0 (now + OpenDuration (cfg b)) 0 pr) as ->.
  { unfold RecordFailure. simpl. rewrite Hu. rewrite int32_id by lia.
    destruct (Z.leb_spec (FailureThreshold (cfg b)) (FailureThreshold (cfg b) - 1 + 1)); [done|lia]. }
  simpl. split; [done|]. intros Hlt. unfold Allow. simpl.
  destruct (Z.eqb_spec (now + OpenDuration (cfg b)) 0); [done|].
  by rewrite (proj2 (Z.ltb_lt _ _) Hlt).
Qed.

(** ** Recovering *)

(** A call as the filter pipeline makes it: ask first, then record. *)
Definition guarded_call (now : Z) (ok : bool) (b : Breaker) : bool * Breaker :=
  match Allow now b with
  | (false, b) => (false, b)
  | (true, b) => (true, if ok then RecordSuccess b else RecordFailure now b)
  end.

Fixpoint guarded_calls (calls : list (Z * bool)) (b : Breaker) : list bool * Breaker :=
  match calls with
  | [] => ([], b)
  | (now, ok) :: calls =>
      let '(adm, b) := guarded_call now ok b in
      let '(adms, b) := guarded_calls calls b in (adm :: adms, b)
  end.

(** Guarded callers recover an open breaker by the rules: before the window
    ends none of their calls reaches the plugin and the breaker does not change;
    after it, a second caller is refused while the probe is out; a failed probe
    opens a new full window with no credit; and [HalfOpenSuccesses] successful
    probes in a row close it. *)
Lemma breaker_recovers b now :
  BreakerInv b -> openUntilNanos b <> 0 -> probing b = false -> clock_ok now ->
  (forall calls, Forall (fun c => c.1 < openUntilNanos b) calls ->
     guarded_calls calls b = (replicate (length calls) false, b)) /\
  (openUntilNanos b <= now ->
     (Allow now b).1 = true /\ (Allow now (Allow now b).2).1 = false /\
     (let b' := (guarded_call now false b).2 in
      openUntilNanos b' = now + OpenDuration (cfg b) /\ halfOpenSuccesses b' = 0 /\ probing b' = false) /\
     (forall calls, Forall (fun c => openUntilNanos b <= c.1 /\ c.2 = true) calls ->
        halfOpenSuccesses b = 0 -> Z.of_nat (length calls) = HalfOpenSuccesses (cfg b) ->
        guarded_calls calls b = (replicate (length calls) true, mkBreaker (cfg b) 0 0 0 false))).
Proof.
  intros Hi Hne Hp Hn. pose proof (until_pos now b Hi Hn) as [Hu _]. split.
  - induction calls as [|[t ok] calls IH]; intros Hf; [done|].
    apply list.Forall_cons in Hf as [Ht Hf]. simpl in *. unfold guarded_call, Allow.
    rewrite (proj2 (Z.eqb_neq _ _) Hne), (proj2 (Z.ltb_lt _ _) Ht), (IH Hf). done.
  - intros Hle.
    assert (forall t, openUntilNanos b <= t -> Allow t b =
      (true, mkBreaker (cfg b) (consecutiveFailures b) (openUntilNanos b) (halfOpenSuccesses b) true)) as Ha.
    { intros t Ht. unfold Allow. rewrite (proj2 (Z.eqb_neq _ _) Hne), (proj2 (Z.ltb_ge _ _) Ht), Hp. done. }
    split; [by rewrite Ha|]. split.
    { rewrite Ha by done. unfold Allow. simpl.
      by rewrite (proj2 (Z.eqb_neq _ _) Hne), (proj2 (Z.ltb_ge _ _) Hle). }
    split.
    { unfold guarded_call. rewrite Ha by done. unfold RecordFailure. simpl.
      rewrite (proj2 (Z.eqb_neq _ _) Hne), Hu. done. }
    clear now Hn Hu Hle. intros calls Hf H0 Hl.
    destruct (Hi) as [(_ & _ & Hh) _ _ _].
    assert (forall calls b0, Forall (fun c => openUntilNanos b <= c.1 /\ c.2 = true) calls ->
      cfg b0 = cfg b -> openUntilNanos b0 = openUntilNanos b -> probing b0 = false ->
      0 <= halfOpenSuccesses b0 -> calls <> [] ->
      halfOpenSuccesses b0 + Z.of_nat (length calls) = HalfOpenSuccesses (cfg b) ->
      guarded_calls calls b0 = (replicate (length calls) true, mkBreaker (cfg b) 0 0 0 false)) as Hgen.
    { clear calls Hf H0 Hl Ha Hp. induction calls as [|[t ok] calls IH]; [done|].
      intros b0 Hf Hcf Hou Hpr H0 _ Hl. apply list.Forall_cons in Hf as [[Ht Hok] Hf]. simpl in Ht, Hok.
      subst ok. simpl length in Hl.
      assert ((guarded_call t true b0) =
        (true, if HalfOpenSuccesses (cfg b) <=? halfOpenSuccesses b0 + 1 then mkBreaker (cfg b) 0 0 0 false
               else mkBreaker (cfg b) 0 (openUntilNanos b) (halfOpenSuccesses b0 + 1) false)) as Eg.
      { unfold guarded_call, Allow. rewrite Hou, (proj2 (Z.eqb_neq _ _) Hne), (proj2 (Z.ltb_ge _ _) Ht), Hpr.
        unfold RecordSuccess. cbn [openUntilNanos halfOpenSuccesses cfg].
        rewrite ?Hou, (proj2 (Z.eqb_neq _ _) Hne), Hcf. rewrite int32_id by lia. done. }
      cbn [guarded_calls]. rewrite Eg. destruct calls as [|c calls].
      - simpl in Hl. rewrite (proj2 (Z.leb_le _ _)) by lia. done.
      - simpl length in Hl. rewrite (proj2 (Z.leb_gt _ _)) by lia.
        rewrite (IH (mkBreaker (cfg b) 0 (openUntilNanos b) (halfOpenSuccesses b0 + 1) false));
          simpl; [done|done|done|done|done|lia|done|lia]. }
    apply Hgen; [done..|lia| |lia]. intros ->. simpl in Hl. lia.
Qed.

(** A caller that records results without asking first, as the gateway's
    backend dispatch does, can close an open breaker inside its window: after
    [HalfOpenSuccesses] such successes every filter call is admitted at a time
    the breaker had promised to refuse them. *)
Lemma unguarded_success_closes now :
  let b := mkBreaker DefaultBreakerConfig 0 (now + 5 * Second) 0 false in
  now + 5 * Second <> 0 ->
  (Allow now b).1 = false /\ (Allow now (RecordSuccess (RecordSuccess b))).1 = true.
Proof.
  intros b Hne. unfold b, Allow, RecordSuccess. cbn [openUntilNanos].
  rewrite (proj2 (Z.eqb_neq _ _) Hne). unfold Second in *.
  rewrite (proj2 (Z.ltb_lt _ _)) by lia. split; [done|].
  replace (HalfOpenSuccesses (cfg _) <=? int32 (halfOpenSuccesses _ + 1)) with false by reflexivity.
  cbn [openUntilNanos]. rewrite (proj2 (Z.eqb_neq _ _) Hne). done.
Qed.
