(* ===== verification/Instance.v ===== *)
(** * core/pluginhost/instance.go: one running plugin process

    The instance record and its methods, each as it acts when nothing
    interferes, and then [BeginRequest], the release function and [Drain] cut
    at their atomic operations, so that any number of requests can interleave
    with a drain. The safety theorem is about the latter. *)

From S2P Require Import Prelude Breaker.

Open Scope Z_scope.

Inductive State :=
| StateStarting | StateReady | StateDraining | StateStopped | StateFailed | StateQuarantined.

#[export] Instance State_eq_dec : EqDecision State.
Proof. solve_decision. Defined.

Definition State_String (s : State) : string :=
  match s with
  | StateStarting => "starting" | StateReady => "ready" | StateDraining => "draining"
  | StateStopped => "stopped" | StateFailed => "failed" | StateQuarantined => "quarantined"
  end.

(** [proc] is the process handle: whether there is one, and whether [Kill] was
    called on it or it exited on its own. *)
Record Instance := mkInstance {
  i_Key : string;
  InstanceID : string;
  i_Version : string;
  i_Weight : Z;
  i_Breaker : Breaker;
  i_state : State;
  inflight : Z;
  i_startedAt : Z;
  has_proc : bool;
  proc_exited : bool
}.

Definition NewInstance (key instanceID version : string) (weight now : Z) (proc : bool) : Instance :=
  mkInstance key instanceID version (if weight <=? 0 then 1 else weight)
    (NewBreaker DefaultBreakerConfig) StateStarting 0 now proc false.

Definition setState (s : State) (i : Instance) : Instance :=
  mkInstance (i_Key i) (InstanceID i) (i_Version i) (i_Weight i) (i_Breaker i) s (inflight i)
    (i_startedAt i) (has_proc i) (proc_exited i).

Definition MarkReady : Instance -> Instance := setState StateReady.
Definition MarkFailed : Instance -> Instance := setState StateFailed.
Definition MarkQuarantined : Instance -> Instance := setState StateQuarantined.

Definition add_inflight (d : Z) (i : Instance) : Instance :=
  mkInstance (i_Key i) (InstanceID i) (i_Version i) (i_Weight i) (i_Breaker i) (i_state i)
    (int64 (inflight i + d)) (i_startedAt i) (has_proc i) (proc_exited i).

Definition set_breaker (b : Breaker) (i : Instance) : Instance :=
  mkInstance (i_Key i) (InstanceID i) (i_Version i) (i_Weight i) b (i_state i) (inflight i)
    (i_startedAt i) (has_proc i) (proc_exited i).

Definition kill_proc (i : Instance) : Instance :=
  mkInstance (i_Key i) (InstanceID i) (i_Version i) (i_Weight i) (i_Breaker i) (i_state i) (inflight i)
    (i_startedAt i) (has_proc i) (has_proc i || proc_exited i).

Definition Servable (i : Instance) : bool :=
  match i_state i with StateReady | StateDraining => true | _ => false end.

(** [BeginRequest] and the function it returns. *)
Definition BeginRequest (i : Instance) : bool * Instance :=
  if decide (i_state i <> StateReady) then (false, i)
  else
    let i := add_inflight 1 i in
    if decide (i_state i <> StateReady) then (false, add_inflight (-1) i) else (true, i).

Definition EndRequest (i : Instance) : Instance := add_inflight (-1) i.

Definition terminate (i : Instance) : Instance :=
  let i := kill_proc i in
  if decide (i_state i = StateQuarantined) then i else setState StateStopped i.

Definition Kill : Instance -> Instance := terminate.

Definition ProcessExited (i : Instance) : bool := negb (has_proc i) || proc_exited i.

(** ** Drain, given what its waiting observes

    Each round of the loop reads the in-flight count and, when it is positive,
    waits: the context ends ([WaitCancelled]) or the ticker fires before
    ([WaitTick]) or after ([WaitExpired]) the deadline. The count each round
    reads is what concurrent requests leave there. *)
Inductive wait_event := WaitCancelled | WaitTick | WaitExpired.

Inductive drain_result := DrainClean | DrainCancelled (remaining : Z) | DrainTimedOut (remaining : Z)
| DrainWaiting (** the given observations end while it still waits *).

Fixpoint drain_loop (obs : list (Z * wait_event)) : drain_result :=
  match obs with
  | [] => DrainWaiting
  | (count, ev) :: obs =>
      if count <=? 0 then DrainClean
      else match ev with
           | WaitCancelled => DrainCancelled count
           | WaitExpired => DrainTimedOut count
           | WaitTick => drain_loop obs
           end
  end.

Definition Drain (obs : list (Z * wait_event)) (i : Instance) : drain_result * Instance :=
  let i := setState StateDraining i in
  match drain_loop obs with
  | DrainWaiting => (DrainWaiting, i)
  | r => (r, terminate i)
  end.

(** ** The atomic steps *)

(** Where one caller of [BeginRequest] stands. *)
Inductive pc :=
| PStart      (** about to read the state *)
| PChecked    (** read Ready, about to add one *)
| PCounted    (** added one, about to read the state again *)
| PBackOff    (** read something else, about to take one off *)
| PRunning    (** admitted: the request is executing *)
| PRefused
| PDone       (** called its release function *).

#[export] Instance pc_eq_dec : EqDecision pc.
Proof. solve_decision. Defined.

(** One atomic operation of a caller: its next position and what it adds to the
    in-flight count. *)
Definition begin_next (st : State) (p : pc) : pc * Z :=
  match p with
  | PStart => (if decide (st = StateReady) then PChecked else PRefused, 0)
  | PChecked => (PCounted, 1)
  | PCounted => (if decide (st = StateReady) then PRunning else PBackOff, 0)
  | PBackOff => (PRefused, -1)
  | PRunning => (PDone, -1)
  | PRefused => (PRefused, 0)
  | PDone => (PDone, 0)
  end.

(** Where [Drain] stands. [DrKilled true] ended because the loop read a count
    of zero; [DrKilled false] because of the deadline or the context. *)
Inductive drain_pc := DrIdle | DrLoop | DrSawZero | DrGaveUp | DrKilled (clean : bool).

#[export] Instance drain_pc_eq_dec : EqDecision drain_pc.
Proof. solve_decision. Defined.

Record config := mkConfig { c_state : State; c_inflight : Z; c_threads : list pc; c_drain : drain_pc }.

Inductive step : config -> config -> Prop :=
| step_arrive c :
    step c (mkConfig (c_state c) (c_inflight c) (c_threads c ++ [PStart]) (c_drain c))
| step_thread c n p :
    c_threads c !! n = Some p ->
    step c (mkConfig (c_state c) (c_inflight c + (begin_next (c_state c) p).2)
              (<[n := (begin_next (c_state c) p).1]> (c_threads c)) (c_drain c))
| step_drain c :
    c_drain c = DrIdle ->
    step c (mkConfig StateDraining (c_inflight c) (c_threads c) DrLoop)
| step_drain_zero c :
    c_drain c = DrLoop -> c_inflight c <= 0 ->
    step c (mkConfig (c_state c) (c_inflight c) (c_threads c) DrSawZero)
| step_drain_give_up c :
    c_drain c = DrLoop -> 0 < c_inflight c ->
    step c (mkConfig (c_state c) (c_inflight c) (c_threads c) DrGaveUp)
| step_drain_kill c :
    c_drain c = DrSawZero \/ c_drain c = DrGaveUp ->
    step c (mkConfig (if decide (c_state c = StateQuarantined) then StateQuarantined else StateStopped)
              (c_inflight c) (c_threads c) (DrKilled (bool_decide (c_drain c = DrSawZero))))
| step_mark c st :
    st = StateFailed \/ st = StateQuarantined ->
    step c (mkConfig st (c_inflight c) (c_threads c) (c_drain c)).

(** ** Sequential facts *)

Lemma BeginRequest_spec i :
  BeginRequest i = if decide (i_state i = StateReady) then (true, add_inflight 1 i) else (false, i).
Proof.
  unfold BeginRequest. destruct (decide (i_state i = StateReady)) as [H|H].
  - rewrite decide_False by (intros ?; done). simpl. by rewrite decide_False by (intros ?; done).
  - by rewrite decide_True.
Qed.

(** Run alone, a caller's atomic steps add up to [BeginRequest]. *)
Lemma begin_steps_alone st n :
  let go := fun '(p, k) => let '(p', d) := begin_next st p in (p', k + d) in
  go (go (go (PStart, n))) = (if decide (st = StateReady) then (PRunning, n + 1) else (PRefused, n)).
Proof.
  simpl. destruct (decide (st = StateReady)); simpl; [rewrite decide_True by done|]; f_equal; lia.
Qed.

Lemma drain_loop_ends obs count ev :
  (count <= 0 \/ ev <> WaitTick) -> drain_loop (obs ++ [(count, ev)]) <> DrainWaiting.
Proof.
  intros H. induction obs as [|[c e] obs IH]; simpl.
  - destruct (Z.leb_spec count 0); [done|]. destruct ev; [done| |done]. naive_solver lia.
  - destruct (c <=? 0); [done|]. by destruct e.
Qed.

(** [Drain] always ends by killing the process: as soon as one round reads
    no request in flight, sees the context end, or comes after the deadline, the
    drain is over, the process is gone and the instance is Stopped. It reports a
    clean drain only if some round read a count of zero or less, and otherwise
    the number of requests it left behind. *)
Lemma Drain_ends obs count ev i :
  (count <= 0 \/ ev <> WaitTick) ->
  let '(r, i') := Drain (obs ++ [(count, ev)]) i in
  r <> DrainWaiting /\ ProcessExited i' = true /\ i_state i' = StateStopped /\
  inflight i' = inflight i /\
  match r with
  | DrainClean => exists n e, (n, e) ∈ obs ++ [(count, ev)] /\ n <= 0
  | DrainCancelled n => (n, WaitCancelled) ∈ obs ++ [(count, ev)] /\ 0 < n
  | DrainTimedOut n => (n, WaitExpired) ∈ obs ++ [(count, ev)] /\ 0 < n
  | DrainWaiting => False
  end.
Proof.
  intros H. pose proof (drain_loop_ends obs count ev H) as Hne. unfold Drain.
  assert (match drain_loop (obs ++ [(count, ev)]) with
          | DrainClean => exists n e, (n, e) ∈ obs ++ [(count, ev)] /\ n <= 0
          | DrainCancelled n => (n, WaitCancelled) ∈ obs ++ [(count, ev)] /\ 0 < n
          | DrainTimedOut n => (n, WaitExpired) ∈ obs ++ [(count, ev)] /\ 0 < n
          | DrainWaiting => True end) as Hr.
  { generalize (obs ++ [(count, ev)]) as l. clear. induction l as [|[c e] l IH]; simpl; [done|].
    destruct (Z.leb_spec c 0); [exists c, e; split; [left|done]|].
    destruct e; [split; [left|done]| |split; [left|done]].
    destruct (drain_loop l); [destruct IH as (n & e & ? & ?); exists n, e; set_solver|set_solver..|done]. }
  assert (forall j, has_proc j = has_proc i -> i_state j = StateDraining ->
    ProcessExited (terminate j) = true /\ i_state (terminate j) = StateStopped /\
    inflight (terminate j) = inflight j) as Ht.
  { intros j _ Hj. unfold terminate, kill_proc, ProcessExited. simpl. rewrite Hj. simpl.
    by destruct (has_proc j). }
  specialize (Ht (setState StateDraining i) eq_refl eq_refl).
  destruct Ht as (Ht1 & Ht2 & Ht3). by destruct (drain_loop _).
Qed.

(** ** A clean drain never interrupts an admitted request *)

(** What a caller has added to the count. *)
Definition weight (p : pc) : Z :=
  match p with PCounted | PBackOff | PRunning => 1 | _ => 0 end.

Lemma weight_nonneg p : 0 <= weight p.
Proof. destruct p; simpl; lia. Qed.

Record Inv (c : config) : Prop := mkInv {
  inv_count : c_inflight c = zsum (weight <$> c_threads c);
  inv_closed : c_drain c <> DrIdle -> c_state c <> StateReady;
  inv_quiet : c_drain c = DrSawZero \/ c_drain c = DrKilled true -> PRunning ∉ c_threads c
}.

Definition start (n : nat) : config := mkConfig StateReady 0 (replicate n PStart) DrIdle.

Lemma start_inv n : Inv (start n).
Proof.
  split; simpl; [|done|by intros [|]]. induction n as [|n IH]; [done|]. exact IH.
Qed.

Lemma begin_next_weight st p : weight (begin_next st p).1 = weight p + (begin_next st p).2.
Proof. destruct p; simpl; try done; by destruct (decide _). Qed.

Lemma begin_next_running st p :
  st <> StateReady -> p <> PRunning -> (begin_next st p).1 <> PRunning.
Proof. intros Hst Hp. destruct p; simpl; rewrite ?decide_False by done; done. Qed.

Lemma step_inv c c' : Inv c -> step c c' -> Inv c'.
Proof.
  intros [Hn Hcl Hq] Hs. destruct Hs as [c|c n p Hp|c Hd|c Hd H0|c Hd H0|c Hd|c st Hst]; split; simpl in *; try done.
  - rewrite Hn, fmap_app, zsum_app. simpl. lia.
  - intros H. specialize (Hq H). set_solver.
  - rewrite list_fmap_insert.
    rewrite (zsum_insert _ _ (weight p)) by by rewrite list_lookup_fmap, Hp.
    rewrite begin_next_weight. lia.
  - intros H. specialize (Hq H). intros Hin.
    apply list_elem_of_lookup in Hin as [m Hm].
    destruct (decide (m = n)) as [->|Hne].
    + rewrite list_lookup_insert_eq in Hm by (by eapply lookup_lt_Some). injection Hm as Hm.
      revert Hm. apply begin_next_running; [apply Hcl; destruct H as [-> | ->]; done|].
      intros ->. apply Hq. by eapply list_elem_of_lookup_2.
    + rewrite list_lookup_insert_ne in Hm by done. apply Hq. by eapply list_elem_of_lookup_2.
  - by intros [|].
  - intros _. apply Hcl. by rewrite Hd.
  - intros _ Hin.
    assert (Forall (Z.le 0) (weight <$> c_threads c)) as Hp
      by (apply Forall_fmap, Forall_true, weight_nonneg).
    assert (Forall (eq 0) (weight <$> c_threads c)) as Hz.
    { apply zsum_zero_all; [done|]. pose proof (zsum_nonneg _ Hp). lia. }
    rewrite Forall_fmap in Hz. by apply (proj1 (list.Forall_forall _ _) Hz) in Hin.
  - intros _. apply Hcl. by rewrite Hd.
  - by intros [|].
  - intros _. by case_decide.
  - intros [|[= H]]; [done|]. apply bool_decide_eq_true in H. apply Hq. by left.
  - intros _. by destruct Hst as [-> | ->].
Qed.

(** C3. However many requests arrive, are admitted, refused and released while
    an instance drains, and whatever the supervisor marks meanwhile: the
    in-flight count is exactly the number of callers that have added themselves
    and not yet taken themselves off, and once the drain has read a count of
    zero no admitted request is executing, nor can one ever start, so a process
    killed by a clean drain is killed with no request in it. *)
Theorem drain_safe n c :
  rtc step (start n) c ->
  c_inflight c = Z.of_nat (length (filter (fun p => weight p = 1) (c_threads c))) /\
  (c_drain c = DrSawZero \/ c_drain c = DrKilled true ->
   PRunning ∉ c_threads c /\ forall c', rtc step c c' -> PRunning ∉ c_threads c').
Proof.
  intros H. assert (Inv c) as Hi by (eapply (rtc_invariant step Inv step_inv); [exact H|apply start_inv]).
  split.
  - rewrite (inv_count c Hi). clear. induction (c_threads c) as [|p l IH]; [done|].
    rewrite fmap_cons, filter_cons. simpl. rewrite IH. destruct p; simpl; lia.
  - intros Hd. split; [by apply (inv_quiet c Hi)|]. intros c' Hr.
    assert (Inv c' /\ (c_drain c' = DrSawZero \/ c_drain c' = DrKilled true)) as [Hi' Hd'].
    { eapply (rtc_invariant step (fun c => Inv c /\ (c_drain c = DrSawZero \/ c_drain c = DrKilled true)));
        [|exact Hr|done].
      clear. intros c c' [Hi Hd] Hs. split; [by eapply step_inv|].
      destruct Hs as [c|c n p Hp|c E|c E|c E|c E|c st Hst]; simpl; try done.
      - rewrite E in Hd. naive_solver.
      - rewrite E in Hd. naive_solver.
      - rewrite E in Hd. naive_solver.
      - destruct Hd as [Hd|Hd]; [|rewrite Hd in E; naive_solver]. right. by rewrite bool_decide_eq_true_2. }
    by apply (inv_quiet c' Hi').
Qed.

(** A caller that read Ready before the drain began and counts itself after the
    drain read zero. *)
Lemma drain_safe_witness :
  exists c, rtc step (start 1) c /\ c_drain c = DrSawZero /\ c_threads c = [PCounted] /\
    forall c', rtc step c c' -> PRunning ∉ c_threads c'.
Proof.
  assert (rtc step (start 1) (mkConfig StateDraining 1 [PCounted] DrSawZero)) as H.
  { eapply rtc_l; [apply (step_thread (start 1) 0%nat PStart); reflexivity|].
    eapply rtc_l; [apply (step_drain (mkConfig StateReady 0 [PChecked] DrIdle)); reflexivity|].
    eapply rtc_l; [apply (step_drain_zero (mkConfig StateDraining 0 [PChecked] DrLoop)); [reflexivity|simpl; lia]|].
    eapply rtc_l; [apply (step_thread (mkConfig StateDraining 0 [PChecked] DrSawZero) 0%nat PChecked); reflexivity|].
    apply rtc_refl. }
  eexists. split; [exact H|]. split; [reflexivity|]. split; [reflexivity|].
  apply (drain_safe 1%nat _ H). by left.
Defined.
