(* ===== verification/Registry.v ===== *)
(** * core/pluginhost/registry.go: replica sets, snapshots and the registry

    Instances and replica sets are shared by pointer between snapshots, so the
    host state keeps them in two heaps and snapshots hold addresses: carrying a
    replica set over from one snapshot to the next keeps its round-robin
    position, exactly as the pointer does. The last section makes the registry
    the pipeline's resolver and discharges the laws of [TargetLaws]. *)

From S2P Require Import Prelude GoStrings PathMatch Manifest Wire StableSort Chain Pipeline Breaker Instance.

Definition loc : Type := nat.

(** ** Replica sets *)

Record replicaSet := mkReplicaSet { instances : list loc; current : list Z }.

Definition newReplicaSet (insts : list loc) : replicaSet :=
  mkReplicaSet insts (replicate (length insts) 0%Z).

(** The loop of [pick]: [views] says of each replica whether it is Ready and
    what it weighs; [best] carries the index of the best replica so far with its
    counter. Returns the new counters, the total weight and the best. *)
Fixpoint wrr_scan (views : list (bool * Z)) (cur : list Z) (idx : nat) (total : Z)
    (best : option (nat * Z)) : list Z * Z * option (nat * Z) :=
  match views, cur with
  | (ready, weight) :: views, c :: cur =>
      if ready then
        let c := int64 (c + weight) in
        let best := match best with
                    | None => Some (idx, c)
                    | Some (j, b) => if (b <? c)%Z then Some (idx, c) else Some (j, b)
                    end in
        let '(cur, total, best) := wrr_scan views cur (S idx) (int64 (total + weight)) best in
        (c :: cur, total, best)
      else
        let '(cur, total, best) := wrr_scan views cur (S idx) total best in
        (c :: cur, total, best)
  | _, _ => (cur, total, best)
  end.

(** The instance at an address. Addresses come from launches, so every one in
    use is in the heap; any other stands for a process that never served. *)
Definition dead_instance : Instance := setState StateStopped (NewInstance "" "" "" 0 0 false).
Definition inst_at (h : gmap loc Instance) (l : loc) : Instance := default dead_instance (h !! l).

Definition view (h : gmap loc Instance) (l : loc) : bool * Z :=
  (bool_decide (i_state (inst_at h l) = StateReady), i_Weight (inst_at h l)).

Definition servable_at (h : gmap loc Instance) (l : loc) : bool := Servable (inst_at h l).

Definition pick (h : gmap loc Instance) (rs : replicaSet) : option loc * replicaSet :=
  match instances rs with
  | [] => (None, rs)
  | [l] => (if servable_at h l then Some l else None, rs)
  | insts =>
      match wrr_scan (view h <$> insts) (current rs) 0 0 None with
      | (cur, _, None) => (List.find (servable_at h) insts, mkReplicaSet insts cur)
      | (cur, total, Some (best, _)) =>
          (insts !! best, mkReplicaSet insts (alter (fun c => int64 (c - total)) best cur))
      end
  end.

(** ** Snapshots and the registry *)

Record Snapshot := mkSnapshot { s_plugins : gmap string loc; s_chain : Chain; s_version : Z }.

Definition emptySnapshot : Snapshot := mkSnapshot ∅ EmptyChain 0.

Record Registration := mkRegistration {
  r_Key : string; r_Instances : list loc; r_Filters : list CompiledFilter;
  r_AllowIdentityMutation : bool
}.

Record world := mkWorld {
  w_now : Z;
  heap : gmap loc Instance;
  rsets : gmap loc replicaSet;
  w_current : Snapshot;
  w_version : Z;
  regs : gmap string Registration;
  filterDefaults : Defaults;
  w_calls : nat (** calls made to plugins so far *)
}.

Definition NewRegistry (now : Z) (h : gmap loc Instance) : world :=
  mkWorld now h ∅ emptySnapshot 0 ∅ DefaultDefaults 0.

Definition set_heap (h : gmap loc Instance) (w : world) : world :=
  mkWorld (w_now w) h (rsets w) (w_current w) (w_version w) (regs w) (filterDefaults w) (w_calls w).
Definition set_rsets (r : gmap loc replicaSet) (w : world) : world :=
  mkWorld (w_now w) (heap w) r (w_current w) (w_version w) (regs w) (filterDefaults w) (w_calls w).
Definition set_regs (r : gmap string Registration) (w : world) : world :=
  mkWorld (w_now w) (heap w) (rsets w) (w_current w) (w_version w) r (filterDefaults w) (w_calls w).
Definition tick_call (w : world) : world :=
  mkWorld (w_now w) (heap w) (rsets w) (w_current w) (w_version w) (regs w) (filterDefaults w)
    (S (w_calls w)).

Definition upd_inst (l : loc) (f : Instance -> Instance) (w : world) : world :=
  set_heap (<[l := f (inst_at (heap w) l)]> (heap w)) w.

Global Arguments upd_inst : simpl never.
Global Arguments inst_at : simpl never.

Definition SetFilterDefaults (d : Defaults) (w : world) : world :=
  mkWorld (w_now w) (heap w) (rsets w) (w_current w) (w_version w) (regs w) d (w_calls w).

Definition Pick (s : Snapshot) (key : string) (w : world) : option loc * world :=
  match s_plugins s !! key with
  | None => (None, w)
  | Some p =>
      match rsets w !! p with
      | None => (None, w)
      | Some rs => let '(l, rs) := pick (heap w) rs in (l, set_rsets (<[p := rs]> (rsets w)) w)
      end
  end.

(** [Registry.Target]: the live snapshot's [Target]. *)
Definition RegistryTarget (key : string) (w : world) : option loc * world := Pick (w_current w) key w.

Definition Has (s : Snapshot) (key : string) : bool := bool_decide (is_Some (s_plugins s !! key)).

Definition Keys (s : Snapshot) : list string :=
  sort_stable String.ltb (map_to_list (s_plugins s)).*1.

Definition SnapReplicas (s : Snapshot) (key : string) (w : world) : list loc :=
  match s_plugins s !! key with
  | None => []
  | Some p => match rsets w !! p with Some rs => instances rs | None => [] end
  end.

Definition All (s : Snapshot) (w : world) : list loc := Keys s ≫= fun k => SnapReplicas s k w.

Definition sameInstances (a b : list loc) : bool := bool_decide (a = b).

(** One turn of the range over the registrations: the replica set of [key] in
    the next snapshot. *)
Definition next_rset (old : Snapshot) (w : world) (plugins : gmap string loc) (key : string)
    (reg : Registration) : gmap string loc * world :=
  match p ← s_plugins old !! key; rs ← rsets w !! p; Some (p, rs) with
  | Some (p, rs) =>
      if sameInstances (instances rs) (r_Instances reg) then (<[key := p]> plugins, w)
      else let q := fresh (dom (rsets w)) in
           (<[key := q]> plugins, set_rsets (<[q := newReplicaSet (r_Instances reg)]> (rsets w)) w)
  | None =>
      let q := fresh (dom (rsets w)) in
      (<[key := q]> plugins, set_rsets (<[q := newReplicaSet (r_Instances reg)]> (rsets w)) w)
  end.

Definition reg_filters (l : list (string * Registration)) : list PluginFilters :=
  l ≫= fun kr => match r_Filters kr.2 with
                 | [] => []
                 | fs => [mkPluginFilters kr.1 fs (r_AllowIdentityMutation kr.2)]
                 end.

Definition publishLocked (s : Snapshot) (w : world) : world :=
  let v := uint64 (w_version w + 1) in
  mkWorld (w_now w) (heap w) (rsets w) (mkSnapshot (s_plugins s) (s_chain s) v) v (regs w)
    (filterDefaults w) (w_calls w).

Definition rebuildLocked (w : world) : world :=
  let old := w_current w in
  let l := map_to_list (regs w) in
  let '(plugins, w) := foldl (fun '(plugins, w) kr => next_rset old w plugins kr.1 kr.2) (∅, w) l in
  let chain := match BuildChain (reg_filters l) (filterDefaults w) with
               | Ok c => c
               | Err _ => EmptyChain
               end in
  publishLocked (mkSnapshot plugins chain 0) w.

Definition InstallPlugin (reg : Registration) (w : world) : list loc * world :=
  let displaced := SnapReplicas (w_current w) (r_Key reg) w in
  let w := set_regs (match r_Instances reg with
                     | [] => delete (r_Key reg) (regs w)
                     | _ => <[r_Key reg := reg]> (regs w)
                     end) w in
  (displaced, rebuildLocked w).

Definition Install (key : string) (insts : list loc) (w : world) : list loc * world :=
  InstallPlugin (mkRegistration key insts [] false) w.

Definition Remove (key : string) (w : world) : list loc * world :=
  InstallPlugin (mkRegistration key [] [] false) w.

(** [Swap] and [DrainAll] start a drain of each displaced instance; here the
    drains have begun and are waiting. *)
Definition begin_drain (ls : list loc) (w : world) : world :=
  foldl (fun w l => upd_inst l (setState StateDraining) w) w ls.

Definition Swap (reg : Registration) (w : world) : world :=
  let '(displaced, w) := InstallPlugin reg w in begin_drain displaced w.

Definition DrainAll (w : world) : world :=
  let old := w_current w in
  let w := rebuildLocked (set_regs ∅ w) in
  begin_drain (All old w) w.

(** ** Smooth weighted round-robin *)

Section wrr.
Open Scope Z_scope.

Lemma zsum_zip_add a b : length a = length b -> zsum (zip_with Z.add a b) = zsum a + zsum b.
Proof using.
  revert b. induction a as [|x a IH]; intros [|y b] H; simplify_eq/=; [done|]. rewrite IH by done. lia.
Qed.

(** An entry of a list of numbers above [-W] is at most the sum plus [W] for
    every other entry. *)
Lemma entry_upper W l i c :
  0 <= W -> Forall (fun x => - W < x) l -> l !! i = Some c -> c <= zsum l + W * Z.of_nat (length l).
Proof using.
  intros HW Hl. revert i.
  assert (forall l, Forall (fun x => - W < x) l -> - (W * Z.of_nat (length l)) <= zsum l) as Hlow.
  { clear. induction 1; simpl length; simpl zsum; lia. }
  induction Hl as [|x l Hx Hl IH]; intros [|i] Hi; simplify_eq/=.
  - specialize (Hlow l Hl). lia.
  - specialize (IH i Hi). lia.
Qed.

Lemma wrr_scan_spec ws : forall cur idx total best,
  length cur = length ws -> Forall (Z.lt 0) ws -> 0 <= total -> total + zsum ws < 2 ^ 63 ->
  Forall2 (fun c w => in_int64 (c + w)) cur ws ->
  exists best', wrr_scan (pair true <$> ws) cur idx total best =
    (zip_with Z.add cur ws, total + zsum ws, best') /\
    match best' with
    | None => ws = [] /\ best = None
    | Some (j, v) =>
        (best = Some (j, v) \/ ((idx <= j)%nat /\ zip_with Z.add cur ws !! (j - idx)%nat = Some v)) /\
        Forall (fun v' => v' <= v) (zip_with Z.add cur ws) /\
        (forall j0 v0, best = Some (j0, v0) -> v0 <= v)
    end.
Proof using.
  induction ws as [|w ws IH]; intros cur idx total best Hl Hpos H0 Hs Hr.
  - destruct cur; [|done]. simpl. exists best. split; [by rewrite Z.add_0_r|].
    destruct best as [[j v]|]; [|done]. split; [by left|]. split; [constructor|]. intros ? ? [= -> ->]. lia.
  - destruct cur as [|c cur]; [done|]. injection Hl as Hl.
    apply list.Forall_cons in Hpos as [Hw Hpos]. inversion Hr as [|? ? ? ? Hc Hr']; subst; clear Hr; rename Hr' into Hr.
    simpl zsum in Hs. pose proof (zsum_nonneg ws (list.Forall_impl _ _ _ Hpos (fun x => Z.lt_le_incl 0 x))) as Hws.
    rewrite fmap_cons. cbn [wrr_scan]. rewrite (int64_id (c + w) Hc).
    rewrite (int64_id (total + w)) by (unfold in_int64; lia).
    set (b1 := match best with
               | None => Some (idx, c + w)
               | Some (j, b) => if b <? c + w then Some (idx, c + w) else Some (j, b) end).
    destruct (IH cur (S idx) (total + w) b1 Hl Hpos) as (best' & E & Hb); [lia|lia|done|].
    exists best'. rewrite E.
    simpl zip_with. simpl zsum. split; [by rewrite Z.add_assoc|].
    assert (exists j1 v1, b1 = Some (j1, v1) /\ c + w <= v1 /\
              (best = Some (j1, v1) \/ (j1 = idx /\ v1 = c + w)) /\
              (forall j0 v0, best = Some (j0, v0) -> v0 <= v1)) as (j1 & v1 & Eb1 & Hv1 & Hor & Hle).
    { subst b1. destruct best as [[j b]|].
      - destruct (Z.ltb_spec b (c + w)); eexists _, _; (split; [done|]).
        + split; [lia|]. split; [by right|]. intros ? ? [= -> ->]. lia.
        + split; [lia|]. split; [by left|]. intros ? ? [= -> ->]. lia.
      - eexists _, _. split; [done|]. split; [lia|]. split; [by right|]. done. }
    destruct best' as [[j v]|]; [|destruct Hb as [_ Hb]; congruence].
    destruct Hb as (Hwhere & Hmax & Hold).
    specialize (Hold _ _ Eb1).
    split; [|split].
    + destruct Hwhere as [Hw1|[Hlt Hj]].
      * rewrite Eb1 in Hw1. injection Hw1 as -> ->. destruct Hor as [->|[-> ->]]; [by left|right].
        split; [lia|]. by rewrite Nat.sub_diag.
      * right. split; [lia|]. replace (j - idx)%nat with (S (j - S idx)) by lia. done.
    + constructor; [lia|done].
    + intros j0 v0 H. specialize (Hle _ _ H). lia.
Qed.

(** Every replica of the set is Ready and [ws] lists their weights. *)
Definition all_ready (h : gmap loc Instance) (insts : list loc) (ws : list Z) : Prop :=
  Forall2 (fun l w => exists i, h !! l = Some i /\ i_state i = StateReady /\ i_Weight i = w) insts ws.

Lemma all_ready_views h insts ws : all_ready h insts ws -> view h <$> insts = pair true <$> ws.
Proof using.
  induction 1 as [|l w insts ws (i & Hi & Hs & Hw) _ IH]; [done|]. rewrite !fmap_cons, IH. f_equal.
  unfold view, inst_at. rewrite Hi. simpl. rewrite Hs, Hw. by rewrite bool_decide_eq_true_2.
Qed.

Lemma pick_many h insts cur :
  (2 <= length insts)%nat ->
  pick h (mkReplicaSet insts cur) =
  match wrr_scan (view h <$> insts) cur 0 0 None with
  | (cur, _, None) => (List.find (servable_at h) insts, mkReplicaSet insts cur)
  | (cur, total, Some (best, _)) =>
      (insts !! best, mkReplicaSet insts (alter (fun c => int64 (c - total)) best cur))
  end.
Proof using. destruct insts as [|l1 [|l2 insts]]; simpl length; [lia|lia|]. done. Qed.

Lemma pick_ready h insts cur ws :
  let W := zsum ws in
  (2 <= length insts)%nat -> all_ready h insts ws -> Forall (Z.lt 0) ws -> length cur = length ws ->
  W < 2 ^ 63 -> Forall2 (fun c w => in_int64 (c + w) /\ in_int64 (c + w - W)) cur ws ->
  exists j v l, insts !! j = Some l /\ zip_with Z.add cur ws !! j = Some v /\
    Forall (fun v' => v' <= v) (zip_with Z.add cur ws) /\
    pick h (mkReplicaSet insts cur) =
      (Some l, mkReplicaSet insts (<[j := v - W]> (zip_with Z.add cur ws))).
Proof using.
  intros W H2 Hr Hpos Hl HW Hb. pose proof (list.Forall2_length _ _ _ Hr) as Hlen.
  destruct (wrr_scan_spec ws cur 0 0 None Hl Hpos) as (best & E & Hbest); [lia|done| |].
  { eapply list.Forall2_impl; [exact Hb|]. naive_solver. }
  destruct best as [[j v]|].
  2: { destruct Hbest as [-> _]. simpl in Hlen. lia. }
  destruct Hbest as ([|[_ Hj]] & Hmax & _); [done|]. rewrite Nat.sub_0_r in Hj.
  assert (j < length insts)%nat as Hlt.
  { apply lookup_lt_Some in Hj. rewrite length_zip_with in Hj. lia. }
  destruct (lookup_lt_is_Some_2 insts j Hlt) as [l Hjl].
  exists j, v, l. split; [done|]. split; [done|]. split; [done|].
  rewrite pick_many, (all_ready_views _ _ _ Hr), E, Hjl by done. do 2 f_equal.
  apply list_eq. intros k. destruct (decide (k = j)) as [->|Hk].
  - rewrite list_lookup_alter_eq, list_lookup_insert_eq by (by eapply lookup_lt_Some).
    rewrite Hj. simpl. f_equal. apply int64_id.
    apply lookup_zip_with_Some in Hj as (c & w & -> & Hc & Hw).
    by destruct (Forall2_lookup_lr _ _ _ _ _ _ Hb Hc Hw).
  - by rewrite list_lookup_alter_ne, list_lookup_insert_ne.
Qed.

(** [n] picks in a row. *)
Fixpoint pick_n (h : gmap loc Instance) (n : nat) (rs : replicaSet) : list (option loc) * replicaSet :=
  match n with
  | O => ([], rs)
  | S n => let '(picks, rs) := pick_n h n rs in
           let '(l, rs) := pick h rs in (picks ++ [l], rs)
  end.

Definition times_picked (l : loc) (picks : list (option loc)) : Z :=
  Z.of_nat (length (filter (eq (Some l)) picks)).

Lemma times_picked_snoc l picks l' :
  times_picked l (picks ++ [Some l']) = times_picked l picks + (if decide (l = l') then 1 else 0).
Proof using.
  unfold times_picked. rewrite list.filter_app, length_app, filter_cons, filter_nil.
  destruct (decide (l = l')) as [->|Hne].
  - rewrite decide_True by done. simpl length. lia.
  - rewrite decide_False by congruence. simpl length. lia.
Qed.

(** After [n] rounds each counter is what smooth weighting prescribes and
    stays above minus the total weight. *)
Record wrr_inv (insts : list loc) (ws : list Z) (n : Z) (picks : list (option loc)) (cur : list Z)
    : Prop := mkWrrInv {
  wi_length : length cur = length ws;
  wi_entry : forall i l w c, insts !! i = Some l -> ws !! i = Some w -> cur !! i = Some c ->
    c = n * w - zsum ws * times_picked l picks;
  wi_low : Forall (fun c => - zsum ws < c) cur;
  wi_sum : zsum cur = 0
}.

Lemma wrr_bounds insts ws n picks cur :
  wrr_inv insts ws n picks cur -> Forall (Z.lt 0) ws ->
  (Z.of_nat (length ws) + 1) * zsum ws < 2 ^ 63 ->
  Forall2 (fun c w => in_int64 (c + w) /\ in_int64 (c + w - zsum ws)) cur ws.
Proof using.
  intros [Hl _ Hlow Hsum] Hpos Hbig.
  pose proof (zsum_nonneg ws (list.Forall_impl _ _ _ Hpos (fun x => Z.lt_le_incl 0 x))) as Hws.
  apply Forall2_same_length_lookup_2; [done|]. intros i c w Hc Hw.
  pose proof (entry_upper (zsum ws) cur i c Hws Hlow Hc) as Hup. rewrite Hsum, Hl in Hup.
  pose proof (proj1 (Forall_lookup _ _) Hlow i c Hc) as Hlo. simpl in Hlo.
  pose proof (proj1 (Forall_lookup _ _) Hpos i w Hw) as Hwp. simpl in Hwp.
  assert (w <= zsum ws) as Hwle.
  { pose proof (entry_upper 0 ws i w ltac:(lia)) as He.
    rewrite Z.mul_0_l, Z.add_0_r in He. apply He; [|done].
    eapply list.Forall_impl; [exact Hpos|]. simpl. lia. }
  assert (1 <= length ws)%nat as Hlen1 by (apply lookup_lt_Some in Hw; lia).
  assert (2 * zsum ws <= (Z.of_nat (length ws) + 1) * zsum ws) as H2W by nia.
  rewrite Z.mul_add_distr_r, Z.mul_1_l in *. rewrite (Z.mul_comm (zsum ws)) in Hup.
  unfold in_int64. lia.
Qed.

Lemma wrr_step h insts ws n picks cur :
  NoDup insts -> (2 <= length insts)%nat -> all_ready h insts ws -> Forall (Z.lt 0) ws ->
  (Z.of_nat (length ws) + 1) * zsum ws < 2 ^ 63 ->
  wrr_inv insts ws n picks cur ->
  exists l cur', pick h (mkReplicaSet insts cur) = (Some l, mkReplicaSet insts cur') /\
    wrr_inv insts ws (n + 1) (picks ++ [Some l]) cur'.
Proof using.
  intros Hnd H2 Hr Hpos Hbig Hi. pose proof (wrr_bounds _ _ _ _ _ Hi Hpos Hbig) as Hb.
  destruct Hi as [Hl He Hlow Hsum].
  pose proof (list.Forall2_length _ _ _ Hr) as Hlen.
  assert (0 < zsum ws) as HW.
  { destruct Hpos as [|w ws' Hw Hpos']; [simpl in Hlen; lia|]. simpl.
    pose proof (zsum_nonneg ws' (list.Forall_impl _ _ _ Hpos' (fun x => Z.lt_le_incl 0 x))). lia. }
  destruct (pick_ready h insts cur ws H2 Hr Hpos Hl ltac:(nia) Hb) as (j & v & l & Hjl & Hjv & Hmax & Ep).
  exists l. eexists. split; [exact Ep|]. clear Ep.
  assert (zsum (zip_with Z.add cur ws) = zsum ws) as Hz by (rewrite zsum_zip_add, Hsum by done; lia).
  assert (0 < v) as Hv.
  { destruct (Z.lt_ge_cases 0 v) as [|Hneg]; [done|exfalso].
    assert (forall l, Forall (fun v' => v' <= v) l -> zsum l <= 0) as Hall.
    { clear -Hneg. induction 1; simpl; lia. }
    specialize (Hall _ Hmax). lia. }
  split.
  - by rewrite length_insert, length_zip_with, Hl, Nat.min_id.
  - intros i l' w c Hil Hiw Hic. rewrite times_picked_snoc.
    destruct (decide (i = j)) as [->|Hij].
    + rewrite list_lookup_insert_eq in Hic by (by eapply lookup_lt_Some). injection Hic as <-.
      rewrite Hjl in Hil. injection Hil as <-. rewrite decide_True by done.
      apply lookup_zip_with_Some in Hjv as (c & w' & -> & Hc & Hw'). rewrite Hiw in Hw'.
      injection Hw' as <-. rewrite (He j l w c Hjl Hiw Hc). lia.
    + rewrite list_lookup_insert_ne in Hic by done.
      apply lookup_zip_with_Some in Hic as (c0 & w' & -> & Hc & Hw'). rewrite Hiw in Hw'.
      injection Hw' as <-. rewrite (He i l' w c0 Hil Hiw Hc).
      rewrite decide_False; [lia|]. intros ->. apply Hij. by eapply NoDup_lookup.
  - apply Forall_insert.
    + apply Forall_lookup. intros i x Hx. apply lookup_zip_with_Some in Hx as (c & w & -> & Hc & Hw).
      pose proof (proj1 (Forall_lookup _ _) Hlow i c Hc) as H1. simpl in H1.
      pose proof (proj1 (Forall_lookup _ _) Hpos i w Hw) as H3. simpl in H3. lia.
    + lia.
  - rewrite (zsum_insert _ _ v) by done. lia.
Qed.

Lemma wrr_run h insts ws n :
  NoDup insts -> (2 <= length insts)%nat -> all_ready h insts ws -> Forall (Z.lt 0) ws ->
  (Z.of_nat (length ws) + 1) * zsum ws < 2 ^ 63 ->
  exists cur, (pick_n h n (newReplicaSet insts)).2 = mkReplicaSet insts cur /\
    wrr_inv insts ws (Z.of_nat n) (pick_n h n (newReplicaSet insts)).1 cur.
Proof using.
  intros Hnd H2 Hr Hpos Hbig. pose proof (list.Forall2_length _ _ _ Hr) as Hlen.
  assert (0 < zsum ws) as HW.
  { destruct Hpos as [|w ws' Hw Hpos']; [simpl in Hlen; lia|]. simpl.
    pose proof (zsum_nonneg ws' (list.Forall_impl _ _ _ Hpos' (fun x => Z.lt_le_incl 0 x))). lia. }
  induction n as [|n (cur & E & Hi)].
  - exists (replicate (length insts) 0). split; [done|]. split.
    + by rewrite length_replicate.
    + intros i l w c _ _ Hc. apply lookup_replicate in Hc as [-> _].
      unfold times_picked. simpl. lia.
    + apply Forall_replicate. lia.
    + clear. induction (length insts) as [|k IH]; [done|]. exact IH.
  - simpl. destruct (pick_n h n (newReplicaSet insts)) as [picks rs] eqn:En. simpl in E, Hi. subst rs.
    destruct (wrr_step h insts ws _ picks cur Hnd H2 Hr Hpos Hbig Hi) as (l & cur' & Ep & Hi').
    rewrite Ep. simpl. exists cur'. split; [done|]. by replace (Z.of_nat (S n)) with (Z.of_nat n + 1) by lia.
Qed.
End wrr.

(** Smooth weighted round-robin is exact: starting from a fresh set of two
    or more Ready replicas, over as many picks as the weights add up to every
    replica is picked exactly as often as its weight says, and the counters are
    back at zero, so the pattern repeats. *)
Lemma pick_proportional h insts ws :
  NoDup insts -> (2 <= length insts)%nat -> all_ready h insts ws -> Forall (Z.lt 0) ws ->
  ((Z.of_nat (length ws) + 1) * zsum ws < 2 ^ 63)%Z ->
  let '(picks, rs) := pick_n h (Z.to_nat (zsum ws)) (newReplicaSet insts) in
  rs = newReplicaSet insts /\
  forall i l w, insts !! i = Some l -> ws !! i = Some w -> times_picked l picks = w.
Proof.
  intros Hnd H2 Hr Hpos Hbig.
  destruct (wrr_run h insts ws (Z.to_nat (zsum ws)) Hnd H2 Hr Hpos Hbig) as (cur & E & [Hl He Hlow Hsum]).
  destruct (pick_n h _ _) as [picks rs]. simpl in *. subst rs.
  pose proof (zsum_nonneg ws (list.Forall_impl _ _ _ Hpos (fun x => Z.lt_le_incl 0 x))) as Hws.
  rewrite Z2Nat.id in He by done.
  pose proof (list.Forall2_length _ _ _ Hr) as Hlen.
  assert (Forall (Z.le 0) cur) as Hge.
  { apply Forall_lookup. intros i c Hc.
    destruct (lookup_lt_is_Some_2 ws i) as [w Hw]; [rewrite <- Hl; by eapply lookup_lt_Some|].
    destruct (lookup_lt_is_Some_2 insts i) as [l Hil]; [rewrite Hlen; by eapply lookup_lt_Some|].
    pose proof (proj1 (Forall_lookup _ _) Hlow i c Hc) as Hc1. simpl in Hc1.
    pose proof (He i l w c Hil Hw Hc) as Hcw.
    destruct (Z.le_gt_cases (times_picked l picks) w); nia. }
  pose proof (zsum_zero_all cur Hge Hsum) as Hz. split.
  - unfold newReplicaSet. f_equal. apply list_eq_same_length with (length insts);
      [rewrite length_replicate; done|congruence|].
    intros i x y Hi Hx Hy. apply lookup_replicate in Hy as [-> _].
    symmetry. by apply (proj1 (Forall_lookup _ _) Hz i x).
  - intros i l w Hil Hw.
    destruct (lookup_lt_is_Some_2 cur i) as [c Hc]; [rewrite Hl; by eapply lookup_lt_Some|].
    pose proof (He i l w c Hil Hw Hc) as Hcw.
    pose proof (proj1 (Forall_lookup _ _) Hz i c Hc) as <-.
    pose proof (proj1 (Forall_lookup _ _) Hpos i w Hw) as Hwp. simpl in Hwp.
    assert (0 < zsum ws)%Z as HW.
    { destruct Hpos as [|w' ws' Hw' Hpos']; [by rewrite lookup_nil in Hw|]. simpl.
      pose proof (zsum_nonneg ws' (list.Forall_impl _ _ _ Hpos' (fun x => Z.lt_le_incl 0 x))). lia. }
    nia.
Qed.

Definition demo_instance (id : string) (weight : Z) : Instance :=
  MarkReady (NewInstance "notes" id "1" weight 0 true).

Definition demo_heap : gmap loc Instance :=
  {[1%nat := demo_instance "a" 2; 2%nat := demo_instance "b" 1]}.

(** ** The registry *)

(** The live snapshot routes exactly the registered plugins, each to a replica
    set of its registered instances. *)
Record RegInv (w : world) : Prop := mkRegInv {
  ri_keys : forall k, is_Some (regs w !! k) <-> is_Some (s_plugins (w_current w) !! k);
  ri_sets : forall k p reg, s_plugins (w_current w) !! k = Some p -> regs w !! k = Some reg ->
    exists rs, rsets w !! p = Some rs /\ instances rs = r_Instances reg;
  ri_regs : forall k reg, regs w !! k = Some reg -> r_Key reg = k /\ r_Instances reg <> []
}.

Definition chain_of (r : gmap string Registration) (d : Defaults) : Chain :=
  match BuildChain (reg_filters (map_to_list r)) d with Ok c => c | Err _ => EmptyChain end.

(** What the next snapshot holds for one registration. *)
Definition routed (old : Snapshot) (w w' : world) (reg : Registration) (k : string) (p : loc) : Prop :=
  exists rs, rsets w' !! p = Some rs /\ instances rs = r_Instances reg /\
    match q ← s_plugins old !! k; rs0 ← rsets w !! q; Some (q, rs0) with
    | Some (q, rs0) => if sameInstances (instances rs0) (r_Instances reg) then p = q /\ rs = rs0
                       else rs = newReplicaSet (r_Instances reg)
    | None => rs = newReplicaSet (r_Instances reg)
    end.

(** Everything but the replica sets, which only grow. *)
Definition grows (w w' : world) : Prop := rsets w ⊆ rsets w' /\ w' = set_rsets (rsets w') w.

#[export] Instance grows_preorder : PreOrder grows.
Proof.
  split.
  - intros []. by split.
  - intros w1 w2 w3 [H1 E1] [H2 E2]. split; [by transitivity (rsets w2)|].
    rewrite E2, E1. done.
Qed.

(** Picking moves the counters, not the replicas. *)
Lemma pick_instances h rs : instances (pick h rs).2 = instances rs.
Proof.
  unfold pick. destruct rs as [[|l1 [|l2 ls]] cur]; [done|done|]. cbn [instances current].
  destruct (wrr_scan _ _ _ _ _) as [[c t] [[j v]|]]; done.
Qed.

Lemma next_rset_spec old w plugins k reg plugins' w' :
  (forall p, s_plugins old !! k = Some p -> is_Some (rsets w !! p)) ->
  next_rset old w plugins k reg = (plugins', w') ->
  grows w w' /\ exists p, plugins' = <[k := p]> plugins /\ routed old w w' reg k p.
Proof.
  intros Hv. unfold next_rset, routed.
  assert (forall q, q ∉ dom (rsets w) ->
    grows w (set_rsets (<[q := newReplicaSet (r_Instances reg)]> (rsets w)) w)) as Hg.
  { intros q Hq. split; [|done]. simpl. apply insert_subseteq. by apply not_elem_of_dom. }
  pose proof (is_fresh (dom (rsets w))) as Hf.
  destruct (s_plugins old !! k) as [p|]; simpl.
  - destruct (Hv p eq_refl) as [rs Hrs]. rewrite Hrs. simpl.
    destruct (sameInstances (instances rs) (r_Instances reg)) eqn:Es; intros [= <- <-].
    + split; [done|]. exists p. split; [done|]. exists rs. split; [done|].
      apply bool_decide_eq_true in Es. done.
    + split; [by apply Hg|]. eexists. split; [done|]. eexists. simpl. rewrite lookup_insert_eq. done.
  - intros [= <- <-]. split; [by apply Hg|]. eexists. split; [done|]. eexists. simpl.
    rewrite lookup_insert_eq. done.
Qed.

(** A set seen early stays as it was while later ones are allocated. *)
Lemma routed_grows old w w1 w2 w' reg k p :
  grows w w1 -> grows w2 w' ->
  (forall p, s_plugins old !! k = Some p -> is_Some (rsets w !! p)) ->
  routed old w1 w2 reg k p -> routed old w w' reg k p.
Proof.
  intros [H1 _] [H2 _] Hv (rs & Hrs & Hi & Hm). exists rs.
  split; [by eapply lookup_weaken|]. split; [done|].
  destruct (s_plugins old !! k) as [q|]; simpl in *; [|done].
  destruct (Hv q eq_refl) as [rs0 Hq]. rewrite Hq. simpl.
  by rewrite (lookup_weaken _ _ _ _ Hq H1) in Hm.
Qed.

Lemma rebuild_fold old l : forall plugins w plugins' w',
  NoDup l.*1 -> (forall k p, s_plugins old !! k = Some p -> is_Some (rsets w !! p)) ->
  foldl (fun '(plugins, w) kr => next_rset old w plugins kr.1 kr.2) (plugins, w) l = (plugins', w') ->
  grows w w' /\ (forall k, k ∉ l.*1 -> plugins' !! k = plugins !! k) /\
  (forall k reg, (k, reg) ∈ l -> exists p, plugins' !! k = Some p /\ routed old w w' reg k p).
Proof.
  induction l as [|[k reg] l IH]; intros plugins w plugins' w' Hn Hv H.
  { simpl in H. injection H as <- <-. split; [done|]. split; [done|]. by intros ? ? ?%not_elem_of_nil. }
  rewrite fmap_cons in Hn. apply list.NoDup_cons in Hn as [Hk Hn]. cbn [foldl fst snd] in H.
  destruct (next_rset old w plugins k reg) as [plugins1 w1] eqn:E1.
  apply next_rset_spec in E1 as [Hg1 (p & -> & Hr1)]; [|by apply Hv].
  assert (forall k p, s_plugins old !! k = Some p -> is_Some (rsets w1 !! p)) as Hv1.
  { intros k' p' Hp'. destruct (Hv k' p' Hp') as [rs Hrs]. exists rs. eapply lookup_weaken; [done|apply Hg1]. }
  destruct (IH _ _ _ _ Hn Hv1 H) as (Hg2 & Hout & Hin). split; [by transitivity w1|]. split.
  - intros k' Hk'. rewrite fmap_cons in Hk'. apply not_elem_of_cons in Hk' as [Hne Hk'].
    rewrite Hout by done. by rewrite lookup_insert_ne.
  - intros k' reg' Hin'. apply elem_of_cons in Hin' as [[= -> ->]|Hin'].
    + exists p. rewrite Hout, lookup_insert_eq by done. split; [done|].
      apply (routed_grows old w w w1); [done|done|apply Hv|done].
    + destruct (Hin k' reg' Hin') as (p' & Hp' & Hr'). exists p'. split; [done|].
      apply (routed_grows old w w1 w'); [done|done|apply Hv|done].
Qed.

Lemma rebuildLocked_spec w :
  (forall k p, s_plugins (w_current w) !! k = Some p -> is_Some (rsets w !! p)) ->
  let w' := rebuildLocked w in
  heap w' = heap w /\ regs w' = regs w /\ w_version w' = uint64 (w_version w + 1) /\
  s_version (w_current w') = w_version w' /\ rsets w ⊆ rsets w' /\
  s_chain (w_current w') = chain_of (regs w) (filterDefaults w) /\
  filterDefaults w' = filterDefaults w /\
  (forall k, regs w !! k = None -> s_plugins (w_current w') !! k = None) /\
  (forall k reg, regs w !! k = Some reg ->
     exists p, s_plugins (w_current w') !! k = Some p /\ routed (w_current w) w w' reg k p).
Proof.
  intros Hv. unfold rebuildLocked.
  destruct (foldl _ (∅, w) (map_to_list (regs w))) as [plugins w1] eqn:E.
  apply rebuild_fold in E as ([Hsub Hg] & Hout & Hin); [|apply NoDup_fst_map_to_list|done].
  simpl. rewrite Hg. simpl. unfold chain_of. repeat (split; [done|]). split.
  - intros k Hk. rewrite Hout, lookup_empty; [done|].
    intros ([k' r] & -> & Hr)%list_elem_of_fmap. apply elem_of_map_to_list in Hr. simpl in Hk. congruence.
  - intros k reg Hk. apply elem_of_map_to_list in Hk. by apply Hin.
Qed.

Definition reg_change (reg : Registration) (r : gmap string Registration) : gmap string Registration :=
  match r_Instances reg with [] => delete (r_Key reg) r | _ => <[r_Key reg := reg]> r end.

Lemma RegInv_valid w k p :
  RegInv w -> s_plugins (w_current w) !! k = Some p -> is_Some (rsets w !! p).
Proof.
  intros [Hk Hs _] Hp. destruct (proj2 (Hk k) (ex_intro _ _ Hp)) as [reg Hreg].
  destruct (Hs k p reg Hp Hreg) as (rs & Hrs & _). by exists rs.
Qed.

Lemma reg_change_ne reg r k : k <> r_Key reg -> reg_change reg r !! k = r !! k.
Proof.
  intros Hne. unfold reg_change. destruct (r_Instances reg); [by rewrite lookup_delete_ne|by rewrite lookup_insert_ne].
Qed.

Lemma reg_change_eq reg r :
  reg_change reg r !! r_Key reg = if decide (r_Instances reg = []) then None else Some reg.
Proof.
  unfold reg_change. destruct (r_Instances reg); [apply lookup_delete_eq|apply lookup_insert_eq].
Qed.

Lemma InstallPlugin_inv reg w : RegInv w -> RegInv (InstallPlugin reg w).2.
Proof.
  intros Hi. set (w1 := set_regs (reg_change reg (regs w)) w).
  change ((InstallPlugin reg w).2) with (rebuildLocked w1).
  destruct (rebuildLocked_spec w1) as (_ & Hr & _ & _ & _ & _ & _ & Hnone & Hsome).
  { intros k p Hp. by apply (RegInv_valid w k p Hi). }
  change (regs w1) with (reg_change reg (regs w)) in *. split.
  - intros k. rewrite Hr. split.
    + intros [reg0 Hk]. destruct (Hsome k reg0 Hk) as (p & Hp & _). by exists p.
    + intros [p Hp]. destruct (reg_change reg (regs w) !! k) eqn:E; [by eexists|].
      rewrite (Hnone k E) in Hp. done.
  - intros k p reg0 Hp Hk. rewrite Hr in Hk. destruct (Hsome k reg0 Hk) as (p' & Hp' & rs & Hrs & Hin & _).
    rewrite Hp in Hp'. injection Hp' as <-. eauto.
  - intros k reg0 Hk. rewrite Hr in Hk. destruct (decide (k = r_Key reg)) as [->|Hne].
    + rewrite reg_change_eq in Hk. case_decide; [done|]. by injection Hk as <-.
    + rewrite reg_change_ne in Hk by done. by apply (ri_regs w Hi).
Qed.

Lemma InstallPlugin_routes reg w :
  RegInv w -> SnapReplicas (w_current (InstallPlugin reg w).2) (r_Key reg) (InstallPlugin reg w).2 = r_Instances reg.
Proof.
  intros Hi. set (w1 := set_regs (reg_change reg (regs w)) w).
  change ((InstallPlugin reg w).2) with (rebuildLocked w1).
  destruct (rebuildLocked_spec w1) as (_ & Hr & _ & _ & _ & _ & _ & Hnone & Hsome).
  { intros k p Hp. by apply (RegInv_valid w k p Hi). }
  change (regs w1) with (reg_change reg (regs w)) in *.
  unfold SnapReplicas. pose proof (reg_change_eq reg (regs w)) as He. case_decide as Hn.
  - by rewrite (Hnone _ He), Hn.
  - destruct (Hsome _ _ He) as (p & -> & rs & -> & -> & _). done.
Qed.

Lemma InstallPlugin_frame reg w :
  RegInv w ->
  heap (InstallPlugin reg w).2 = heap w /\ regs (InstallPlugin reg w).2 = reg_change reg (regs w).
Proof.
  intros Hi. set (w1 := set_regs (reg_change reg (regs w)) w).
  change ((InstallPlugin reg w).2) with (rebuildLocked w1).
  destruct (rebuildLocked_spec w1) as (Hh & Hr & _).
  { intros k p Hp. by apply (RegInv_valid w k p Hi). }
  by rewrite Hh, Hr.
Qed.

Lemma InstallPlugin_now reg w : RegInv w -> w_now (InstallPlugin reg w).2 = w_now w.
Proof.
  intros Hi. set (w1 := set_regs (reg_change reg (regs w)) w).
  change ((InstallPlugin reg w).2) with (rebuildLocked w1). unfold rebuildLocked.
  destruct (foldl _ (∅, w1) (map_to_list (regs w1))) as [plugins w2] eqn:E.
  apply rebuild_fold in E as ([_ ->] & _); [done|apply NoDup_fst_map_to_list|].
  intros k p Hp. by apply (RegInv_valid w k p Hi).
Qed.

(** C33. Publishing a plugin changes exactly that plugin. From a consistent
    registry, [InstallPlugin] returns the instances the key was routed to and
    publishes one new snapshot, numbered one higher, in which the key routes to
    precisely the given instances (or nowhere, when there are none), every other
    plugin keeps the very replica set it had with its round-robin position, the
    chain is the one compiled from all registrations, and no instance is
    touched; and the registry is consistent again. *)
Theorem InstallPlugin_spec reg w :
  RegInv w ->
  let '(displaced, w') := InstallPlugin reg w in
  displaced = SnapReplicas (w_current w) (r_Key reg) w /\ RegInv w' /\
  regs w' = reg_change reg (regs w) /\ heap w' = heap w /\
  s_version (w_current w') = uint64 (w_version w + 1) /\
  s_chain (w_current w') = chain_of (regs w') (filterDefaults w) /\
  SnapReplicas (w_current w') (r_Key reg) w' = r_Instances reg /\
  (forall k, k <> r_Key reg ->
     s_plugins (w_current w') !! k = s_plugins (w_current w) !! k /\
     (forall p, s_plugins (w_current w) !! k = Some p -> rsets w' !! p = rsets w !! p)).
Proof.
  intros Hi. unfold InstallPlugin.
  change (match r_Instances reg with [] => delete (r_Key reg) (regs w) | _ => <[r_Key reg := reg]> (regs w) end)
    with (reg_change reg (regs w)).
  set (w1 := set_regs (reg_change reg (regs w)) w).
  destruct (rebuildLocked_spec w1) as (Hh & Hr & Hv & Hsv & Hsub & Hc & Hd & Hnone & Hsome).
  { intros k p Hp. by apply (RegInv_valid w k p Hi). }
  set (w' := rebuildLocked w1) in *. change (regs w1) with (reg_change reg (regs w)) in *.
  split; [done|]. split; [exact (InstallPlugin_inv reg w Hi)|].
  split; [done|]. split; [done|]. split; [by rewrite Hsv|]. split; [by rewrite Hr|]. split.
  - exact (InstallPlugin_routes reg w Hi).
  - intros k Hk. pose proof (reg_change_ne reg (regs w) k Hk) as He.
    destruct (regs w !! k) as [reg0|] eqn:Ek.
    + destruct (Hsome k reg0 He) as (p & Hp & rs & Hrs & Hin & Hm).
      destruct (proj1 (ri_keys w Hi k) (ex_intro _ _ Ek)) as [q Hq].
      destruct (ri_sets w Hi k q reg0 Hq Ek) as (rs0 & Hrs0 & Hin0).
      change (w_current w1) with (w_current w) in Hm. change (rsets w1) with (rsets w) in Hm.
      rewrite Hq in Hm. simpl in Hm. rewrite Hrs0 in Hm. simpl in Hm. unfold sameInstances in Hm.
      rewrite bool_decide_eq_true_2 in Hm by congruence. destruct Hm as [-> ->].
      rewrite Hp, Hq. split; [done|]. intros ? [= <-]. by rewrite Hrs, Hrs0.
    + rewrite (Hnone k He). split.
      * destruct (s_plugins (w_current w) !! k) eqn:Ep; [|done].
        destruct (proj2 (ri_keys w Hi k) (ex_intro _ _ Ep)) as [? ?]. congruence.
      * intros p Hp. destruct (proj2 (ri_keys w Hi k) (ex_intro _ _ Hp)) as [? ?]. congruence.
Qed.

Lemma NewRegistry_inv now h : RegInv (NewRegistry now h).
Proof.
  split; simpl; intros.
  - by rewrite !lookup_empty.
  - by rewrite lookup_empty in *.
  - by rewrite lookup_empty in *.
Qed.

Definition demo_reg : Registration :=
  mkRegistration "waf" [1%nat; 2%nat] [demo_filter "guard" "pre_route" 0] false.

Lemma InstallPlugin_spec_witness :
  let w := NewRegistry 0 demo_heap in
  SnapReplicas (w_current (InstallPlugin demo_reg w).2) "waf" (InstallPlugin demo_reg w).2 = [1; 2]%nat /\
  RegInv (InstallPlugin demo_reg w).2.
Proof.
  cbv zeta.
  pose proof (InstallPlugin_spec demo_reg (NewRegistry 0 demo_heap) (NewRegistry_inv 0 demo_heap)) as H.
  destruct (InstallPlugin demo_reg (NewRegistry 0 demo_heap)) as [d w'].
  destruct H as (_ & Hi & _ & _ & _ & _ & Hs & _). split; [exact Hs|exact Hi].
Defined.

(** ** What re-installing a plugin without its declarations loses *)

Lemma reg_filters_key l p : p ∈ reg_filters l -> exists reg, (pf_Key p, reg) ∈ l /\ r_Filters reg <> [].
Proof.
  unfold reg_filters. intros H. apply list_elem_of_bind in H as ([k reg] & Hp & Hin). simpl in Hp.
  destruct (r_Filters reg) as [|f fs] eqn:E; [by apply not_elem_of_nil in Hp|].
  apply list_elem_of_singleton in Hp as ->. exists reg. simpl. rewrite E. done.
Qed.

Lemma chain_of_key r d phase f :
  f ∈ ChainFilters (chain_of r d) phase ->
  exists reg, r !! PluginKey f = Some reg /\ r_Filters reg <> [].
Proof.
  unfold chain_of. intros Hf.
  destruct (BuildChain (reg_filters (map_to_list r)) d) as [c|] eqn:E.
  - destruct (decide (0 <= phase < Z.of_nat phaseCount)%Z) as [Hp|Hp].
    + rewrite (BuildChain_row _ _ _ _ E Hp), sort_stable_perm in Hf.
      apply list_elem_of_bind in Hf as (p & Hf & Hin). apply contribution_key in Hf.
      apply reg_filters_key in Hin as (reg & Hin & Hne). apply elem_of_map_to_list in Hin.
      exists reg. by rewrite Hf.
    + unfold ChainFilters in Hf.
      assert ((phase <? 0) || (Z.of_nat phaseCount <=? phase) = true)%Z as Ho.
      { apply orb_true_iff. rewrite Z.ltb_lt, Z.leb_le. lia. }
      rewrite Ho in Hf. by apply not_elem_of_nil in Hf.
  - unfold ChainFilters in Hf. rewrite EmptyChain_row in Hf. destruct (_ || _); by apply not_elem_of_nil in Hf.
Qed.

(** Re-publishing a restarted process with [Install], as the supervisor's
    recovery does, registers the plugin with no filters: from then on no phase
    of the chain contains a filter of that plugin, whatever it had declared, so
    a fail-closed guard silently stops guarding; and every other replica of the
    plugin leaves the routing table without being drained. *)
Lemma Install_drops_filters w key l :
  RegInv w ->
  let displaced := (Install key [l] w).1 in
  let w' := (Install key [l] w).2 in
  (forall phase f, f ∈ ChainFilters (s_chain (w_current w')) phase -> PluginKey f <> key) /\
  SnapReplicas (w_current w') key w' = [l] /\ displaced = SnapReplicas (w_current w) key w /\
  heap w' = heap w.
Proof.
  intros Hi. unfold Install, InstallPlugin. cbn [fst snd].
  set (w1 := set_regs _ w).
  destruct (rebuildLocked_spec w1) as (Hh & Hr & _ & _ & _ & Hc & _ & _ & Hsome).
  { intros k p Hp. by apply (RegInv_valid w k p Hi). }
  split; [|split; [|done]].
  - intros phase f Hf <-. rewrite Hc in Hf. apply chain_of_key in Hf as (reg & Hreg & Hne).
    simpl in Hreg. rewrite lookup_insert_eq in Hreg. by injection Hreg as <-.
  - unfold SnapReplicas. simpl r_Key.
    destruct (Hsome key (mkRegistration key [l] [] false)) as (p & -> & rs & -> & -> & _); [|done].
    apply lookup_insert_eq.
Qed.

(** ** The registry as the pipeline's resolver *)

Section host.
(** What plugins answer: the call number, the instance, the deadline and the
    request decide. [None] is a transport error or a timeout. *)
Context (client_filter : nat -> loc -> Z -> FilterRequest -> option FilterResponse).

Definition inst_Filter (l : loc) (deadline : Z) (req : FilterRequest) (w : world)
    : option FilterResponse * world :=
  (client_filter (w_calls w) l deadline req, tick_call w).

Definition inst_Allow (l : loc) (w : world) : bool * world :=
  let '(ok, b) := Allow (w_now w) (i_Breaker (inst_at (heap w) l)) in
  (ok, upd_inst l (set_breaker b) w).

Definition inst_RecordSuccess (l : loc) (w : world) : world :=
  upd_inst l (fun i => set_breaker (RecordSuccess (i_Breaker i)) i) w.

Definition inst_RecordFailure (l : loc) (w : world) : world :=
  upd_inst l (fun i => set_breaker (RecordFailure (w_now w) (i_Breaker i)) i) w.

Definition inst_Begin (l : loc) (w : world) : bool * world :=
  let '(ok, i) := BeginRequest (inst_at (heap w) l) in (ok, upd_inst l (fun _ => i) w).

Definition inst_Release (l : loc) (w : world) : world := upd_inst l EndRequest w.

#[export] Instance host_ops : TargetOps world loc := {
  t_now := w_now;
  t_Target := RegistryTarget;
  t_Filter := inst_Filter;
  t_Allow := inst_Allow;
  t_RecordSuccess := inst_RecordSuccess;
  t_RecordFailure := inst_RecordFailure;
  t_Begin := inst_Begin;
  t_Release := inst_Release
}.

Definition inst_inflight (l : loc) (w : world) : Z := int64 (inflight (inst_at (heap w) l)).

Lemma inst_at_upd l f w t :
  inst_at (heap (upd_inst l f w)) t =
  if decide (l = t) then f (inst_at (heap w) l) else inst_at (heap w) t.
Proof using.
  unfold upd_inst, inst_at. simpl. case_decide as H.
  - subst t. by rewrite lookup_insert_eq.
  - by rewrite lookup_insert_ne.
Qed.

Lemma Pick_heap s k w : heap (Pick s k w).2 = heap w.
Proof using.
  unfold Pick. destruct (s_plugins s !! k); [|done]. destruct (rsets w !! _); [|done].
  by destruct (pick (heap w) _).
Qed.

#[export] Instance host_laws : TargetLaws world loc.
Proof using.
  apply (Build_TargetLaws world loc host_ops _ inst_inflight).
  - intros k w t. simpl. unfold RegistryTarget, inst_inflight. by rewrite Pick_heap.
  - intros t' d q w t. done.
  - intros t' w t. cbn [t_Allow t_RecordSuccess t_RecordFailure t_Begin t_Release host_ops]. unfold inst_Allow, inst_inflight.
    destruct (Allow _ _) as [ok b]. cbn [fst snd]. rewrite inst_at_upd. case_decide; [by subst|done].
  - intros t' w t. cbn [t_Allow t_RecordSuccess t_RecordFailure t_Begin t_Release host_ops]. unfold inst_RecordSuccess, inst_inflight. rewrite inst_at_upd.
    case_decide; [by subst|done].
  - intros t' w t. cbn [t_Allow t_RecordSuccess t_RecordFailure t_Begin t_Release host_ops]. unfold inst_RecordFailure, inst_inflight. rewrite inst_at_upd.
    case_decide; [by subst|done].
  - intros t' w t. cbn [t_Allow t_RecordSuccess t_RecordFailure t_Begin t_Release host_ops]. unfold inst_Begin, inst_inflight. rewrite BeginRequest_spec.
    destruct (decide (i_state (inst_at (heap w) t') = StateReady)); cbn [fst snd]; rewrite inst_at_upd.
    + destruct (decide (t' = t)) as [->|]; [|by rewrite Z.add_0_r, int64_idem].
      simpl. by rewrite int64_idem, int64_add.
    + rewrite Z.add_0_r, int64_idem. case_decide; [by subst|done].
  - intros t' w t. cbn [t_Allow t_RecordSuccess t_RecordFailure t_Begin t_Release host_ops]. unfold inst_Release, inst_inflight. rewrite inst_at_upd.
    destruct (decide (t' = t)) as [->|]; [|by rewrite Z.sub_0_r, int64_idem].
    simpl. by rewrite int64_idem, <- Z.add_opp_r, int64_add.
  - intros t w. apply int64_range.
Defined.
End host.
