(* ===== verification/Menu.v ===== *)
(** * core/gateway/menu.go and the menu half of apps_handler.go

    The console's menu: the menus of every enabled plugin, filtered by the
    caller's role, merged by path and sorted. The theorems say which entries the
    caller sees (exactly those whose whole chain of ancestors admits the role)
    and that the tree is canonical. *)

From S2P Require Import Prelude GoStrings StableSort.
From S2P Require Manifest.

Inductive MenuNode := mkMenuNode {
  mn_Path : string; mn_Title : string; mn_Icon : string; mn_Order : Z; mn_Entry : string;
  mn_Roles : list string; mn_Children : list MenuNode
}.

Definition set_children (cs : list MenuNode) (n : MenuNode) : MenuNode :=
  mkMenuNode (mn_Path n) (mn_Title n) (mn_Icon n) (mn_Order n) (mn_Entry n) (mn_Roles n) cs.

Definition roleAllowed (roles : list string) (userRole : string) : bool :=
  match roles with
  | [] => true
  | _ => if String.eqb userRole "" then false else existsb (fun r => String.eqb r userRole) roles
  end.

(** [filterByRole] on the children of one node and below. *)
Fixpoint filter_node (userRole : string) (n : MenuNode) : MenuNode :=
  set_children
    ((fix go (l : list MenuNode) : list MenuNode :=
        match l with
        | [] => []
        | c :: l => if negb (roleAllowed (mn_Roles c) userRole) then go l
                    else filter_node userRole c :: go l
        end) (mn_Children n)) n.

Definition filterByRole (nodes : list MenuNode) (userRole : string) : list MenuNode :=
  foldr (fun c l => if negb (roleAllowed (mn_Roles c) userRole) then l
                    else filter_node userRole c :: l) [] nodes.

Definition menu_less (a b : MenuNode) : bool :=
  if negb (Z.eqb (mn_Order a) (mn_Order b)) then (mn_Order a <? mn_Order b)%Z
  else String.ltb (mn_Path a) (mn_Path b).

Definition sortMenuNodes (nodes : list MenuNode) : list MenuNode := sort_stable menu_less nodes.

Fixpoint findIndex (nodes : list MenuNode) (path : string) : option nat :=
  match nodes with
  | [] => None
  | n :: nodes => if String.eqb (mn_Path n) path then Some 0 else S <$> findIndex nodes path
  end.

Fixpoint mergeInto (node : MenuNode) (siblings : list MenuNode) : list MenuNode :=
  let '(siblings, idx) :=
    match findIndex siblings (mn_Path node) with
    | Some idx => (siblings, idx)
    | None => (siblings ++ [set_children [] node], length siblings)
    end in
  let kids :=
    (fix go (l acc : list MenuNode) : list MenuNode :=
       match l with
       | [] => acc
       | c :: l => go l (mergeInto c acc)
       end) (mn_Children node) (match siblings !! idx with Some n => mn_Children n | None => [] end) in
  alter (set_children (sortMenuNodes kids)) idx siblings.

Definition buildTree (menus : list (list MenuNode)) (userRole : string) : list MenuNode :=
  sortMenuNodes
    (foldl (fun root appMenus => foldl (fun root n => mergeInto n root) root (filterByRole appMenus userRole))
       [] menus).

(** The console's entries for a manifest's menus. *)
Fixpoint menuNode_from (defaultEntry : string) (it : Manifest.MenuItem) : MenuNode :=
  let children := (fix go (l : list Manifest.MenuItem) : list MenuNode :=
                     match l with
                     | [] => []
                     | c :: l => menuNode_from defaultEntry c :: go l
                     end) (Manifest.m_children it) in
  mkMenuNode (Manifest.m_path it) (Manifest.m_title it) (Manifest.m_icon it) (Manifest.m_order it)
    (if String.eqb (Manifest.m_entry it) "" && match children with [] => true | _ => false end
     then defaultEntry else Manifest.m_entry it)
    (Manifest.m_roles it) children.

Definition menuNodesFrom (items : list Manifest.MenuItem) (defaultEntry : string) : list MenuNode :=
  map (menuNode_from defaultEntry) items.

Definition displayNameOr (name fallback : string) : string :=
  if negb (String.eqb name "") then name else fallback.

(** ** The app list *)

Record AppInfo := mkAppInfo {
  a_Key : string; a_DisplayName : string; a_MenuIcon : string; a_MenuPath : string;
  a_Entry : string; a_Online : bool; a_Replicas : Z; a_Menus : list MenuNode
}.

(** What the handler reads of a plugin's status and package. *)
Record PluginStatus := mkPluginStatus {
  ps_Key : string; ps_DisplayName : string; ps_Enabled : bool; ps_Ready : Z
}.
Record UIPackage := mkUIPackage { up_FrontendDir : string; up_Menus : list Manifest.MenuItem }.

Definition PluginAssetPrefix := "/plugins/".

Section apps.
Context (List : list PluginStatus) (Package : string -> option UIPackage).

Definition app_of (userRole : string) (st : PluginStatus) : list AppInfo :=
  if negb (ps_Enabled st) || (ps_Ready st =? 0)%Z then []
  else match Package (ps_Key st) with
       | None => []
       | Some pkg =>
           if String.eqb (up_FrontendDir pkg) "" then []
           else
             let entry := PluginAssetPrefix +:+ ps_Key st +:+ "/" in
             let name := displayNameOr (ps_DisplayName st) (ps_Key st) in
             let menus := match menuNodesFrom (up_Menus pkg) entry with
                          | [] => [mkMenuNode ("/" +:+ ps_Key st) name "" 0 entry [] []]
                          | l => l
                          end in
             let filtered := filterByRole menus userRole in
             [mkAppInfo (ps_Key st) name
                (match filtered with [] => "" | n :: _ => mn_Icon n end)
                (match filtered with [] => "" | n :: _ => mn_Path n end)
                entry true (ps_Ready st) filtered]
       end.

Definition appsFromPlugins (userRole : string) : list AppInfo := List ≫= app_of userRole.

(** What [AppsHandler] answers a caller with that role. *)
Definition apps_response (userRole : string) : list AppInfo * list MenuNode :=
  let apps := appsFromPlugins userRole in (apps, buildTree (a_Menus <$> apps) userRole).

(** [Auth] maps a session token to its user's role; [Err] is the 401. *)
Definition AppsHandler (Auth : option (string -> option string)) (token : string)
    : result string (list AppInfo * list MenuNode) :=
  match Auth with
  | None => Ok (apps_response "")
  | Some resolve =>
      match resolve token with
      | None => Err "unauthenticated"
      | Some role => Ok (apps_response role)
      end
  end.
End apps.

(** ** Reading a forest by chains of paths *)

Section node_ind.
Context (P : MenuNode -> Prop).
Context (IHnode : forall p t i o e r cs, Forall P cs -> P (mkMenuNode p t i o e r cs)).

Fixpoint node_ind (n : MenuNode) : P n :=
  match n with
  | mkMenuNode p t i o e r cs =>
      IHnode p t i o e r cs
        ((fix go (l : list MenuNode) : Forall P l :=
            match l with [] => Forall_nil _ | c :: l => Forall_cons _ _ _ (node_ind c) (go l) end) cs)
  end.
End node_ind.

(** [has_chain l p]: following the paths [p] from the roots [l] reaches a node. *)
Fixpoint has_chain (l : list MenuNode) (p : list string) : Prop :=
  match p with
  | [] => False
  | x :: q => exists n, n ∈ l /\ mn_Path n = x /\ (q = [] \/ has_chain (mn_Children n) q)
  end.

(** The same, through nodes that all admit the role. *)
Fixpoint visible_chain (role : string) (l : list MenuNode) (p : list string) : Prop :=
  match p with
  | [] => False
  | x :: q => exists n, n ∈ l /\ roleAllowed (mn_Roles n) role = true /\ mn_Path n = x /\
                        (q = [] \/ visible_chain role (mn_Children n) q)
  end.

Lemma has_chain_app l1 l2 p : has_chain (l1 ++ l2) p <-> has_chain l1 p \/ has_chain l2 p.
Proof. destruct p; simpl; [naive_solver|]. setoid_rewrite elem_of_app. naive_solver. Qed.

Lemma has_chain_perm l1 l2 p : l1 ≡ₚ l2 -> has_chain l1 p <-> has_chain l2 p.
Proof. intros Hp. destruct p; simpl; [done|]. by setoid_rewrite Hp. Qed.

Lemma filter_node_children role n : mn_Children (filter_node role n) = filterByRole (mn_Children n) role.
Proof.
  destruct n as [p t i o e r cs]. simpl. induction cs as [|c cs IH]; simpl; [done|].
  destruct (negb _); [done|]. by rewrite IH.
Qed.

Lemma filter_node_path role n : mn_Path (filter_node role n) = mn_Path n.
Proof. by destruct n. Qed.

Lemma filterByRole_elem role l n :
  n ∈ filterByRole l role <-> exists m, m ∈ l /\ roleAllowed (mn_Roles m) role = true /\ n = filter_node role m.
Proof.
  induction l as [|c l IH]; simpl.
  - split; [by intros ?%not_elem_of_nil|by intros (? & ?%not_elem_of_nil & _)].
  - destruct (roleAllowed (mn_Roles c) role) eqn:E; simpl.
    + rewrite elem_of_cons, IH. setoid_rewrite elem_of_cons. naive_solver.
    + rewrite IH. setoid_rewrite elem_of_cons. naive_solver congruence.
Qed.

Lemma filterByRole_chain role l p : has_chain (filterByRole l role) p <-> visible_chain role l p.
Proof.
  revert l. induction p as [|x q IH]; intros l; simpl; [done|]. split.
  - intros (n & (m & Hm & Hr & ->)%filterByRole_elem & Hx & Hq). exists m.
    rewrite filter_node_path in Hx. rewrite filter_node_children, IH in Hq. done.
  - intros (m & Hm & Hr & Hx & Hq). exists (filter_node role m).
    rewrite filterByRole_elem, filter_node_path, filter_node_children, IH.
    split; [by exists m|]. done.
Qed.

(** ** Merging *)

Definition merge_all (l acc : list MenuNode) : list MenuNode := foldl (fun acc n => mergeInto n acc) acc l.

Lemma mergeInto_eq node siblings :
  mergeInto node siblings =
  let '(siblings, idx) :=
    match findIndex siblings (mn_Path node) with
    | Some idx => (siblings, idx)
    | None => (siblings ++ [set_children [] node], length siblings)
    end in
  alter (fun n => set_children (sortMenuNodes (merge_all (mn_Children node) (mn_Children n))) n) idx siblings.
Proof.
  destruct node as [p t i o e r cs]. cbn [mergeInto mn_Path mn_Children].
  assert (forall acc, (fix go (l acc : list MenuNode) : list MenuNode :=
            match l with [] => acc | c :: l => go l (mergeInto c acc) end) cs acc = merge_all cs acc) as Hgo.
  { induction cs as [|c cs IH]; intros acc; [done|]. apply IH. }
  destruct (match findIndex siblings p with Some idx => _ | None => _ end) as [sib idx].
  rewrite Hgo. apply list_eq. intros k. destruct (decide (k = idx)) as [->|Hne].
  - rewrite !list_lookup_alter_eq. by destruct (sib !! idx).
  - by rewrite !list_lookup_alter_ne.
Qed.

Lemma findIndex_some l p i : findIndex l p = Some i -> exists n, l !! i = Some n /\ mn_Path n = p.
Proof.
  revert i. induction l as [|n l IH]; intros i; simpl; [done|].
  destruct (String.eqb_spec (mn_Path n) p); [intros [= <-]; by exists n|].
  destruct (findIndex l p) as [j|]; simpl; [|done]. intros [= <-]. by apply IH.
Qed.

Lemma findIndex_none l p : findIndex l p = None -> p ∉ mn_Path <$> l.
Proof.
  induction l as [|n l IH]; simpl; [by intros _ ?%not_elem_of_nil|].
  destruct (String.eqb_spec (mn_Path n) p); [done|]. destruct (findIndex l p); [done|].
  intros _ [->|H]%elem_of_cons; [done|]. by apply IH.
Qed.

(** Where the merge happens: the siblings, with the node's slot among them. *)
Lemma mergeInto_slot node siblings :
  exists l1 n l2, siblings ++ (if findIndex siblings (mn_Path node) then [] else [set_children [] node])
                    = l1 ++ n :: l2 /\ mn_Path n = mn_Path node /\
    (findIndex siblings (mn_Path node) = None -> l2 = [] /\ l1 = siblings /\ n = set_children [] node) /\
    mergeInto node siblings =
      l1 ++ set_children (sortMenuNodes (merge_all (mn_Children node) (mn_Children n))) n :: l2.
Proof.
  rewrite mergeInto_eq. destruct (findIndex siblings (mn_Path node)) as [i|] eqn:E.
  - apply findIndex_some in E as (n & Hn & Hp). rewrite app_nil_r.
    exists (take i siblings), n, (drop (S i) siblings).
    pose proof (take_drop_middle siblings i n Hn) as Hs. split; [done|]. split; [done|]. split; [done|].
    apply lookup_lt_Some in Hn as Hlt. rewrite <- Hs at 1.
    assert (length (take i siblings) = i) as Hl by (rewrite length_take; lia).
    rewrite alter_app_r_alt by lia. by rewrite Hl, Nat.sub_diag.
  - exists siblings, (set_children [] node), []. split; [done|]. split; [done|]. split; [done|].
    rewrite alter_app_r_alt by lia. by rewrite Nat.sub_diag.
Qed.

Lemma sort_chain l p : has_chain (sortMenuNodes l) p <-> has_chain l p.
Proof. apply has_chain_perm, sort_stable_perm. Qed.

Lemma has_chain_single n x q :
  has_chain [n] (x :: q) <-> mn_Path n = x /\ (q = [] \/ has_chain (mn_Children n) q).
Proof. simpl. setoid_rewrite list_elem_of_singleton. naive_solver. Qed.

Lemma mergeInto_chain n : forall siblings p,
  has_chain (mergeInto n siblings) p <-> has_chain siblings p \/ has_chain [n] p.
Proof.
  induction n as [pa t i o e r cs IH] using node_ind. intros siblings p.
  set (node := mkMenuNode pa t i o e r cs).
  destruct (mergeInto_slot node siblings) as (l1 & n & l2 & Hs & Hp & Hnew & ->).
  assert (forall acc q, has_chain (merge_all cs acc) q <-> has_chain acc q \/ has_chain cs q) as Hall.
  { clear -IH. induction IH as [|c cs Hc _ IHcs]; intros acc q.
    - simpl. split; [by left|]. intros [|H]; [done|]. destruct q; [done|].
      destruct H as (? & ?%not_elem_of_nil & _). done.
    - change (merge_all (c :: cs) acc) with (merge_all cs (mergeInto c acc)).
      rewrite IHcs, Hc. change (c :: cs) with ([c] ++ cs). rewrite has_chain_app. naive_solver. }
  destruct p as [|x q]; [simpl; tauto|].
  change (l1 ++ set_children (sortMenuNodes (merge_all (mn_Children node) (mn_Children n))) n :: l2)
    with (l1 ++ [set_children (sortMenuNodes (merge_all cs (mn_Children n))) n] ++ l2).
  rewrite !has_chain_app, !has_chain_single. change (mn_Children node) with cs.
  change (mn_Path (set_children (sortMenuNodes (merge_all cs (mn_Children n))) n)) with (mn_Path n).
  change (mn_Children (set_children (sortMenuNodes (merge_all cs (mn_Children n))) n))
    with (sortMenuNodes (merge_all cs (mn_Children n))).
  rewrite sort_chain, Hall, Hp.
  assert (has_chain siblings (x :: q) \/ mn_Path node = x /\ q = [] <->
          has_chain l1 (x :: q) \/ (mn_Path node = x /\ (q = [] \/ has_chain (mn_Children n) q)) \/
          has_chain l2 (x :: q)) as Hsib.
  { rewrite <- Hp, <- has_chain_single, <- !has_chain_app.
    change ([n] ++ l2) with (n :: l2). rewrite <- Hs.
    destruct (findIndex siblings (mn_Path node)) as [j|] eqn:Ej.
    - rewrite app_nil_r. split; [|by left]. intros [H|[Hx ->]]; [done|].
      rewrite app_nil_r in Hs. exists n. rewrite Hs. split; [set_solver|]. split; [congruence|by left].
    - destruct (Hnew eq_refl) as (_ & _ & ->). rewrite has_chain_app, has_chain_single. simpl.
      assert (~ has_chain [] q) as Hnil by (destruct q; [by intros []|by intros (? & ?%not_elem_of_nil & _)]).
      tauto. }
  tauto.
Qed.

Lemma merge_all_chain l acc p : has_chain (merge_all l acc) p <-> has_chain acc p \/ has_chain l p.
Proof.
  revert acc. induction l as [|n l IH]; intros acc.
  - simpl. split; [by left|]. intros [|H]; [done|]. destruct p; [done|].
    destruct H as (? & ?%not_elem_of_nil & _). done.
  - change (merge_all (n :: l) acc) with (merge_all l (mergeInto n acc)).
    rewrite IH, mergeInto_chain. change (n :: l) with ([n] ++ l). rewrite has_chain_app. tauto.
Qed.

(** The console shows a caller exactly the menu entries they may see: a chain
    of paths from a root leads to an entry of the merged tree if and only if some
    plugin declares that chain with every node on it open to the caller's role.
    An entry under a forbidden parent never appears, and no permitted entry is
    lost by merging. *)
Lemma buildTree_visible menus role p :
  has_chain (buildTree menus role) p <-> exists m, m ∈ menus /\ visible_chain role m p.
Proof.
  unfold buildTree. rewrite sort_chain.
  assert (forall root, has_chain (foldl (fun root appMenus =>
      foldl (fun root n => mergeInto n root) root (filterByRole appMenus role)) root menus) p <->
      has_chain root p \/ exists m, m ∈ menus /\ visible_chain role m p) as H.
  { induction menus as [|m menus IH]; intros root; simpl.
    - split; [by left|]. by intros [|(? & ?%not_elem_of_nil & _)].
    - rewrite IH. fold (merge_all (filterByRole m role) root).
      rewrite merge_all_chain, filterByRole_chain. setoid_rewrite elem_of_cons. naive_solver. }
  rewrite H. split; [|by right]. intros [Hnil|]; [|done]. destruct p; [done|].
  destruct Hnil as (? & ?%not_elem_of_nil & _). done.
Qed.

(** ** Canonical trees *)

Definition menu_key (n : MenuNode) : Z * string := (mn_Order n, mn_Path n).

Lemma menu_less_key a b : menu_less a b = lex Z.ltb String.ltb (menu_key a) (menu_key b).
Proof.
  unfold menu_less, lex, menu_key. simpl.
  destruct (Z.eqb_spec (mn_Order a) (mn_Order b)); [by rewrite decide_True|by rewrite decide_False].
Qed.

Definition menu_before (a b : MenuNode) : Prop := menu_less b a = false.

Lemma sortMenuNodes_sorted l : StronglySorted menu_before (sortMenuNodes l).
Proof. apply (sort_stable_sorted menu_less menu_key (lex Z.ltb String.ltb) menu_less_key). Qed.

(** Below a node, siblings have distinct paths and stand in order. *)
Inductive tree_ok : MenuNode -> Prop :=
| tree_ok_intro n :
    NoDup (mn_Path <$> mn_Children n) -> StronglySorted menu_before (mn_Children n) ->
    Forall tree_ok (mn_Children n) -> tree_ok n.

Definition forest_ok (l : list MenuNode) : Prop := NoDup (mn_Path <$> l) /\ Forall tree_ok l.

Lemma sort_forest_ok l : forest_ok l -> forest_ok (sortMenuNodes l).
Proof.
  intros [Hn Hf]. unfold forest_ok, sortMenuNodes. by rewrite sort_stable_perm.
Qed.

Lemma mergeInto_ok n : forall siblings, forest_ok siblings -> forest_ok (mergeInto n siblings).
Proof.
  induction n as [pa t i o e r cs IH] using node_ind. intros siblings [Hn Hf].
  set (node := mkMenuNode pa t i o e r cs).
  destruct (mergeInto_slot node siblings) as (l1 & n & l2 & Hs & Hp & Hnew & ->).
  assert (forall acc, forest_ok acc -> forest_ok (merge_all cs acc)) as Hall.
  { clear -IH. induction IH as [|c cs Hc _ IHcs]; intros acc Ha; [done|]. by apply IHcs, Hc. }
  assert (forest_ok (l1 ++ n :: l2)) as [Hn' Hf'].
  { rewrite <- Hs. destruct (findIndex siblings (mn_Path node)) eqn:E; [by rewrite app_nil_r|].
    apply findIndex_none in E. split.
    - rewrite fmap_app. apply list.NoDup_app. split; [done|]. split; [|apply NoDup_singleton].
      intros x Hx ->%list_elem_of_singleton. by apply E.
    - apply Forall_app. split; [done|]. constructor; [|constructor].
      constructor; simpl; constructor. }
  change (mn_Children node) with cs.
  apply Forall_app in Hf' as [Hf1 [Hn0 Hf2]%list.Forall_cons].
  assert (forest_ok (merge_all cs (mn_Children n))) as Hk%sort_forest_ok.
  { apply Hall. inversion Hn0; subst. done. }
  split.
  - rewrite fmap_app in *. exact Hn'.
  - apply Forall_app. split; [done|]. constructor; [|done]. destruct Hk as [Hk1 Hk2].
    constructor; simpl; [done|apply sortMenuNodes_sorted|done].
Qed.

(** The merged tree is canonical: at every level siblings have distinct
    paths, so two plugins that declare the same path share one entry, and they
    are sorted by order, then path. *)
Lemma buildTree_canonical menus role :
  NoDup (mn_Path <$> buildTree menus role) /\ StronglySorted menu_before (buildTree menus role) /\
  Forall tree_ok (buildTree menus role).
Proof.
  assert (forall l root, forest_ok root -> forest_ok (foldl (fun root n => mergeInto n root) root l)) as H1.
  { induction l as [|n l IH]; intros root Hr; simpl; [done|]. by apply IH, mergeInto_ok. }
  assert (forall root, forest_ok root -> forest_ok (foldl (fun root appMenus =>
      foldl (fun root n => mergeInto n root) root (filterByRole appMenus role)) root menus)) as H2.
  { induction menus as [|m menus IH]; intros root Hr; simpl; [done|]. by apply IH, H1. }
  destruct (sort_forest_ok _ (H2 [] (conj (NoDup_nil_2) (Forall_nil_2 _)))) as [Hn Hf].
  split; [exact Hn|]. split; [apply sortMenuNodes_sorted|exact Hf].
Qed.
