(* ===== verification/Manager.v ===== *)
(** * core/pluginhost/package.go, launch.go, manager.go and supervisor.go

    Installed packages, the lifecycle operations the admin API calls, and crash
    recovery. The file system, hashing and the go-plugin handshake are
    parameters: what [Launch] returns on a successful handshake is the source's
    own last lines. Each operation runs to completion here: the drains [Disable]
    waits for are over when it returns, those [Upgrade] starts in the background
    have begun. *)

From S2P Require Import Prelude GoStrings PathMatch Cron Manifest Wire StableSort Chain Pipeline Breaker Instance Registry.

Open Scope Z_scope.

(** ** Packages *)

Record Package := mkPackage {
  p_Dir : string; p_Manifest : Manifest; BinaryPath : string; Checksum : string;
  FrontendDir : string; p_Filters : list CompiledFilter
}.

Definition p_Key (p : Package) : string := Key (p_Manifest p).
Definition p_Version (p : Package) : string := Version (p_Manifest p).
Definition AllowsIdentityMutation (p : Package) : bool :=
  HasPermission (p_Manifest p) PermFilterAuthenticate.

Definition ManifestFilename := "manifest.yaml".

(** [filepath.Join] of a directory and one more element. *)
Definition path_join (dir elem : string) : string :=
  if String.eqb dir "" then path_clean elem else path_clean (dir +:+ "/" +:+ elem).

Record FileInfo := mkFileInfo { fi_dir : bool; fi_mode : Z; fi_size : Z }.

Inductive package_error :=
| PkgLoad (e : load_error) | PkgInvalid (e : manifest_error) | PkgNoEntrypoint
| PkgNoBinary | PkgBinaryIsDir | PkgNotExecutable | PkgBadFilter (e : compile_error) | PkgUnreadable
| PkgKeyMismatch (key : string).

Section packages.
Context (stat : string -> option FileInfo) (read : string -> option string)
        (decode : string -> option Manifest) (checksum : string -> option string).

Definition dirExists (path : string) : bool :=
  match stat path with Some i => fi_dir i | None => false end.

Definition LoadPackage (dir : string) : result package_error Package :=
  match Load (fun p => fi_size <$> stat p) read decode (path_join dir ManifestFilename) with
  | Err e => Err (PkgLoad e)
  | Ok m =>
      match Validate m with
      | Err e => Err (PkgInvalid e)
      | Ok _ =>
          let entrypoint := Entrypoint (mf_runtime m) in
          reject? String.eqb entrypoint "" with PkgNoEntrypoint ;;
          let binary := path_join dir (path_clean ("/" +:+ entrypoint)) in
          match stat binary with
          | None => Err PkgNoBinary
          | Some info =>
              reject? fi_dir info with PkgBinaryIsDir ;;
              reject? Z.land (fi_mode info) 73 =? 0 with PkgNotExecutable ;;
              match CompileFilters m with
              | Err e => Err (PkgBadFilter e)
              | Ok filters =>
                  match checksum binary with
                  | None => Err PkgUnreadable
                  | Some sum =>
                      let fe := path_join dir "frontend" in
                      Ok (mkPackage dir m binary sum (if dirExists fe then fe else "") filters)
                  end
              end
          end
      end
  end.

(** The entries of the root directory: names, and whether each is a directory. *)
Definition ScanPackages (root : string) (entries : list (string * bool))
    : list Package * gmap string package_error :=
  let '(pkgs, failures) :=
    foldl (fun '(pkgs, failures) '(name, isDir) =>
      if negb isDir then (pkgs, failures)
      else
        let dir := path_join root name in
        match stat (path_join dir ManifestFilename) with
        | None => (pkgs, failures)
        | Some _ =>
            match LoadPackage dir with
            | Err e => (pkgs, <[name := e]> failures)
            | Ok pkg =>
                if negb (String.eqb (p_Key pkg) name)
                then (pkgs, <[name := PkgKeyMismatch (p_Key pkg)]> failures)
                else (pkgs ++ [pkg], failures)
            end
        end) ([], ∅) entries in
  (sort_stable (fun a b => String.ltb (p_Key a) (p_Key b)) pkgs, failures).
End packages.

(** ** The manager and its supervisor *)

Record SupervisorConfig := mkSupervisorConfig {
  PollInterval : Z; InitialBackoff : Z; MaxBackoff : Z; CrashThreshold : Z; CrashWindow : Z
}.

Definition DefaultSupervisorConfig : SupervisorConfig :=
  mkSupervisorConfig Second Second (60 * Second) 5 (300 * Second).

Definition fill_supervisor (c : SupervisorConfig) : SupervisorConfig :=
  mkSupervisorConfig
    (if PollInterval c <=? 0 then Second else PollInterval c)
    (if InitialBackoff c <=? 0 then Second else InitialBackoff c)
    (if MaxBackoff c <=? 0 then 60 * Second else MaxBackoff c)
    (if CrashThreshold c <=? 0 then 5 else CrashThreshold c)
    (if CrashWindow c <=? 0 then 300 * Second else CrashWindow c).

Record crashRecord := mkCrashRecord { cr_count : Z; firstAt : Z }.

Inductive manager_error := NotInstalled (key : string) | LaunchFailed | ReloadFailed (e : package_error)
| PluginDisabled (key : string).

(** What the console is told of a plugin that did not load, or did not start
    with Core. *)
Inductive plugin_error := ScanError (e : package_error) | EnableError (e : manager_error).

Record manager := mkManager {
  mw : world;                          (** the registry and the instances *)
  packages : gmap string Package;
  enabled : gset string;
  m_errors : gmap string plugin_error;
  scfg : SupervisorConfig;
  crashes : gmap string crashRecord;
  quarantined : gmap string Z;
  watched : list loc;                  (** instances with a watch loop *)
  launches : nat                       (** processes started so far *)
}.

Definition NewManager (supervisor : SupervisorConfig) (w : world) : manager :=
  mkManager w ∅ ∅ ∅ (fill_supervisor supervisor) ∅ ∅ [] 0.

Definition set_mw (w : world) (m : manager) : manager :=
  mkManager w (packages m) (enabled m) (m_errors m) (scfg m) (crashes m) (quarantined m) (watched m) (launches m).
Definition set_packages (p : gmap string Package) (e : gmap string plugin_error) (m : manager) : manager :=
  mkManager (mw m) p (enabled m) e (scfg m) (crashes m) (quarantined m) (watched m) (launches m).
Definition set_enabled (e : gset string) (m : manager) : manager :=
  mkManager (mw m) (packages m) e (m_errors m) (scfg m) (crashes m) (quarantined m) (watched m) (launches m).
Definition set_crashes (c : gmap string crashRecord) (q : gmap string Z) (m : manager) : manager :=
  mkManager (mw m) (packages m) (enabled m) (m_errors m) (scfg m) c q (watched m) (launches m).
Definition watch (ls : list loc) (m : manager) : manager :=
  mkManager (mw m) (packages m) (enabled m) (m_errors m) (scfg m) (crashes m) (quarantined m)
    (watched m ++ ls) (launches m).
Definition upd_w (f : world -> world) (m : manager) : manager := set_mw (f (mw m)) m.

(** ** Launching *)

Definition set_now (t : Z) (w : world) : world :=
  mkWorld t (heap w) (rsets w) (w_current w) (w_version w) (regs w) (filterDefaults w) (w_calls w).

Definition kill_all (ls : list loc) (m : manager) : manager :=
  upd_w (fun w => foldl (fun w l => upd_inst l Kill w) w ls) m.

Definition RegOf (key : string) (pkg : Package) (insts : list loc) : Registration :=
  mkRegistration key insts (p_Filters pkg) (AllowsIdentityMutation pkg).

Definition ClearCrashes (key : string) (m : manager) : manager :=
  set_crashes (delete key (crashes m)) (delete key (quarantined m)) m.

Section lifecycle.
(** Whether the handshake and Configure of the [n]-th process succeed. *)
Context (handshake : nat -> Package -> Z -> bool).

(** [launchOne]: the package's [index]-th process. *)
Definition launchOne (pkg : Package) (index : Z) (m : manager) : option loc * manager :=
  let n := launches m in
  let m := mkManager (mw m) (packages m) (enabled m) (m_errors m) (scfg m) (crashes m) (quarantined m)
             (watched m) (S n) in
  if negb (handshake n pkg index) then (None, m)
  else
    let l := fresh (dom (heap (mw m))) in
    let inst := MarkReady (NewInstance (p_Key pkg) (p_Key pkg +:+ "-" +:+ itoa index) (p_Version pkg)
                             (Weight (p_Manifest pkg)) (w_now (mw m)) true) in
    (Some l, upd_w (fun w => set_heap (<[l := inst]> (heap w)) w) m).

(** The loop of [launchAll], with the instances started so far. *)
Fixpoint launch_loop (pkg : Package) (todo : nat) (index : Z) (started : list loc) (m : manager)
    : option (list loc) * manager :=
  match todo with
  | O => (Some started, m)
  | S todo =>
      match launchOne pkg index m with
      | (None, m) => (None, kill_all started m)
      | (Some l, m) => launch_loop pkg todo (index + 1) (started ++ [l]) m
      end
  end.

Definition launchAll (pkg : Package) (m : manager) : option (list loc) * manager :=
  launch_loop pkg (Z.to_nat (ReplicaCount (p_Manifest pkg))) 0 [] m.

Definition Enable (key : string) (m : manager) : option manager_error * manager :=
  match packages m !! key with
  | None => (Some (NotInstalled key), m)
  | Some pkg =>
      match launchAll pkg m with
      | (None, m) => (Some LaunchFailed, m)
      | (Some insts, m) =>
          let m := upd_w (fun w => (InstallPlugin (RegOf key pkg insts) w).2) m in
          let m := watch insts m in
          let m := set_enabled ({[key]} ∪ enabled m) m in
          (None, ClearCrashes key m)
      end
  end.

(** [obs] is what each drain's rounds observe. The result is the first drain
    that was not clean. *)
Definition drain_one (obs : loc -> list (Z * wait_event)) (acc : option drain_result * world) (l : loc)
    : option drain_result * world :=
  let '(err, w) := acc in
  let '(r, i) := Drain (obs l) (inst_at (heap w) l) in
  (match err, r with
   | None, DrainClean => None
   | None, _ => Some r
   | Some _, _ => err
   end, upd_inst l (fun _ => i) w).

Definition Disable (obs : loc -> list (Z * wait_event)) (key : string) (m : manager)
    : option drain_result * manager :=
  let m := set_enabled (enabled m ∖ {[key]}) m in
  let '(displaced, w) := Remove key (mw m) in
  let m := set_mw w m in
  match displaced with
  | [] => (None, m)
  | _ =>
      let '(err, w) := foldl (drain_one obs) (None, w) displaced in
      (err, ClearCrashes key (set_mw w m))
  end.

(** [reload] is what [LoadPackage] makes of the plugin's directory now. *)
Definition Upgrade (key : string) (reload : result package_error Package) (m : manager)
    : option manager_error * manager :=
  match reload with
  | Err e => (Some (ReloadFailed e), m)
  | Ok pkg =>
      match launchAll pkg m with
      | (None, m) => (Some LaunchFailed, m)
      | (Some insts, m) =>
          let m := set_packages (<[key := pkg]> (packages m)) (m_errors m) m in
          let m := set_enabled ({[key]} ∪ enabled m) m in
          let m := upd_w (Swap (RegOf key pkg insts)) m in
          (None, ClearCrashes key (watch insts m))
      end
  end.

(** The result is the first failure. *)
Definition EnableAll (m : manager) : option manager_error * manager :=
  foldl (fun '(firstErr, m) key =>
           match Enable key m with
           | (Some e, m) =>
               (match firstErr with None => Some e | Some _ => firstErr end,
                set_packages (packages m) (<[key := EnableError e]> (m_errors m)) m)
           | (None, m) => (firstErr, m)
           end)
    (None, m) (sort_stable String.ltb (map_to_list (packages m)).*1).

Definition relaunch (key : string) (m : manager) : result manager_error loc * manager :=
  match packages m !! key with
  | Some pkg =>
      if bool_decide (key ∈ enabled m) then
        match launchOne pkg 0 m with
        | (Some l, m) => (Ok l, m)
        | (None, m) => (Err LaunchFailed, m)
        end
      else (Err (PluginDisabled key), m)
  | None => (Err (PluginDisabled key), m)
  end.

(** *** supervisor.go *)

Definition isUnexpected (l : loc) (m : manager) : bool :=
  let i := inst_at (heap (mw m)) l in
  match i_state i with
  | StateDraining | StateStopped | StateQuarantined => false
  | _ => bool_decide (l ∈ SnapReplicas (w_current (mw m)) (i_Key i) (mw m))
  end.

Definition tooManyCrashes (key : string) (m : manager) : bool * manager :=
  let now := w_now (mw m) in
  match crashes m !! key with
  | Some rec =>
      if CrashWindow (scfg m) <? now - firstAt rec
      then (false, set_crashes (<[key := mkCrashRecord 1 now]> (crashes m)) (quarantined m) m)
      else
        let n := int64 (cr_count rec + 1) in
        (CrashThreshold (scfg m) <=? n,
         set_crashes (<[key := mkCrashRecord n (firstAt rec)]> (crashes m)) (quarantined m) m)
  | None => (false, set_crashes (<[key := mkCrashRecord 1 now]> (crashes m)) (quarantined m) m)
  end.

Fixpoint backoff_loop (n : nat) (backoff max : Z) : Z :=
  match n with
  | O => backoff
  | S n => let backoff := int64 (backoff * 2) in if max <=? backoff then max else backoff_loop n backoff max
  end.

Definition backoffFor (key : string) (m : manager) : Z :=
  let n := match crashes m !! key with Some rec => cr_count rec | None => 1 end in
  backoff_loop (Z.to_nat (n - 1)) (InitialBackoff (scfg m)) (MaxBackoff (scfg m)).

Definition quarantine (key : string) (m : manager) : manager :=
  let m := set_crashes (crashes m) (<[key := w_now (mw m)]> (quarantined m)) m in
  let '(displaced, w) := Remove key (mw m) in
  upd_w (fun _ => foldl (fun w l => upd_inst l Kill (upd_inst l MarkQuarantined w)) w displaced) m.

Inductive recovery := Quarantined | Abandoned | Restarted (l : loc) | OutOfFuel.

(** The part of [recover] after the threshold test; [again] is the recursive
    call, and [admin] whatever happens while the backoff is waited for. *)
Definition restart (again : manager -> recovery * manager) (admin : manager -> manager) (key : string)
    (m : manager) : recovery * manager :=
  let backoff := backoffFor key m in
  let m := admin (upd_w (fun w => set_now (w_now w + backoff) w) m) in
  if negb (Has (w_current (mw m)) key) then (Abandoned, m)
  else match relaunch key m with
       | (Err (PluginDisabled _), m) => (Abandoned, m)
       | (Err _, m) => again m
       | (Ok l, m) => (Restarted l, watch [l] (upd_w (fun w => (Install key [l] w).2) m))
       end.

(** [meanwhile n] is the [admin] of the pass that starts with [n] units of
    fuel to go. *)
Fixpoint recover (fuel : nat) (meanwhile : nat -> manager -> manager) (key : string) (m : manager)
    : recovery * manager :=
  match fuel with
  | O => (OutOfFuel, m)
  | S fuel' =>
      let '(tooMany, m) := tooManyCrashes key m in
      if tooMany then (Quarantined, quarantine key m)
      else restart (recover fuel' meanwhile key) (meanwhile fuel') key m
  end.

(** One poll of the watch loop of [l]. *)
Definition watch_tick (fuel : nat) (meanwhile : nat -> manager -> manager) (l : loc) (m : manager)
    : option recovery * manager :=
  let i := inst_at (heap (mw m)) l in
  if negb (ProcessExited i) then (None, m)
  else if negb (isUnexpected l m) then (None, m)
  else
    let m := upd_w (upd_inst l MarkFailed) m in
    let '(r, m) := recover fuel meanwhile (i_Key i) m in (Some r, m).

Definition QuarantinedSince (key : string) (m : manager) : option Z := quarantined m !! key.
End lifecycle.

(** *** Configuration *)

(** [set] is the operator's map, empty when there is no source. *)
Definition ConfigFor (key : string) (set : gmap string string) (m : manager) : gmap string string :=
  match packages m !! key with
  | Some pkg => MergeConfig (p_Manifest pkg) set
  | None => set
  end.

(** Every replica is told the same; the result names the first that failed. *)
Definition SetConfig (accepts : loc -> bool) (key : string) (cfg : gmap string string) (m : manager)
    : list (loc * gmap string string) * option loc :=
  let cfg := ConfigFor key cfg m in
  let replicas := SnapReplicas (w_current (mw m)) key (mw m) in
  ((fun l => (l, cfg)) <$> replicas, List.find (fun l => negb (accepts l)) replicas).

Definition envFor (BaseEnv : list string) (pkg : Package) (dataDir : string) : list string :=
  (match BaseEnv with [] => ["PATH=/usr/local/bin:/usr/bin:/bin"] | _ => BaseEnv end) ++
  ["MODULESS_PLUGIN_KEY=" +:+ p_Key pkg; "MODULESS_PLUGIN_VERSION=" +:+ p_Version pkg] ++
  (if String.eqb dataDir "" then [] else ["MODULESS_DATA_DIR=" +:+ dataDir]).

Record Status := mkStatus {
  st_Key : string; st_DisplayName : string; st_Version : string; st_Enabled : bool;
  st_Replicas : Z; st_Ready : Z; st_InFlight : Z; st_Permissions : list string; st_Filters : nat;
  st_Jobs : nat; st_HasFrontend : bool; st_LoadError : option plugin_error;
  st_QuarantinedAt : option Z;         (** [Quarantined] is whether there is one *)
  st_Config : list ConfigDecl; st_Tripped : Z; st_OldestStartedAt : option Z;
  st_QueueDepth : Z; st_QueueDead : Z
}.

(** One replica's share of the totals. *)
Definition count_replica (now : Z) (st : Status) (i : Instance) : Status :=
  mkStatus (st_Key st) (st_DisplayName st) (st_Version st) (st_Enabled st)
    (int64 (st_Replicas st + 1))
    (if decide (i_state i = StateReady) then int64 (st_Ready st + 1) else st_Ready st)
    (int64 (st_InFlight st + inflight i)) (st_Permissions st) (st_Filters st) (st_Jobs st) (st_HasFrontend st)
    (st_LoadError st) (st_QuarantinedAt st) (st_Config st)
    (if Open now (i_Breaker i) then int64 (st_Tripped st + 1) else st_Tripped st)
    (match st_OldestStartedAt st with
     | Some t => if i_startedAt i <? t then Some (i_startedAt i) else Some t
     | None => Some (i_startedAt i)
     end)
    (st_QueueDepth st) (st_QueueDead st).

Section listing.
(** The manager's [QueueDepth] and [QueueDead] callbacks, zero when unset. *)
Context (QueueDepth QueueDead : string -> Z).

Definition status_of (m : manager) (key : string) (pkg : Package) : Status :=
  let w := mw m in
  foldl (count_replica (w_now w))
    (mkStatus key (DisplayName (p_Manifest pkg)) (p_Version pkg) (bool_decide (key ∈ enabled m)) 0 0 0
       (Permissions (p_Manifest pkg)) (length (p_Filters pkg)) (length (Jobs (p_Manifest pkg)))
       (negb (String.eqb (FrontendDir pkg) "")) (m_errors m !! key) (quarantined m !! key)
       (Config (p_Manifest pkg)) 0 None (QueueDepth key) (QueueDead key))
    (inst_at (heap w) <$> SnapReplicas (w_current w) key w).

Definition List (m : manager) : list Status :=
  sort_stable (fun a b => String.ltb (st_Key a) (st_Key b))
    (((fun kp => status_of m kp.1 kp.2) <$> map_to_list (packages m)) ++
     ((fun ne => mkStatus ne.1 "" "" false 0 0 0 [] 0 0 false (Some ne.2) None [] 0 None 0 0) <$>
        filter (fun ne => packages m !! ne.1 = None) (map_to_list (m_errors m)))).
End listing.

Definition Scan (found : list Package * gmap string package_error) (m : manager) : manager :=
  set_packages (foldl (fun ps p => <[p_Key p := p]> ps) ∅ found.1) (ScanError <$> found.2) m.

(** ** Starting processes *)

(** Two manager states that differ in the instances and the launch count only. *)
Definition only_heap (m m' : manager) : Prop :=
  exists h n, m' = mkManager (set_heap h (mw m)) (packages m) (enabled m) (m_errors m) (scfg m) (crashes m)
                     (quarantined m) (watched m) n.

#[export] Instance only_heap_preorder : PreOrder only_heap.
Proof.
  split.
  - intros [[] ? ? ? ? ? ? ? ?]. by eexists _, _.
  - intros m1 m2 m3 (h1 & n1 & ->) (h2 & n2 & ->). by eexists _, _.
Qed.

(** Every instance of the first heap is still there, as it was. *)
Definition keeps (h h' : gmap loc Instance) : Prop := h ⊆ h'.

(** Both killing and draining a list of instances fold [upd_inst] over it. *)
Section fold_upd.
Context (f : Instance -> Instance).

Definition upd_all (ls : list loc) (w : world) : world := foldl (fun w l => upd_inst l f w) w ls.

Lemma upd_all_other ls w l : l ∉ ls -> heap (upd_all ls w) !! l = heap w !! l.
Proof using Type.
  unfold upd_all. revert w. induction ls as [|l0 ls IH]; intros w H; [done|]. cbn [foldl].
  apply not_elem_of_cons in H as [H0 H]. rewrite IH by done. unfold upd_inst. simpl. by apply lookup_insert_ne.
Qed.

Lemma upd_all_in (P : Instance -> Prop) ls w l :
  (forall i, P (f i)) -> l ∈ ls -> exists i, heap (upd_all ls w) !! l = Some i /\ P i.
Proof using Type.
  intros HP. revert w. induction ls as [|l0 ls IH]; intros w Hin; [by apply not_elem_of_nil in Hin|].
  destruct (decide (l ∈ ls)) as [Hl|Hl]; [by apply (IH (upd_inst l0 f w))|].
  apply elem_of_cons in Hin as [->|]; [|done].
  change (upd_all (l0 :: ls) w) with (upd_all ls (upd_inst l0 f w)).
  rewrite upd_all_other by done. unfold upd_inst. simpl. rewrite lookup_insert_eq. eauto.
Qed.

Lemma upd_all_heap ls w : upd_all ls w = set_heap (heap (upd_all ls w)) w.
Proof using Type.
  unfold upd_all. revert w. induction ls as [|l ls IH]; intros w; cbn [foldl]; [by destruct w|].
  rewrite IH at 1. done.
Qed.
End fold_upd.

Lemma Kill_exited i : ProcessExited (Kill i) = true.
Proof.
  unfold Kill, terminate, kill_proc, ProcessExited. cbn [i_state]. case_decide; simpl; by destruct (has_proc i).
Qed.

Definition exited (m : manager) (l : loc) : Prop :=
  exists i, heap (mw m) !! l = Some i /\ ProcessExited i = true.

Lemma kill_all_other ls m l : l ∉ ls -> heap (mw (kill_all ls m)) !! l = heap (mw m) !! l.
Proof. exact (upd_all_other Kill ls (mw m) l). Qed.

Lemma kill_all_in ls m l : l ∈ ls -> exited (kill_all ls m) l.
Proof. exact (upd_all_in Kill (fun i => ProcessExited i = true) ls (mw m) l Kill_exited). Qed.

Lemma kill_all_only_heap ls m : only_heap m (kill_all ls m).
Proof.
  exists (heap (mw (kill_all ls m))), (launches m).
  exact (f_equal (fun w => set_mw w m) (upd_all_heap Kill ls (mw m))).
Qed.

Section launching.
Context (handshake : nat -> Package -> Z -> bool).

Definition fresh_ready (pkg : Package) (h : gmap loc Instance) (m' : manager) (l : loc) : Prop :=
  h !! l = None /\ exists i, heap (mw m') !! l = Some i /\ i_state i = StateReady /\ i_Key i = p_Key pkg.

Lemma launchOne_spec pkg index m r m' :
  launchOne handshake pkg index m = (r, m') ->
  only_heap m m' /\ keeps (heap (mw m)) (heap (mw m')) /\
  match r with
  | None => heap (mw m') = heap (mw m)
  | Some l => fresh_ready pkg (heap (mw m)) m' l /\
              forall l', l' <> l -> heap (mw m') !! l' = heap (mw m) !! l'
  end.
Proof using handshake.
  unfold launchOne, keeps. destruct (negb _); intros [= <- <-].
  { split; [|done]. destruct m as [[] ? ? ? ? ? ? ? ?]. by eexists _, _. }
  pose proof (is_fresh (dom (heap (mw m)))) as Hf. apply not_elem_of_dom in Hf.
  split; [by eexists _, _|]. cbn [upd_w set_mw mw set_heap heap]. split; [by apply insert_subseteq|]. split.
  - split; [done|]. eexists. cbn. split; [apply lookup_insert_eq|done].
  - intros l' Hne. by rewrite lookup_insert_ne.
Qed.

(** The state after [started] have been launched from [m0]. *)
Record Launched (m0 : manager) (pkg : Package) (started : list loc) (m : manager) : Prop := mkLaunched {
  la_only : only_heap m0 m;
  la_nodup : NoDup started;
  la_ready : Forall (fresh_ready pkg (heap (mw m0)) m) started;
  la_rest : forall l, l ∉ started -> heap (mw m) !! l = heap (mw m0) !! l
}.

Lemma Launched_keeps m0 pkg started m : Launched m0 pkg started m -> keeps (heap (mw m0)) (heap (mw m)).
Proof using Type.
  intros H. apply map_subseteq_spec. intros l i Hl. rewrite (la_rest _ _ _ _ H); [done|].
  intros Hin. apply (proj1 (list.Forall_forall _ _) (la_ready _ _ _ _ H)) in Hin as (? & _). congruence.
Qed.

Lemma Launched_one m0 pkg started m l m' index :
  Launched m0 pkg started m -> launchOne handshake pkg index m = (Some l, m') ->
  Launched m0 pkg (started ++ [l]) m'.
Proof using Type.
  intros H E. pose proof (Launched_keeps _ _ _ _ H) as Hk. destruct H as [Ho Hn Hf Hr].
  apply launchOne_spec in E as (Ho1 & _ & [Hlf Hli] & Hrest).
  assert (Hold : forall x, x ∈ started -> x <> l).
  { intros x Hx. apply (proj1 (list.Forall_forall _ _) Hf) in Hx as (_ & i & Hi & _). congruence. }
  split.
  - by transitivity m.
  - apply list.NoDup_app. split; [done|]. split; [|apply NoDup_singleton].
    intros x Hx ->%list_elem_of_singleton. by apply (Hold l Hx).
  - apply list.Forall_app. split.
    + apply list.Forall_forall. intros x Hx.
      pose proof (proj1 (list.Forall_forall _ _) Hf x Hx) as (Hx0 & i & Hi & Hs).
      split; [done|]. exists i. by rewrite (Hrest x (Hold x Hx)).
    + apply list.Forall_singleton. split; [|done]. by eapply lookup_weaken_None.
  - intros x [Hx Hxl%not_elem_of_cons]%not_elem_of_app. rewrite Hrest by naive_solver. by apply Hr.
Qed.

(** Every process started since [m0] is gone, every older one untouched. *)
Definition rolled_back (m0 m : manager) : Prop :=
  only_heap m0 m /\ keeps (heap (mw m0)) (heap (mw m)) /\
  forall l, heap (mw m0) !! l = None -> is_Some (heap (mw m) !! l) -> exited m l.

Lemma launch_loop_spec m0 pkg todo : forall index started m r m',
  Launched m0 pkg started m ->
  launch_loop handshake pkg todo index started m = (r, m') ->
  match r with
  | Some ls => length ls = (length started + todo)%nat /\ Launched m0 pkg ls m'
  | None => rolled_back m0 m'
  end.
Proof using Type.
  induction todo as [|todo IH]; intros index started m r m' H Hl; cbn [launch_loop] in Hl.
  { injection Hl as <- <-. by rewrite Nat.add_0_r. }
  destruct (launchOne handshake pkg index m) as [[l|] m1] eqn:E1.
  - apply (Launched_one m0 _ started) in E1; [|done]. apply (IH _ _ _ _ _ E1) in Hl.
    destruct r; [|done]. rewrite length_app in Hl. cbn [length] in Hl. split; [lia|apply Hl].
  - injection Hl as <- <-. apply launchOne_spec in E1 as (Ho1 & _ & Hh).
    pose proof (Launched_keeps _ _ _ _ H) as Hk. destruct H as [Ho Hn Hf Hr].
    assert (Hnew : forall l, is_Some (heap (mw m0) !! l) -> l ∉ started).
    { intros l [i Hi] Hin. apply (proj1 (list.Forall_forall _ _) Hf) in Hin as (? & _). congruence. }
    split; [|split].
    + transitivity m1; [by transitivity m|apply kill_all_only_heap].
    + apply map_subseteq_spec. intros x i Hx. rewrite kill_all_other, Hh by eauto.
      by eapply lookup_weaken.
    + intros x Hx Hs. destruct (decide (x ∈ started)); [by apply kill_all_in|].
      rewrite kill_all_other, Hh, Hr, Hx in Hs by done. by destruct Hs.
Qed.

Lemma launchAll_spec pkg m r m' :
  launchAll handshake pkg m = (r, m') ->
  match r with
  | Some ls => Z.of_nat (length ls) = ReplicaCount (p_Manifest pkg) /\ ls <> [] /\ Launched m pkg ls m'
  | None => rolled_back m m'
  end.
Proof using Type.
  unfold launchAll. intros E. apply (launch_loop_spec m) in E.
  - destruct r as [ls|]; [|done]. destruct E as [E H]. simpl in E.
    assert (1 <= ReplicaCount (p_Manifest pkg)) as H1.
    { unfold ReplicaCount. destruct (Z.leb_spec (Replicas (mf_runtime (p_Manifest pkg))) 0); lia. }
    split; [lia|]. split; [|done]. intros ->. simpl in E. lia.
  - split; [done|apply NoDup_nil_2|by apply list.Forall_nil|done].
Qed.

(** What publishing the freshly launched [insts] of [pkg] under [key] means. *)
Record Published (key : string) (pkg : Package) (insts : list loc) (m m' : manager) : Prop := mkPublished {
  pu_count : Z.of_nat (length insts) = ReplicaCount (p_Manifest pkg);
  pu_nodup : NoDup insts;
  pu_ready : Forall (fresh_ready pkg (heap (mw m)) m') insts;
  pu_routes : SnapReplicas (w_current (mw m')) key (mw m') = insts;
  pu_regs : regs (mw m') = <[key := RegOf key pkg insts]> (regs (mw m));
  pu_inv : RegInv (mw m');
  pu_enabled : enabled m' = {[key]} ∪ enabled m;
  pu_watched : watched m' = watched m ++ insts;
  pu_clean : crashes m' = delete key (crashes m) /\ quarantined m' = delete key (quarantined m)
}.

Lemma RegInv_set_heap h w : RegInv w -> RegInv (set_heap h w).
Proof using Type. intros [H1 H2 H3]. by split. Qed.

(** Enabling a plugin is all or nothing. If any replica fails to start,
    the routing table, the registrations, the enabled set and every existing
    instance are exactly as before and every process started on the way has
    been killed. Otherwise as many new Ready replicas as the manifest asks for
    are the ones the key routes to, registered with the package's own filters
    and identity permission, watched by the supervisor, and the key's crash
    record and quarantine are cleared. Existing instances are untouched
    either way: the replicas an already enabled plugin had are left running,
    neither drained nor killed. *)
Lemma Enable_spec key m :
  RegInv (mw m) ->
  let '(err, m') := Enable handshake key m in
  keeps (heap (mw m)) (heap (mw m')) /\ packages m' = packages m /\
  match err with
  | Some e =>
      rolled_back m m' /\
      e = (match packages m !! key with None => NotInstalled key | Some _ => LaunchFailed end)
  | None => exists pkg insts, packages m !! key = Some pkg /\ Published key pkg insts m m'
  end.
Proof using Type.
  intros Hi. unfold Enable. destruct (packages m !! key) as [pkg|] eqn:Ep.
  2: { split; [done|]. split; [done|]. split; [|done]. split; [done|]. split; [done|].
       intros l Hl [i Hs]. congruence. }
  destruct (launchAll handshake pkg m) as [[insts|] m1] eqn:E; apply launchAll_spec in E.
  2: { split; [apply E|]. split; [|done]. destruct E as ((h & n & ->) & _). done. }
  destruct E as (Hc & Hne & H). pose proof (Launched_keeps _ _ _ _ H) as Hk.
  destruct H as [(h & n & ->) Hn Hf _].
  pose proof (RegInv_set_heap h _ Hi) as Hi1.
  destruct (InstallPlugin_frame (RegOf key pkg insts) _ Hi1) as [Hh Hr].
  pose proof (InstallPlugin_routes (RegOf key pkg insts) _ Hi1) as Hro.
  pose proof (InstallPlugin_inv (RegOf key pkg insts) _ Hi1) as Hi2.
  assert (reg_change (RegOf key pkg insts) (regs (mw m)) = <[key := RegOf key pkg insts]> (regs (mw m))) as Hreg
    by (by destruct insts).
  unfold upd_w, watch, set_enabled, ClearCrashes, set_crashes, set_mw.
  cbn [mw packages enabled crashes quarantined watched w_current] in *.
  split; [by rewrite Hh|]. split; [done|]. exists pkg, insts. split; [done|].
  split; cbn [mw packages enabled crashes quarantined watched]; try done.
  - eapply list.Forall_impl; [exact Hf|]. intros l (Hl & i & Hli & Hp). split; [done|].
    exists i. cbn [mw]. by rewrite Hh.
  - by rewrite Hr.
Qed.

Lemma SnapReplicas_set_heap h w key : SnapReplicas (w_current w) key (set_heap h w) = SnapReplicas (w_current w) key w.
Proof using Type. done. Qed.

(** An upgrade commits only after every replica of the new package is
    ready. When the package does not load or a process does not start, nothing
    but killed newcomers distinguishes the state from before. Otherwise the key
    routes to the new Ready replicas under the new package, and exactly the
    replicas it was routed to are draining; no other instance changed. *)
Lemma Upgrade_spec key reload m :
  RegInv (mw m) ->
  let old := SnapReplicas (w_current (mw m)) key (mw m) in
  Forall (fun l => is_Some (heap (mw m) !! l)) old ->
  let '(err, m') := Upgrade handshake key reload m in
  match err with
  | Some _ => rolled_back m m'
  | None => exists pkg insts, reload = Ok pkg /\ Published key pkg insts m m' /\
      packages m' = <[key := pkg]> (packages m) /\
      (forall l, l ∈ old -> l ∉ insts /\
         exists i, heap (mw m') !! l = Some i /\ i_state i = StateDraining) /\
      (forall l i, l ∉ old -> heap (mw m) !! l = Some i -> heap (mw m') !! l = Some i)
  end.
Proof using Type.
  intros Hi old Hlive. unfold Upgrade. destruct reload as [pkg|e].
  2: { split; [done|]. split; [done|]. intros l Hl [i Hs]. congruence. }
  destruct (launchAll handshake pkg m) as [[insts|] m1] eqn:E; apply launchAll_spec in E; [|done].
  destruct E as (Hc & Hne & H). pose proof (Launched_keeps _ _ _ _ H) as Hk.
  destruct H as [(h & n & ->) Hn Hf _].
  pose proof (RegInv_set_heap h _ Hi) as Hi1.
  destruct (InstallPlugin_frame (RegOf key pkg insts) _ Hi1) as [Hh Hr].
  pose proof (InstallPlugin_routes (RegOf key pkg insts) _ Hi1) as Hro.
  pose proof (InstallPlugin_inv (RegOf key pkg insts) _ Hi1) as Hi2.
  assert (Hd : (InstallPlugin (RegOf key pkg insts) (set_heap h (mw m))).1 = old) by done.
  assert (Hdis : forall l, l ∈ insts -> l ∉ old).
  { intros l Hl Ho. apply (proj1 (list.Forall_forall _ _) Hf) in Hl as (Hl & _).
    apply (proj1 (list.Forall_forall _ _) Hlive) in Ho as [i Ho]. congruence. }
  assert (Hreg : reg_change (RegOf key pkg insts) (regs (mw m)) = <[key := RegOf key pkg insts]> (regs (mw m)))
    by (by destruct insts).
  unfold upd_w, watch, set_enabled, ClearCrashes, set_crashes, set_mw, set_packages, Swap.
  cbn [mw packages enabled crashes quarantined watched w_current] in *.
  destruct (InstallPlugin _ _) as [d w'] eqn:Ei. cbn [fst snd] in *. subst d.
  change (begin_drain old w') with (upd_all (setState StateDraining) old w').
  set (w2 := upd_all (setState StateDraining) old w').
  assert (Ew : w2 = set_heap (heap w2) w') by apply upd_all_heap.
  assert (Hoth : forall l, l ∉ old -> heap w2 !! l = h !! l).
  { intros l Hl. unfold w2. rewrite upd_all_other by done. by rewrite Hh. }
  exists pkg, insts. split; [done|]. split; [|split; [done|split]].
  - split; cbn [mw packages enabled crashes quarantined watched]; try done.
    + apply list.Forall_forall. intros l Hl. pose proof (proj1 (list.Forall_forall _ _) Hf l Hl) as (Hl0 & i & Hli & Hp).
      split; [done|]. exists i. cbn [mw]. rewrite Hoth by auto. done.
    + by rewrite Ew.
    + rewrite Ew. cbn [regs set_heap]. by rewrite Hr.
    + rewrite Ew. by apply RegInv_set_heap.
  - intros l Hl. split; [intros Hin; by apply (Hdis l Hin)|].
    apply (upd_all_in (setState StateDraining) (fun i => i_state i = StateDraining)); done.
  - intros l i Hl Hs. cbn [mw]. rewrite Hoth by done. by eapply lookup_weaken.
Qed.
End launching.

(** ** Disabling *)

Section disabling.
Context (obs : loc -> list (Z * wait_event)).

Definition stopped (w : world) (l : loc) : Prop :=
  exists i, heap w !! l = Some i /\ i_state i = StateStopped /\ ProcessExited i = true.

(** The waiting of [l]'s drain comes to an end. *)
Definition decisive (l : loc) : Prop :=
  exists obs0 count ev, obs l = obs0 ++ [(count, ev)] /\ (count <= 0 \/ ev <> WaitTick).

Lemma drain_one_spec err w l err' w' :
  decisive l -> drain_one obs (err, w) l = (err', w') ->
  w' = set_heap (heap w') w /\ stopped w' l /\ (forall l', l' <> l -> heap w' !! l' = heap w !! l') /\
  (err' = None <-> err = None /\ drain_loop (obs l) = DrainClean).
Proof using Type.
  intros (obs0 & count & ev & Ho & He) E. unfold drain_one in E. rewrite Ho in *.
  pose proof (Drain_ends obs0 count ev (inst_at (heap w) l) He) as Hd.
  assert (Hf : (Drain (obs0 ++ [(count, ev)]) (inst_at (heap w) l)).1 = drain_loop (obs0 ++ [(count, ev)]))
    by (unfold Drain; by destruct (drain_loop _)).
  destruct (Drain _ _) as [r i]. cbn [fst] in Hf. destruct Hd as (_ & Hx & Hs & _). injection E as <- <-.
  split; [done|]. split; [|split].
  - exists i. unfold upd_inst. cbn [heap set_heap]. by rewrite lookup_insert_eq.
  - intros l' Hl. unfold upd_inst. cbn [heap set_heap]. by rewrite lookup_insert_ne.
  - rewrite <- Hf. destruct err; [naive_solver|]. destruct r; naive_solver.
Qed.

Lemma drain_all_spec ls : forall err w err' w',
  Forall decisive ls -> foldl (drain_one obs) (err, w) ls = (err', w') ->
  w' = set_heap (heap w') w /\ (forall l, l ∈ ls -> stopped w' l) /\
  (forall l, l ∉ ls -> heap w' !! l = heap w !! l) /\
  (err' = None <-> err = None /\ Forall (fun l => drain_loop (obs l) = DrainClean) ls).
Proof using Type.
  induction ls as [|l ls IH]; intros err w err' w' Hd E; cbn [foldl] in E.
  { injection E as <- <-. split; [by destruct w|]. split; [by intros l ?%not_elem_of_nil|]. split; [done|].
    split; [|by intros []]. intros ->. split; [done|]. by apply list.Forall_nil. }
  apply list.Forall_cons in Hd as [Hl Hd]. destruct (drain_one obs (err, w) l) as [err1 w1] eqn:E1.
  apply drain_one_spec in E1 as (H1 & H2 & H3 & H4); [|done].
  destruct (IH _ _ _ _ Hd E) as (H5 & H6 & H7 & H8). split; [|split; [|split]].
  - rewrite H5, H1. done.
  - intros l' Hin. destruct (decide (l' ∈ ls)) as [Hi|Hi]; [by apply H6|].
    apply elem_of_cons in Hin as [->|]; [|done]. unfold stopped. by rewrite H7.
  - intros l' [Hne Hni]%not_elem_of_cons. by rewrite H7, H3.
  - rewrite H8, H4, list.Forall_cons. naive_solver.
Qed.

(** Once [Disable] returns, the key is neither enabled nor routed, no
    other registration changed, and exactly the replicas it was routed to are
    stopped, their processes gone; the error says whether one of them was
    killed with requests still in flight. Its crash record and quarantine are
    cleared only if it had a replica: disabling a quarantined plugin, which
    has none, leaves it quarantined. *)
Lemma Disable_spec key m :
  let old := SnapReplicas (w_current (mw m)) key (mw m) in
  RegInv (mw m) -> Forall decisive old ->
  let '(err, m') := Disable obs key m in
  key ∉ enabled m' /\ Has (w_current (mw m')) key = false /\ RegInv (mw m') /\
  regs (mw m') = delete key (regs (mw m)) /\
  (forall l, l ∈ old -> stopped (mw m') l) /\
  (forall l, l ∉ old -> heap (mw m') !! l = heap (mw m) !! l) /\
  (err = None <-> Forall (fun l => drain_loop (obs l) = DrainClean) old) /\
  crashes m' !! key = (if decide (old = []) then crashes m !! key else None) /\
  quarantined m' !! key = (if decide (old = []) then quarantined m !! key else None).
Proof using Type.
  intros old Hi Hdec. unfold Disable, Remove. cbn [set_enabled mw].
  destruct (InstallPlugin_frame (mkRegistration key [] [] false) _ Hi) as [Hh Hr].
  pose proof (InstallPlugin_inv (mkRegistration key [] [] false) _ Hi) as Hi2.
  assert (Hd : (InstallPlugin (mkRegistration key [] [] false) (mw m)).1 = old) by done.
  destruct (InstallPlugin _ _) as [ls w1]. cbn [fst snd] in *. subst ls.
  assert (Has (w_current w1) key = false) as Hhas.
  { apply bool_decide_eq_false. rewrite <- (ri_keys w1 Hi2 key), Hr. unfold reg_change. cbn.
    rewrite lookup_delete_eq. by intros [? ?]. }
  assert (Hen : key ∉ enabled m ∖ {[key]}) by set_solver.
  destruct (foldl (drain_one obs) (None, w1) old) as [err w2] eqn:E.
  destruct (drain_all_spec old None w1 err w2 Hdec E) as (H1 & H2 & H3 & H4).
  destruct old as [|l0 ls0] eqn:Eo.
  - cbn in E. injection E as <- <-. cbn [set_mw mw enabled crashes quarantined].
    rewrite !decide_True by done. rewrite Hh. repeat (split; [done|]). done.
  - cbn [ClearCrashes set_crashes set_mw mw enabled crashes quarantined].
    rewrite !lookup_delete_eq. rewrite !decide_False by done. rewrite H1. cbn [w_current regs set_heap heap].
    rewrite <- H1. repeat (split; [done|]). split; [rewrite H1; by apply RegInv_set_heap|].
    split; [done|]. split; [done|]. split; [intros l Hl; by rewrite H3, Hh|]. split; [|done].
    rewrite H4. naive_solver.
Qed.
End disabling.

(** ** Crash recovery *)

(** The delay doubles per crash and is capped. *)
Lemma backoff_loop_closed n b max :
  0 < b <= max -> max < 2 ^ 62 -> backoff_loop n b max = Z.min (b * 2 ^ Z.of_nat n) max.
Proof.
  intros Hb Hmax. revert b Hb. induction n as [|n IH]; intros b Hb; cbn [backoff_loop]; [lia|].
  rewrite int64_id by (unfold in_int64; lia). rewrite Nat2Z.inj_succ, Z.pow_succ_r by lia.
  pose proof (Z.pow_pos_nonneg 2 (Z.of_nat n) ltac:(lia) ltac:(lia)).
  destruct (Z.leb_spec max (b * 2)); [nia|]. rewrite IH by lia. f_equal. lia.
Qed.

Definition config_ok (c : SupervisorConfig) : Prop :=
  0 < InitialBackoff c <= MaxBackoff c /\ MaxBackoff c < 2 ^ 62 /\ CrashThreshold c < 2 ^ 62.

Lemma backoffFor_bounds key m : config_ok (scfg m) -> 0 < backoffFor key m <= MaxBackoff (scfg m).
Proof.
  intros (Hi & Hm & _). unfold backoffFor. rewrite backoff_loop_closed by done.
  set (n := Z.to_nat _). pose proof (Z.pow_pos_nonneg 2 (Z.of_nat n) ltac:(lia) ltac:(lia)). nia.
Qed.

Section recovering.
Context (handshake : nat -> Package -> Z -> bool) (meanwhile : nat -> manager -> manager)
        (key : string) (d : Z).

(** What an admin and the clock may do during one wait: nothing is launched, the
    registry stays consistent, and unless the plugin is gone from it, no more
    than [d] passes on top of the wait and the crash record and the
    configuration stand. *)
Definition steady (m m' : manager) : Prop :=
  RegInv (mw m') /\ launches m' = launches m /\
  (Has (w_current (mw m')) key = true ->
   crashes m' !! key = crashes m !! key /\ scfg m' = scfg m /\ w_now (mw m') <= w_now (mw m) + d).

Context (Hd : 0 <= d) (Hsteady : forall n m, RegInv (mw m) -> steady m (meanwhile n m)).

(** How one call of [recover] may end, with [bound] launches in all. *)
Definition Recovered (bound : nat) (r : recovery) (m' : manager) : Prop :=
  (launches m' <= bound)%nat /\ RegInv (mw m') /\
  match r with
  | OutOfFuel => False
  | Quarantined => Has (w_current (mw m')) key = false /\ quarantined m' !! key = Some (w_now (mw m'))
  | Abandoned => Has (w_current (mw m')) key = false \/ packages m' !! key = None \/ key ∉ enabled m'
  | Restarted l => SnapReplicas (w_current (mw m')) key (mw m') = [l] /\ l ∈ watched m'
  end.

Lemma quarantine_spec bound m :
  RegInv (mw m) -> (launches m <= bound)%nat -> Recovered bound Quarantined (quarantine key m).
Proof using Type.
  intros Hi Hb. unfold quarantine, Remove. cbn [set_crashes mw].
  pose proof (InstallPlugin_inv (mkRegistration key [] [] false) _ Hi) as Hi2.
  destruct (InstallPlugin_frame (mkRegistration key [] [] false) _ Hi) as [_ Hr].
  pose proof (InstallPlugin_now (mkRegistration key [] [] false) _ Hi) as Hnow.
  destruct (InstallPlugin _ (mw m)) as [ls w]. cbn [fst snd] in *.
  assert (Has (w_current w) key = false) as Hh.
  { apply bool_decide_eq_false. rewrite <- (ri_keys w Hi2 key), Hr. unfold reg_change. cbn.
    rewrite lookup_delete_eq. by intros [? ?]. }
  unfold Recovered, upd_w, set_crashes, set_mw. cbn [mw launches quarantined].
  set (w2 := foldl _ w ls).
  assert (Ew : w2 = set_heap (heap w2) w).
  { unfold w2. clear. revert w. induction ls as [|l ls IH]; intros w; cbn [foldl]; [by destruct w|].
    rewrite IH at 1. done. }
  rewrite Ew. split; [done|]. split; [by apply RegInv_set_heap|]. split; [exact Hh|].
  cbn [w_now set_heap]. rewrite Hnow. apply lookup_insert_eq.
Qed.

Lemma restarted_spec bound m l :
  RegInv (mw m) -> (launches m <= bound)%nat ->
  Recovered bound (Restarted l) (watch [l] (upd_w (fun w => (Install key [l] w).2) m)).
Proof using Type.
  intros Hi Hb. split; [done|]. split; [by apply InstallPlugin_inv|]. split.
  - exact (InstallPlugin_routes (mkRegistration key [l] [] false) _ Hi).
  - apply elem_of_app. right. by left.
Qed.

(** A wait and its launch attempt: either the episode is over, or one more
    process was launched in vain and at most [MaxBackoff + d] has gone by. *)
Lemma restart_spec again n bound m c t0 :
  config_ok (scfg m) -> RegInv (mw m) -> crashes m !! key = Some (mkCrashRecord c t0) ->
  (S (launches m) <= bound)%nat ->
  (forall m', RegInv (mw m') -> scfg m' = scfg m -> crashes m' !! key = Some (mkCrashRecord c t0) ->
     launches m' = S (launches m) -> w_now (mw m') <= w_now (mw m) + MaxBackoff (scfg m) + d ->
     let '(r, m'') := again m' in Recovered bound r m'') ->
  let '(r, m') := restart handshake again (meanwhile n) key m in Recovered bound r m'.
Proof using Hsteady.
  intros Hc Hi Hr Hb Hagain. unfold restart. pose proof (backoffFor_bounds key m Hc) as Hbk.
  set (m1 := upd_w _ m).
  assert (RegInv (mw m1)) as Hi1 by (destruct Hi; by split).
  destruct (Hsteady n m1 Hi1) as (Hi2 & Hl2 & Hk). set (m2 := meanwhile n m1) in *.
  destruct (Has (w_current (mw m2)) key) eqn:Eh; cbn [negb].
  2: { split; [rewrite Hl2; cbn; lia|]. split; [done|]. by left. }
  destruct (Hk eq_refl) as (Hcr & Hsc & Hnow). unfold relaunch.
  destruct (packages m2 !! key) as [pkg|] eqn:Ep.
  2: { split; [rewrite Hl2; cbn; lia|]. split; [done|]. right. by left. }
  destruct (bool_decide _) eqn:Ee.
  2: { apply bool_decide_eq_false in Ee. split; [rewrite Hl2; cbn; lia|]. split; [done|]. right. by right. }
  unfold launchOne. destruct (negb _).
  - apply Hagain; cbn [mw scfg crashes launches]; [done|by rewrite Hsc|by rewrite Hcr|by rewrite Hl2|].
    cbn in Hnow. lia.
  - apply restarted_spec; [by apply RegInv_set_heap|cbn; rewrite Hl2; cbn; lia].
Qed.

(** After [c] crashes, one unit of fuel per crash left to the threshold. *)
Lemma recover_counting fuel : forall bound m c t0,
  config_ok (scfg m) -> RegInv (mw m) -> crashes m !! key = Some (mkCrashRecord c t0) ->
  1 <= c < 2 ^ 62 -> (1 <= fuel)%nat -> CrashThreshold (scfg m) <= c + Z.of_nat fuel ->
  w_now (mw m) - t0 + (Z.of_nat fuel - 1) * (MaxBackoff (scfg m) + d) <= CrashWindow (scfg m) ->
  (launches m + fuel - 1 <= bound)%nat ->
  let '(r, m') := recover handshake fuel meanwhile key m in Recovered bound r m'.
Proof using Hd Hsteady.
  induction fuel as [|fuel IH]; intros bound m c t0 Hc Hi Hr H1 Hf Ht Hw Hb; [lia|].
  cbn [recover]. unfold tooManyCrashes. rewrite Hr. cbn [firstAt cr_count].
  destruct Hc as (Hb1 & Hb2 & Hth).
  destruct (Z.ltb_spec (CrashWindow (scfg m)) (w_now (mw m) - t0)); [nia|].
  rewrite int64_id by (unfold in_int64; lia).
  destruct (Z.leb_spec (CrashThreshold (scfg m)) (c + 1)).
  { apply quarantine_spec; [done|cbn; lia]. }
  assert (1 <= fuel)%nat by lia.
  apply restart_spec with (c := c + 1) (t0 := t0); cbn [scfg mw crashes launches set_crashes]; try done.
  - apply lookup_insert_eq.
  - lia.
  - intros m' Hi' Hs Hcr Hl Hn. apply (IH bound m' (c + 1) t0); rewrite ?Hs; try done; try lia.
Qed.
End recovering.


(** ** Concrete states *)

Definition demo_package : Package :=
  mkPackage "plugins/notes"
    (mkManifest "notes" "" "1.0.0" 0 (mkRuntime "notes" [] 2) [] [] [] [] [] [] [])
    "plugins/notes/notes" "" "" [].

Definition demo_manager : manager :=
  mkManager (InstallPlugin demo_reg (NewRegistry 0 demo_heap)).2 {["notes" := demo_package]} ∅ ∅
    DefaultSupervisorConfig ∅ ∅ [] 0.

Lemma demo_manager_inv : RegInv (mw demo_manager).
Proof. exact (InstallPlugin_inv demo_reg _ (NewRegistry_inv 0 demo_heap)). Qed.

(** Two replicas of the plugin run already. *)
Definition demo_running : manager :=
  mkManager (InstallPlugin (RegOf "notes" demo_package [1%nat; 2%nat]) (NewRegistry 0 demo_heap)).2
    {["notes" := demo_package]} {["notes"]} ∅ DefaultSupervisorConfig ∅ ∅ [1%nat; 2%nat] 2.

Lemma demo_running_inv : RegInv (mw demo_running).
Proof. exact (InstallPlugin_inv (RegOf "notes" demo_package [1%nat; 2%nat]) _ (NewRegistry_inv 0 demo_heap)). Qed.

Definition starts (n : nat) (pkg : Package) (index : Z) : bool := true.
Definition never_starts (n : nat) (pkg : Package) (index : Z) : bool := false.


(** The threshold is compared only from the second crash on. *)
Lemma first_crash_restarts handshake fuel meanwhile key m :
  crashes m !! key = None ->
  (tooManyCrashes key m).1 = false /\
  recover handshake (S fuel) meanwhile key m =
  restart handshake (recover handshake fuel meanwhile key) (meanwhile fuel) key (tooManyCrashes key m).2.
Proof. intros H. cbn [recover]. unfold tooManyCrashes. by rewrite H. Qed.
