(* ===== verification/Launch.v ===== *)
(** * core/pluginhost/launch.go: starting one plugin process

    [Launch] as a function of what the process and go-plugin answer at each of
    its steps, and the specification [launchOne] of the manager passes to it.
    The manager's operations take only whether a launch succeeds; the last
    lemma says that this loses nothing. *)

From S2P Require Import Prelude GoStrings Manifest Breaker Instance Registry Manager.

Open Scope Z_scope.

Record LaunchSpec := mkLaunchSpec {
  sp_Key : string; sp_InstanceID : string; sp_Version : string; sp_Weight : Z; sp_BinaryPath : string;
  sp_Checksum : string; sp_HostImpl : bool (** whether there is one *);
  sp_Config : gmap string string; sp_GrantedPermissions : list string; sp_DataDir : string; sp_LogLevel : string;
  sp_MaxMessageBytes : Z; sp_Env : list string; sp_ConfigureTimeout : Z
}.

(** The settings go-plugin is given: the command has no arguments, the checksum
    is verified only when there is one, and Core's environment is not inherited. *)
Record ClientConfig := mkClientConfig {
  cc_Path : string; cc_Args : list string; cc_Env : list string; cc_SkipHostEnv : bool; cc_AutoMTLS : bool;
  cc_Checksum : option string; cc_MaxMessageBytes : Z
}.

Record ConfigureRequest := mkConfigureRequest {
  cq_PluginKey : string; cq_InstanceId : string; cq_Config : gmap string string;
  cq_GrantedPermissions : list string; cq_DataDir : string; cq_LogLevel : string; cq_timeout : Z
}.

Inductive launch_error :=
| LaunchNoHost | LaunchHandshake | LaunchDispense | LaunchType | LaunchConfigure | LaunchNotReady (error : string).

(** What the process does: the handshake, the dispensed client and whether it is
    a plugin client, and the answer to Configure, [None] for an RPC error. *)
Record process := mkProcess {
  pr_Client : ClientConfig -> bool; pr_Dispense : bool; pr_IsClient : bool;
  pr_Configure : ConfigureRequest -> option (bool * string)
}.

Definition client_config (DefaultMaxMessageBytes : Z) (spec : LaunchSpec) : ClientConfig :=
  mkClientConfig (sp_BinaryPath spec) [] (sp_Env spec) true true
    (if String.eqb (sp_Checksum spec) "" then None else Some (sp_Checksum spec))
    (if sp_MaxMessageBytes spec <=? 0 then DefaultMaxMessageBytes else sp_MaxMessageBytes spec).

Definition configure_request (spec : LaunchSpec) : ConfigureRequest :=
  mkConfigureRequest (sp_Key spec) (sp_InstanceID spec) (sp_Config spec) (sp_GrantedPermissions spec)
    (sp_DataDir spec) (sp_LogLevel spec)
    (if sp_ConfigureTimeout spec <=? 0 then 10 * Second else sp_ConfigureTimeout spec).

(** The result, and whether [client.Kill] was called on the way out. *)
Definition Launch (DefaultMaxMessageBytes : Z) (p : process) (now : Z) (spec : LaunchSpec)
    : result launch_error Instance * bool :=
  if negb (sp_HostImpl spec) then (Err LaunchNoHost, false)
  else if negb (pr_Client p (client_config DefaultMaxMessageBytes spec)) then (Err LaunchHandshake, true)
  else if negb (pr_Dispense p) then (Err LaunchDispense, true)
  else if negb (pr_IsClient p) then (Err LaunchType, true)
  else
    match pr_Configure p (configure_request spec) with
    | None => (Err LaunchConfigure, true)
    | Some (ready, error) =>
        if negb ready then (Err (LaunchNotReady error), true)
        else (Ok (MarkReady (NewInstance (sp_Key spec) (sp_InstanceID spec) (sp_Version spec) (sp_Weight spec)
                               now true)), false)
    end.

(** [launchOne]'s specification; [dataDir] is what [dataDirFor] prepared. *)
Definition launch_spec (BaseEnv : list string) (LogLevel : string) (MaxMessageBytes : Z) (dataDir : string)
    (set : gmap string string) (m : manager) (pkg : Package) (index : Z) : LaunchSpec :=
  mkLaunchSpec (p_Key pkg) (p_Key pkg +:+ "-" +:+ itoa index) (p_Version pkg) (Weight (p_Manifest pkg))
    (BinaryPath pkg) (Checksum pkg) true (ConfigFor (p_Key pkg) set m) (Permissions (p_Manifest pkg)) dataDir
    LogLevel MaxMessageBytes (envFor BaseEnv pkg dataDir) 0.

(** [dataDirFor]: no root, no directory; otherwise [MkdirAll] of one below it. *)
Definition dataDirFor (MkdirAll : string -> bool) (DataDirRoot key : string) : option string :=
  if String.eqb DataDirRoot "" then Some ""
  else let dir := path_join DataDirRoot key in if MkdirAll dir then Some dir else None.

(** A launch that fails after starting a process has killed it. *)
Lemma Launch_no_leak dmax p now spec :
  match Launch dmax p now spec with
  | (Ok i, killed) => killed = false /\ i_state i = StateReady /\ ProcessExited i = false /\
                      pr_Client p (client_config dmax spec) = true
  | (Err e, killed) => killed = true \/ e = LaunchNoHost
  end.
Proof.
  unfold Launch. destruct (negb (sp_HostImpl spec)); [by right|].
  destruct (pr_Client p _) eqn:E; cbn [negb]; [|by left]. destruct (negb (pr_Dispense p)); [by left|].
  destruct (negb (pr_IsClient p)); [by left|]. destruct (pr_Configure p _) as [[[] e]|]; cbn [negb]; [done|by left|by left].
Qed.

(** The manager's [launchOne], given whether [Launch] succeeds, stores exactly
    the instance [Launch] returns. *)
Lemma launchOne_Launch dmax (procs : nat -> process) (spec_of : Package -> Z -> LaunchSpec) pkg index m now :
  (forall i, sp_Key (spec_of pkg i) = p_Key pkg /\ sp_InstanceID (spec_of pkg i) = p_Key pkg +:+ "-" +:+ itoa i /\
     sp_Version (spec_of pkg i) = p_Version pkg /\ sp_Weight (spec_of pkg i) = Weight (p_Manifest pkg)) ->
  w_now (mw m) = now ->
  let L := fun n i => (Launch dmax (procs n) now (spec_of pkg i)).1 in
  let '(l, m') := launchOne (fun n _ i => is_ok (L n i)) pkg index m in
  match L (launches m) index, l with
  | Ok i, Some l => heap (mw m') = <[l := i]> (heap (mw m))
  | Err _, None => heap (mw m') = heap (mw m)
  | _, _ => False
  end.
Proof.
  intros Hspec <-. cbv zeta. unfold launchOne. destruct (Hspec index) as (Hk & Hi & Hv & Hw).
  destruct (Launch dmax (procs (launches m)) (w_now (mw m)) (spec_of pkg index)) as [[i|e] killed] eqn:E;
    cbn [fst is_ok negb]; [|done].
  unfold Launch in E. repeat (destruct (negb _) in E; [discriminate E|]).
  destruct (pr_Configure _ _) as [[ready er]|] in E; [|discriminate E]. destruct (negb ready); [discriminate E|].
  injection E as <- <-. by rewrite Hk, Hi, Hv, Hw.
Qed.
