(* ===== verification/Supervision.v ===== *)
(** * core/pluginhost/manager.go and supervisor.go as goroutines, and main's shutdown

    Manager.v runs each operation to its end. Here the watch loops, the admin
    operations, the drains and the shutdown of core/main.go are threads that
    interleave freely, cut where the code takes a lock, reads or writes an
    atomic field, waits, or has a plugin process do something. The steps are
    made of the same operations on the manager and the registry; what the
    gateway does to instances meanwhile is a step of the environment.

    The theorems: every running process has exactly one owner; every routed
    replica is watched until it has been marked as failed; a plugin that was
    disabled with no launch of it under way stays off. The examples at the end
    are the schedules in which the code does not do what its comments say. *)

From S2P Require Import Prelude GoStrings Manifest Wire StableSort Chain Pipeline Breaker Instance Registry Manager.

Open Scope Z_scope.

(** ** Where a goroutine stands *)

Inductive pc :=
(** [watchLoop]: at the select; saw the exit; saw a live state; found unexpected. *)
| WPoll (l : loc) | WState (l : loc) | WMember (l : loc) | WMark (l : loc)
(** [recover]: its start; not over the threshold; in its select; woken; past [Has];
    launching; with the new instance; installed; and the quarantine. *)
| WCrash (k : string) | WDelay (k : string) | WSleep (k : string) (until : Z) | WWoken (k : string)
| WRelaunch (k : string) | WLaunch (k : string) (pkg : Package) | WInstall (k : string) (l : loc) | WSpawn (l : loc)
| WIsolate (k : string) | WRemove (k : string) | WQuarantine (ls : list loc) | WKill (l : loc) (ls : list loc)
(** [Enable], [Upgrade], [Disable] and [Scan] as they are called. *)
| AEnable (k : string) | AUpgrade (k : string) (reload : result package_error Package) | ADisable (k : string)
| AScan (found : list Package * gmap string package_error)
(** [launchAll] of either, and its rollback. *)
| ALaunch (upgrade : bool) (k : string) (pkg : Package) (todo : nat) (index : Z) (started : list loc)
| AKill (ls : list loc)
| AInstall (k : string) (pkg : Package) (insts : list loc)
| ACommit (k : string) (pkg : Package) (insts : list loc) | ASwap (k : string) (pkg : Package) (insts : list loc)
| AWatch (upgrade : bool) (k : string) (ls : list loc) | AEnabled (k : string) | AClear (k : string)
| ARemove (k : string) | ADrain (k : string) (ls : list loc) | ADraining (k : string) (l : loc) (ls : list loc)
(** A drain in the background: of [Swap], or one [DrainAll] waits for. *)
| GDrain (l : loc) | GDraining (l : loc)
| Done.

(** What one step leaves: where the goroutine stands, those it started, the
    instances it let go of, and the manager. *)
Record outcome := mkOutcome { o_pc : pc; o_spawn : list pc; o_dropped : list loc; o_mgr : manager }.

Definition goes (p : pc) (m : manager) : option outcome := Some (mkOutcome p [] [] m).

Definition upd_i (l : loc) (f : Instance -> Instance) (m : manager) : manager := upd_w (upd_inst l f) m.

Section turns.
Context (handshake : nat -> Package -> Z -> bool).

(** [Drain]'s loop: over when nothing is in flight or, as [alt] has it, the
    context has ended or the deadline passed. *)
Definition drained (alt : bool) (l : loc) (m : manager) : bool :=
  (inflight (inst_at (heap (mw m)) l) <=? 0) || alt.

(** One step of a goroutine, [None] where it waits. [alt] decides what the code
    does not: that a select takes the stop channel, that a drain gives up. *)
Definition turn (stop alt : bool) (p : pc) (m : manager) : option outcome :=
  let inst := inst_at (heap (mw m)) in
  match p with
  | WPoll l =>
      if alt then if stop then goes Done m else None
      else if ProcessExited (inst l) then goes (WState l) m else goes (WPoll l) m
  | WState l =>
      match i_state (inst l) with
      | StateDraining | StateStopped | StateQuarantined => goes Done m
      | _ => goes (WMember l) m
      end
  | WMember l =>
      if bool_decide (l ∈ SnapReplicas (w_current (mw m)) (i_Key (inst l)) (mw m)) then goes (WMark l) m
      else goes Done m
  | WMark l => goes (WCrash (i_Key (inst l))) (upd_i l MarkFailed m)
  | WCrash k =>
      let '(tooMany, m) := tooManyCrashes k m in goes (if tooMany then WIsolate k else WDelay k) m
  | WDelay k => goes (WSleep k (w_now (mw m) + backoffFor k m)) m
  | WSleep k until =>
      if alt then if stop then goes Done m else None
      else if until <=? w_now (mw m) then goes (WWoken k) m else None
  | WWoken k => if Has (w_current (mw m)) k then goes (WRelaunch k) m else goes Done m
  | WRelaunch k =>
      match packages m !! k with
      | Some pkg => if bool_decide (k ∈ enabled m) then goes (WLaunch k pkg) m else goes Done m
      | None => goes Done m
      end
  | WLaunch k pkg =>
      match launchOne handshake pkg 0 m with
      | (Some l, m) => goes (WInstall k l) m
      | (None, m) => goes (WCrash k) m
      end
  | WInstall k l =>
      let '(displaced, w) := Install k [l] (mw m) in Some (mkOutcome (WSpawn l) [] displaced (set_mw w m))
  | WSpawn l => Some (mkOutcome Done [WPoll l] [] (watch [l] m))
  | WIsolate k => goes (WRemove k) (set_crashes (crashes m) (<[k := w_now (mw m)]> (quarantined m)) m)
  | WRemove k => let '(displaced, w) := Remove k (mw m) in goes (WQuarantine displaced) (set_mw w m)
  | WQuarantine [] => goes Done m
  | WQuarantine (l :: ls) => goes (WKill l ls) (upd_i l MarkQuarantined m)
  | WKill l ls => goes (WQuarantine ls) (upd_i l Kill m)
  | AEnable k =>
      match packages m !! k with
      | None => goes Done m
      | Some pkg => goes (ALaunch false k pkg (Z.to_nat (ReplicaCount (p_Manifest pkg))) 0 []) m
      end
  | AUpgrade k reload =>
      match reload with
      | Err _ => goes Done m
      | Ok pkg => goes (ALaunch true k pkg (Z.to_nat (ReplicaCount (p_Manifest pkg))) 0 []) m
      end
  | ALaunch upgrade k pkg O _ started => goes (if upgrade then ACommit k pkg started else AInstall k pkg started) m
  | ALaunch upgrade k pkg (S todo) index started =>
      match launchOne handshake pkg index m with
      | (None, m) => goes (AKill started) m
      | (Some l, m) => goes (ALaunch upgrade k pkg todo (index + 1) (started ++ [l])) m
      end
  | AKill [] => goes Done m
  | AKill (l :: ls) => goes (AKill ls) (upd_i l Kill m)
  | AInstall k pkg insts =>
      let '(displaced, w) := InstallPlugin (RegOf k pkg insts) (mw m) in
      Some (mkOutcome (AWatch false k insts) [] displaced (set_mw w m))
  | ACommit k pkg insts =>
      goes (ASwap k pkg insts)
        (set_enabled ({[k]} ∪ enabled m) (set_packages (<[k := pkg]> (packages m)) (m_errors m) m))
  | ASwap k pkg insts =>
      let '(displaced, w) := InstallPlugin (RegOf k pkg insts) (mw m) in
      Some (mkOutcome (AWatch true k insts) (GDrain <$> displaced) [] (set_mw w m))
  | AWatch upgrade k [] => goes (if upgrade then AClear k else AEnabled k) m
  | AWatch upgrade k (l :: ls) => Some (mkOutcome (AWatch upgrade k ls) [WPoll l] [] (watch [l] m))
  | AEnabled k => goes (AClear k) (set_enabled ({[k]} ∪ enabled m) m)
  | AClear k => goes Done (ClearCrashes k m)
  | ADisable k => goes (ARemove k) (set_enabled (enabled m ∖ {[k]}) m)
  | ARemove k =>
      let '(displaced, w) := Remove k (mw m) in
      goes (match displaced with [] => Done | _ => ADrain k displaced end) (set_mw w m)
  | ADrain k [] => goes (AClear k) m
  | ADrain k (l :: ls) => goes (ADraining k l ls) (upd_i l (setState StateDraining) m)
  | ADraining k l ls => if drained alt l m then goes (ADrain k ls) (upd_i l terminate m) else None
  | AScan found => goes Done (Scan found m)
  | GDrain l => goes (GDraining l) (upd_i l (setState StateDraining) m)
  | GDraining l => if drained alt l m then goes Done (upd_i l terminate m) else None
  | Done => None
  end.

(** ** The process *)

(** main after its signal: [DrainAll] and the goroutines it waits for, which
    start at [from]; [Stop] and its wait; and the end. *)
Inductive main_pc := MServing | MDraining (from len : nat) | MJoining | MExited.

Record sys := mkSys {
  mgr : manager; threads : list pc; dropped : list loc (** displaced, and let go of *);
  stopped_chan : bool; s_main : main_pc
}.

Definition set_mgr (m : manager) (s : sys) : sys := mkSys m (threads s) (dropped s) (stopped_chan s) (s_main s).

(** The goroutines in the supervisor's wait group. *)
Definition is_watcher (p : pc) : bool :=
  match p with
  | WPoll _ | WState _ | WMember _ | WMark _ | WCrash _ | WDelay _ | WSleep _ _ | WWoken _ | WRelaunch _
  | WLaunch _ _ | WInstall _ _ | WSpawn _ | WIsolate _ | WRemove _ | WQuarantine _ | WKill _ _ => true
  | _ => false
  end.

(** How the admin API's calls begin. *)
Definition is_request (p : pc) : bool :=
  match p with AEnable _ | AUpgrade _ _ | ADisable _ | AScan _ => true | _ => false end.

(** What requests leave in an instance, which concerns neither its state nor its process. *)
Definition traffic (b : Breaker) (d : Z) (i : Instance) : Instance := set_breaker b (add_inflight d i).

Section steps.
(** The requests that may come. *)
Context (P : pc -> Prop).

Inductive step : sys -> sys -> Prop :=
| step_thread s n p alt o :
    s_main s <> MExited -> threads s !! n = Some p -> turn (stopped_chan s) alt p (mgr s) = Some o ->
    step s (mkSys (o_mgr o) (<[n := o_pc o]> (threads s) ++ o_spawn o) (dropped s ++ o_dropped o)
              (stopped_chan s) (s_main s))
| step_request s p :
    s_main s <> MExited -> is_request p = true -> P p ->
    step s (mkSys (mgr s) (threads s ++ [p]) (dropped s) (stopped_chan s) (s_main s))
| step_exit s l :
    s_main s <> MExited -> step s (set_mgr (upd_i l kill_proc (mgr s)) s)
| step_traffic s l b d :
    s_main s <> MExited -> step s (set_mgr (upd_i l (traffic b d) (mgr s)) s)
| step_pick s k :
    s_main s <> MExited -> step s (set_mgr (upd_w (fun w => (RegistryTarget k w).2) (mgr s)) s)
| step_time s d :
    s_main s <> MExited -> 0 <= d -> step s (set_mgr (upd_w (fun w => set_now (w_now w + d) w) (mgr s)) s)
| step_drain_all s :
    s_main s = MServing ->
    let w := mw (mgr s) in
    let old := All (w_current w) w in
    step s (mkSys (set_mw (rebuildLocked (set_regs ∅ w)) (mgr s)) (threads s ++ (GDrain <$> old)) (dropped s)
              (stopped_chan s) (MDraining (length (threads s)) (length old)))
| step_stop s from len :
    s_main s = MDraining from len -> Forall (eq Done) (take len (drop from (threads s))) ->
    step s (mkSys (mgr s) (threads s) (dropped s) true MJoining)
| step_join s :
    s_main s = MJoining -> Forall (fun p => is_watcher p = false) (threads s) ->
    step s (mkSys (mgr s) (threads s) (dropped s) (stopped_chan s) MExited).
End steps.
End turns.

(** ** What is routed *)

Definition routed_in (r : gmap string Registration) : list loc :=
  map_to_list r ≫= fun kr => r_Instances kr.2.

Definition replicas_of (r : gmap string Registration) (k : string) : list loc :=
  from_option r_Instances [] (r !! k).

Lemma routed_insert r k reg :
  r !! k = None -> routed_in (<[k := reg]> r) ≡ₚ r_Instances reg ++ routed_in r.
Proof. intros H. unfold routed_in. by rewrite (map_to_list_insert r k reg H). Qed.

Lemma routed_delete r k : replicas_of r k ++ routed_in (delete k r) ≡ₚ routed_in r.
Proof.
  unfold replicas_of. destruct (r !! k) as [reg|] eqn:E; simpl.
  - rewrite <- routed_insert by apply lookup_delete_eq. by rewrite insert_delete_id.
  - by rewrite delete_id.
Qed.

Lemma routed_change reg r :
  routed_in (reg_change reg r) ++ replicas_of r (r_Key reg) ≡ₚ r_Instances reg ++ routed_in r.
Proof.
  rewrite <- (routed_delete r (r_Key reg)). rewrite (Permutation_app_comm (routed_in _)).
  rewrite (Permutation_app_swap_app (r_Instances reg)). apply Permutation_app_head.
  unfold reg_change. destruct (r_Instances reg) as [|l ls] eqn:E; [done|].
  rewrite <- E, <- insert_delete_eq, routed_insert by apply lookup_delete_eq. done.
Qed.

Lemma elem_routed r l : l ∈ routed_in r <-> exists k reg, r !! k = Some reg /\ l ∈ r_Instances reg.
Proof.
  unfold routed_in. rewrite list_elem_of_bind. split.
  - intros ([k reg] & Hl & Hin). apply elem_of_map_to_list in Hin. eauto.
  - intros (k & reg & Hk & Hl). exists (k, reg). by rewrite elem_of_map_to_list.
Qed.

(** A consistent snapshot routes what is registered. *)
Lemma SnapReplicas_regs w k :
  RegInv w -> SnapReplicas (w_current w) k w = replicas_of (regs w) k.
Proof.
  intros Hi. unfold SnapReplicas, replicas_of. destruct (regs w !! k) as [reg|] eqn:Ek; simpl.
  - destruct (proj1 (ri_keys w Hi k) (ex_intro _ _ Ek)) as [p Hp].
    destruct (ri_sets w Hi k p reg Hp Ek) as (rs & Hrs & He). by rewrite Hp, Hrs.
  - destruct (s_plugins (w_current w) !! k) as [p|] eqn:Ep; [|done].
    destruct (proj2 (ri_keys w Hi k) (ex_intro _ _ Ep)). congruence.
Qed.

Lemma Has_regs w k : RegInv w -> Has (w_current w) k = bool_decide (is_Some (regs w !! k)).
Proof. intros Hi. unfold Has. apply bool_decide_ext. symmetry. apply (ri_keys w Hi). Qed.

Lemma Keys_perm s : Keys s ≡ₚ (map_to_list (s_plugins s)).*1.
Proof. apply sort_stable_perm. Qed.

Lemma All_regs w : RegInv w -> All (w_current w) w ≡ₚ routed_in (regs w).
Proof.
  intros Hi. unfold All. rewrite Keys_perm.
  assert ((map_to_list (s_plugins (w_current w))).*1 ≡ₚ (map_to_list (regs w)).*1) as ->.
  { apply NoDup_Permutation; [apply NoDup_fst_map_to_list..|]. intros k. pose proof (ri_keys w Hi k) as Hk.
    split; intros ([k' x] & -> & Hx)%list_elem_of_fmap; apply elem_of_map_to_list in Hx;
      [apply proj2 in Hk|apply proj1 in Hk]; destruct (Hk (ex_intro _ _ Hx)) as [y Hy];
      apply list_elem_of_fmap; exists (k', y); by rewrite elem_of_map_to_list. }
  unfold routed_in. rewrite list_fmap_bind.
  erewrite Forall_bind_ext; [done|]. apply list.Forall_forall. intros [k reg] Hin. apply elem_of_map_to_list in Hin. simpl.
  rewrite SnapReplicas_regs by done. unfold replicas_of. by rewrite Hin.
Qed.

(** ** Who owns a process *)

(** The instances a goroutine is to install, drain or kill. *)
Definition holds (p : pc) : list loc :=
  match p with
  | WInstall _ l | GDrain l | GDraining l => [l]
  | WQuarantine ls | AKill ls | ADrain _ ls => ls
  | WKill l ls | ADraining _ l ls => l :: ls
  | ALaunch _ _ _ _ _ ls | AInstall _ _ ls | ACommit _ _ ls | ASwap _ _ ls => ls
  | _ => []
  end.

Definition held (ps : list pc) : list loc := ps ≫= holds.

Definition live (m : manager) (l : loc) : Prop :=
  exists i, heap (mw m) !! l = Some i /\ ProcessExited i = false.

Definition in_heap (m : manager) (l : loc) : Prop := l ∈ dom (heap (mw m)).

(** The registry's instances, and all there are. *)
Definition routed_all (m : manager) : list loc := routed_in (regs (mw m)).
Definition owns (s : sys) : list loc := routed_all (mgr s) ++ held (threads s) ++ dropped s.

(** From [m] to [m'] the instances held go from [before] to [after]: what is
    neither held nor routed any more has exited, and what is new was started. *)
Definition conserve (m m' : manager) (before after : list loc) : Prop :=
  RegInv (mw m') /\ dom (heap (mw m)) ⊆ dom (heap (mw m')) /\
  exists new rel, routed_all m' ++ after ++ rel ≡ₚ routed_all m ++ before ++ new /\
    NoDup new /\ Forall (fun l => ~ in_heap m l /\ in_heap m' l) new /\ Forall (exited m') rel /\
    forall l, live m' l -> live m l \/ l ∈ new.

Lemma exited_not_live m l : exited m l -> ~ live m l.
Proof. intros (i & Hi & He) (j & Hj & Hl). congruence. Qed.

Lemma conserve_weaken m m' before after before' after' :
  before ≡ₚ before' -> after ≡ₚ after' -> conserve m m' before' after' -> conserve m m' before after.
Proof.
  intros Hb Ha (Hi & Hd & new & rel & Hp & H). split; [done|]. split; [done|]. exists new, rel.
  split; [by rewrite Ha, Hb|done].
Qed.

(** A step that leaves the registrations and the instances alone. *)
Lemma conserve_same m m' ls :
  RegInv (mw m') -> heap (mw m') = heap (mw m) -> regs (mw m') = regs (mw m) -> conserve m m' ls ls.
Proof.
  intros Hi Hh Hr. split; [done|]. rewrite Hh. split; [done|]. exists [], []. unfold routed_all. rewrite Hr.
  split; [done|]. split; [apply NoDup_nil_2|]. do 2 (split; [by apply list.Forall_nil|]).
  intros l (i & Hl & He). left. exists i. by rewrite <- Hh.
Qed.

Lemma dead_exited : ProcessExited dead_instance = true.
Proof. reflexivity. Qed.

Section upd.
Context (m : manager) (l : loc) (f : Instance -> Instance).
Hypothesis Hi : RegInv (mw m).

Lemma upd_i_inv : RegInv (mw (upd_i l f m)).
Proof using Hi. by apply RegInv_set_heap. Qed.

Lemma upd_i_dom : dom (heap (mw m)) ⊆ dom (heap (mw (upd_i l f m))).
Proof using Type.
  intros x Hx. unfold upd_i, upd_w, upd_inst. cbn [mw set_mw heap set_heap]. rewrite dom_insert.
  apply elem_of_union. by right.
Qed.

(** One that revives no process. *)
Lemma upd_i_live l' : (forall i, ProcessExited i = true -> ProcessExited (f i) = true) -> live (upd_i l f m) l' -> live m l'.
Proof using Type.
  intros Hf (i & Hl & He). unfold upd_i, upd_w, upd_inst in Hl. cbn [mw set_mw heap set_heap] in Hl.
  destruct (decide (l = l')) as [->|Hne]; [|rewrite lookup_insert_ne in Hl by done; by exists i].
  rewrite lookup_insert_eq in Hl. injection Hl as <-. unfold inst_at in He.
  destruct (heap (mw m) !! l') as [i|] eqn:E; simpl in He.
  - exists i. split; [done|]. destruct (ProcessExited i) eqn:Ei; [|done]. rewrite Hf in He; done.
  - rewrite Hf in He by apply dead_exited. done.
Qed.

Lemma conserve_upd ls :
  (forall i, ProcessExited i = true -> ProcessExited (f i) = true) -> conserve m (upd_i l f m) ls ls.
Proof using Hi.
  intros Hf. split; [apply upd_i_inv|]. split; [apply upd_i_dom|]. exists [], [].
  split; [done|]. split; [apply NoDup_nil_2|]. do 2 (split; [by apply list.Forall_nil|]).
  intros l' Hl. left. by apply upd_i_live.
Qed.

(** One that ends the process. *)
Lemma conserve_end ls : (forall i, ProcessExited (f i) = true) -> conserve m (upd_i l f m) (l :: ls) ls.
Proof using Hi.
  intros Hf. split; [apply upd_i_inv|]. split; [apply upd_i_dom|]. exists [], [l].
  split; [by rewrite app_nil_r, <- Permutation_cons_append|]. split; [apply NoDup_nil_2|].
  split; [by apply list.Forall_nil|]. split.
  - apply list.Forall_singleton. eexists. split; [apply lookup_insert_eq|apply Hf].
  - intros l' Hl. left. by apply upd_i_live.
Qed.
End upd.

Lemma conserve_install m reg displaced w :
  RegInv (mw m) -> InstallPlugin reg (mw m) = (displaced, w) ->
  conserve m (set_mw w m) (r_Instances reg) displaced.
Proof.
  intros Hi E. destruct (InstallPlugin_frame reg _ Hi) as [Hh Hr]. pose proof (InstallPlugin_inv reg _ Hi) as Hi'.
  rewrite E in Hh, Hr, Hi'. assert (displaced = replicas_of (regs (mw m)) (r_Key reg)) as ->.
  { rewrite <- SnapReplicas_regs by done. exact (f_equal fst (eq_sym E)). }
  cbn [snd] in *. split; [done|]. cbn [set_mw mw]. rewrite Hh. split; [done|]. exists [], []. rewrite !app_nil_r.
  unfold routed_all. cbn [set_mw mw]. rewrite Hr, routed_change. split; [apply Permutation_app_comm|].
  split; [apply NoDup_nil_2|]. do 2 (split; [by apply list.Forall_nil|]).
  intros l (i & Hl & He). left. exists i. cbn [set_mw mw] in Hl. by rewrite <- Hh.
Qed.

Lemma conserve_launch handshake pkg index m r m' ls :
  RegInv (mw m) -> launchOne handshake pkg index m = (r, m') ->
  conserve m m' ls (ls ++ match r with Some l => [l] | None => [] end).
Proof.
  intros Hi E. unfold launchOne in E. destruct (negb _); injection E as <- <-.
  { rewrite app_nil_r. by apply conserve_same. }
  pose proof (is_fresh (dom (heap (mw m)))) as Hf.
  split; [by apply RegInv_set_heap|]. cbn [upd_w set_mw mw set_heap heap]. split; [rewrite dom_insert; set_solver|].
  eexists [_], []. rewrite app_nil_r. split; [done|]. split; [apply NoDup_singleton|]. split; [|split; [by apply list.Forall_nil|]].
  - apply list.Forall_singleton. split; [exact Hf|]. unfold in_heap. cbn. rewrite dom_insert. set_solver.
  - intros l (i & Hl & He). cbn in Hl. rewrite list_elem_of_singleton.
    match type of Hl with <[?q := _]> _ !! _ = _ => destruct (decide (l = q)) as [->|Hne] end; [by right|left].
    rewrite lookup_insert_ne in Hl by done. by exists i.
Qed.

Lemma held_GDrain ls : held (GDrain <$> ls) = ls.
Proof. induction ls as [|l ls IH]; [done|]. exact (f_equal (cons l) IH). Qed.

Lemma kill_proc_exited i : ProcessExited i = true -> ProcessExited (kill_proc i) = true.
Proof. unfold ProcessExited, kill_proc. simpl. by destruct (has_proc i), (proc_exited i). Qed.

Lemma terminate_exited i : ProcessExited (terminate i) = true.
Proof. exact (Kill_exited i). Qed.

(** What [tooManyCrashes] leaves alone. *)
Lemma tooManyCrashes_frame k m b m' :
  tooManyCrashes k m = (b, m') ->
  mw m' = mw m /\ packages m' = packages m /\ enabled m' = enabled m.
Proof.
  unfold tooManyCrashes. destruct (crashes m !! k); [destruct (_ <? _)|]; by intros [= <- <-].
Qed.

Lemma conserve_crashes k m b m' ls :
  RegInv (mw m) -> tooManyCrashes k m = (b, m') -> conserve m m' ls ls.
Proof. intros Hi (Hw & _)%tooManyCrashes_frame. by apply conserve_same; rewrite Hw. Qed.

(** The branches of a step: [E] says what it leaves. *)
Ltac branches E :=
  repeat match type of E with
  | (if ?b then _ else _) = _ => destruct b eqn:?
  | match ?x with _ => _ end = _ => destruct x eqn:?
  end;
  try discriminate E; injection E as <-; cbn [o_pc o_spawn o_dropped o_mgr].

(** A step unfolded, branch by branch. *)
Ltac turn_branches Ht p :=
  revert Ht; destruct p; cbn [turn]; unfold goes, Install, Remove;
  let E := fresh "E" in intros E; branches E.

Create HintDb conserve.
#[export] Hint Resolve conserve_crashes conserve_end Kill_exited terminate_exited RegInv_set_heap : conserve.
#[export] Hint Extern 1 (conserve _ _ _ _) => apply conserve_same; done : conserve.
#[export] Hint Extern 1 (conserve _ _ _ _) => apply conserve_upd; done : conserve.
#[export] Hint Extern 1 (conserve _ _ _ _) =>
  match goal with
  | H : InstallPlugin _ _ = _ |- _ => by apply conserve_install in H
  | H : launchOne _ _ _ _ = _ |- conserve _ _ ?ls _ => by apply (conserve_launch _ _ _ _ _ _ ls) in H; rewrite ?app_nil_r in H
  end : conserve.

Section conserving.
Context (handshake : nat -> Package -> Z -> bool).

(** No step of a goroutine creates or loses an instance unnoticed. *)
Lemma turn_conserve stop alt p m o :
  RegInv (mw m) -> turn handshake stop alt p m = Some o ->
  conserve m (o_mgr o) (holds p) (holds (o_pc o) ++ held (o_spawn o) ++ o_dropped o).
Proof using Type.
  intros Hi Ht. turn_branches Ht p; cbn [holds held mbind list_bind]; rewrite ?held_GDrain, ?app_nil_r, ?app_nil_l;
    repeat match goal with |- context [holds (match ?x with _ => _ end)] => destruct x end;
    eauto 2 with conserve.
Qed.
End conserving.

(** ** The invariant of ownership *)

Lemma held_app ps qs : held (ps ++ qs) = held ps ++ held qs.
Proof. apply bind_app. Qed.

(** A goroutine's share of what all of them hold. *)
Lemma held_split ts n p :
  ts !! n = Some p -> exists rest, held ts ≡ₚ holds p ++ rest /\ forall p', held (<[n := p']> ts) ≡ₚ holds p' ++ rest.
Proof.
  intros H. exists (held (take n ts) ++ held (drop (S n) ts)).
  assert (forall q, held (take n ts ++ q :: drop (S n) ts) ≡ₚ holds q ++ held (take n ts) ++ held (drop (S n) ts)) as Hq.
  { intros q. rewrite held_app. change (held (q :: ?l)) with (holds q ++ held l). apply Permutation_app_swap_app. }
  split.
  - rewrite <- (take_drop_middle ts n p H) at 1. apply Hq.
  - intros p'. rewrite <- (take_drop_middle (<[n := p']> ts) n p').
    + rewrite take_insert_ge, drop_insert_lt by lia. apply Hq.
    + apply list_lookup_insert_eq. by eapply lookup_lt_Some.
Qed.

(** [ls] are exactly the owned instances: none twice, all allocated, and every
    running process among them. *)
Record all_owned (m : manager) (ls : list loc) : Prop := mkAllOwned {
  ow_reg : RegInv (mw m);
  ow_nodup : NoDup (routed_all m ++ ls);
  ow_heap : Forall (in_heap m) (routed_all m ++ ls);
  ow_live : forall l, live m l -> l ∈ routed_all m ++ ls
}.

Lemma all_owned_perm m ls ls' : ls ≡ₚ ls' -> all_owned m ls -> all_owned m ls'.
Proof.
  intros Hp [H1 H2 H3 H4]. split; [done|by rewrite <- Hp|by rewrite <- Hp|].
  intros l Hl. rewrite <- Hp. by apply H4.
Qed.

Lemma conserve_owned m m' before after rest :
  conserve m m' before after -> all_owned m (before ++ rest) -> all_owned m' (after ++ rest).
Proof.
  intros (Hi & Hd & new & rel & Hp & Hn & Hnew & Hrel & Hlive) [_ H2 H3 H4].
  assert ((routed_all m' ++ after ++ rest) ++ rel ≡ₚ (routed_all m ++ before ++ rest) ++ new) as Hp'.
  { rewrite <- !app_assoc, (Permutation_app_comm rest rel), (Permutation_app_comm rest new), !app_assoc.
    apply Permutation_app_tail. by rewrite <- !app_assoc. }
  assert (NoDup ((routed_all m' ++ after ++ rest) ++ rel)) as Hnd.
  { rewrite Hp'. apply list.NoDup_app. split; [done|]. split; [|done]. intros l Hl Hin.
    apply (proj1 (list.Forall_forall _ _) H3) in Hl. by apply (proj1 (list.Forall_forall _ _) Hnew) in Hin as []. }
  assert (forall l, l ∈ routed_all m' ++ after ++ rest -> l ∈ routed_all m ++ before ++ rest \/ l ∈ new) as Hin.
  { intros l Hl. apply elem_of_app. rewrite <- Hp'. apply elem_of_app. by left. }
  split; [done| | |].
  - by apply list.NoDup_app in Hnd as [? _].
  - apply list.Forall_forall. intros l [Hl|Hl]%Hin.
    + apply Hd. by apply (proj1 (list.Forall_forall _ _) H3).
    + by apply (proj1 (list.Forall_forall _ _) Hnew) in Hl as [].
  - intros l Hl. assert (l ∈ (routed_all m' ++ after ++ rest) ++ rel) as Hor.
    { rewrite Hp'. apply elem_of_app. destruct (Hlive l Hl); [left; by apply H4|by right]. }
    apply elem_of_app in Hor as [|Hr]; [done|]. apply (proj1 (list.Forall_forall _ _) Hrel) in Hr.
    by apply exited_not_live in Hr.
Qed.

(** A step of the environment: nothing changes hands. *)
Lemma conserve_env m m' ls : conserve m m' [] [] -> all_owned m ls -> all_owned m' ls.
Proof. apply (conserve_owned m m' [] [] ls). Qed.

(** Picking a replica moves the round-robin counters only. *)
Lemma RegistryTarget_inv k w :
  RegInv w ->
  RegInv (RegistryTarget k w).2 /\ heap (RegistryTarget k w).2 = heap w /\ regs (RegistryTarget k w).2 = regs w.
Proof.
  intros Hi. unfold RegistryTarget, Pick. destruct (s_plugins (w_current w) !! k) as [p|] eqn:Ep; [|done].
  destruct (rsets w !! p) as [rs|] eqn:Er; [|done]. pose proof (pick_instances (heap w) rs) as Hp.
  destruct (pick (heap w) rs) as [l rs']. cbn [snd] in *. split; [|done]. destruct Hi as [H1 H2 H3].
  split; cbn [regs w_current rsets set_rsets]; [done| |done].
  intros k' q reg Hq Hreg. destruct (H2 k' q reg Hq Hreg) as (rs0 & Hrs0 & He).
  destruct (decide (p = q)) as [<-|Hne].
  - exists rs'. rewrite lookup_insert_eq. split; [done|]. congruence.
  - exists rs0. by rewrite lookup_insert_ne.
Qed.

(** [DrainAll] before its drains: nothing is routed any more. *)
Lemma clear_regs w :
  RegInv w ->
  let w' := rebuildLocked (set_regs ∅ w) in RegInv w' /\ heap w' = heap w /\ regs w' = ∅.
Proof.
  intros Hi. destruct (rebuildLocked_spec (set_regs ∅ w)) as (Hh & Hr & _ & _ & _ & _ & _ & Hnone & _).
  { intros k p. apply (RegInv_valid w k p Hi). }
  cbv zeta. split; [|done]. cbn [set_regs regs] in *. split.
  - intros k. rewrite Hr, (Hnone k), lookup_empty; [|apply lookup_empty]. done.
  - intros k p reg _. by rewrite Hr, lookup_empty.
  - intros k reg. by rewrite Hr, lookup_empty.
Qed.

Lemma conserve_drain_all m :
  RegInv (mw m) ->
  conserve m (set_mw (rebuildLocked (set_regs ∅ (mw m))) m) [] (All (w_current (mw m)) (mw m)).
Proof.
  intros Hi. destruct (clear_regs _ Hi) as (Hi' & Hh & Hr). split; [done|]. cbn [set_mw mw]. rewrite Hh.
  split; [done|]. exists [], []. rewrite !app_nil_r. unfold routed_all. cbn [set_mw mw]. rewrite Hr, (All_regs _ Hi).
  split; [done|]. split; [apply NoDup_nil_2|]. do 2 (split; [by apply list.Forall_nil|]).
  intros l (i & Hl & He). left. exists i. cbn [set_mw mw] in Hl. by rewrite <- Hh.
Qed.

Definition Owned (s : sys) : Prop := all_owned (mgr s) (held (threads s) ++ dropped s).

Lemma ls_held_app p ts d : held (ts ++ [p]) ++ d ≡ₚ holds p ++ held ts ++ d.
Proof.
  rewrite held_app, <- app_assoc. change (held [p]) with (holds p ++ []). rewrite app_nil_r.
  apply Permutation_app_swap_app.
Qed.

Lemma turn_owned handshake stop alt p n ts d m o :
  ts !! n = Some p -> turn handshake stop alt p m = Some o ->
  all_owned m (held ts ++ d) -> all_owned (o_mgr o) (held (<[n := o_pc o]> ts ++ o_spawn o) ++ d ++ o_dropped o).
Proof.
  intros Hn Ht Ho. destruct (held_split ts n p Hn) as (rest & H1 & H2).
  apply (turn_conserve handshake _ _ _ _ _ (ow_reg _ _ Ho)) in Ht.
  apply (all_owned_perm _ ((holds (o_pc o) ++ held (o_spawn o) ++ o_dropped o) ++ rest ++ d)).
  - rewrite held_app, H2, <- !app_assoc. apply Permutation_app_head.
    rewrite (Permutation_app_comm (o_dropped o)), <- !app_assoc, (Permutation_app_swap_app (held (o_spawn o))).
    done.
  - apply (conserve_owned m _ (holds p)); [done|].
    eapply all_owned_perm; [|exact Ho]. by rewrite H1, <- app_assoc.
Qed.

Lemma step_owned handshake P s s' : step handshake P s s' -> Owned s -> Owned s'.
Proof.
  unfold Owned. intros Hstep Ho. pose proof (ow_reg _ _ Ho) as Hi.
  destruct Hstep as [s n p alt o _ Hn Ht|s p _ Hr _|s l _|s l b d _|s k _|s d _ _|s _|s from len _ _|s _ _];
    cbn [mgr threads dropped set_mgr].
  - exact (turn_owned _ _ _ _ _ _ _ _ _ Hn Ht Ho).
  - eapply all_owned_perm; [|exact Ho]. rewrite ls_held_app. destruct p; try discriminate Hr; done.
  - eapply conserve_env; [|exact Ho]. apply conserve_upd; [done|apply kill_proc_exited].
  - eapply conserve_env; [|exact Ho]. by apply conserve_upd.
  - eapply conserve_env; [|exact Ho]. destruct (RegistryTarget_inv k _ Hi) as (? & ? & ?). by apply conserve_same.
  - eapply conserve_env; [|exact Ho]. apply conserve_same; [|done..]. cbn. by destruct Hi; split.
  - eapply all_owned_perm; [|exact (conserve_owned _ _ [] _ _ (conserve_drain_all _ Hi) Ho)].
    rewrite held_app, held_GDrain, <- app_assoc. apply Permutation_app_swap_app.
  - done.
  - done.
Qed.

(** Core before it has looked at the plugin directory. *)
Definition start (cfg : SupervisorConfig) (now : Z) : sys :=
  mkSys (NewManager cfg (NewRegistry now ∅)) [] [] false MServing.

Lemma start_owned cfg now : Owned (start cfg now).
Proof.
  unfold Owned. split; cbn.
  - apply NewRegistry_inv.
  - apply NoDup_nil_2.
  - by apply list.Forall_nil.
  - intros l (i & Hl & _). cbn in Hl. by rewrite lookup_empty in Hl.
Qed.

Lemma rtc_owned handshake P s s' : rtc (step handshake P) s s' -> Owned s -> Owned s'.
Proof. induction 1; eauto using step_owned. Qed.

(** ** Who watches a replica *)

(** A goroutine that watches [l], or is about to start one that does. *)
Definition watches (p : pc) (l : loc) : Prop :=
  match p with
  | WPoll l' | WState l' | WMember l' | WMark l' | WSpawn l' => l' = l
  | AWatch _ _ ls => l ∈ ls
  | _ => False
  end.

(** It has seen the process gone. *)
Definition dying (p : pc) (l : loc) : Prop :=
  match p with WState l' | WMember l' | WMark l' => l' = l | _ => False end.

(** It is to publish [l] under [k]. *)
Definition pends (p : pc) (k : string) (l : loc) : Prop :=
  match p with
  | WInstall k' l' => k' = k /\ l' = l
  | ALaunch _ k' _ _ _ ls | AInstall k' _ ls | ACommit k' _ ls | ASwap k' _ ls => k' = k /\ l ∈ ls
  | _ => False
  end.

(** It ends the processes it holds. *)
Definition reaps (p : pc) : bool :=
  match p with
  | WQuarantine _ | WKill _ _ | AKill _ | ADrain _ _ | ADraining _ _ _ | GDrain _ | GDraining _ => true
  | _ => false
  end.

(** The package a goroutine works with has the key it works for. *)
Definition keyed_pc (p : pc) : Prop :=
  match p with
  | WLaunch k pkg | ALaunch _ k pkg _ _ _ | AInstall k pkg _ | ACommit k pkg _ | ASwap k pkg _
  | AUpgrade k (Ok pkg) => p_Key pkg = k
  | _ => True
  end.

Definition keyed (m : manager) : Prop := forall k pkg, packages m !! k = Some pkg -> p_Key pkg = k.

(** In rotation: Ready, or marked as failed once its process was gone. *)
Definition healthy_at (m : manager) (k : string) (l : loc) : Prop :=
  exists i, heap (mw m) !! l = Some i /\ i_Key i = k /\
    (i_state i = StateReady \/ (i_state i = StateFailed /\ ProcessExited i = true)).

Definition failed_at (m : manager) (l : loc) : Prop :=
  exists i, heap (mw m) !! l = Some i /\ i_state i = StateFailed.

Section turn_facts.
Context (handshake : nat -> Package -> Z -> bool) (stop alt : bool) (p : pc) (m : manager) (o : outcome).
Hypothesis Ht : turn handshake stop alt p m = Some o.

Ltac by_branches := turn_branches Ht p.

Lemma turn_keyed : keyed m -> keyed_pc p -> keyed (o_mgr o) /\ keyed_pc (o_pc o).
Proof using Ht.
  intros Hm Hp. by_branches; try done; try (by split; [done|apply Hm]).
  all: repeat match goal with
       | H : tooManyCrashes _ _ = _ |- _ => apply tooManyCrashes_frame in H as (_ & H & _)
       | H : launchOne _ _ _ _ = _ |- _ => apply launchOne_spec in H as ((? & ? & ->) & _)
       end; try done.
  all: try (unfold keyed; match goal with H : packages _ = _ |- _ => rewrite H end; split; [done|by destruct b]).
  all: try by destruct upgrade.
  - split; [|done]. cbn. clear. unfold keyed. cbn. generalize (found.1) as ps. intros ps.
    assert (forall acc : gmap string Package, (forall k pkg, acc !! k = Some pkg -> p_Key pkg = k) ->
      forall k pkg, foldl (fun ps p => <[p_Key p := p]> ps) acc ps !! k = Some pkg -> p_Key pkg = k) as H.
    { induction ps as [|q ps IH]; intros acc Hacc; cbn [foldl]; [done|]. apply IH. intros k' pkg'.
      rewrite lookup_insert. case_decide; [|apply Hacc]. by intros [= <-]. }
    apply H. intros ? ?. by rewrite lookup_empty.
  - split; [|done]. intros k'. cbn. rewrite lookup_insert. case_decide; [|apply Hm]. intros ? [= <-]. by subst.
  - by destruct l.
Qed.

(** Only what it holds, and what it marks, does a goroutine touch. *)
Lemma turn_touch l i :
  heap (mw m) !! l = Some i -> (reaps p = true -> l ∉ holds p) -> RegInv (mw m) ->
  heap (mw (o_mgr o)) !! l = Some i \/ (p = WMark l /\ heap (mw (o_mgr o)) !! l = Some (MarkFailed i)).
Proof using Ht.
  intros Hl Hr Hi.
  assert (forall l' f, l' <> l -> heap (mw (upd_i l' f m)) !! l = Some i) as Hne.
  { intros l' f Hne. unfold upd_i, upd_w, upd_inst. cbn. by rewrite lookup_insert_ne. }
  by_branches; cbn [reaps holds] in Hr; try (by left);
    repeat match goal with
    | H : tooManyCrashes _ _ = _ |- _ => apply tooManyCrashes_frame in H as (-> & _ & _); by left
    | H : InstallPlugin ?reg _ = _ |- _ =>
        left; cbn [set_mw mw]; apply (f_equal snd) in H; cbn [snd] in H; rewrite <- H;
        destruct (InstallPlugin_frame reg _ Hi) as [-> _]; exact Hl
    | H : launchOne _ _ _ _ = _ |- _ =>
        left; apply launchOne_spec in H as (_ & Hk & _); by eapply lookup_weaken
    end;
    try (left; apply Hne; specialize (Hr eq_refl); set_solver).
  destruct (decide (l0 = l)) as [->|Hn]; [right|left; by apply Hne].
  split; [done|]. unfold upd_i, upd_w, upd_inst. cbn. rewrite lookup_insert_eq. unfold inst_at. by rewrite Hl.
Qed.
(** What a goroutine is to publish it held before, or has just started. *)
Lemma turn_pends k l :
  keyed_pc p -> pends (o_pc o) k l -> pends p k l \/ healthy_at (o_mgr o) k l.
Proof using Ht.
  assert (forall pkg l0, p_Key pkg = k -> fresh_ready pkg (heap (mw m)) (o_mgr o) l0 -> healthy_at (o_mgr o) k l0) as Hf.
  { intros pkg l0 Hk (_ & i & Hi & Hs & Hki). exists i. split; [done|]. split; [congruence|by left]. }
  intros Hp Hl. by_branches; cbn [pends o_pc o_mgr keyed_pc] in *; try done; try (by left);
    try (by repeat match type of Hl with pends (match ?x with _ => _ end) _ _ => destruct x end).
  all: repeat match goal with
       | H : context [if ?u then ACommit _ _ _ else _] |- _ => destruct u
       | H : _ = _ /\ _ |- _ => destruct H as [<- H]
       | H : _ ∈ [] |- _ => by apply not_elem_of_nil in H
       | H : _ ∈ _ ++ [_] |- _ => apply elem_of_app in H as [H|H]; [by left|apply list_elem_of_singleton in H]
       end; try (by left); subst;
       match goal with H : launchOne _ _ _ _ = _ |- _ => apply launchOne_spec in H as (_ & _ & H & _) end;
       right; by eapply Hf.
Qed.

Lemma turn_watches q l :
  q = o_pc o \/ q ∈ o_spawn o -> watches q l -> watches p l \/ l ∈ holds p.
Proof using Ht.
  intros Hq Hl. by_branches; cbn [o_pc o_spawn watches holds] in *;
    (destruct Hq as [->|Hq]; [|set_solver]); cbn [watches] in Hl; try done; try (by left); try (by right);
    try (by repeat match type of Hl with watches (match ?x with _ => _ end) _ => destruct x end).
  all: set_solver.
Qed.

Lemma turn_dying l : dying (o_pc o) l -> in_heap m l -> dying p l \/ exited m l.
Proof using Ht.
  intros Hl Hin. unfold in_heap in Hin. apply elem_of_dom in Hin as [i Hi]. by_branches; cbn [dying o_pc] in *; try done; try (by left);
    try (by repeat match type of Hl with dying (match ?x with _ => _ end) _ => destruct x end).
  subst. right. exists i. split; [done|]. match goal with H : ProcessExited _ = true |- _ => revert H end.
  unfold inst_at. by rewrite Hi.
Qed.

(** What a step starts polls an instance or drains one. *)
Lemma turn_spawn q : q ∈ o_spawn o -> (exists l, q = WPoll l) \/ exists l, q = GDrain l.
Proof using Ht.
  intros Hq. by_branches; cbn [o_spawn] in Hq; try (by apply not_elem_of_nil in Hq);
    try (apply list_elem_of_singleton in Hq as ->; left; by eexists).
  apply list_elem_of_fmap in Hq as (x & -> & _). right. by eexists.
Qed.

Lemma spawned_fresh q : q ∈ o_spawn o -> keyed_pc q /\ (forall k l, ~ pends q k l) /\ forall l, ~ dying q l.
Proof using Ht.
  intros [[l ->]|[l ->]]%turn_spawn; (split; [done|]; split; [by intros ? ? []|by intros ? []]).
Qed.

Lemma replicas_change reg r k l :
  l ∈ replicas_of (reg_change reg r) k -> l ∈ replicas_of r k \/ (k = r_Key reg /\ l ∈ r_Instances reg).
Proof using Type.
  unfold replicas_of. destruct (decide (k = r_Key reg)) as [->|Hne]; [|rewrite reg_change_ne by done; by left].
  rewrite reg_change_eq. case_decide; simpl; [by intros ?%not_elem_of_nil|by right].
Qed.

(** What a step routes anew it had to publish, and watches from then on. *)
Lemma turn_routed k l :
  RegInv (mw m) -> l ∈ replicas_of (regs (mw (o_mgr o))) k ->
  l ∈ replicas_of (regs (mw m)) k \/ (pends p k l /\ watches (o_pc o) l).
Proof using Ht.
  intros Hi Hl.
  assert (forall reg d w, InstallPlugin reg (mw m) = (d, w) -> regs w = reg_change reg (regs (mw m))) as Hreg.
  { intros reg d w E. apply (f_equal snd) in E. cbn in E. rewrite <- E. by apply InstallPlugin_frame. }
  by_branches; cbn [o_mgr o_pc pends watches] in *; try (by left);
    try (match goal with
      | H : tooManyCrashes _ _ = _ |- _ => apply tooManyCrashes_frame in H as (H & _ & _); left; by rewrite H in Hl
      | H : launchOne _ _ _ _ = _ |- _ => apply launchOne_spec in H as ((? & ? & ->) & _); by left
      | H : InstallPlugin _ _ = _ |- _ =>
          cbn [set_mw mw] in Hl; rewrite (Hreg _ _ _ H) in Hl; apply replicas_change in Hl as [Hl|[-> Hl]]; [by left|]
      end); cbn [r_Key r_Instances RegOf] in *; try (by right); try (by apply not_elem_of_nil in Hl).
  apply list_elem_of_singleton in Hl as ->. by right.
Qed.

(** Watching goes on until the instance is marked as failed. *)
Lemma turn_watch k l :
  RegInv (mw m) -> stop = false -> watches p l -> l ∈ replicas_of (regs (mw m)) k -> healthy_at m k l ->
  watches (o_pc o) l \/ (exists q, q ∈ o_spawn o /\ watches q l) \/ failed_at (o_mgr o) l.
Proof using Ht.
  intros Hi Hs Hp Hl (i & Hli & Hk & Hst).
  assert (forall l0, l0 = l -> inst_at (heap (mw m)) l0 = i) as Hat by (intros ? ->; unfold inst_at; by rewrite Hli).
  by_branches; cbn [watches o_pc o_spawn o_mgr] in *; try done; try (by left); subst;
    repeat match goal with H : context [inst_at _ _] |- _ => rewrite Hat in H by done end;
    try (by destruct Hst as [Hst|[Hst _]]; rewrite Hst in *).
  - match goal with H : bool_decide _ = false |- _ => apply bool_decide_eq_false in H end.
    rewrite SnapReplicas_regs in * by done. done.
  - right. right. exists (MarkFailed i). unfold upd_i, upd_w, upd_inst. cbn [set_mw mw heap set_heap].
    by rewrite lookup_insert_eq, Hat.
  - right. left. exists (WPoll l). split; [by left|done].
  - by apply not_elem_of_nil in Hp.
  - apply elem_of_cons in Hp as [->|Hp]; [|by left]. right. left. eexists. split; [by left|done].
Qed.
End turn_facts.

(** *** The invariant of supervision *)

Lemma elem_held ts n p l : ts !! n = Some p -> l ∈ holds p -> l ∈ held ts.
Proof. intros Hn Hl. apply list_elem_of_bind. exists p. split; [done|by eapply list_elem_of_lookup_2]. Qed.

(** Two goroutines hold nothing in common, and nothing that is routed. *)
Lemma owned_disjoint s n p l :
  Owned s -> threads s !! n = Some p -> l ∈ holds p ->
  l ∉ routed_all (mgr s) /\ forall j q, j <> n -> threads s !! j = Some q -> l ∉ holds q.
Proof.
  intros [_ Hn _ _] Hp Hl. destruct (held_split _ _ _ Hp) as (rest & H1 & H2).
  rewrite H1 in Hn. apply list.NoDup_app in Hn as (_ & Hd & Hn). split.
  - intros Hr. apply (Hd l Hr). set_solver.
  - intros j q Hj Hq Hlq. rewrite <- app_assoc in Hn. apply list.NoDup_app in Hn as (_ & Hd2 & _).
    apply (Hd2 l Hl). apply elem_of_app. left. change rest with (holds Done ++ rest). rewrite <- (H2 Done).
    apply (elem_held _ j q); [|done]. by rewrite list_lookup_insert_ne.
Qed.

Lemma elem_replicas m k l : l ∈ replicas_of (regs (mw m)) k -> l ∈ routed_all m.
Proof.
  unfold replicas_of. destruct (regs (mw m) !! k) as [reg|] eqn:E; simpl; [|by intros ?%not_elem_of_nil].
  intros Hl. apply elem_routed. eauto.
Qed.

Record Sup (s : sys) : Prop := mkSup {
  su_owned : Owned s;
  su_keyed : keyed (mgr s);
  su_pcs : forall n p, threads s !! n = Some p -> keyed_pc p;
  su_heap : forall n p l, threads s !! n = Some p -> watches p l -> in_heap (mgr s) l;
  su_dying : forall n p l, threads s !! n = Some p -> dying p l -> exited (mgr s) l;
  su_pending : forall n p k l, threads s !! n = Some p -> pends p k l -> healthy_at (mgr s) k l;
  su_routed : forall k l, l ∈ replicas_of (regs (mw (mgr s))) k -> healthy_at (mgr s) k l;
  su_watched : stopped_chan s = false -> forall k l, l ∈ replicas_of (regs (mw (mgr s))) k ->
    (exists n p, threads s !! n = Some p /\ watches p l) \/ failed_at (mgr s) l
}.

Lemma lookup_turn ts n (p' q : pc) sp j :
  (n < length ts)%nat -> (<[n := p']> ts ++ sp) !! j = Some q ->
  (j = n /\ q = p') \/ (j <> n /\ ts !! j = Some q) \/ q ∈ sp.
Proof.
  intros Hn Hq. apply lookup_app_Some in Hq as [Hq|[_ Hq]]; [|right; right; by eapply list_elem_of_lookup_2].
  destruct (decide (j = n)) as [->|Hj].
  - rewrite list_lookup_insert_eq in Hq by done. left. by injection Hq as <-.
  - rewrite list_lookup_insert_ne in Hq by done. by right; left.
Qed.

Lemma pends_holds p k l : pends p k l -> l ∈ holds p /\ reaps p = false.
Proof. destruct p; cbn; try done; intros [_ H]; split; set_solver. Qed.

Lemma dying_watches p l : dying p l -> watches p l.
Proof. destruct p; done. Qed.

(** Exits are final, and [Failed] is. *)
Lemma conserve_exited m m' before after l : conserve m m' before after -> exited m l -> exited m' l.
Proof.
  intros (_ & Hd & new & rel & _ & _ & Hnew & _ & Hlive) (i & Hi & He).
  assert (l ∈ dom (heap (mw m))) as Hl by (by apply elem_of_dom_2 in Hi).
  apply Hd, elem_of_dom in Hl as [i' Hi']. exists i'. split; [done|].
  destruct (ProcessExited i') eqn:E; [done|]. destruct (Hlive l) as [Hl|Hl]; [by exists i'|..].
  - exfalso. apply (exited_not_live m l); [by exists i|done].
  - apply (proj1 (list.Forall_forall _ _) Hnew) in Hl as [Hl _]. exfalso. apply Hl. by apply elem_of_dom_2 in Hi.
Qed.

Section preserving.
Context (handshake : nat -> Package -> Z -> bool) (alt : bool) (s : sys) (n : nat) (p : pc) (o : outcome).
Hypothesis Hs : Sup s.
Hypothesis Hn : threads s !! n = Some p.
Hypothesis Ht : turn handshake (stopped_chan s) alt p (mgr s) = Some o.

Local Lemma sup_reg : RegInv (mw (mgr s)).
Proof using Hs. apply (ow_reg _ _ (su_owned s Hs)). Qed.

Local Lemma sup_conserve :
  conserve (mgr s) (o_mgr o) (holds p) (holds (o_pc o) ++ held (o_spawn o) ++ o_dropped o).
Proof using Hs Ht. exact (turn_conserve handshake _ _ _ _ _ sup_reg Ht). Qed.

(** What is routed, or to be published, stays healthy. *)
Local Lemma turn_healthy k l :
  (reaps p = true -> l ∉ holds p) -> healthy_at (mgr s) k l -> healthy_at (o_mgr o) k l.
Proof using Hs Hn Ht.
  intros Hr (i & Hi & Hk & Hst).
  destruct (turn_touch handshake _ _ _ _ _ Ht l i Hi Hr sup_reg) as [Hl|[-> Hl]]; [by exists i|].
  exists (MarkFailed i). split; [done|]. split; [done|]. right. split; [done|].
  destruct (su_dying s Hs _ _ l Hn eq_refl) as (j & Hj & He). by simplify_eq.
Qed.

Local Lemma turn_failed l : l ∉ holds p -> failed_at (mgr s) l -> failed_at (o_mgr o) l.
Proof using Hs Ht.
  intros Hr (i & Hi & Hst).
  destruct (turn_touch handshake _ _ _ _ _ Ht l i Hi (fun _ => Hr) sup_reg) as [Hl|[_ Hl]]; [by exists i|].
  by exists (MarkFailed i).
Qed.

Local Lemma turn_heap l : in_heap (mgr s) l -> in_heap (o_mgr o) l.
Proof using Hs Ht. destruct sup_conserve as (_ & Hd & _). apply Hd. Qed.

Local Lemma routed_unheld k l : l ∈ replicas_of (regs (mw (mgr s))) k -> l ∉ holds p.
Proof using Hs Hn.
  intros Hl%elem_replicas Hh. by destruct (owned_disjoint s n p l (su_owned s Hs) Hn Hh) as [H _].
Qed.

(** The goroutines after the step: the one that took it, the others, new ones. *)
Local Lemma turn_cases (Q : pc -> Prop) :
  Q (o_pc o) -> (forall j q, j <> n -> threads s !! j = Some q -> Q q) -> (forall q, q ∈ o_spawn o -> Q q) ->
  forall j q, (<[n := o_pc o]> (threads s) ++ o_spawn o) !! j = Some q -> Q q.
Proof using Hn.
  intros H1 H2 H3 j q Hq. apply lookup_turn in Hq as [[_ ->]|[[Hj Hq]|Hq]]; eauto using lookup_lt_Some.
Qed.

Local Lemma turn_watched k l :
  stopped_chan s = false -> l ∈ replicas_of (regs (mw (o_mgr o))) k ->
  (exists j q, (<[n := o_pc o]> (threads s) ++ o_spawn o) !! j = Some q /\ watches q l) \/ failed_at (o_mgr o) l.
Proof using Hs Hn Ht.
  intros Hstop Hl.
  assert (forall q, q = o_pc o \/ q ∈ o_spawn o -> watches q l ->
    exists j q, (<[n := o_pc o]> (threads s) ++ o_spawn o) !! j = Some q /\ watches q l) as Hw.
  { intros q Hq Hwq.
    assert (q ∈ <[n := o_pc o]> (threads s) ++ o_spawn o) as [j Hj]%list_elem_of_lookup; [|by exists j, q].
    apply elem_of_app. destruct Hq as [->|Hq]; [left|by right]. apply (list_elem_of_lookup_2 _ n).
    apply list_lookup_insert_eq. by eapply lookup_lt_Some. }
  destruct (turn_routed handshake _ _ _ _ _ Ht k l sup_reg Hl) as [Hl0|[_ Hw0]]; [|left; eauto].
  destruct (su_watched s Hs Hstop k l Hl0) as [(j & q & Hj & Hwq)|Hf].
  - destruct (decide (j = n)) as [->|Hne].
    + simplify_eq.
      destruct (turn_watch handshake _ _ _ _ _ Ht k l sup_reg Hstop Hwq Hl0 (su_routed s Hs k l Hl0)) as [H|[(q & Hq & H)|H]]; eauto.
    + left. exists j, q. split; [|done]. apply lookup_app_l_Some. by rewrite list_lookup_insert_ne.
  - right. by apply turn_failed; [eapply routed_unheld|].
Qed.

(** What the goroutine watches after the step was allocated before. *)
Local Lemma turn_in_heap q l : q = o_pc o \/ q ∈ o_spawn o -> watches q l -> in_heap (mgr s) l.
Proof using Hs Hn Ht.
  intros Hq Hl. destruct (turn_watches handshake _ _ _ _ _ Ht q l Hq Hl) as [Hw|Hh]; [by eapply su_heap|].
  apply (proj1 (list.Forall_forall _ _) (ow_heap _ _ (su_owned s Hs))). apply elem_of_app. right.
  apply elem_of_app. left. by eapply elem_held.
Qed.

Local Lemma turn_exited l : exited (mgr s) l -> exited (o_mgr o) l.
Proof using Hs Ht. exact (conserve_exited _ _ _ _ l sup_conserve). Qed.

Local Lemma turn_sees_exit l : dying (o_pc o) l -> exited (o_mgr o) l.
Proof using Hs Hn Ht.
  intros Hl. pose proof (turn_in_heap _ _ (or_introl eq_refl) (dying_watches _ _ Hl)) as Hh.
  destruct (turn_dying handshake _ _ _ _ _ Ht l Hl Hh); apply turn_exited; [by eapply su_dying|done].
Qed.

Local Lemma pending_healthy q k l :
  q = p \/ (exists j, j <> n /\ threads s !! j = Some q) -> pends q k l -> healthy_at (o_mgr o) k l.
Proof using Hs Hn Ht.
  intros Hq Hl. destruct (pends_holds _ _ _ Hl) as [Hh Hr]. destruct Hq as [->|(j & Hj & Hq)].
  - apply turn_healthy; [|by eapply su_pending]. by rewrite Hr.
  - apply turn_healthy; [|by eapply su_pending]. intros _ Hp.
    destruct (owned_disjoint s n p l (su_owned s Hs) Hn Hp) as [_ Hd]. by apply (Hd j q Hj Hq).
Qed.

Lemma turn_Sup :
  Sup (mkSys (o_mgr o) (<[n := o_pc o]> (threads s) ++ o_spawn o) (dropped s ++ o_dropped o) (stopped_chan s) (s_main s)).
Proof using Hs Hn Ht.
  destruct (turn_keyed handshake _ _ _ _ _ Ht (su_keyed s Hs) (su_pcs s Hs _ _ Hn)) as [Hk1 Hk2].
  pose proof (spawned_fresh handshake _ _ _ _ _ Ht) as Hsp.
  split; cbn [mgr threads dropped stopped_chan].
  - exact (turn_owned _ _ _ _ _ _ _ _ _ Hn Ht (su_owned s Hs)).
  - done.
  - apply turn_cases; [done|eauto using su_pcs|]. intros q Hq. by apply Hsp.
  - intros j q l Hq. revert j q Hq. apply (turn_cases (fun q => watches q l -> in_heap (o_mgr o) l)); intros; apply turn_heap; eauto using turn_in_heap, su_heap.
  - intros j q l Hq. revert j q Hq.
    apply (turn_cases (fun q => dying q l -> exited (o_mgr o) l)); [apply turn_sees_exit|eauto using turn_exited, su_dying|].
    intros q (_ & _ & Hd)%Hsp Hl. by apply Hd in Hl.
  - intros j q k l Hq. revert j q Hq.
    apply (turn_cases (fun q => pends q k l -> healthy_at (o_mgr o) k l)); [|eauto using pending_healthy|].
    + intros Hl. destruct (turn_pends handshake _ _ _ _ _ Ht k l (su_pcs s Hs _ _ Hn) Hl); eauto using pending_healthy.
    + intros q (_ & Hd & _)%Hsp Hl. by apply Hd in Hl.
  - intros k l Hl. destruct (turn_routed handshake _ _ _ _ _ Ht k l sup_reg Hl) as [Hl0|[Hp _]]; [|eauto using pending_healthy].
    apply turn_healthy; [|by apply su_routed]. intros _. by eapply routed_unheld.
  - intros Hstop k l Hl. by eapply turn_watched.
Qed.
End preserving.

(** The other steps: the instances keep their key and state and revive no
    process, nothing more is routed, and new goroutines have done nothing yet. *)
Definition steady_heap (m m' : manager) : Prop :=
  forall l i, heap (mw m) !! l = Some i -> exists i', heap (mw m') !! l = Some i' /\
    i_Key i' = i_Key i /\ i_state i' = i_state i /\ (ProcessExited i = true -> ProcessExited i' = true).

Definition idle (p : pc) : Prop :=
  keyed_pc p /\ forall k l, ~ watches p l /\ ~ pends p k l /\ ~ dying p l.

Lemma env_Sup s m' extra stop' main' :
  Sup s -> steady_heap (mgr s) m' -> packages m' = packages (mgr s) -> Forall idle extra ->
  (forall k l, l ∈ replicas_of (regs (mw m')) k -> l ∈ replicas_of (regs (mw (mgr s))) k) ->
  (stop' = false -> stopped_chan s = false) ->
  Owned (mkSys m' (threads s ++ extra) (dropped s) stop' main') ->
  Sup (mkSys m' (threads s ++ extra) (dropped s) stop' main').
Proof.
  intros [H1 H2 H3 H4 H5 H6 H7 H8] Hh Hp Hx Hr Hstop Ho.
  assert (forall l, exited (mgr s) l -> exited m' l) as Hex.
  { intros l (i & Hi & He). destruct (Hh l i Hi) as (i' & Hi' & _ & _ & Hx'). exists i'. auto. }
  assert (forall k l, healthy_at (mgr s) k l -> healthy_at m' k l) as Hhe.
  { intros k l (i & Hi & Hk & Hs). destruct (Hh l i Hi) as (i' & Hi' & Hk' & Hs' & Hx'). exists i'.
    split; [done|]. split; [congruence|]. rewrite Hs'. naive_solver. }
  assert (forall (Q : pc -> Prop), (forall n p, threads s !! n = Some p -> Q p) -> (forall p, idle p -> Q p) ->
    forall n p, (threads s ++ extra) !! n = Some p -> Q p) as Hall.
  { intros Q Ha Hb n p [Hn|[_ Hn]]%lookup_app_Some; [by eapply Ha|]. apply Hb.
    by eapply list.Forall_lookup_1. }
  split; cbn [mgr threads dropped stopped_chan]; [done|unfold keyed; by rewrite Hp| | | | | |].
  - by apply Hall; [|intros p []].
  - intros n p l Hn. revert n p Hn. apply (Hall (fun p => watches p l -> in_heap m' l)).
    + intros n p Hn Hl. pose proof (H4 n p l Hn Hl) as [i Hi]%elem_of_dom. destruct (Hh l i Hi) as (i' & Hi' & _).
      by apply elem_of_dom_2 in Hi'.
    + intros p [_ Hi] Hl. by destruct (Hi "" l) as (? & _).
  - intros n p l Hn. revert n p Hn. apply (Hall (fun p => dying p l -> exited m' l)); [by eauto|].
    intros p [_ Hi] Hl. by destruct (Hi "" l) as (_ & _ & ?).
  - intros n p k l Hn. revert n p Hn. apply (Hall (fun p => pends p k l -> healthy_at m' k l)); [by eauto|].
    intros p [_ Hi] Hl. by destruct (Hi k l) as (_ & ? & _).
  - eauto.
  - intros Hs k l Hl. destruct (H8 (Hstop Hs) k l (Hr k l Hl)) as [(n & p & Hn & Hw)|(i & Hi & Hst)].
    + left. exists n, p. split; [by apply lookup_app_l_Some|done].
    + right. destruct (Hh l i Hi) as (i' & Hi' & _ & Hs' & _). exists i'. by rewrite Hs'.
Qed.

Lemma steady_heap_eq m m' : heap (mw m') = heap (mw m) -> steady_heap m m'.
Proof. intros Hh l i Hi. exists i. by rewrite Hh. Qed.

Lemma steady_heap_upd m l f :
  (forall i, i_Key (f i) = i_Key i /\ i_state (f i) = i_state i /\ (ProcessExited i = true -> ProcessExited (f i) = true)) ->
  steady_heap m (upd_i l f m).
Proof.
  intros Hf l' i Hi. unfold upd_i, upd_w, upd_inst. cbn [set_mw mw heap set_heap].
  destruct (decide (l = l')) as [->|Hne]; [|exists i; by rewrite lookup_insert_ne].
  exists (f i). rewrite lookup_insert_eq. unfold inst_at. rewrite Hi. split; [done|apply Hf].
Qed.

Lemma idle_request p : is_request p = true -> keyed_pc p -> idle p.
Proof.
  intros Hr Hk. split; [done|]. intros k l.
  destruct p; try discriminate Hr; (split; [intros []|split; intros []]).
Qed.

Lemma idle_drains ls : Forall idle (GDrain <$> ls).
Proof.
  apply list.Forall_forall. intros q (l & -> & _)%list_elem_of_fmap. split; [done|]. intros k l'.
  split; [intros []|split; intros []].
Qed.

Lemma step_Sup handshake P s s' : (forall p, P p -> keyed_pc p) -> step handshake P s s' -> Sup s -> Sup s'.
Proof.
  intros HP Hstep Hs. pose proof (step_owned _ _ _ _ Hstep (su_owned s Hs)) as Ho.
  pose proof (ow_reg _ _ (su_owned s Hs)) as Hi.
  assert (forall m', steady_heap (mgr s) m' -> packages m' = packages (mgr s) -> regs (mw m') = regs (mw (mgr s)) ->
    Owned (set_mgr m' s) -> Sup (set_mgr m' s)) as Hset.
  { intros m' Hh Hp Hr Ho'. destruct s as [m ts d st mn]. unfold set_mgr in *. cbn in *.
    rewrite <- (app_nil_r ts) in Ho' |- *. apply (env_Sup (mkSys m ts d st mn)); cbn; try done.
    intros k l. by rewrite Hr. }
  destruct Hstep as [s n p alt o _ Hn Ht|s p _ Hr Hp|s l _|s l b d _|s k _|s d _ _|s Hm|s from len Hm _|s Hm _].
  - by eapply turn_Sup.
  - eapply env_Sup; try done; [by apply steady_heap_eq|]. apply list.Forall_singleton, idle_request; auto.
  - apply Hset; try done. apply steady_heap_upd. intros i. split; [done|]. split; [done|apply kill_proc_exited].
  - apply Hset; try done. by apply steady_heap_upd.
  - destruct (RegistryTarget_inv k _ Hi) as (? & ? & ?). apply Hset; try done. by apply steady_heap_eq.
  - apply Hset; try done. by apply steady_heap_eq.
  - destruct (clear_regs _ Hi) as (_ & Hh & Hr). cbv zeta in *. eapply env_Sup; try done.
    + by apply steady_heap_eq.
    + apply idle_drains.
    + intros k l. unfold w. cbn [set_mw mw]. rewrite Hr. unfold replicas_of. rewrite lookup_empty.
      by intros ?%not_elem_of_nil.
  - rewrite <- (app_nil_r (threads s)) in Ho |- *. eapply env_Sup; try done; by apply steady_heap_eq.
  - rewrite <- (app_nil_r (threads s)) in Ho |- *. eapply env_Sup; try done; by apply steady_heap_eq.
Qed.

Lemma start_Sup cfg now : Sup (start cfg now).
Proof.
  assert (forall k l, l ∉ replicas_of (regs (mw (mgr (start cfg now)))) k) as Hr.
  { intros k l. unfold replicas_of. cbn. rewrite lookup_empty. apply not_elem_of_nil. }
  split; try (intros ? ? ? H; discriminate H); try (intros ? ? ? ? H; discriminate H).
  - apply start_owned.
  - intros k pkg. unfold start. cbn. by rewrite lookup_empty.
  - intros ? ? H. discriminate H.
  - intros k l Hl. by apply Hr in Hl.
  - intros _ k l Hl. by apply Hr in Hl.
Qed.

Lemma rtc_Sup handshake P s s' : (forall p, P p -> keyed_pc p) -> rtc (step handshake P) s s' -> Sup s -> Sup s'.
Proof. intros HP. induction 1; eauto using step_Sup. Qed.

(** ** What a disabled plugin stays *)

(** Past its last look at whether the plugin is enabled, or enabling it. *)
Definition brings_back (k : string) (p : pc) : Prop :=
  match p with
  | WLaunch k' _ | WInstall k' _ | AEnable k' | AUpgrade k' _ | ALaunch _ k' _ _ _ _ | AInstall k' _ _
  | ACommit k' _ _ | ASwap k' _ _ | AWatch false k' _ | AEnabled k' => k' = k
  | _ => False
  end.

Record Off (k : string) (s : sys) : Prop := mkOff {
  off_reg : RegInv (mw (mgr s));
  off_enabled : k ∉ enabled (mgr s);
  off_routed : regs (mw (mgr s)) !! k = None;
  off_threads : Forall (fun p => ~ brings_back k p) (threads s)
}.

Lemma launchOne_regs handshake pkg index m r m' :
  launchOne handshake pkg index m = (r, m') -> regs (mw m') = regs (mw m) /\ enabled m' = enabled m.
Proof. intros H. apply launchOne_spec in H as ((? & ? & ->) & _). done. Qed.

Lemma install_other reg w d w' k :
  RegInv w -> InstallPlugin reg w = (d, w') -> r_Key reg <> k \/ r_Instances reg = [] -> regs w !! k = None ->
  regs w' !! k = None.
Proof.
  intros Hi E Hor Hn. apply (f_equal snd) in E. cbn [snd] in E. rewrite <- E.
  destruct (InstallPlugin_frame reg w Hi) as [_ ->]. destruct (decide (k = r_Key reg)) as [->|Hne].
  - rewrite reg_change_eq. destruct Hor as [|He]; [done|]. by rewrite decide_True.
  - by rewrite reg_change_ne.
Qed.

(** A goroutine that does not bring [k] back neither enables nor routes it, and
    none it starts, or it becomes, does. *)
Lemma turn_off handshake stop alt p m o k :
  turn handshake stop alt p m = Some o -> RegInv (mw m) -> ~ brings_back k p ->
  k ∉ enabled m -> regs (mw m) !! k = None ->
  k ∉ enabled (o_mgr o) /\ regs (mw (o_mgr o)) !! k = None /\ ~ brings_back k (o_pc o).
Proof.
  intros Ht Hi Hp He Hr. turn_branches Ht p; cbn [brings_back] in *;
    repeat match goal with
    | H : tooManyCrashes _ _ = _ |- _ => apply tooManyCrashes_frame in H as (-> & _ & ->)
    | H : launchOne _ _ _ _ = _ |- _ => apply launchOne_regs in H as [-> ->]
    | H : InstallPlugin _ _ = _ |- _ =>
        apply (install_other _ _ _ _ k Hi) in H; [|first [right; done|left; done]|done]
    | H : bool_decide _ = true |- _ => apply bool_decide_eq_true in H
    end; try done; try (split; [done|split; [done|]]); try done; try (intros ->; done).
  all: repeat match goal with |- context [match ?x with _ => _ end] => destruct x end; try done.
  all: first [by intros []|split; [|split; [done|by intros ?]]; cbn; set_solver].
Qed.

Lemma step_off handshake k s s' :
  step handshake (fun p => ~ brings_back k p) s s' -> Off k s -> Off k s'.
Proof.
  intros Hstep [Hi He Hr Ht].
  assert (forall p ts, Forall (fun p => ~ brings_back k p) ts -> ~ brings_back k p ->
    Forall (fun p => ~ brings_back k p) (ts ++ [p])) as Hsnoc.
  { intros p ts Hts Hp. apply list.Forall_app. split; [done|by apply list.Forall_singleton]. }
  destruct Hstep as [s n p alt o _ Hn Hturn|s p _ Hq Hp|s l _|s l b d _|s j _|s d _ _|s Hm|s from len Hm _|s Hm _].
  - pose proof (list.Forall_lookup_1 _ _ _ _ Ht Hn) as Hp.
    destruct (turn_off _ _ _ _ _ _ k Hturn Hi Hp He Hr) as (H1 & H2 & H3).
    destruct (turn_conserve _ _ _ _ _ _ Hi Hturn) as (H4 & _). split; cbn [mgr threads]; [done..|].
    apply list.Forall_app. split; [by apply list.Forall_insert|]. apply list.Forall_forall. intros q Hq.
    destruct (turn_spawn _ _ _ _ _ _ Hturn q Hq) as [[l ->]|[l ->]]; intros [].
  - split; cbn [mgr threads]; [done..|by apply Hsnoc].
  - split; [by apply upd_i_inv|done..].
  - split; [by apply upd_i_inv|done..].
  - destruct (RegistryTarget_inv j _ Hi) as (H1 & _ & H2). split; cbn; [done|done|by rewrite H2|done].
  - split; cbn; [|done..]. by destruct Hi; split.
  - destruct (clear_regs _ Hi) as (H1 & _ & H2). split; cbn [mgr threads set_mw mw]; [done|done| |].
    + unfold w. rewrite H2. apply lookup_empty.
    + apply list.Forall_app. split; [done|]. apply list.Forall_forall. intros q (x & -> & _)%list_elem_of_fmap. intros [].
  - by split.
  - by split.
Qed.

(** ** What a shutdown leaves *)

(** Past [recover]'s look at the registry, or launching for an admin. *)
Definition may_publish (p : pc) : bool :=
  match p with
  | WRelaunch _ | WLaunch _ _ | WInstall _ _ | AEnable _ | AUpgrade _ _ | ALaunch _ _ _ _ _ _ | AInstall _ _ _
  | ACommit _ _ _ | ASwap _ _ _ => true
  | _ => false
  end.

Notation unpublishing := (fun p => may_publish p = false).

Lemma turn_quiet handshake stop alt p m o :
  turn handshake stop alt p m = Some o -> RegInv (mw m) -> may_publish p = false -> regs (mw m) = ∅ ->
  regs (mw (o_mgr o)) = ∅ /\ may_publish (o_pc o) = false /\ o_dropped o = [].
Proof.
  intros Ht Hi Hp Hr.
  assert (forall k d w, InstallPlugin (mkRegistration k [] [] false) (mw m) = (d, w) -> regs w = ∅) as Hinst.
  { intros k d w E. apply (f_equal snd) in E. cbn [snd] in E. rewrite <- E.
    destruct (InstallPlugin_frame (mkRegistration k [] [] false) _ Hi) as [_ ->].
    unfold reg_change. cbn [r_Instances r_Key]. by rewrite Hr, delete_empty. }
  assert (forall k, Has (w_current (mw m)) k = false) as Hhas.
  { intros k. rewrite Has_regs, Hr by done. apply bool_decide_eq_false. rewrite lookup_empty. by intros []. }
  revert Ht. destruct p; try discriminate Hp; cbn [turn]; unfold goes, Install, Remove; rewrite ?Hhas;
    intros E; branches E; cbn [o_mgr o_pc o_dropped may_publish];
    repeat match goal with
    | H : tooManyCrashes _ _ = _ |- _ => apply tooManyCrashes_frame in H as (-> & _ & _)
    | H : InstallPlugin _ _ = _ |- _ => apply Hinst in H
    | |- context [match ?x with _ => _ end] => destruct x
    end; done.
Qed.

(** The drains of a shutdown: the goroutines from [from] on drain [old]. *)
Record Closing (old : list loc) (from : nat) (s : sys) : Prop := mkClosing {
  cl_owned : Owned s;
  cl_regs : regs (mw (mgr s)) = ∅;
  cl_dropped : dropped s = [];
  cl_threads : Forall unpublishing (threads s);
  cl_drains : forall i l, old !! i = Some l -> exists p, threads s !! (from + i)%nat = Some p /\
    (p = GDrain l \/ p = GDraining l \/ (p = Done /\ exited (mgr s) l));
  cl_main : match s_main s with
            | MServing => False
            | MDraining f len => f = from /\ len = length old
            | MJoining => Forall (exited (mgr s)) old
            | MExited => Forall (exited (mgr s)) old /\ Forall (fun p => is_watcher p = false) (threads s)
            end
}.

Lemma closing_turn handshake alt old from s n p o :
  Closing old from s -> s_main s <> MExited -> threads s !! n = Some p ->
  turn handshake (stopped_chan s) alt p (mgr s) = Some o ->
  Closing old from
    (mkSys (o_mgr o) (<[n := o_pc o]> (threads s) ++ o_spawn o) (dropped s ++ o_dropped o) (stopped_chan s) (s_main s)).
Proof.
  intros [Ho Hr Hd Ht Hdr Hm] Hne Hn Hturn. pose proof (ow_reg _ _ Ho) as Hi.
  destruct (turn_quiet _ _ _ _ _ _ Hturn Hi (list.Forall_lookup_1 _ _ _ _ Ht Hn) Hr) as (H1 & H2 & H3).
  pose proof (fun l => conserve_exited _ _ _ _ l (turn_conserve _ _ _ _ _ _ Hi Hturn)) as Hex.
  split; cbn [mgr threads dropped s_main stopped_chan].
  - exact (turn_owned _ _ _ _ _ _ _ _ _ Hn Hturn Ho).
  - done.
  - by rewrite Hd, H3.
  - apply list.Forall_app. split; [by apply list.Forall_insert|]. apply list.Forall_forall. intros q Hq.
    by destruct (turn_spawn _ _ _ _ _ _ Hturn q Hq) as [[l ->]|[l ->]].
  - intros i l Hl. destruct (Hdr i l Hl) as (q & Hq & Hor). destruct (decide ((from + i)%nat = n)) as [<-|Hne'].
    + simplify_eq. exists (o_pc o).
      split; [apply lookup_app_l_Some, list_lookup_insert_eq; by eapply lookup_lt_Some|].
      destruct Hor as [->|[->|[-> _]]]; [| |discriminate Hturn].
      * injection Hturn as <-. by right; left.
      * revert Hturn. cbn [turn]. unfold goes. destruct (drained alt l (mgr s)); [|discriminate]. intros [= <-].
        right. right. split; [done|]. eexists. split; [apply lookup_insert_eq|apply terminate_exited].
    + exists q. split; [apply lookup_app_l_Some; by rewrite list_lookup_insert_ne|].
      destruct Hor as [->|[->|[-> He]]]; [by left|by right; left|right; right; split; [done|by apply Hex]].
  - destruct (s_main s); [done|done| |done]. eapply list.Forall_impl; [exact Hm|exact Hex].
Qed.

Lemma drains_done old from ts m :
  (forall i l, old !! i = Some l -> exists p, ts !! (from + i)%nat = Some p /\
    (p = GDrain l \/ p = GDraining l \/ (p = Done /\ exited m l))) ->
  Forall (eq Done) (take (length old) (drop from ts)) -> Forall (exited m) old.
Proof.
  intros Hdr Hall. apply list.Forall_lookup. intros i l Hl. destruct (Hdr i l Hl) as (p & Hp & Hor).
  pose proof (lookup_lt_Some _ _ _ Hl) as Hlt.
  assert (take (length old) (drop from ts) !! i = Some p) as Hi.
  { by rewrite lookup_take_lt, lookup_drop. }
  apply (list.Forall_lookup_1 _ _ _ _ Hall) in Hi as <-. by destruct Hor as [|[|[_ H]]].
Qed.

Lemma closing_env old from s m' extra :
  Closing old from s -> s_main s <> MExited -> conserve (mgr s) m' [] [] -> regs (mw m') = regs (mw (mgr s)) ->
  Forall (fun p => may_publish p = false /\ holds p = []) extra ->
  Closing old from (mkSys m' (threads s ++ extra) (dropped s) (stopped_chan s) (s_main s)).
Proof.
  intros [Ho Hr Hd Ht Hdr Hm] Hne Hc Hreg Hx. split; cbn [mgr threads dropped s_main].
  - unfold Owned. cbn [mgr threads dropped]. rewrite held_app.
    assert (held extra = []) as ->; [|rewrite app_nil_r; by eapply conserve_env].
    induction Hx as [|p ps [_ Hp] _ IH]; [done|]. change (held (p :: ps)) with (holds p ++ held ps). by rewrite Hp.
  - by rewrite Hreg.
  - done.
  - apply list.Forall_app. split; [done|]. eapply list.Forall_impl; [exact Hx|]. by intros ? [].
  - intros i l Hl. destruct (Hdr i l Hl) as (q & Hq & Hor). exists q.
    split; [by apply lookup_app_l_Some|]. pose proof (conserve_exited _ _ _ _ l Hc). naive_solver.
  - destruct (s_main s); [done|done| |done]. eapply list.Forall_impl; [exact Hm|].
    intros l. exact (conserve_exited _ _ _ _ l Hc).
Qed.

Lemma step_closing handshake old from s s' :
  step handshake unpublishing s s' -> Closing old from s -> Closing old from s'.
Proof.
  intros Hstep Hc. pose proof (ow_reg _ _ (cl_owned _ _ _ Hc)) as Hi.
  assert (forall m', s_main s <> MExited -> conserve (mgr s) m' [] [] -> regs (mw m') = regs (mw (mgr s)) ->
    Closing old from (set_mgr m' s)) as Hset.
  { intros m' Hne Hm Hr. pose proof (closing_env old from s m' [] Hc Hne Hm Hr (list.Forall_nil_2 _)) as H.
    by rewrite app_nil_r in H. }
  destruct Hstep as [s n p alt o Hne Hn Hturn|s p Hne Hq Hp|s l Hne|s l b d Hne|s j Hne|s d Hne _|s Hm|s f len Hm Hall|s Hm Hall].
  - by eapply closing_turn.
  - apply closing_env; [done|done|by apply conserve_same|done|]. apply list.Forall_singleton. split; [done|].
    by destruct p.
  - apply Hset; [done|by apply conserve_upd; [|apply kill_proc_exited]|done].
  - apply Hset; [done|by apply conserve_upd|done].
  - destruct (RegistryTarget_inv j _ Hi) as (? & ? & ?). apply Hset; [done|by apply conserve_same|done].
  - apply Hset; [done| |done]. apply conserve_same; [|done..]. cbn. by destruct Hi; split.
  - pose proof (cl_main _ _ _ Hc) as H. by rewrite Hm in H.
  - destruct Hc as [Ho Hr Hd Ht Hdr Hm']. rewrite Hm in Hm'. destruct Hm' as [-> ->].
    split; try done; cbn [s_main mgr]. by eapply drains_done.
  - destruct Hc as [Ho Hr Hd Ht Hdr Hm']. rewrite Hm in Hm'. by split.
Qed.

Lemma drain_all_closing s :
  Owned s -> Forall unpublishing (threads s) -> dropped s = [] ->
  let w := mw (mgr s) in
  let old := All (w_current w) w in
  Closing old (length (threads s))
    (mkSys (set_mw (rebuildLocked (set_regs ∅ w)) (mgr s)) (threads s ++ (GDrain <$> old)) (dropped s)
       (stopped_chan s) (MDraining (length (threads s)) (length old))).
Proof.
  intros Ho Ht Hd w old. pose proof (ow_reg _ _ Ho) as Hi. destruct (clear_regs _ Hi) as (_ & _ & Hr).
  split; cbn [mgr threads dropped s_main]; try done.
  - unfold Owned. cbn [mgr threads dropped].
    eapply all_owned_perm; [|exact (conserve_owned _ _ [] _ _ (conserve_drain_all _ Hi) Ho)].
    rewrite held_app, held_GDrain, <- app_assoc. apply Permutation_app_swap_app.
  - apply list.Forall_app. split; [done|]. apply list.Forall_forall. by intros q (x & -> & _)%list_elem_of_fmap.
  - intros i l Hl. exists (GDrain l). split; [|by left]. rewrite lookup_app_r by lia.
    replace (length (threads s) + i - length (threads s))%nat with i by lia. by rewrite list_lookup_fmap, Hl.
Qed.

(** C4. Every plugin process has exactly one owner. From Core's start, under any
    interleaving of watch loops, admin calls, drains, requests and the shutdown,
    no instance is at one time in two of these places, or twice in one: routed
    under a key, in the hands of a goroutine that is to publish, drain or kill
    it, or displaced and let go of; and every process that runs is in one of
    them. So none is drained or killed twice, none is killed while it is
    routed, and none is lost but those let go of. *)
Theorem one_owner handshake P cfg now s :
  rtc (step handshake P) (start cfg now) s ->
  NoDup (owns s) /\ RegInv (mw (mgr s)) /\
  forall l, live (mgr s) l -> l ∈ owns s.
Proof.
  intros H. destruct (rtc_owned _ _ _ _ H (start_owned cfg now)) as [H1 H2 _ H4]. done.
Qed.


(** C5. A disabled plugin stays off. Once a plugin is neither enabled nor
    registered, and no goroutine is past its last look at that (a restart that is
    already launching, or an enable or upgrade under way), no interleaving of
    watch loops, restarts, other admin calls, requests and shutdown enables it or
    routes anything to it, until somebody asks to enable or upgrade it. *)
Theorem disabled_stays_off handshake k s s' :
  Off k s -> rtc (step handshake (fun p => ~ brings_back k p)) s s' ->
  k ∉ enabled (mgr s') /\ Has (w_current (mw (mgr s'))) k = false /\
  SnapReplicas (w_current (mw (mgr s'))) k (mw (mgr s')) = [].
Proof.
  intros Ho H. assert (Off k s') as [Hi He Hr _] by (induction H; eauto using step_off).
  split; [done|]. rewrite Has_regs, SnapReplicas_regs by done. unfold replicas_of. rewrite Hr.
  split; [|done]. apply bool_decide_eq_false. by intros [].
Qed.

(** C7. A shutdown ends the plugins. If the signal comes while no restart is past
    its look at the registry, no enable or upgrade is under way, and none has let
    go of a displaced replica, and no more is asked for, then when main returns
    every replica that was routed has exited, no watch loop is left, and a
    process that still runs is one that an earlier upgrade, disable or rollback is
    draining or killing at that moment, which main does not wait for. *)
Theorem shutdown_ends_plugins handshake s s1 s' :
  Owned s -> s_main s = MServing -> Forall unpublishing (threads s) -> dropped s = [] ->
  step handshake unpublishing s s1 -> s_main s1 <> MServing -> rtc (step handshake unpublishing) s1 s' ->
  s_main s' = MExited ->
  Forall (exited (mgr s')) (routed_all (mgr s)) /\ Forall (fun p => is_watcher p = false) (threads s') /\
  forall l, live (mgr s') l -> exists n p, threads s' !! n = Some p /\ l ∈ holds p.
Proof.
  intros Ho Hm Ht Hd Hstep Hs1 Hrtc Hexit. pose proof (ow_reg _ _ Ho) as Hi.
  assert (exists from, Closing (All (w_current (mw (mgr s))) (mw (mgr s))) from s1) as [from Hc].
  { destruct Hstep; try (by destruct Hs1); try congruence. eexists. by apply drain_all_closing. }
  assert (Closing (All (w_current (mw (mgr s))) (mw (mgr s))) from s') as [Ho' Hr' Hd' _ _ Hm'].
  { clear -Hrtc Hc. induction Hrtc; eauto using step_closing. }
  rewrite Hexit in Hm'. destruct Hm' as [Hall Hw]. split; [|split; [done|]].
  - unfold routed_all. by rewrite <- (All_regs _ Hi).
  - intros l Hl. pose proof (ow_live _ _ Ho' l Hl) as Hin. unfold routed_all in Hin. rewrite Hr', Hd', app_nil_r in Hin.
    unfold routed_in in Hin. rewrite map_to_list_empty in Hin. cbn in Hin.
    apply list_elem_of_bind in Hin as (p & Hh & Hp). apply list_elem_of_lookup in Hp as [n Hn]. eauto.
Qed.

(** ** Run alone, the steps add up to the operations of Manager.v *)

Section alone.
Context (handshake : nat -> Package -> Z -> bool).

(** The goroutine runs from [p] to its end with nothing in between. *)
Inductive alone : pc -> manager -> manager -> Prop :=
| alone_done m : alone Done m m
| alone_turn stop alt p m o m' :
    turn handshake stop alt p m = Some o -> alone (o_pc o) (o_mgr o) m' -> alone p m m'.

Lemma alone_goes p q m m1 m' :
  turn handshake false true p m = Some (mkOutcome q [] [] m1) -> alone q m1 m' -> alone p m m'.
Proof using Type. apply (alone_turn false true). Qed.

Lemma alone_kill ls m : alone (AKill ls) m (kill_all ls m).
Proof using Type.
  revert m. induction ls as [|l ls IH]; intros m.
  - eapply alone_goes; [reflexivity|]. destruct m. apply alone_done.
  - eapply alone_goes; [reflexivity|]. exact (IH (upd_i l Kill m)).
Qed.

Lemma watch_nil m : watch [] m = m.
Proof using Type. destruct m. unfold watch. cbn. by rewrite app_nil_r. Qed.

Lemma watch_app ls l m : watch (l :: ls) m = watch ls (watch [l] m).
Proof using Type. unfold watch. cbn. by rewrite <- app_assoc. Qed.

Lemma alone_watch k ls m m' : alone (AEnabled k) (watch ls m) m' -> alone (AWatch false k ls) m m'.
Proof using Type.
  revert m. induction ls as [|l ls IH]; intros m H.
  - eapply alone_goes; [reflexivity|]. by rewrite watch_nil in H.
  - eapply (alone_turn false true); [reflexivity|]. apply IH. cbn [o_mgr]. by rewrite <- watch_app.
Qed.

(** The launches of [launchAll], and what follows either outcome. *)
Lemma alone_launch k pkg todo : forall index started m r m1 m',
  launch_loop handshake pkg todo index started m = (r, m1) ->
  match r with Some ls => alone (AInstall k pkg ls) m1 m' | None => m' = m1 end ->
  alone (ALaunch false k pkg todo index started) m m'.
Proof using Type.
  induction todo as [|todo IH]; intros index started m r m1 m' E H; cbn [launch_loop] in E.
  - injection E as <- <-. by eapply alone_goes.
  - destruct (launchOne handshake pkg index m) as [[l|] m2] eqn:E1.
    + eapply (alone_turn false true); [cbn [turn]; by rewrite E1|]. by eapply IH.
    + injection E as <- <-. subst m'. eapply (alone_turn false true); [cbn [turn]; by rewrite E1|]. apply alone_kill.
Qed.

Lemma Enable_alone k m : alone (AEnable k) m (Enable handshake k m).2.
Proof using Type.
  unfold Enable. destruct (packages m !! k) as [pkg|] eqn:Ep.
  2: { eapply alone_goes; [cbn [turn]; by rewrite Ep|]. apply alone_done. }
  eapply alone_goes; [cbn [turn]; by rewrite Ep|].
  destruct (launchAll handshake pkg m) as [r m1] eqn:E. eapply alone_launch; [exact E|].
  destruct r as [insts|]; [|done]. cbn [snd].
  unfold upd_w. destruct (InstallPlugin (RegOf k pkg insts) (mw m1)) as [d w] eqn:Ei.
  eapply (alone_turn false true); [cbn [turn]; by rewrite Ei|].
  cbn [o_pc o_mgr]. apply alone_watch. eapply alone_goes; [reflexivity|]. eapply alone_goes; [reflexivity|].
  apply alone_done.
Qed.

Lemma alone_quarantine ls m :
  alone (WQuarantine ls) m (upd_w (fun w => foldl (fun w l => upd_inst l Kill (upd_inst l MarkQuarantined w)) w ls) m).
Proof using Type.
  revert m. induction ls as [|l ls IH]; intros m.
  - eapply alone_goes; [reflexivity|]. destruct m. apply alone_done.
  - eapply alone_goes; [reflexivity|]. eapply alone_goes; [reflexivity|].
    exact (IH (upd_i l Kill (upd_i l MarkQuarantined m))).
Qed.

(** The crash that passes the threshold. *)
Lemma quarantine_alone k m m1 :
  tooManyCrashes k m = (true, m1) -> alone (WCrash k) m (quarantine k m1).
Proof using Type.
  intros E. eapply alone_goes; [cbn [turn]; by rewrite E|]. eapply alone_goes; [reflexivity|].
  unfold quarantine. destruct (Remove k _) as [d w] eqn:Er. eapply alone_goes; [cbn [turn]; by rewrite Er|].
  exact (alone_quarantine d (set_mw w (set_crashes _ _ m1))).
Qed.

(** [drain_one] whatever its waiting observes, once it is over: the state is
    written twice, as the goroutine does. *)
Lemma alone_drain obs k ls : forall err m m',
  Forall (decisive obs) ls ->
  alone (AClear k) (set_mw (foldl (drain_one obs) (err, mw m) ls).2 m) m' -> alone (ADrain k ls) m m'.
Proof using Type.
  induction ls as [|l ls IH]; intros err m m' Hd H; cbn [foldl] in H.
  - eapply alone_goes; [reflexivity|]. by destruct m.
  - apply list.Forall_cons in Hd as [(obs0 & c & ev & Ho & Hev) Hd].
    eapply alone_goes; [reflexivity|]. eapply alone_goes.
    { cbn [turn]. unfold drained. by rewrite orb_true_r. }
    destruct (drain_one obs (err, mw m) l) as [err1 w1] eqn:E. apply (IH err1 _ _ Hd).
    assert (mw (upd_i l terminate (upd_i l (setState StateDraining) m)) = w1) as ->; [|by destruct m].
    unfold drain_one in E. unfold Drain in E.
    pose proof (drain_loop_ends obs0 c ev Hev) as Hne. rewrite <- Ho in Hne.
    unfold upd_i, upd_w, upd_inst in *. cbn [mw set_mw heap set_heap] in *. unfold inst_at at 1. rewrite lookup_insert_eq. simpl.
    rewrite insert_insert_eq. destruct (drain_loop (obs l)); try done; injection E as _ <-; done.
Qed.

Lemma Disable_alone obs k m :
  Forall (decisive obs) (SnapReplicas (w_current (mw m)) k (mw m)) -> alone (ADisable k) m (Disable obs k m).2.
Proof using Type.
  intros Hd. unfold Disable. eapply alone_goes; [reflexivity|].
  change (Remove k (mw m)) with (Remove k (mw (set_enabled (enabled m ∖ {[k]}) m))).
  destruct (Remove k (mw (set_enabled _ m))) as [d w] eqn:Er.
  assert (d = SnapReplicas (w_current (mw m)) k (mw m)) as Ed by (exact (f_equal fst (eq_sym Er))).
  rewrite <- Ed in Hd. eapply alone_goes; [cbn [turn]; by rewrite Er|].
  destruct d as [|l ls]; [apply alone_done|]. apply (alone_drain obs k (l :: ls) None); [done|].
  cbn [set_mw mw]. destruct (foldl _ _ (l :: ls)) as [err w']. eapply alone_goes; [reflexivity|]. apply alone_done.
Qed.
End alone.

(** ** Schedules *)

(** One move of a concrete schedule. *)
Inductive move :=
| Turn (n : nat) (alt : bool) | Request (p : pc) | Exit (l : loc) | Pass (d : Z) | Signal | StopSupervisor | Join.

Section playing.
Context (handshake : nat -> Package -> Z -> bool) (allowed : pc -> bool).

Definition play1 (v : move) (s : sys) : option sys :=
  match v, s_main s with
  | _, MExited => None
  | Turn n alt, _ =>
      p ← threads s !! n; o ← turn handshake (stopped_chan s) alt p (mgr s);
      Some (mkSys (o_mgr o) (<[n := o_pc o]> (threads s) ++ o_spawn o) (dropped s ++ o_dropped o)
              (stopped_chan s) (s_main s))
  | Request p, _ =>
      if is_request p && allowed p then Some (mkSys (mgr s) (threads s ++ [p]) (dropped s) (stopped_chan s) (s_main s))
      else None
  | Exit l, _ => Some (set_mgr (upd_i l kill_proc (mgr s)) s)
  | Pass d, _ => if 0 <=? d then Some (set_mgr (upd_w (fun w => set_now (w_now w + d) w) (mgr s)) s) else None
  | Signal, MServing =>
      let w := mw (mgr s) in
      let old := All (w_current w) w in
      Some (mkSys (set_mw (rebuildLocked (set_regs ∅ w)) (mgr s)) (threads s ++ (GDrain <$> old)) (dropped s)
              (stopped_chan s) (MDraining (length (threads s)) (length old)))
  | StopSupervisor, MDraining from len =>
      if forallb (fun p => match p with Done => true | _ => false end) (take len (drop from (threads s)))
      then Some (mkSys (mgr s) (threads s) (dropped s) true MJoining) else None
  | Join, MJoining =>
      if forallb (fun p => negb (is_watcher p)) (threads s)
      then Some (mkSys (mgr s) (threads s) (dropped s) (stopped_chan s) MExited) else None
  | _, _ => None
  end.

Fixpoint play (vs : list move) (s : sys) : option sys :=
  match vs with [] => Some s | v :: vs => s' ← play1 v s; play vs s' end.

Lemma play1_step v s s' : play1 v s = Some s' -> step handshake (fun p => allowed p = true) s s'.
Proof using Type.
  intros H. unfold play1 in H. destruct (s_main s) as [|from len| |] eqn:Em; [..|by destruct v];
    destruct v as [n alt|p|l|d| | |]; try discriminate H;
    try (destruct (threads s !! n) as [p|] eqn:En; [|discriminate H]; simpl in H;
         destruct (turn handshake _ alt p (mgr s)) as [o|] eqn:Et; [|discriminate H]; injection H as <-;
         rewrite <- Em; eapply step_thread; [by rewrite Em|done|done]);
    try (destruct (is_request p && allowed p) eqn:Er; [|discriminate H]; injection H as <-;
         apply andb_true_iff in Er as [? ?]; rewrite <- Em; apply step_request; [by rewrite Em|done|done]);
    try (injection H as <-; apply step_exit; by rewrite Em);
    try (destruct (Z.leb_spec 0 d); [|discriminate H]; injection H as <-; apply step_time; [by rewrite Em|done]).
  - injection H as <-. by apply step_drain_all.
  - destruct (forallb _ _) eqn:Ef; [|discriminate H]. injection H as <-. eapply step_stop; [exact Em|].
    apply list.Forall_forall. intros p Hp. apply (proj1 (forallb_elem _ _) Ef) in Hp. by destruct p.
  - destruct (forallb _ _) eqn:Ef; [|discriminate H]. injection H as <-. apply step_join; [done|].
    apply list.Forall_forall. intros p Hp. apply (proj1 (forallb_elem _ _) Ef) in Hp. by apply negb_true_iff in Hp.
Qed.

Lemma play_rtc vs s s' : play vs s = Some s' -> rtc (step handshake (fun p => allowed p = true)) s s'.
Proof using Type.
  revert s. induction vs as [|v vs IH]; intros s; cbn [play]; [by intros [= <-]|].
  destruct (play1 v s) as [s1|] eqn:E; [|done]. simpl. intros H. eapply rtc_l; [by eapply play1_step|eauto].
Qed.
End playing.

(** The restriction on requests may be loosened. *)
Lemma step_loosen handshake (P Q : pc -> Prop) s s' :
  (forall p, P p -> Q p) -> step handshake P s s' -> step handshake Q s s'.
Proof. intros HPQ H. destruct H; econstructor; eauto. Qed.

Lemma rtc_loosen handshake (P Q : pc -> Prop) s s' :
  (forall p, P p -> Q p) -> rtc (step handshake P) s s' -> rtc (step handshake Q) s s'.
Proof. intros HPQ. induction 1; [done|]. eapply rtc_l; [by eapply step_loosen|done]. Qed.

(** One replica of a plugin whose processes all start. *)
Definition one_replica : Package :=
  mkPackage "plugins/notes" (mkManifest "notes" "" "1.0.0" 0 (mkRuntime "notes" [] 1) [] [] [] [] [] [] [])
    "plugins/notes/notes" "" "" [].

(** The directory is scanned and the plugin enabled: goroutine 2 watches the
    instance at address 0. *)
Definition booted : list move :=
  [Request (AScan ([one_replica], ∅)); Turn 0 false; Request (AEnable "notes")] ++ replicate 8 (Turn 1 false).

Definition any (p : pc) : bool := true.
Definition quietly (p : pc) : bool := negb (may_publish p).

Definition after (vs : list move) : option sys :=
  play starts any vs (start DefaultSupervisorConfig 0).

(** It crashes, and after the backoff its restart is past its last look at
    whether the plugin is enabled. *)
Definition restarting : list move :=
  booted ++ [Exit 0%nat] ++ replicate 6 (Turn 2 false) ++ [Pass Second] ++ replicate 3 (Turn 2 false).

Definition live_b (m : manager) (l : loc) : bool :=
  match heap (mw m) !! l with Some i => negb (ProcessExited i) | None => false end.

Lemma live_b_spec m l : live_b m l = true -> live m l.
Proof.
  unfold live_b, live. destruct (heap (mw m) !! l) as [i|]; [|done]. intros H%negb_true_iff. by exists i.
Qed.

(** What a schedule leads to, decided. *)
Definition holds_after (vs : list move) (q : sys -> bool) : bool := from_option q false (after vs).

Lemma after_cases vs q :
  holds_after vs q = true ->
  exists s, rtc (step starts (fun p => any p = true)) (start DefaultSupervisorConfig 0) s /\ q s = true.
Proof.
  unfold holds_after. destruct (after vs) as [s|] eqn:E; [|done]. intros H. exists s. split; [|done].
  by apply play_rtc in E.
Qed.

Lemma one_owner_witness :
  exists s, rtc (step starts (fun p => any p = true)) (start DefaultSupervisorConfig 0) s /\
    live (mgr s) 0%nat /\ NoDup (owns s) /\ 0%nat ∈ owns s.
Proof.
  destruct (after_cases booted (fun s => live_b (mgr s) 0%nat)) as (s & Hs & Hl); [vm_compute; reflexivity|].
  apply live_b_spec in Hl. destruct (one_owner starts _ _ _ _ Hs) as (H1 & _ & H2).
  exists s. split; [exact Hs|]. split; [exact Hl|]. split; [exact H1|exact (H2 0%nat Hl)].
Defined.

(** Only [Upgrade] is told a package that need not have the key. *)
Definition plain (p : pc) : bool := match p with AEnable _ | ADisable _ | AScan _ => true | _ => false end.


(** The plugin is disabled while nothing else goes on; then time passes. *)
Definition disabled : list move := booted ++ [Request (ADisable "notes")] ++ replicate 6 (Turn 3 false).

Definition off_b (k : string) (s : sys) : bool :=
  bool_decide (k ∉ enabled (mgr s)) && match regs (mw (mgr s)) !! k with None => true | Some _ => false end &&
  forallb (fun p => match p with Done | WPoll _ => true | _ => false end) (threads s).

Lemma off_b_spec k s : off_b k s = true -> RegInv (mw (mgr s)) -> Off k s.
Proof.
  intros [[H1 H2]%andb_true_iff H3]%andb_true_iff Hi. split; [done|by apply bool_decide_eq_true in H1| |].
  - by destruct (_ !! k).
  - apply list.Forall_forall. intros p Hp. apply (proj1 (forallb_elem _ _) H3) in Hp.
    destruct p; try discriminate Hp; intros [].
Qed.

Lemma disabled_stays_off_witness :
  exists s s', Off "notes" s /\ rtc (step starts (fun p => ~ brings_back "notes" p)) s s' /\ s <> s' /\
    "notes" ∉ enabled (mgr s') /\ Has (w_current (mw (mgr s'))) "notes" = false.
Proof.
  destruct (after_cases disabled (fun s => off_b "notes" s && match s_main s with MServing => true | _ => false end))
    as (s & Hs & [Ho Hm]%andb_true_iff); [vm_compute; reflexivity|].
  pose proof (rtc_owned _ _ _ _ Hs (start_owned _ _)) as [Hi _ _ _].
  set (s' := mkSys (mgr s) (threads s ++ [ADisable "notes"]) (dropped s) (stopped_chan s) (s_main s)).
  assert (rtc (step starts (fun p => ~ brings_back "notes" p)) s s') as Hstep.
  { apply rtc_once, step_request; [by destruct (s_main s)|reflexivity|intros []]. }
  exists s, s'. split; [exact (off_b_spec _ _ Ho Hi)|]. split; [exact Hstep|]. split.
  - intros E. apply (f_equal (fun s => length (threads s))) in E. unfold s' in E. cbn [threads] in E.
    rewrite length_app in E. cbn in E. lia.
  - destruct (disabled_stays_off starts "notes" s s' (off_b_spec _ _ Ho Hi) Hstep) as (H1 & H2 & _). split; [exact H1|exact H2].
Defined.

(** The signal comes while the plugin runs: its drain ends, the watch loop stops,
    and main returns. *)
Definition ends_well (s : sys) : bool :=
  match s_main s with MServing => true | _ => false end && forallb quietly (threads s) &&
  bool_decide (dropped s = []) && bool_decide (routed_all (mgr s) = [0%nat]) &&
  match play1 starts quietly Signal s with
  | Some s1 =>
      match s_main s1, play starts quietly [Turn 3 false; Turn 3 false; StopSupervisor; Turn 2 true; Join] s1 with
      | MDraining _ _, Some s' => match s_main s' with MExited => true | _ => false end
      | _, _ => false
      end
  | None => false
  end.

Lemma quietly_spec p : quietly p = true -> may_publish p = false.
Proof. apply negb_true_iff. Qed.

Lemma shutdown_ends_plugins_witness :
  exists s s1 s', step starts (fun p => may_publish p = false) s s1 /\
    rtc (step starts (fun p => may_publish p = false)) s1 s' /\ s_main s' = MExited /\
    routed_all (mgr s) = [0%nat] /\ Forall (exited (mgr s')) (routed_all (mgr s)).
Proof.
  destruct (after_cases booted ends_well) as (s & Hs & He); [vm_compute; reflexivity|].
  pose proof (rtc_owned _ _ _ _ Hs (start_owned _ _)) as Ho. unfold ends_well in He.
  apply andb_true_iff in He as [[[[Hm Hq]%andb_true_iff Hd]%andb_true_iff Hr]%andb_true_iff He].
  apply bool_decide_eq_true in Hd, Hr.
  destruct (play1 starts quietly Signal s) as [s1|] eqn:E1; [|discriminate He].
  destruct (s_main s1) as [|from len| |] eqn:Em1; [discriminate He| |discriminate He..].
  destruct (play starts quietly _ s1) as [s'|] eqn:E2; [|discriminate He].
  destruct (s_main s') eqn:Em2; [discriminate He..|].
  apply play1_step, (step_loosen _ _ _ _ _ quietly_spec) in E1.
  apply play_rtc, (rtc_loosen _ _ _ _ _ quietly_spec) in E2.
  exists s, s1, s'. split; [exact E1|]. split; [exact E2|]. split; [exact Em2|]. split; [exact Hr|].
  apply (shutdown_ends_plugins starts s s1 s' Ho); [by destruct (s_main s)| |exact Hd|exact E1|congruence|exact E2|exact Em2].
  apply list.Forall_forall. intros p Hp. apply quietly_spec. by apply (proj1 (forallb_elem _ _) Hq).
Defined.

(** ** What the comments do not say *)

(** supervisor.go has [relaunch] as the authority on whether a plugin that was
    disabled during its backoff comes back, but it is asked before the process is
    launched, and the launch takes seconds: here the plugin is disabled
    meanwhile, the call returns, and the restart then publishes the new process.
    The plugin serves, and is reported as disabled. *)
Example disable_undone :
  exists s, rtc (step starts (fun p => any p = true)) (start DefaultSupervisorConfig 0) s /\
    (exists n, threads s !! n = Some Done) /\ "notes" ∉ enabled (mgr s) /\ routed_all (mgr s) = [1%nat] /\
    live (mgr s) 1%nat.
Proof.
  destruct (after_cases
    (restarting ++ [Request (ADisable "notes")] ++ replicate 6 (Turn 3 false) ++ replicate 3 (Turn 2 false))
    (fun s => match threads s !! 3%nat with Some Done => true | _ => false end &&
       bool_decide ("notes" ∉ enabled (mgr s)) && bool_decide (routed_all (mgr s) = [1%nat]) && live_b (mgr s) 1%nat))
    as (s & Hs & [[[Hd He]%andb_true_iff Hr]%andb_true_iff Hl]%andb_true_iff); [vm_compute; reflexivity|].
  apply bool_decide_eq_true in He, Hr. apply live_b_spec in Hl. exists s. split; [done|].
  split; [exists 3%nat; destruct (threads s !! 3%nat) as [[]|]; done|done].
Qed.

(** main drains the registry first and stops the supervisor afterwards
    ([pluginManager.Close] is deferred): a restart that was launching when the
    signal came publishes its process after the drain, and main returns with it
    running. *)
Example restart_outlives_shutdown :
  exists s, rtc (step starts (fun p => any p = true)) (start DefaultSupervisorConfig 0) s /\
    s_main s = MExited /\ Forall (eq Done) (threads s) /\ routed_all (mgr s) = [1%nat] /\ live (mgr s) 1%nat.
Proof.
  destruct (after_cases
    (restarting ++ [Signal; Turn 3 false; Turn 3 false; StopSupervisor] ++ replicate 3 (Turn 2 false) ++ [Turn 4 true; Join])
    (fun s => match s_main s with MExited => true | _ => false end &&
       forallb (fun p => match p with Done => true | _ => false end) (threads s) &&
       bool_decide (routed_all (mgr s) = [1%nat]) && live_b (mgr s) 1%nat))
    as (s & Hs & [[[Hm Hd]%andb_true_iff Hr]%andb_true_iff Hl]%andb_true_iff); [vm_compute; reflexivity|].
  apply bool_decide_eq_true in Hr. apply live_b_spec in Hl. exists s. split; [done|].
  split; [by destruct (s_main s)|]. split; [|done]. apply list.Forall_forall. intros p Hp.
  apply (proj1 (forallb_elem _ _) Hd) in Hp. by destruct p.
Qed.

Definition two_replicas : Package :=
  mkPackage "plugins/notes" (mkManifest "notes" "" "1.0.0" 0 (mkRuntime "notes" [] 2) [] [] [] [] [] [] [])
    "plugins/notes/notes" "" "" [].

(** One of two replicas crashes: its restart takes the place of both, and the
    healthy one is let go of, running, unrouted and never drained. *)
Example restart_lets_go :
  exists s, rtc (step starts (fun p => any p = true)) (start DefaultSupervisorConfig 0) s /\
    dropped s = [0%nat; 1%nat] /\ routed_all (mgr s) = [2%nat] /\ live (mgr s) 1%nat.
Proof.
  destruct (after_cases
    ([Request (AScan ([two_replicas], ∅)); Turn 0 false; Request (AEnable "notes")] ++ replicate 10 (Turn 1 false) ++
     [Exit 0%nat] ++ replicate 6 (Turn 2 false) ++ [Pass Second] ++ replicate 5 (Turn 2 false))
    (fun s => bool_decide (dropped s = [0%nat; 1%nat]) && bool_decide (routed_all (mgr s) = [2%nat]) &&
       live_b (mgr s) 1%nat))
    as (s & Hs & [[Hd Hr]%andb_true_iff Hl]%andb_true_iff); [vm_compute; reflexivity|].
  apply bool_decide_eq_true in Hd, Hr. apply live_b_spec in Hl. by exists s.
Qed.
