(* ===== verification/Scheduler.v ===== *)
(** * core/pluginhost/scheduler.go: the cron jobs plugins declare

    [Tick] reads the clock once and goes through the snapshot's plugins and
    their jobs. A time is the number of nanoseconds since the zero
    [time.Time]; how it reads on a calendar in Core's time zone is a parameter.
    The goroutine of a job is two steps: the start, in [Tick], takes a request
    slot of one replica, and [finish] gives it back. *)

From Stdlib Require Import Ascii.
From S2P Require Import Prelude GoStrings StableSort Cron Manifest Chain Pipeline Breaker Instance Registry Manager.

Open Scope Z_scope.

Definition Minute : Z := 60 * Second.
Definition Hour : Z := 60 * Minute.
Definition DefaultSchedulerInterval : Z := 20 * Second.

(** [now.Truncate(time.Minute)] and [t.Unix()]. *)
Definition Truncate_minute (now : Z) : Z := now - now `mod` Minute.
Definition unix_seconds (t : Z) : Z := t / Second - 62135596800.

Record job_run := mkJobRun { jr_key : string; jr_job : string; jr_minute : Z; jr_inst : loc }.

(** The request [RunJob] is called with; the trace id is random. *)
Definition job_request (r : job_run) : string * Z := (jr_job r, unix_seconds (jr_minute r)).

Notation last_runs := (gmap string Z).

Definition job_id (pluginKey jobName : string) : string := pluginKey +:+ String Ascii.zero jobName.

Definition claim (pluginKey jobName : string) (now : Z) (lastRun : last_runs) : bool * last_runs :=
  let minute := Truncate_minute now in
  let id := job_id pluginKey jobName in
  if bool_decide (lastRun !! id = Some minute) then (false, lastRun)
  else (true, filter (fun kv => minute - kv.2 <= Hour) (<[id := minute]> lastRun)).

Definition run (snap : Snapshot) (pluginKey jobName : string) (scheduled : Z) (w : world) : option job_run * world :=
  match Pick snap pluginKey w with
  | (None, w) => (None, w)
  | (Some l, w) =>
      let '(ok, w) := inst_Begin l w in
      (if ok then Some (mkJobRun pluginKey jobName scheduled l) else None, w)
  end.

Record tick_state := mkTick { tk_last : last_runs; tk_w : world; tk_runs : list job_run }.

Section ticking.
Context (civil : Z -> Time) (packages : gmap string Package) (now : Z) (snap : Snapshot).

Definition tick_job (key : string) (s : tick_state) (job : JobDecl) : tick_state :=
  match ParseSchedule (j_cron job) with
  | Err _ => s
  | Ok schedule =>
      if negb (Cron.Matches schedule (civil now)) then s
      else
        let '(ok, last) := claim key (j_name job) now (tk_last s) in
        if negb ok then mkTick last (tk_w s) (tk_runs s)
        else
          let '(r, w) := run snap key (j_name job) (Truncate_minute now) (tk_w s) in
          mkTick last w (tk_runs s ++ option_list r)
  end.

Definition tick_key (s : tick_state) (key : string) : tick_state :=
  match packages !! key with
  | None => s
  | Some pkg => foldl (tick_job key) s (Jobs (p_Manifest pkg))
  end.
End ticking.

Definition Tick (civil : Z -> Time) (packages : gmap string Package) (now : Z) (last : last_runs) (w : world)
    : tick_state :=
  let snap := w_current w in
  foldl (tick_key civil packages now snap) (mkTick last w []) (Keys snap).

(** What [OnJobResult] is told: [RunJob]'s error, or the one the plugin put in
    its answer. *)
Definition job_result (answer : result string (bool * string)) : option string :=
  match answer with
  | Err e => Some e
  | Ok (success, error) => if negb success && negb (String.eqb error "") then Some error else None
  end.

Definition finish (r : job_run) (answer : result string (bool * string)) (w : world) : option string * world :=
  (job_result answer, inst_Release (jr_inst r) w).

(** Ticks one after another; between two of them anything may happen to the
    packages, the registry and the instances. *)
Fixpoint ticks (civil : Z -> Time) (last : last_runs) (envs : list (Z * gmap string Package * world)) : list job_run :=
  match envs with
  | [] => []
  | (now, packages, w) :: envs =>
      let s := Tick civil packages now last w in tk_runs s ++ ticks civil (tk_last s) envs
  end.

(** ** Claims *)

Lemma Minute_pos : 0 < Minute.
Proof. unfold Minute, Second. lia. Qed.

Lemma Truncate_mono a b : a <= b -> Truncate_minute a <= Truncate_minute b.
Proof.
  intros H. unfold Truncate_minute. pose proof Minute_pos.
  rewrite (Z.div_mod a Minute) at 1 by lia. rewrite (Z.div_mod b Minute) at 1 by lia.
  pose proof (Z.div_le_mono a b Minute ltac:(lia) H). nia.
Qed.

Lemma claim_true key job now last last' :
  claim key job now last = (true, last') ->
  last !! job_id key job <> Some (Truncate_minute now) /\ last' !! job_id key job = Some (Truncate_minute now).
Proof.
  unfold claim. destruct (bool_decide_reflect (last !! job_id key job = Some (Truncate_minute now))); [done|].
  intros [= <-]. split; [done|]. apply map_lookup_filter_Some. rewrite lookup_insert_eq. split; [done|].
  cbn. unfold Hour. pose proof Minute_pos. lia.
Qed.

(** Within its minute a claim stays. *)
Lemma claim_keeps key job now last ok last' id :
  claim key job now last = (ok, last') -> last !! id = Some (Truncate_minute now) ->
  last' !! id = Some (Truncate_minute now).
Proof.
  unfold claim. destruct (bool_decide _); intros [= <- <-] H; [done|].
  apply map_lookup_filter_Some. split.
  - destruct (decide (id = job_id key job)) as [->|]; [apply lookup_insert_eq|by rewrite lookup_insert_ne].
  - cbn. unfold Hour. pose proof Minute_pos. lia.
Qed.

(** A claim makes no other job's minute look taken. *)
Lemma claim_other key job now last ok last' id :
  claim key job now last = (ok, last') -> id <> job_id key job ->
  last !! id <> Some (Truncate_minute now) -> last' !! id <> Some (Truncate_minute now).
Proof.
  unfold claim. destruct (bool_decide _); intros [= <- <-] Hid H; [done|].
  intros [H' _]%map_lookup_filter_Some. by rewrite lookup_insert_ne in H'.
Qed.

Definition run_id (r : job_run) : string * string * Z := (jr_key r, jr_job r, jr_minute r).

(** What a sequence of steps of one tick does to its state. *)
Record tick_inv (m : Z) (s : tick_state) : Prop := mkTickInv {
  ti_nodup : NoDup (run_id <$> tk_runs s);
  ti_minute : forall r, r ∈ tk_runs s -> jr_minute r <= m;
  ti_claimed : forall r, r ∈ tk_runs s -> jr_minute r = m -> tk_last s !! job_id (jr_key r) (jr_job r) = Some m
}.

Lemma run_shape snap key job minute w r w' :
  run snap key job minute w = (Some r, w') -> jr_key r = key /\ jr_job r = job /\ jr_minute r = minute.
Proof.
  unfold run. destruct (Pick snap key w) as [[l|] w1]; [|done].
  destruct (inst_Begin l w1) as [[] w2]; intros [= <- <-]; done.
Qed.

Lemma tick_job_inv civil now snap key s job :
  tick_inv (Truncate_minute now) s -> tick_inv (Truncate_minute now) (tick_job civil now snap key s job).
Proof.
  intros [Hn Hm Hc]. unfold tick_job. destruct (ParseSchedule _); [|done]. destruct (negb _); [done|].
  destruct (claim key (j_name job) now (tk_last s)) as [ok last] eqn:Ec.
  assert (Hkeep : forall r, r ∈ tk_runs s -> jr_minute r = Truncate_minute now ->
    last !! job_id (jr_key r) (jr_job r) = Some (Truncate_minute now))
    by (intros r Hr Hrm; eapply claim_keeps; [exact Ec|by apply Hc]).
  destruct ok; cbn [negb]; [|by split].
  apply claim_true in Ec as [Hfresh Hset].
  destruct (run snap key (j_name job) (Truncate_minute now) (tk_w s)) as [[r|] w] eqn:Er; cbn [option_list].
  - apply run_shape in Er as (Hk & Hj & Hrm). split; cbn [tk_runs tk_last].
    + rewrite fmap_app. apply list.NoDup_app. split; [done|]. split; [|apply NoDup_singleton].
      intros x (r' & -> & Hr')%list_elem_of_fmap Hx%list_elem_of_singleton. cbn in Hx.
      unfold run_id in Hx. rewrite Hk, Hj, Hrm in Hx. injection Hx as Hk' Hj' Hm'.
      apply Hfresh. rewrite <- Hk', <- Hj'. by apply Hc.
    + intros r' [Hr'|Hr'%list_elem_of_singleton]%elem_of_app; [by apply Hm|]. subst r'. lia.
    + intros r' [Hr'|Hr'%list_elem_of_singleton]%elem_of_app Hr'm; [by apply Hkeep|]. subst r'. by rewrite Hk, Hj.
  - rewrite app_nil_r. by split.
Qed.

Lemma foldl_inv {A B} (P : A -> Prop) (f : A -> B -> A) l a :
  (forall a b, b ∈ l -> P a -> P (f a b)) -> P a -> P (foldl f a l).
Proof.
  revert a. induction l as [|b l IH]; intros a Hf Ha; [done|]. cbn. apply IH; [|by apply Hf; [left|]].
  intros a' b' Hb'. apply Hf. by right.
Qed.

Lemma tick_key_inv civil packages now snap s key :
  tick_inv (Truncate_minute now) s -> tick_inv (Truncate_minute now) (tick_key civil packages now snap s key).
Proof.
  intros H. unfold tick_key. destruct (packages !! key); [|done].
  apply foldl_inv; [|done]. intros a b _. apply tick_job_inv.
Qed.

(** Earlier runs only come along. *)
Definition after (prev : list job_run) (s : tick_state) : tick_state :=
  mkTick (tk_last s) (tk_w s) (prev ++ tk_runs s).

Lemma tick_job_after civil now snap key prev s job :
  tick_job civil now snap key (after prev s) job = after prev (tick_job civil now snap key s job).
Proof.
  unfold tick_job, after. cbn [tk_last tk_w tk_runs]. destruct (ParseSchedule _); [|done].
  destruct (negb _); [done|]. destruct (claim _ _ _ _) as [ok last]. destruct (negb ok); [done|].
  destruct (run _ _ _ _ _) as [r w]. cbn [tk_last tk_w tk_runs]. by rewrite app_assoc.
Qed.

Lemma foldl_commute {A B} (g : A -> A) (f : A -> B -> A) l a :
  (forall a b, f (g a) b = g (f a b)) -> foldl f (g a) l = g (foldl f a l).
Proof. intros H. revert a. induction l as [|b l IH]; intros a; [done|]. cbn. by rewrite H, IH. Qed.

Lemma tick_key_after civil packages now snap prev s key :
  tick_key civil packages now snap (after prev s) key = after prev (tick_key civil packages now snap s key).
Proof.
  unfold tick_key. destruct (packages !! key); [|done]. apply foldl_commute. intros. apply tick_job_after.
Qed.

Definition env_time (env : Z * gmap string Package * world) : Z := env.1.1.

Lemma ticks_nodup civil envs : forall last prev m w,
  tick_inv m (mkTick last w prev) -> StronglySorted (fun a b => env_time a <= env_time b) envs ->
  Forall (fun env => m <= Truncate_minute (env_time env)) envs ->
  NoDup (run_id <$> (prev ++ ticks civil last envs)).
Proof.
  induction envs as [|[[now packages] w] envs IH]; intros last prev m w0 Hi Hs Hm; cbn [ticks].
  { rewrite app_nil_r. apply Hi. }
  apply StronglySorted_inv in Hs as [Hs Hge]. apply list.Forall_cons in Hm as [Hm Hms]. cbn in Hm.
  set (s := Tick civil packages now last w).
  assert (tick_inv (Truncate_minute now) (after prev s)) as Hi'.
  { unfold s, Tick. rewrite <- foldl_commute by (intros; apply tick_key_after).
    apply foldl_inv; [intros a b _; apply tick_key_inv|]. unfold after. cbn [tk_last tk_w tk_runs].
    rewrite app_nil_r. destruct Hi as [Hn Hle Hc]. cbn [tk_last tk_runs] in *. split; cbn [tk_last tk_runs]; [done| |].
    - intros r Hr. specialize (Hle r Hr). lia.
    - intros r Hr Hrm. specialize (Hle r Hr). rewrite <- Hrm. rewrite (Hc r Hr) by lia. f_equal. lia. }
  rewrite app_assoc. apply (IH _ _ (Truncate_minute now) (tk_w s)); [done|done|].
  eapply list.Forall_impl; [exact Hge|]. intros env He. by apply Truncate_mono.
Qed.

(** ** Which runs a tick starts *)

(** A job of a package with a schedule that fires at [now]. *)
Definition due (civil : Z -> Time) (now : Z) (packages : gmap string Package) (key job : string) : Prop :=
  exists pkg j s, packages !! key = Some pkg /\ j ∈ Jobs (p_Manifest pkg) /\ j_name j = job /\
    ParseSchedule (j_cron j) = Ok s /\ Cron.Matches s (civil now) = true.

Lemma Tick_due civil packages now last w r :
  r ∈ tk_runs (Tick civil packages now last w) ->
  jr_minute r = Truncate_minute now /\ jr_key r ∈ Keys (w_current w) /\ due civil now packages (jr_key r) (jr_job r).
Proof.
  unfold Tick. set (snap := w_current w).
  set (P := fun s => forall r, r ∈ tk_runs s -> jr_minute r = Truncate_minute now /\ jr_key r ∈ Keys snap /\
    due civil now packages (jr_key r) (jr_job r)).
  enough (P (foldl (tick_key civil packages now snap) (mkTick last w []) (Keys snap))) as H by apply H.
  apply foldl_inv; [|by intros r' ?%not_elem_of_nil]. intros s key Hkey Hs. unfold tick_key.
  destruct (packages !! key) as [pkg|] eqn:Ep; [|done]. apply foldl_inv; [|done]. clear s Hs.
  intros s job Hjob Hs. unfold tick_job. destruct (ParseSchedule (j_cron job)) as [sc|] eqn:Esc; [|done].
  destruct (Cron.Matches sc (civil now)) eqn:Em; cbn [negb]; [|done].
  destruct (claim _ _ _ _) as [ok lr]. destruct ok; cbn [negb]; [|done].
  destruct (run _ _ _ _ _) as [[r'|] w'] eqn:Er; cbn [option_list]; [|by rewrite app_nil_r].
  apply run_shape in Er as (Hk & Hj & Hrm). intros r0 [Hr0|Hr0%list_elem_of_singleton]%elem_of_app; [by apply Hs|].
  subst r0. rewrite Hk, Hj, Hrm. split_and!; [done|done|]. by exists pkg, job, sc.
Qed.


Definition demo_job_package : Package :=
  mkPackage "plugins/waf"
    (mkManifest "waf" "" "1.0.0" 0 (mkRuntime "waf" [] 1) [PermCron] [] [] [] [mkJobDecl "sweep" "* * * * *"] [] [])
    "plugins/waf/waf" "" "" [].

Definition noon (t : Z) : Time := mkTime 0 12 1 1 1.

Definition demo_env (now : Z) : Z * gmap string Package * world :=
  (now, {["waf" := demo_job_package]}, (InstallPlugin demo_reg (NewRegistry 0 demo_heap)).2).


(** A claim remembers the last minute of a job only. A clock that is set back
    over a minute's edge lets the job run for the earlier minute again. *)
Example clock_set_back :
  run_id <$> ticks noon ∅ [demo_env 0; demo_env (60 * Second); demo_env (20 * Second)] =
  [("waf", "sweep", 0); ("waf", "sweep", 60 * Second); ("waf", "sweep", 0)].
Proof. vm_compute. reflexivity. Qed.

(** ** A due job of a serving plugin runs *)

Lemma wrr_scan_best views : forall cur idx total best c t j v,
  wrr_scan views cur idx total best = (c, t, Some (j, v)) ->
  (exists v0, best = Some (j, v0)) \/ (idx <= j < idx + length views)%nat.
Proof.
  induction views as [|[ready weight] views IH]; intros cur idx total best c t j v H.
  { simpl in H. injection H as _ _ ->. eauto. }
  destruct cur as [|c0 cur]; [injection H as _ _ ->; eauto|]. cbn [wrr_scan] in H. cbn [length].
  destruct ready.
  - set (best' := match best with None => _ | Some _ => _ end) in H.
    destruct (wrr_scan views cur _ _ best') as [[c1 t1] b1] eqn:E. injection H as _ _ ->.
    apply IH in E as [[v0 E]|E]; [|right; lia]. unfold best' in E. destruct best as [[j0 b0]|].
    + destruct (b0 <? _); injection E as <- _; [right; lia|left; eauto].
    + injection E as <- _. right. lia.
  - destruct (wrr_scan views cur _ _ best) as [[c1 t1] b1] eqn:E. injection H as _ _ ->.
    apply IH in E as [E|E]; [by left|right; lia].
Qed.

Lemma pick_serves h rs :
  instances rs <> [] -> (forall l, l ∈ instances rs -> i_state (inst_at h l) = StateReady) ->
  exists l, (pick h rs).1 = Some l /\ l ∈ instances rs.
Proof.
  intros Hne Hr. assert (Hs : forall l, l ∈ instances rs -> servable_at h l = true).
  { intros l Hl. unfold servable_at, Servable. by rewrite (Hr l Hl). }
  unfold pick. destruct rs as [[|l1 [|l2 ls]] cur]; cbn [instances current] in *; [done| |].
  - rewrite (Hs l1) by (by left). exists l1. split; [done|by left].
  - destruct (wrr_scan _ _ _ _ _) as [[c t] [[j v]|]] eqn:E; cbn [fst].
    + apply wrr_scan_best in E as [[v0 E]|E]; [done|]. rewrite length_fmap in E.
      destruct (lookup_lt_is_Some_2 (l1 :: l2 :: ls) j ltac:(lia)) as [l Hl].
      exists l. split; [done|]. by eapply list_elem_of_lookup_2.
    + exists l1. cbn [List.find]. rewrite (Hs l1) by (by left). split; [done|by left].
Qed.

(** The snapshot has replicas for [key] and they are all Ready. *)
Definition serving (snap : Snapshot) (key : string) (w : world) : Prop :=
  SnapReplicas snap key w <> [] /\
  forall l, l ∈ SnapReplicas snap key w -> i_state (inst_at (heap w) l) = StateReady.

Lemma Pick_replicas snap k key w : SnapReplicas snap key (Pick snap k w).2 = SnapReplicas snap key w.
Proof.
  unfold Pick. destruct (s_plugins snap !! k) as [p|]; [|done]. destruct (rsets w !! p) as [rs|] eqn:Ers; [|done].
  pose proof (pick_instances (heap w) rs) as Hi. destruct (pick (heap w) rs) as [l rs']. cbn [snd] in *.
  unfold SnapReplicas. destruct (s_plugins snap !! key) as [q|]; [|done]. cbn [rsets set_rsets].
  destruct (decide (p = q)) as [<-|Hne]; [by rewrite lookup_insert_eq, Ers, Hi|by rewrite lookup_insert_ne].
Qed.

Lemma inst_Begin_state l w t :
  i_state (inst_at (heap (inst_Begin l w).2) t) = i_state (inst_at (heap w) t).
Proof.
  unfold inst_Begin. rewrite BeginRequest_spec. destruct (decide (i_state (inst_at (heap w) l) = StateReady));
    cbn [snd]; rewrite inst_at_upd; case_decide; by subst.
Qed.

Lemma run_keeps_serving snap k job minute key w :
  serving snap key w -> serving snap key (run snap k job minute w).2.
Proof.
  intros [Hne Hr]. unfold run. pose proof (Pick_replicas snap k key w) as Hp. pose proof (Pick_heap snap k w) as Hh.
  destruct (Pick snap k w) as [[l|] w1]; cbn [snd] in *.
  - pose proof (fun t => inst_Begin_state l w1 t) as Hb.
    assert (Hrep : SnapReplicas snap key (inst_Begin l w1).2 = SnapReplicas snap key w1).
    { unfold inst_Begin. by destruct (BeginRequest _). }
    destruct (inst_Begin l w1) as [ok w2]. cbn [snd] in *. split; rewrite Hrep, Hp; [done|].
    intros t Ht. rewrite Hb, Hh. by apply Hr.
  - split; rewrite Hp; [done|]. by rewrite Hh.
Qed.

Lemma run_serves snap key job minute w :
  serving snap key w -> exists r, (run snap key job minute w).1 = Some r /\ run_id r = (key, job, minute).
Proof.
  unfold serving, SnapReplicas. intros [Hne Hr]. unfold run, Pick.
  destruct (s_plugins snap !! key) as [p|]; [|done]. destruct (rsets w !! p) as [rs|]; [|done].
  destruct (pick_serves (heap w) rs Hne Hr) as (l & Hl & Hin). destruct (pick (heap w) rs) as [ol rs'].
  cbn [fst] in Hl. subst ol. unfold inst_Begin. cbn [heap set_rsets]. rewrite BeginRequest_spec, (Hr l Hin).
  rewrite decide_True by done. cbn [fst]. eexists. split; [done|]. done.
Qed.

Lemma job_id_inj k1 j1 k2 j2 :
  has_byte Ascii.zero k1 = false -> has_byte Ascii.zero k2 = false -> job_id k1 j1 = job_id k2 j2 -> k1 = k2 /\ j1 = j2.
Proof. apply sep_inj. Qed.

Section firing.
Context (civil : Z -> Time) (now : Z) (snap : Snapshot) (key job : string).

(** Either the job has run in this tick, or nothing stands in its way. *)
Definition fires (s : tick_state) : Prop :=
  (key, job, Truncate_minute now) ∈ run_id <$> tk_runs s.
Definition open (s : tick_state) : Prop :=
  serving snap key (tk_w s) /\ (fires s \/ tk_last s !! job_id key job <> Some (Truncate_minute now)).

Lemma tick_job_open k s j :
  has_byte Ascii.zero key = false -> has_byte Ascii.zero k = false -> open s ->
  open (tick_job civil now snap k s j) /\ (fires s -> fires (tick_job civil now snap k s j)) /\
  (k = key -> j_name j = job -> (exists sc, ParseSchedule (j_cron j) = Ok sc /\ Cron.Matches sc (civil now) = true) ->
   fires (tick_job civil now snap k s j)).
Proof using Type.
  intros Hz Hzk [Hserv Hor]. unfold tick_job.
  destruct (ParseSchedule (j_cron j)) as [sc|] eqn:Ep.
  2: { split_and!; [done|done|]. by intros _ _ (? & ? & _). }
  destruct (Cron.Matches sc (civil now)) eqn:Em; cbn [negb].
  2: { split_and!; [done|done|]. intros _ _ (sc' & [= <-] & E). congruence. }
  destruct (claim k (j_name j) now (tk_last s)) as [ok last] eqn:Ec.
  destruct (decide (job_id k (j_name j) = job_id key job)) as [Hid|Hid].
  - apply job_id_inj in Hid as [-> Hj]; [|done|done]. rewrite Hj in *.
    destruct ok; cbn [negb].
    + destruct (run_serves snap key job (Truncate_minute now) (tk_w s) Hserv) as (r & Hr & Hrid).
      pose proof (run_keeps_serving snap key job (Truncate_minute now) key (tk_w s) Hserv) as Hk.
      destruct (run _ _ _ _ _) as [or w]. cbn [fst snd] in *. subst or. cbn [option_list].
      assert (fires (mkTick last w (tk_runs s ++ [r]))) as Hf.
      { unfold fires. cbn [tk_runs]. rewrite fmap_app. apply elem_of_app. right. rewrite <- Hrid. by left. }
      split_and!; [by split; [|left]|done|done].
    + unfold claim in Ec. destruct (bool_decide_reflect (tk_last s !! job_id key job = Some (Truncate_minute now))) as [H|];
        [|done]. injection Ec as <-. destruct Hor as [Hf|]; [|done].
      split_and!; [by split; [|left]|done|done].
  - assert (Hlast : tk_last s !! job_id key job <> Some (Truncate_minute now) -> last !! job_id key job <> Some (Truncate_minute now)).
    { intros H. eapply claim_other; [exact Ec| |exact H]. congruence. }
    destruct ok; cbn [negb].
    + pose proof (run_keeps_serving snap k (j_name j) (Truncate_minute now) key (tk_w s) Hserv) as Hk.
      destruct (run _ _ _ _ _) as [or w]. cbn [snd] in Hk.
      assert (fires s -> fires (mkTick last w (tk_runs s ++ option_list or))) as Hf.
      { unfold fires. cbn [tk_runs]. rewrite fmap_app. intros. apply elem_of_app. by left. }
      split_and!; [|done|congruence]. split; [done|]. destruct Hor; [left|right]; auto.
    + split_and!; [split; [done|]; destruct Hor; [by left|right; auto]|done|congruence].
Qed.

Lemma tick_jobs_open k js s :
  has_byte Ascii.zero key = false -> has_byte Ascii.zero k = false -> open s ->
  open (foldl (tick_job civil now snap k) s js) /\ (fires s -> fires (foldl (tick_job civil now snap k) s js)) /\
  (k = key -> (exists j sc, j ∈ js /\ j_name j = job /\ ParseSchedule (j_cron j) = Ok sc /\
                 Cron.Matches sc (civil now) = true) ->
   fires (foldl (tick_job civil now snap k) s js)).
Proof using Type.
  intros Hz Hzk. revert s. induction js as [|j js IH]; intros s Ho.
  { split_and!; [done|done|]. by intros _ (? & ? & ?%not_elem_of_nil & _). }
  destruct (tick_job_open k s j Hz Hzk Ho) as (Ho' & Hf' & Hd'). destruct (IH _ Ho') as (Ho2 & Hf2 & Hd2).
  cbn [foldl]. split_and!; [done|auto|]. intros -> (j0 & sc & [->|Hj]%elem_of_cons & Hn & Hp & Hm).
  - apply Hf2, Hd'; eauto.
  - apply Hd2; eauto 10.
Qed.
End firing.

(** A due job of a serving plugin is started. If the snapshot routes the
    plugin to Ready replicas and it declares a job whose schedule fires now,
    then a tick whose minute is not yet taken for that job starts a run of it,
    for this very minute, whatever the other jobs of the tick do; only a plugin
    key with a NUL byte could get in its way. *)
Lemma due_job_runs civil packages now last w key job :
  let snap := w_current w in
  key ∈ Keys snap -> serving snap key w -> due civil now packages key job ->
  Forall (fun k => has_byte Ascii.zero k = false) (Keys snap) ->
  last !! job_id key job <> Some (Truncate_minute now) ->
  (key, job, Truncate_minute now) ∈ run_id <$> tk_runs (Tick civil packages now last w).
Proof.
  intros snap Hin Hserv (pkg & j & sc & Hpkg & Hj & Hn & Hp & Hm) Hz Hlast.
  assert (Hzk : has_byte Ascii.zero key = false) by (by apply (proj1 (list.Forall_forall _ _) Hz)).
  assert (Hgen : forall ks s, Forall (fun k => has_byte Ascii.zero k = false) ks -> open now snap key job s ->
    (fires now key job s -> fires now key job (foldl (tick_key civil packages now snap) s ks)) /\
    (key ∈ ks -> fires now key job (foldl (tick_key civil packages now snap) s ks))).
  { induction ks as [|k ks IH]; intros s Hks Ho; [split; [done|by intros ?%not_elem_of_nil]|].
    apply list.Forall_cons in Hks as [Hk Hks]. cbn [foldl]. unfold tick_key at 2 4.
    destruct (packages !! k) as [pkg'|] eqn:Ek.
    - destruct (tick_jobs_open civil now snap key job k (Jobs (p_Manifest pkg')) s Hzk Hk Ho) as (Ho' & Hf' & Hd').
      destruct (IH _ Hks Ho') as [H1 H2]. split; [auto|]. intros [->|Hi]%elem_of_cons; [|auto].
      rewrite Hpkg in Ek. injection Ek as <-. apply H1, Hd'; eauto 10.
    - destruct (IH _ Hks Ho) as [H1 H2]. split; [auto|]. intros [->|Hi]%elem_of_cons; [|auto]. congruence. }
  apply Hgen; [done| |done]. split; [done|]. by right.
Qed.
