(* ===== verification/TxRegistry.v ===== *)
(** * core/db/tx.go: transactions a plugin holds open

    The registry and its operations, each critical section one function on the
    registry, and the system in which any number of calls interleave: [Begin]
    is three steps (reserve a slot, [db.BeginTx], insert), [Commit] and
    [Rollback] are two (take the entry, finalise the handle).

    A [*sql.Tx] is its handle, a number; what [database/sql] answers to
    [BeginTx], [Commit] and [Rollback] is an argument. Times and durations are
    nanoseconds. *)

From S2P Require Import Prelude GoStrings.

Open Scope Z_scope.

Definition second : Z := 1000000000.
Definition DefaultTxTimeout : Z := 30 * second.
Definition MaxTxTimeout : Z := 5 * 60 * second.
Definition MaxOpenTxPerPlugin : Z := 8.

Inductive tx_error :=
| ErrTooManyTx (pluginKey : string) (opened limit : Z)
| ErrUnknownTx
| BeginFailed (e : string)
| CommitFailed (e : string)
| RollbackFailed (e : string).

Record openTx := mkOpenTx { tx : Z; pluginKey : string; expiresAt : Z }.

Record TxRegistry := mkTxRegistry {
  txs : gmap string openTx;
  maxOpen : Z;
  open_ : gmap string Z
}.

Definition NewTxRegistry : TxRegistry := mkTxRegistry ∅ 0 ∅.

Definition SetMaxOpen (n : Z) (r : TxRegistry) : TxRegistry :=
  mkTxRegistry (txs r) n (open_ r).

Definition limit (r : TxRegistry) : Z :=
  if 0 <? maxOpen r then maxOpen r else MaxOpenTxPerPlugin.

(** Reading a key of a Go map that is not there gives zero. *)
Definition opened (r : TxRegistry) (k : string) : Z := default 0 (open_ r !! k).

Definition release (k : string) (r : TxRegistry) : TxRegistry :=
  if 0 <? opened r k then
    let n := opened r k - 1 in
    mkTxRegistry (txs r) (maxOpen r)
      (if n =? 0 then delete k (open_ r) else <[k := n]> (open_ r))
  else r.

(** ** Begin *)

Definition tx_timeout (timeout : Z) : Z :=
  let timeout := if timeout <=? 0 then DefaultTxTimeout else timeout in
  if MaxTxTimeout <? timeout then MaxTxTimeout else timeout.

(** The first critical section: the quota is checked and the slot taken. *)
Definition reserve (k : string) (r : TxRegistry) : result tx_error TxRegistry :=
  reject? limit r <=? opened r k with ErrTooManyTx k (opened r k) (limit r) ;;
  Ok (mkTxRegistry (txs r) (maxOpen r) (<[k := opened r k + 1]> (open_ r))).

(** The last one. *)
Definition record_tx (id : string) (t : openTx) (r : TxRegistry) : TxRegistry :=
  mkTxRegistry (<[id := t]> (txs r)) (maxOpen r) (open_ r).

(** The whole call with nothing in between: [begin_tx] is what [db.BeginTx]
    answers, [id] what [randomTxID] draws. *)
Definition Begin (begin_tx : result string Z) (id : string) (now : Z) (k : string) (timeout : Z)
    (r : TxRegistry) : result tx_error string * TxRegistry :=
  match reserve k r with
  | Err e => (Err e, r)
  | Ok r1 =>
      match begin_tx with
      | Err e => (Err (BeginFailed e), release k r1)
      | Ok h => (Ok id, record_tx id (mkOpenTx h k (now + tx_timeout timeout)) r1)
      end
  end.

(** [randomTxID]: sixteen random bytes in hexadecimal, or the clock when the
    random source fails. *)
Definition randomTxID (drawn : option (list Z)) (clock : string) : string :=
  match drawn with
  | None => "tx-" +:+ clock
  | Some b => hex_encode b
  end.

(** ** Finding, finishing and reaping *)

Definition dropLocked (txID : string) (t : openTx) (r : TxRegistry) : TxRegistry :=
  release (pluginKey t) (mkTxRegistry (delete txID (txs r)) (maxOpen r) (open_ r)).

(** The second component is the handles rolled back on the way. *)
Definition Lookup (now : Z) (k txID : string) (r : TxRegistry)
    : result tx_error Z * list Z * TxRegistry :=
  match txs r !! txID with
  | None => (Err ErrUnknownTx, [], r)
  | Some t =>
      if bool_decide (pluginKey t <> k) then (Err ErrUnknownTx, [], r)
      else if expiresAt t <? now then (Err ErrUnknownTx, [tx t], dropLocked txID t r)
      else (Ok (tx t), [], r)
  end.

Definition take (k txID : string) (r : TxRegistry) : result tx_error openTx * TxRegistry :=
  match txs r !! txID with
  | None => (Err ErrUnknownTx, r)
  | Some t =>
      if bool_decide (pluginKey t <> k) then (Err ErrUnknownTx, r)
      else (Ok t, dropLocked txID t r)
  end.

Definition Commit (commit : Z -> option string) (k txID : string) (r : TxRegistry)
    : result tx_error unit * TxRegistry :=
  match take k txID r with
  | (Err e, r) => (Err e, r)
  | (Ok t, r) => (match commit (tx t) with Some e => Err (CommitFailed e) | None => Ok () end, r)
  end.

Definition Rollback (rollback : Z -> option string) (k txID : string) (r : TxRegistry)
    : result tx_error unit * TxRegistry :=
  match take k txID r with
  | (Err e, r) => (Err e, r)
  | (Ok t, r) => (match rollback (tx t) with Some e => Err (RollbackFailed e) | None => Ok () end, r)
  end.

(** The loops over [r.txs]: [order] is the order the map is walked in, each
    entry once. *)
Fixpoint drop_loop (sel : openTx -> bool) (order : list (string * openTx)) (r : TxRegistry)
    : list Z * TxRegistry :=
  match order with
  | [] => ([], r)
  | (id, t) :: order =>
      if sel t then
        let '(hs, r) := drop_loop sel order (dropLocked id t r) in (tx t :: hs, r)
      else drop_loop sel order r
  end.

Definition expired (now : Z) (t : openTx) : bool := expiresAt t <? now.

Definition ReapExpired (now : Z) (order : list (string * openTx)) (r : TxRegistry)
    : list Z * TxRegistry :=
  drop_loop (expired now) order r.

Definition Close (order : list (string * openTx)) (r : TxRegistry) : list Z * TxRegistry :=
  drop_loop (fun _ => true) order r.

Definition Open_ (r : TxRegistry) : Z := Z.of_nat (size (txs r)).

(** ** The interleaved system *)

Inductive finaliser := Committed | RolledBack.

(** Where one call stands between its critical sections. *)
Inductive stage :=
| SReserved (k : string) (timeout : Z)         (** slot taken, about to call BeginTx *)
| SOpened (k : string) (timeout h : Z)         (** BeginTx answered, about to insert *)
| SFinishing (h : Z) (c : finaliser)           (** taken out, about to finalise *)
| SOver.

Record system := mkSystem {
  reg : TxRegistry;
  calls : list stage;
  begun : list Z;                              (** every handle BeginTx has answered *)
  finished : list (Z * finaliser)              (** every Commit and Rollback made on one *)
}.

Definition rolled (hs : list Z) : list (Z * finaliser) := (fun h => (h, RolledBack)) <$> hs.

(** [cap] bounds the effective limit of every [SetMaxOpen]. *)
Inductive step (cap : Z) (s : system) : system -> Prop :=
| step_reserve k timeout r' :
    reserve k (reg s) = Ok r' ->
    step cap s (mkSystem r' (calls s ++ [SReserved k (tx_timeout timeout)]) (begun s) (finished s))
| step_begin_failed i k timeout :
    calls s !! i = Some (SReserved k timeout) ->
    step cap s (mkSystem (release k (reg s)) (<[i := SOver]> (calls s)) (begun s) (finished s))
| step_begin_ok i k timeout h :
    calls s !! i = Some (SReserved k timeout) -> h ∉ begun s ->
    step cap s (mkSystem (reg s) (<[i := SOpened k timeout h]> (calls s)) (h :: begun s) (finished s))
| step_insert i k timeout h id now :
    calls s !! i = Some (SOpened k timeout h) -> txs (reg s) !! id = None ->
    step cap s (mkSystem (record_tx id (mkOpenTx h k (now + timeout)) (reg s))
      (<[i := SOver]> (calls s)) (begun s) (finished s))
| step_lookup now k id a hs r' :
    Lookup now k id (reg s) = (a, hs, r') ->
    step cap s (mkSystem r' (calls s) (begun s) (rolled hs ++ finished s))
| step_take k id t c r' :
    take k id (reg s) = (Ok t, r') ->
    step cap s (mkSystem r' (calls s ++ [SFinishing (tx t) c]) (begun s) (finished s))
| step_finish i h c :
    calls s !! i = Some (SFinishing h c) ->
    step cap s (mkSystem (reg s) (<[i := SOver]> (calls s)) (begun s) ((h, c) :: finished s))
| step_reap now order hs r' :
    order ≡ₚ map_to_list (txs (reg s)) -> ReapExpired now order (reg s) = (hs, r') ->
    step cap s (mkSystem r' (calls s) (begun s) (rolled hs ++ finished s))
| step_close order hs r' :
    order ≡ₚ map_to_list (txs (reg s)) -> Close order (reg s) = (hs, r') ->
    step cap s (mkSystem r' (calls s) (begun s) (rolled hs ++ finished s))
| step_set_max n :
    limit (SetMaxOpen n (reg s)) <= cap ->
    step cap s (mkSystem (SetMaxOpen n (reg s)) (calls s) (begun s) (finished s)).

Definition init : system := mkSystem NewTxRegistry [] [] [].
Definition reachable (cap : Z) : system -> Prop := rtc (step cap) init.

(** ** Lemmas *)

Definition holders (r : TxRegistry) : list openTx := (map_to_list (txs r)).*2.

(** The transactions the registry holds for plugin [k], and the [Begin] calls
    of [k] that have a slot and have not inserted yet. *)
Definition held (k : string) (s : system) : Z := count (fun t => pluginKey t = k) (holders (reg s)).

Definition slot_of (st : stage) : option string :=
  match st with SReserved k _ | SOpened k _ _ => Some k | _ => None end.

Definition starting (k : string) (s : system) : Z := count (fun st => slot_of st = Some k) (calls s).

(** The handles a call in progress has and nobody else. *)
Definition in_hand (st : stage) : list Z :=
  match st with SOpened _ _ h | SFinishing h _ => [h] | _ => [] end.

Lemma limit_pos r : 0 < limit r.
Proof. unfold limit, MaxOpenTxPerPlugin. destruct (0 <? maxOpen r) eqn:E; zbool; lia. Qed.

Lemma txs_release k r : txs (release k r) = txs r.
Proof. unfold release. by destruct (0 <? opened r k). Qed.

Lemma maxOpen_release k r : maxOpen (release k r) = maxOpen r.
Proof. unfold release. by destruct (0 <? opened r k). Qed.

Lemma opened_release k k' r :
  0 < opened r k ->
  opened (release k r) k' = opened r k' - (if decide (k = k') then 1 else 0).
Proof.
  intros Hk. unfold release. destruct (Z.ltb_spec 0 (opened r k)); [|lia].
  unfold opened at 1. simpl. case_decide; [subst k'|].
  - destruct (Z.eqb_spec (opened r k - 1) 0).
    + rewrite lookup_delete_eq. simpl. lia.
    + by rewrite lookup_insert_eq.
  - destruct (opened r k - 1 =? 0).
    + rewrite lookup_delete_ne by done. unfold opened. lia.
    + rewrite lookup_insert_ne by done. unfold opened. lia.
Qed.

Lemma reserve_ok k r r' :
  reserve k r = Ok r' ->
  opened r k < limit r /\ txs r' = txs r /\ maxOpen r' = maxOpen r /\
  forall k', opened r' k' = opened r k' + (if decide (k = k') then 1 else 0).
Proof.
  unfold reserve. intros H. peel H. simplify_eq/=. zbool. split_and!; [lia|done|done|].
  intros k'. unfold opened at 1. simpl. case_decide; [subst k'; by rewrite lookup_insert_eq|].
  rewrite lookup_insert_ne by done. unfold opened. lia.
Qed.

Lemma holders_record id t r :
  txs r !! id = None -> holders (record_tx id t r) ≡ₚ t :: holders r.
Proof. intros Hid. unfold holders. simpl. by rewrite map_to_list_insert. Qed.

Lemma txs_drop id t r : txs (dropLocked id t r) = delete id (txs r).
Proof. unfold dropLocked. by rewrite txs_release. Qed.

Lemma holders_drop id t r :
  txs r !! id = Some t -> holders r ≡ₚ t :: holders (dropLocked id t r).
Proof.
  intros Hid. unfold holders. rewrite txs_drop, <- (map_to_list_delete (txs r) id t Hid). done.
Qed.

Lemma maxOpen_drop id t r : maxOpen (dropLocked id t r) = maxOpen r.
Proof. unfold dropLocked. by rewrite maxOpen_release. Qed.

Lemma opened_drop id t r k' :
  0 < opened r (pluginKey t) ->
  opened (dropLocked id t r) k' =
    opened r k' - (if decide (pluginKey t = k') then 1 else 0).
Proof. intros H. unfold dropLocked. by rewrite opened_release. Qed.

Lemma take_ok k id r t r' :
  take k id r = (Ok t, r') <->
  txs r !! id = Some t /\ pluginKey t = k /\ r' = dropLocked id t r.
Proof.
  unfold take. destruct (txs r !! id) as [t'|]; [|naive_solver].
  case_bool_decide; naive_solver.
Qed.

(** ** The invariant of the interleaved system *)

Record inv (cap : Z) (s : system) : Prop := {
  inv_count : forall k, opened (reg s) k = starting k s + held k s;
  inv_cap : forall k, opened (reg s) k <= cap;
  inv_limit : limit (reg s) <= cap;
  inv_perm : begun s ≡ₚ (calls s ≫= in_hand) ++ (tx <$> holders (reg s)) ++ (finished s).*1;
  inv_nodup : NoDup (begun s)
}.

Lemma limit_same r r' : maxOpen r' = maxOpen r -> limit r' = limit r.
Proof. unfold limit. by intros ->. Qed.

Lemma held_pos s id t : txs (reg s) !! id = Some t -> 1 <= held (pluginKey t) s.
Proof.
  intros Hid. apply (count_pos _ _ t); [|done].
  apply list_elem_of_fmap. exists (id, t). split; [done|]. by apply elem_of_map_to_list.
Qed.

Lemma starting_nonneg k s : 0 <= starting k s.
Proof. apply count_nonneg. Qed.

(** Taking an entry out and finalising its handle, here or in a later step. *)
Lemma inv_drop cap s id t extra :
  inv cap s -> txs (reg s) !! id = Some t ->
  Forall (fun st => slot_of st = None) extra ->
  forall fin, tx t :: (finished s).*1 ≡ₚ (extra ≫= in_hand) ++ fin.*1 ->
  inv cap (mkSystem (dropLocked id t (reg s)) (calls s ++ extra) (begun s) fin).
Proof.
  intros I Hid Hx fin Hfin.
  pose proof (held_pos s id t Hid) as Hpos.
  pose proof (starting_nonneg (pluginKey t) s) as Hst.
  assert (0 < opened (reg s) (pluginKey t)) as Hop by (rewrite (inv_count _ _ I); lia).
  assert (forall k, count (fun st => slot_of st = Some k) extra = 0) as Hx0.
  { intros k. clear Hfin. induction Hx as [|st extra Hst' Hx IH]; [done|].
    rewrite count_cons, IH, Hst'. by rewrite decide_False. }
  constructor; simpl.
  - intros k. rewrite opened_drop by done. rewrite (inv_count _ _ I).
    unfold starting, held. simpl. rewrite count_app, Hx0.
    rewrite (count_perm _ _ _ (holders_drop id t (reg s) Hid)), count_cons. lia.
  - intros k. rewrite opened_drop by done. pose proof (inv_cap _ _ I k). case_decide; lia.
  - rewrite (limit_same (reg s)); [apply I|apply maxOpen_drop].
  - rewrite (inv_perm _ _ I), (holders_drop id t (reg s) Hid). simpl.
    rewrite bind_app, <- !app_assoc. apply Permutation_app_head.
    rewrite Permutation_middle, Hfin, !app_assoc. apply Permutation_app_tail, Permutation_app_comm.
  - apply I.
Qed.

Lemma inv_drop_rolled cap s id t :
  inv cap s -> txs (reg s) !! id = Some t ->
  inv cap (mkSystem (dropLocked id t (reg s)) (calls s) (begun s) ((tx t, RolledBack) :: finished s)).
Proof.
  intros I Hid. rewrite <- (app_nil_r (calls s)). by apply inv_drop; [| |constructor|].
Qed.

Lemma inv_drop_loop cap sel : forall order s hs r',
  inv cap s -> NoDup order.*1 ->
  (forall id t, (id, t) ∈ order -> txs (reg s) !! id = Some t) ->
  drop_loop sel order (reg s) = (hs, r') ->
  inv cap (mkSystem r' (calls s) (begun s) (rolled (rev hs) ++ finished s)).
Proof.
  induction order as [|[id t] order IH]; intros s hs r' I Hnd Hin Hl; simpl in Hl.
  - simplify_eq. by destruct s.
  - apply list.NoDup_cons in Hnd as [Hni Hnd].
    assert (forall id' t', (id', t') ∈ order -> txs (reg s) !! id' = Some t' /\ id' <> id) as Hin'.
    { intros id' t' He. split; [apply Hin; by right|]. intros ->. apply Hni.
      apply list_elem_of_fmap. by exists (id, t'). }
    destruct (sel t).
    + destruct (drop_loop sel order (dropLocked id t (reg s))) as [hs1 r1] eqn:E. simplify_eq.
      simpl. unfold rolled. rewrite fmap_app, <- app_assoc. simpl.
      apply (IH (mkSystem (dropLocked id t (reg s)) (calls s) (begun s)
        ((tx t, RolledBack) :: finished s)) hs1 r').
      * apply inv_drop_rolled; [done|]. apply Hin. by left.
      * done.
      * intros id' t' He. simpl. rewrite txs_drop, lookup_delete_ne; [by apply Hin'|].
        intros ->. by destruct (Hin' _ _ He).
      * done.
    + apply (IH s hs r' I Hnd); [|done]. intros id' t' He. by apply Hin'.
Qed.

Lemma inv_perm_finished cap s fin :
  inv cap s -> fin.*1 ≡ₚ (finished s).*1 -> inv cap (mkSystem (reg s) (calls s) (begun s) fin).
Proof.
  intros I Hf. constructor; simpl; try apply I. rewrite Hf. apply I.
Qed.

Lemma inv_walk cap sel s order hs r' :
  inv cap s -> order ≡ₚ map_to_list (txs (reg s)) -> drop_loop sel order (reg s) = (hs, r') ->
  inv cap (mkSystem r' (calls s) (begun s) (rolled hs ++ finished s)).
Proof.
  intros I Ho Hl. eapply (inv_perm_finished cap (mkSystem r' (calls s) (begun s) (rolled (rev hs) ++ finished s))).
  - apply (inv_drop_loop cap sel order s hs r' I); [| |done].
    + rewrite Ho. apply NoDup_fst_map_to_list.
    + intros id t. rewrite Ho. apply elem_of_map_to_list.
  - simpl. rewrite !fmap_app. apply Permutation_app_tail. unfold rolled.
    rewrite <- !list_fmap_compose. apply Permutation_map, Permutation_rev.
Qed.

(** Moving a call to another stage without touching the registry's entries. *)
Lemma starting_insert s i st st' k r b f :
  calls s !! i = Some st ->
  starting k (mkSystem r (<[i := st']> (calls s)) b f) =
    starting k s - (if decide (slot_of st = Some k) then 1 else 0)
      + (if decide (slot_of st' = Some k) then 1 else 0).
Proof. intros Hi. unfold starting. simpl. by rewrite (count_insert _ _ _ _ _ Hi). Qed.

Lemma in_hand_insert s i st st' :
  calls s !! i = Some st -> in_hand st = [] ->
  (<[i := st']> (calls s) ≫= in_hand) ≡ₚ in_hand st' ++ (calls s ≫= in_hand).
Proof. intros Hi Hst. by rewrite <- (bind_insert_perm in_hand _ _ _ st' Hi), Hst. Qed.

Lemma in_hand_leave s i st st' :
  calls s !! i = Some st -> in_hand st' = [] ->
  (calls s ≫= in_hand) ≡ₚ in_hand st ++ (<[i := st']> (calls s) ≫= in_hand).
Proof. intros Hi Hst. by rewrite (bind_insert_perm in_hand _ _ _ st' Hi), Hst. Qed.

Lemma inv_reserve cap s k timeout r' :
  inv cap s -> reserve k (reg s) = Ok r' ->
  inv cap (mkSystem r' (calls s ++ [SReserved k (tx_timeout timeout)]) (begun s) (finished s)).
Proof.
  intros I Hr. destruct (reserve_ok _ _ _ Hr) as (Hlt & Htxs & Hmax & Ho).
  pose proof (inv_limit _ _ I). constructor; simpl.
  - intros k'. rewrite Ho, (inv_count _ _ I). unfold starting, held, holders. simpl.
    rewrite Htxs, count_app, count_cons, count_nil. simpl.
    destruct (decide (k = k')); [rewrite decide_True by congruence|rewrite decide_False by congruence]; lia.
  - intros k'. rewrite Ho. pose proof (inv_cap _ _ I k'). case_decide; [subst k'|]; lia.
  - rewrite (limit_same (reg s)) by done. apply I.
  - rewrite bind_app. simpl. rewrite app_nil_r. unfold holders. rewrite Htxs. apply I.
  - apply I.
Qed.

Lemma inv_begin_failed cap s i k timeout :
  inv cap s -> calls s !! i = Some (SReserved k timeout) ->
  inv cap (mkSystem (release k (reg s)) (<[i := SOver]> (calls s)) (begun s) (finished s)).
Proof.
  intros I Hi.
  assert (1 <= starting k s) as Hpos.
  { apply (count_pos _ _ (SReserved k timeout)); [by eapply list_elem_of_lookup_2|done]. }
  pose proof (count_nonneg (fun t => pluginKey t = k) (holders (reg s))) as Hh. fold (held k s) in Hh.
  assert (0 < opened (reg s) k) as Hop by (rewrite (inv_count _ _ I); lia).
  constructor; simpl.
  - intros k'. rewrite opened_release, (inv_count _ _ I), (starting_insert _ _ _ _ _ _ _ _ Hi) by done.
    unfold held, holders. simpl. rewrite txs_release.
    destruct (decide (k = k')); [rewrite decide_True by congruence|rewrite decide_False by congruence]; lia.
  - intros k'. rewrite opened_release by done. pose proof (inv_cap _ _ I k'). case_decide; lia.
  - rewrite (limit_same (reg s)) by apply maxOpen_release. apply I.
  - rewrite (in_hand_insert _ _ _ _ Hi) by done. unfold holders. rewrite txs_release. apply I.
  - apply I.
Qed.

Lemma inv_begin_ok cap s i k timeout h :
  inv cap s -> calls s !! i = Some (SReserved k timeout) -> h ∉ begun s ->
  inv cap (mkSystem (reg s) (<[i := SOpened k timeout h]> (calls s)) (h :: begun s) (finished s)).
Proof.
  intros I Hi Hh. constructor; simpl.
  - intros k'. rewrite (inv_count _ _ I), (starting_insert _ _ _ _ _ _ _ _ Hi). simpl.
    unfold held. simpl. lia.
  - apply I.
  - apply I.
  - rewrite (in_hand_insert _ _ _ _ Hi) by done. simpl. by rewrite (inv_perm _ _ I).
  - constructor; [done|]. apply I.
Qed.

Lemma inv_insert cap s i k timeout h id now :
  inv cap s -> calls s !! i = Some (SOpened k timeout h) -> txs (reg s) !! id = None ->
  inv cap (mkSystem (record_tx id (mkOpenTx h k (now + timeout)) (reg s))
    (<[i := SOver]> (calls s)) (begun s) (finished s)).
Proof.
  intros I Hi Hid. constructor; simpl.
  - intros k'. change (opened (record_tx _ _ _) k') with (opened (reg s) k').
    rewrite (inv_count _ _ I), (starting_insert _ _ _ _ _ _ _ _ Hi).
    unfold held. simpl. rewrite (count_perm _ _ _ (holders_record _ _ _ Hid)), count_cons. simpl.
    destruct (decide (k = k')); [rewrite decide_True by congruence|rewrite decide_False by congruence]; lia.
  - intros k'. apply (inv_cap _ _ I k').
  - apply (inv_limit _ _ I).
  - rewrite (inv_perm _ _ I), (in_hand_leave _ _ _ SOver Hi) by done.
    rewrite (holders_record _ _ _ Hid). simpl. rewrite Permutation_middle. done.
  - apply I.
Qed.

Lemma inv_finish cap s i h c :
  inv cap s -> calls s !! i = Some (SFinishing h c) ->
  inv cap (mkSystem (reg s) (<[i := SOver]> (calls s)) (begun s) ((h, c) :: finished s)).
Proof.
  intros I Hi. constructor; simpl.
  - intros k'. rewrite (inv_count _ _ I), (starting_insert _ _ _ _ _ _ _ _ Hi). simpl.
    unfold held. simpl. lia.
  - apply I.
  - apply I.
  - rewrite (inv_perm _ _ I), (in_hand_leave _ _ _ SOver Hi) by done. simpl.
    rewrite !app_assoc, <- Permutation_middle. done.
  - apply I.
Qed.

Lemma inv_step cap s s' : inv cap s -> step cap s s' -> inv cap s'.
Proof.
  intros I. destruct 1 as [k timeout r' Hr|i k timeout Hi|i k timeout h Hi Hh|i k timeout h id now Hi Hid
    |now k id a hs r' Hl|k id t c r' Ht|i h c Hi|now order hs r' Ho Hl|order hs r' Ho Hl|n Hn].
  - by apply inv_reserve.
  - by eapply inv_begin_failed.
  - by eapply inv_begin_ok.
  - by apply inv_insert.
  - unfold Lookup in Hl. destruct (txs (reg s) !! id) as [t|] eqn:Hid; [|simplify_eq; by destruct s].
    case_bool_decide; [simplify_eq; by destruct s|].
    destruct (expiresAt t <? now); simplify_eq; [by apply inv_drop_rolled|by destruct s].
  - apply take_ok in Ht as (Hid & _ & ->). by apply inv_drop; [| |constructor|].
  - by apply inv_finish.
  - by eapply inv_walk.
  - by eapply inv_walk.
  - constructor; simpl; try apply I; done.
Qed.

Lemma inv_init cap : MaxOpenTxPerPlugin <= cap -> inv cap init.
Proof.
  unfold MaxOpenTxPerPlugin. intros Hc. constructor; simpl.
  - intros k. done.
  - intros k. change (opened NewTxRegistry k) with 0. lia.
  - done.
  - done.
  - constructor.
Qed.

Lemma inv_reachable cap s : MaxOpenTxPerPlugin <= cap -> reachable cap s -> inv cap s.
Proof.
  intros Hc Hs. eapply (rtc_invariant (step cap) (inv cap)); [|exact Hs|by apply inv_init].
  apply inv_step.
Qed.

Lemma drop_loop_txs sel order r : forall hs r',
  drop_loop sel order r = (hs, r') ->
  hs = tx <$> filter (fun t => sel t = true) order.*2 /\
  forall id, txs r' !! id =
    if bool_decide (id ∈ (filter (fun p => sel p.2 = true) order).*1) then None else txs r !! id.
Proof.
  revert r. induction order as [|[i t] order IH]; intros r hs r' Hl; simpl in Hl.
  - simplify_eq. split; [done|]. intros id.
    rewrite bool_decide_eq_false_2; [done|]. apply not_elem_of_nil.
  - rewrite fmap_cons, !filter_cons. simpl. destruct (sel t) eqn:E.
    + destruct (drop_loop sel order (dropLocked i t r)) as [hs1 r1] eqn:El. simplify_eq.
      destruct (IH _ _ _ El) as [-> IHr]. split; [done|]. intros id. rewrite IHr, txs_drop. simpl.
      destruct (decide (id = i)) as [->|].
      * rewrite lookup_delete_eq. rewrite (bool_decide_eq_true_2 (i ∈ i :: _)) by by left.
        by case_bool_decide.
      * rewrite lookup_delete_ne by done. do 2 case_bool_decide; try done; exfalso; set_solver.
    + destruct (IH _ _ _ Hl) as [-> IHr]. done.
Qed.

(** A walk over all entries removes exactly the selected ones. *)
Lemma walk_txs sel order r hs r' :
  order ≡ₚ map_to_list (txs r) -> drop_loop sel order r = (hs, r') ->
  txs r' = filter (fun p => sel p.2 = false) (txs r) /\
  hs ≡ₚ tx <$> filter (fun t => sel t = true) (holders r).
Proof.
  intros Ho Hl. destruct (drop_loop_txs _ _ _ _ _ Hl) as [-> Hr]. split.
  - apply map_eq. intros id. rewrite Hr.
    assert (id ∈ (filter (fun p => sel p.2 = true) order).*1 <->
      exists t, txs r !! id = Some t /\ sel t = true) as He.
    { rewrite list_elem_of_fmap. split.
      - intros ([i t] & -> & [Hs Hin]%list_elem_of_filter). exists t. split; [|done].
        rewrite Ho in Hin. by apply elem_of_map_to_list in Hin.
      - intros (t & Hid & Hs). exists (id, t). split; [done|]. apply list_elem_of_filter.
        split; [done|]. rewrite Ho. by apply elem_of_map_to_list. }
    case_bool_decide as Hd.
    + apply He in Hd as (t & Hid & Hs). symmetry. apply map_lookup_filter_None. right.
      intros t' Ht'. simpl. rewrite Hid in Ht'. simplify_eq. congruence.
    + symmetry. destruct (txs r !! id) as [t|] eqn:Hid.
      * apply map_lookup_filter_Some. split; [done|]. simpl. destruct (sel t) eqn:Es; [|done].
        exfalso. apply Hd, He. by exists t.
      * apply map_lookup_filter_None. by left.
  - unfold holders. by rewrite Ho.
Qed.

(** ** What holds *)

(** C21. The quota holds under every interleaving. However the calls of the
    plugins overlap - [Begin] cut at [db.BeginTx], lookups, commits,
    rollbacks, reaping and closing - the counter of a plugin is exactly the
    number of its transactions the registry holds plus the ones still being
    begun, and it never exceeds the ceiling: with the default ceiling no
    plugin ever holds more than eight connections. *)
Theorem quota_exact cap s :
  MaxOpenTxPerPlugin <= cap -> reachable cap s ->
  forall k, opened (reg s) k = starting k s + held k s /\ starting k s + held k s <= cap.
Proof.
  intros Hc Hs k. pose proof (inv_reachable _ _ Hc Hs) as I.
  rewrite <- (inv_count _ _ I). split; [done|apply I].
Qed.

(** C22. Every transaction is finalised exactly once. Under every interleaving,
    each handle [BeginTx] answered is either in the hands of one call in
    progress, or held by the registry under one id, or has been given exactly
    one [Commit] or [Rollback]: none is lost, none is finalised twice and none
    is finalised while it can still be looked up. *)
Theorem finalised_once cap s :
  MaxOpenTxPerPlugin <= cap -> reachable cap s ->
  begun s ≡ₚ (calls s ≫= in_hand) ++ (tx <$> holders (reg s)) ++ (finished s).*1 /\
  NoDup (finished s).*1 /\
  (forall h, h ∈ (finished s).*1 -> h ∉ tx <$> holders (reg s)) /\
  ((calls s ≫= in_hand) = [] -> txs (reg s) = ∅ -> begun s ≡ₚ (finished s).*1).
Proof.
  intros Hc Hs. pose proof (inv_reachable _ _ Hc Hs) as I. pose proof (inv_perm _ _ I) as Hp.
  pose proof (inv_nodup _ _ I) as Hn. rewrite Hp, !list.NoDup_app in Hn.
  destruct Hn as (_ & _ & _ & Hd & Hf). split_and!; [done|done| |].
  - intros h Hin Hh. by apply (Hd h).
  - intros E1 E2. rewrite Hp, E1. unfold holders. rewrite E2, map_to_list_empty. done.
Qed.

(** Owner and deadline. A transaction is found exactly by its owner, before
    its deadline, and left as it is; past the deadline the lookup rolls it
    back and frees its slot; an id that is unknown or another plugin's is the
    same error and changes nothing, for [Lookup], [Commit] and [Rollback]
    alike. [Commit] and [Rollback] do not look at the deadline: a transaction
    past it that the reaper has not met yet is still committed. *)
Lemma ownership now fin k id r :
  match txs r !! id with
  | Some t =>
      if decide (pluginKey t = k) then
        Lookup now k id r =
          (if expiresAt t <? now then (Err ErrUnknownTx, [tx t], dropLocked id t r)
           else (Ok (tx t), [], r)) /\
        Commit fin k id r =
          (match fin (tx t) with Some e => Err (CommitFailed e) | None => Ok () end, dropLocked id t r) /\
        Rollback fin k id r =
          (match fin (tx t) with Some e => Err (RollbackFailed e) | None => Ok () end, dropLocked id t r) /\
        txs (dropLocked id t r) = delete id (txs r)
      else
        Lookup now k id r = (Err ErrUnknownTx, [], r) /\
        Commit fin k id r = (Err ErrUnknownTx, r) /\ Rollback fin k id r = (Err ErrUnknownTx, r)
  | None =>
      Lookup now k id r = (Err ErrUnknownTx, [], r) /\
      Commit fin k id r = (Err ErrUnknownTx, r) /\ Rollback fin k id r = (Err ErrUnknownTx, r)
  end.
Proof.
  unfold Lookup, Commit, Rollback, take. destruct (txs r !! id) as [t|] eqn:Hid; [|done].
  case_decide.
  - rewrite bool_decide_eq_false_2 by naive_solver. split_and!; [done|done|done|apply txs_drop].
  - by rewrite bool_decide_eq_true_2.
Qed.

(** Reaping rolls back and removes exactly the transactions past their
    deadline, whatever order the map is walked in. *)
Lemma ReapExpired_spec now order r hs r' :
  order ≡ₚ map_to_list (txs r) -> ReapExpired now order r = (hs, r') ->
  txs r' = filter (fun p => expired now p.2 = false) (txs r) /\
  hs ≡ₚ tx <$> filter (fun t => expired now t = true) (holders r).
Proof. apply walk_txs. Qed.

(** The bound on a transaction's life a plugin cannot exceed. *)
Lemma tx_timeout_bounds timeout : 0 < tx_timeout timeout <= MaxTxTimeout.
Proof.
  unfold tx_timeout, MaxTxTimeout, DefaultTxTimeout, second.
  destruct (Z.leb_spec timeout 0); case_match; zbool; lia.
Qed.

(** ** Concrete runs *)

(** Two interleaved [Begin] calls of one plugin, one of which fails. *)
Definition sample : system :=
  mkSystem (mkTxRegistry {[ "t1" := mkOpenTx 7 "shop" (100 + DefaultTxTimeout) ]} 0 {[ "shop" := 1 ]})
    [SOver; SOver] [7] [].

Lemma sample_reachable : reachable 8 sample.
Proof.
  unfold reachable, init.
  eapply rtc_l; [by eapply (step_reserve _ _ "shop" 0)|].
  eapply rtc_l; [by eapply (step_reserve _ _ "shop" 0)|].
  eapply rtc_l; [by eapply (step_begin_ok _ _ 0 _ _ 7); [|apply not_elem_of_nil]|].
  eapply rtc_l; [by eapply (step_begin_failed _ _ 1)|].
  eapply rtc_l; [by eapply (step_insert _ _ 0 _ _ _ "t1" 100)|].
  apply rtc_refl.
Qed.

Lemma quota_exact_witness :
  reachable 8 sample /\
  opened (reg sample) "shop" = starting "shop" sample + held "shop" sample /\
  starting "shop" sample + held "shop" sample <= 8.
Proof.
  assert (MaxOpenTxPerPlugin <= 8) as H8 by (vm_compute; discriminate).
  split; [exact sample_reachable|]. exact (quota_exact 8 sample H8 sample_reachable "shop").
Defined.

Lemma finalised_once_witness : [7] ≡ₚ tx <$> holders (reg sample).
Proof.
  assert (MaxOpenTxPerPlugin <= 8) as H8 by (vm_compute; discriminate).
  pose proof (proj1 (finalised_once 8 sample H8 sample_reachable)) as H.
  cbn [sample calls begun finished] in H. cbn in H. rewrite app_nil_r in H. exact H.
Defined.

Example hex_example : randomTxID (Some [0; 171; 255]) "" = "00abff".
Proof. reflexivity. Qed.
