(* ===== verification/Sql.v ===== *)
(** * core/db: identifiers and statements

    What the files of core/db share: the check of dynamically built SQL
    identifiers (cmds.go) and the executor a statement runs on, a pool in
    autocommit or an open transaction ([execer] of tx.go). A statement is a
    function on the database; whether the server or the connection refuses it
    for reasons of its own is an input of the session. *)

From S2P Require Import Prelude GoStrings.
From Stdlib Require Import Ascii.

(** ** Identifiers *)

Definition is_letter (a : ascii) : bool :=
  let n := Ascii.nat_of_ascii a in
  (65 <=? n)%nat && (n <=? 90)%nat || (97 <=? n)%nat && (n <=? 122)%nat.

Definition is_digit (a : ascii) : bool :=
  let n := Ascii.nat_of_ascii a in (48 <=? n)%nat && (n <=? 57)%nat.

Definition is_word (a : ascii) : bool := is_letter a || is_digit a || Ascii.eqb a "_"%char.

Fixpoint all_bytes (f : ascii -> bool) (s : string) : bool :=
  match s with
  | EmptyString => true
  | String a s => f a && all_bytes f s
  end.

(** [^[a-zA-Z][a-zA-Z0-9_]*$] *)
Definition identifierRE (name : string) : bool :=
  match name with
  | EmptyString => false
  | String a s => is_letter a && all_bytes is_word s
  end.

Inductive db_error :=
| InvalidIdentifier (what name : string)
| FieldRequired
| ErrVersionConflict
| BadQuery (why : string)
| SqlFailed (doing : string) (e : string).

Definition ValidateIdentifier (what name : string) : result db_error () :=
  if identifierRE name then Ok () else Err (InvalidIdentifier what name).

Definition tableName (extKey collection : string) : result db_error string :=
  let? _ := ValidateIdentifier "extension key" extKey in
  let? _ := ValidateIdentifier "collection" collection in
  Ok ("ext_" +:+ extKey +:+ "_" +:+ collection).

Definition indexName (extKey collection : string) (fields : list string) : string :=
  "idx_" +:+ extKey +:+ "_" +:+ collection +:+ "_" +:+ join "_" fields.

Definition jsonPathExpr (field : string) : result db_error string :=
  let? _ := ValidateIdentifier "field" field in
  Ok ("(data->>'" +:+ field +:+ "')").

(** ** Sessions *)

(** [execer]: the pool, where each statement commits by itself, or a
    transaction, which PostgreSQL refuses to continue once a statement of it
    has failed. *)
Inductive execer := Pool | InTx (aborted : bool).

(** [faults] says, statement by statement, which ones fail for reasons outside
    the program: connection lost, timeout, server shutting down. *)
Record session (D : Type) := mkSession {
  store : D;
  ex : execer;
  faults : list bool;
  clock : Z
}.
Arguments mkSession {D} store ex faults clock.
Arguments store {D} s.
Arguments ex {D} s.
Arguments faults {D} s.
Arguments clock {D} s.

Definition failed (e : execer) : execer := match e with Pool => Pool | InTx _ => InTx true end.

Definition prog (D A : Type) : Type := session D -> result db_error A * session D.

Definition ret {D A} (a : A) : prog D A := fun s => (Ok a, s).
Definition fail {D A} (e : db_error) : prog D A := fun s => (Err e, s).
Definition lift {D A} (r : result db_error A) : prog D A := fun s => (r, s).
Definition bind {D A B} (m : prog D A) (k : A -> prog D B) : prog D B :=
  fun s => match m s with
           | (Ok a, s) => k a s
           | (Err e, s) => (Err e, s)
           end.
(** [v, err := m; ...] where the code goes on with the error in hand. *)
Definition try {D A} (m : prog D A) : prog D (result db_error A) :=
  fun s => let '(r, s) := m s in (Ok r, s).

(** A loop over a slice that returns at the first error. *)
Fixpoint each {D A} (f : A -> prog D ()) (l : list A) : prog D () :=
  match l with
  | [] => ret ()
  | a :: l => bind (f a) (fun _ => each f l)
  end.

Notation "'do!' x ':=' m 'in' k" := (bind m (fun x => k))
  (at level 10, x pattern, m at level 100, k at level 200) : go_scope.

(** The packages above core/db have errors of their own: [ok_or] is
    [v, err := m; if err != nil { return err }] around such an operation, and
    [wrapped] what makes one of a query. *)
Definition ok_or {D E A B} (m : prog D (result E A)) (k : A -> prog D (result E B))
    : prog D (result E B) :=
  do! r := m in match r with Ok a => k a | Err e => ret (Err e) end.

Definition wrapped {D E A} (f : db_error -> E) (m : prog D A) : prog D (result E A) :=
  do! r := try m in ret (match r with Ok a => Ok a | Err e => Err (f e) end).

Notation "'do?' x ':=' m 'in' k" := (ok_or m (fun x => k))
  (at level 10, x pattern, m at level 100, k at level 200) : go_scope.

Definition exec {D A} (doing : string) (stmt : Z -> D -> result string (A * D)) : prog D A := fun s =>
  match faults s with
  | true :: fs => (Err (SqlFailed doing "driver"), mkSession (store s) (failed (ex s)) fs (clock s))
  | _ =>
      let fs := tail (faults s) in
      match ex s with
      | InTx true =>
          (Err (SqlFailed doing "current transaction is aborted"), mkSession (store s) (InTx true) fs (clock s))
      | e =>
          match stmt (clock s) (store s) with
          | Ok (a, d) => (Ok a, mkSession d e fs (clock s))
          | Err why => (Err (SqlFailed doing why), mkSession (store s) (failed e) fs (clock s))
          end
      end
  end.

(** [db.BeginTx], [tx.Commit] and [tx.Rollback] around a body: what the body
    did is kept exactly when it succeeded and the commit did. *)
Definition own_tx {D A} (body : prog D A) : prog D A := fun s =>
  match faults s with
  | true :: fs => (Err (SqlFailed "begin batch" "driver"), mkSession (store s) Pool fs (clock s))
  | _ =>
      let '(r, s1) := body (mkSession (store s) (InTx false) (tail (faults s)) (clock s)) in
      let undo fs := mkSession (store s) Pool fs (clock s) in
      match r with
      | Err e => (Err e, undo (faults s1))
      | Ok a =>
          match faults s1, ex s1 with
          | true :: fs, _ => (Err (SqlFailed "commit batch" "driver"), undo fs)
          | fs, InTx true => (Err (SqlFailed "commit batch" "aborted"), undo (tail fs))
          | fs, _ => (Ok a, mkSession (store s1) Pool (tail fs) (clock s1))
          end
      end
  end.

(** ** Lemmas *)

Lemma all_bytes_app f a b : all_bytes f (a +:+ b) = all_bytes f a && all_bytes f b.
Proof. induction a as [|c a IH]; simpl; [done|]. by rewrite IH, andb_assoc. Qed.

Lemma identifierRE_word s : identifierRE s = true -> all_bytes is_word s = true /\ s <> "".
Proof.
  destruct s as [|a s]; simpl; [done|]. intros [Ha Hs]%andb_true_iff.
  unfold is_word at 1. by rewrite Ha, Hs.
Qed.

Lemma tableName_ok k c t :
  tableName k c = Ok t <->
  identifierRE k = true /\ identifierRE c = true /\ t = "ext_" +:+ k +:+ "_" +:+ c.
Proof.
  unfold tableName, ValidateIdentifier. destruct (identifierRE k), (identifierRE c); naive_solver.
Qed.

Lemma exec_ok {D A} doing (stmt : Z -> D -> result string (A * D)) s a s' :
  exec doing stmt s = (Ok a, s') ->
  stmt (clock s) (store s) = Ok (a, store s') /\ ex s' = ex s /\ clock s' = clock s.
Proof.
  unfold exec. intros H. destruct (faults s) as [|[] fs]; [|done|];
    destruct (ex s) as [|[]]; try done;
    (destruct (stmt (clock s) (store s)) as [[a' d]|e] eqn:E; simplify_eq; done).
Qed.

Lemma bind_inv {D A B} (m : prog D A) (k : A -> prog D B) s r s' :
  bind m k s = (r, s') ->
  (exists a s1, m s = (Ok a, s1) /\ k a s1 = (r, s')) \/ (exists e, m s = (Err e, s') /\ r = Err e).
Proof.
  unfold bind. destruct (m s) as [[a|e] s1]; [intros H; left; by exists a, s1|].
  intros [= <- <-]. right. by exists e.
Qed.

Lemma bind_ok {D A B} (m : prog D A) (k : A -> prog D B) s b s' :
  bind m k s = (Ok b, s') <-> exists a s1, m s = (Ok a, s1) /\ k a s1 = (Ok b, s').
Proof.
  unfold bind. destruct (m s) as [[a|e] s1]; [|split; [done|by intros (? & ? & ? & _)]].
  split; [by intros H; exists a, s1|]. by intros (a' & s2 & [= <- <-] & H).
Qed.

Lemma lift_inv {D A} (x : result db_error A) (s s' : session D) r :
  lift x s = (r, s') -> r = x /\ s' = s.
Proof. by intros [= <- <-]. Qed.

(** A statement that fails leaves the database as it was. *)
Lemma exec_err {D A} doing (stmt : Z -> D -> result string (A * D)) s e s' :
  exec doing stmt s = (Err e, s') ->
  store s' = store s /\ ex s' = failed (ex s) /\ clock s' = clock s.
Proof.
  unfold exec. intros H. destruct (faults s) as [|[] fs]; [|by simplify_eq|];
    destruct (ex s) as [|[]]; simplify_eq/=; try done;
    (destruct (stmt (clock s) (store s)) as [[a' d]|w]; simplify_eq/=; done).
Qed.

Lemma exec_run {D A} doing (stmt : Z -> D -> result string (A * D)) s a d :
  faults s = [] -> ex s <> InTx true -> stmt (clock s) (store s) = Ok (a, d) ->
  exec doing stmt s = (Ok a, mkSession d (ex s) [] (clock s)).
Proof.
  unfold exec. intros -> Hex ->. by destruct (ex s) as [|[]].
Qed.

(** ** What a program can do to the database

    [within R p]: whatever [p] answers, the database it leaves is related to
    the one it found. Proved once for the connectives, a preorder [R] is then
    established for an operation by looking at its statements only. *)

Definition within {D A} (R : D -> D -> Prop) (p : prog D A) : Prop :=
  forall s r s', p s = (r, s') -> R (store s) (store s').

Section within.
Context {D : Type} (R : D -> D -> Prop) `{!PreOrder R}.

Lemma within_ret {A} (a : A) : within R (ret a).
Proof using Type*. intros s r s' [= <- <-]. reflexivity. Qed.

Lemma within_fail {A} e : within R (fail (A := A) e).
Proof using Type*. intros s r s' [= <- <-]. reflexivity. Qed.

Lemma within_lift {A} (x : result db_error A) : within R (lift x).
Proof using Type*. intros s r s' [= <- <-]. reflexivity. Qed.

Lemma within_bind {A B} (m : prog D A) (k : A -> prog D B) :
  within R m -> (forall a, within R (k a)) -> within R (bind m k).
Proof using Type*.
  intros Hm Hk s r s' H. unfold bind in H. destruct (m s) as [[a|e] s1] eqn:E.
  - transitivity (store s1); [by eapply Hm|by eapply Hk].
  - simplify_eq. by eapply Hm.
Qed.

Lemma within_try {A} (m : prog D A) : within R m -> within R (try m).
Proof using Type*.
  intros Hm s r s' H. unfold try in H. destruct (m s) as [x s1] eqn:E. simplify_eq. by eapply Hm.
Qed.

Lemma within_each {A} (f : A -> prog D ()) l :
  Forall (fun a => within R (f a)) l -> within R (each f l).
Proof using Type*.
  induction 1 as [|a l Ha _ IH]; simpl; [apply within_ret|]. by apply within_bind.
Qed.

Lemma within_exec {A} doing (stmt : Z -> D -> result string (A * D)) :
  (forall now d a d', stmt now d = Ok (a, d') -> R d d') -> within R (exec doing stmt).
Proof using Type*.
  intros Hs s [a|e] s' H.
  - apply exec_ok in H as (H & _). by eapply Hs.
  - apply exec_err in H as (-> & _). reflexivity.
Qed.

Lemma within_own_tx {A} (body : prog D A) : within R body -> within R (own_tx body).
Proof using Type*.
  intros Hb s r s' H. unfold own_tx in H.
  assert (forall r1 s1, body (mkSession (store s) (InTx false) (tail (faults s)) (clock s)) = (r1, s1) ->
    R (store s) (store s1)) as Hbody by (intros r1 s1 E; by apply (Hb _ _ _ E)).
  destruct (faults s) as [|[] fs]; try (simplify_eq/=; reflexivity);
    destruct (body _) as [[a|e] s1]; try (simplify_eq/=; reflexivity);
    specialize (Hbody _ _ eq_refl);
    destruct (faults s1) as [|[] fs1], (ex s1) as [|[]]; simplify_eq/=; done || reflexivity.
Qed.
End within.

Lemma within_ok_or {D E A B} (R : D -> D -> Prop) `{!PreOrder R} (m : prog D (result E A))
    (k : A -> prog D (result E B)) :
  within R m -> (forall a, within R (k a)) -> within R (ok_or m k).
Proof.
  intros Hm Hk. apply within_bind; [apply _|done|]. intros [a|e]; [apply Hk|by apply (within_ret _)].
Qed.

Lemma within_wrapped {D E A} (R : D -> D -> Prop) `{!PreOrder R} (f : db_error -> E) (m : prog D A) :
  within R m -> within R (wrapped f m).
Proof. intros Hm. apply within_bind; [apply _|by apply (within_try _)|]. intros r. by apply (within_ret _). Qed.

Lemma wrapped_ok {D E A} (f : db_error -> E) (m : prog D A) s a s' :
  wrapped f m s = (Ok (Ok a), s') <-> m s = (Ok a, s').
Proof. unfold wrapped, bind, try, ret. destruct (m s) as [[x|e] s1]; naive_solver. Qed.

Lemma ok_or_ok {D E A B} (m : prog D (result E A)) (k : A -> prog D (result E B)) s b s' :
  ok_or m k s = (Ok (Ok b), s') <->
  exists a s1, m s = (Ok (Ok a), s1) /\ k a s1 = (Ok (Ok b), s').
Proof.
  unfold ok_or, bind, ret. destruct (m s) as [[[a|e]|e] s1]; split; try by intros (?&?&?&?).
  - intros H. by exists a, s1.
  - by intros (a' & s2 & [= <- <-] & H).
  - done.
  - done.
Qed.

(** Either [k] is reached, or the whole does what [m] does. *)
Lemma ok_or_inv {D E A B} (m : prog D (result E A)) (k : A -> prog D (result E B)) s r s' :
  ok_or m k s = (r, s') ->
  (exists a s1, m s = (Ok (Ok a), s1) /\ k a s1 = (r, s')) \/ (exists r0, m s = (r0, s')).
Proof.
  unfold ok_or, bind, ret. destruct (m s) as [[[a|e]|e] s1]; intros H.
  - left. by exists a, s1.
  - right. simplify_eq. eauto.
  - right. simplify_eq. eauto.
Qed.

(** The queries that only read. *)
Lemma within_read {D A} doing (stmt : Z -> D -> result string (A * D)) :
  (forall now d a d', stmt now d = Ok (a, d') -> d' = d) -> within eq (exec doing stmt).
Proof. intros H. apply within_exec; [apply _|]. intros now d a d' E. symmetry. by eapply H. Qed.

(** They keep any relation that is reflexive. *)
Lemma reads_refl {D A} (R : D -> D -> Prop) `{!PreOrder R} (m : prog D A) :
  within eq m -> within R m.
Proof. intros H s r s' E. apply H in E as <-. reflexivity. Qed.

Ltac within_steps :=
  repeat first
    [ apply (within_ret _)
    | apply (within_wrapped _)
    | apply (within_ok_or _); [|intros ?]
    | case_match ].

(** A transaction of its own is all or nothing. *)
Lemma own_tx_atomic {D A} (body : prog D A) s r s' :
  own_tx body s = (r, s') ->
  match r with
  | Ok a => exists s1, body (mkSession (store s) (InTx false) (tail (faults s)) (clock s)) = (Ok a, s1) /\
      store s' = store s1
  | Err _ => store s' = store s
  end.
Proof.
  intros H. unfold own_tx in H.
  destruct (faults s) as [|[] fs]; simpl in *; try (simplify_eq/=; done);
    destruct (body _) as [[a|e] s1] eqn:E; try (simplify_eq/=; done);
    destruct (faults s1) as [|[] fs1], (ex s1) as [|[]]; simplify_eq/=; eauto.
Qed.

#[export] Hint Resolve within_ret within_fail within_lift within_bind within_try within_own_tx : gohints.
