(* ===== verification/Documents.v ===== *)
(** * core/db/cmds.go and tx.go: the document store's writes and reads by id

    One table per plugin and collection, rows with a version, and the
    operations a plugin reaches through the host services: [PutVersioned],
    [GetVersioned], [DeleteIn], [BatchWrite], and the older [Put], [Get] and
    [Delete]. A statement is the meaning of the SQL text the operation sends.

    The server's share is a parameter: [ident] is the name an unquoted
    identifier stands for, [jsonb] the value a JSONB column keeps of a text
    (none when the text is not JSON), [field_text] the [->>] operator, and
    [varchar n] the texts a [VARCHAR(n)] column takes. *)

From S2P Require Import Prelude GoStrings Sql.
From Stdlib Require Import Ascii.

Open Scope Z_scope.

Record row := mkRow { data : string; version : Z; created_at : Z; updated_at : Z }.

(** [versioned]: the table has the column [version], which the first tables of
    this kind did not. *)
Record table := mkTable { rows : gmap string row; versioned : bool }.

Record index := mkIndex { on_table : string; ifields : list string; iunique : bool }.

Record database := mkDb { tables : gmap string table; indexes : gmap string index }.

Record BatchOp := mkBatchOp {
  op_Delete : bool; op_Collection : string; op_DocID : string; op_Data : string
}.

Section server.
Context (ident : string -> string) (jsonb : string -> option string)
  (field_text : string -> string -> option string) (varchar : Z -> string -> bool).

(** ** Statements *)

(** The columns of an index on a row; a row with a NULL in one is exempt from
    uniqueness. *)
Definition index_key (fields : list string) (r : row) : option (list string) :=
  mapM (fun f => field_text f (data r)) fields.

Definition row_list (rs : gmap string row) : list row := (map_to_list rs).*2.

Definition unique_on (fields : list string) (rs : gmap string row) : bool :=
  bool_decide (NoDup (omap (index_key fields) (row_list rs))).

Definition unique_ok (db : database) (tname : string) (rs : gmap string row) : bool :=
  forallb (fun ix => negb (bool_decide (on_table ix = tname) && iunique ix) || unique_on (ifields ix) rs)
    (map_to_list (indexes db)).*2.

Definition with_table {A} (name : string) (db : database) (f : table -> result string (A * database))
    : result string (A * database) :=
  match tables db !! ident name with
  | None => Err "relation does not exist"
  | Some t => f t
  end.

Definition set_rows (name : string) (t : table) (rs : gmap string row) (db : database) : database :=
  mkDb (<[ident name := mkTable rs (versioned t)]> (tables db)) (indexes db).

Definition write_row {A} (name : string) (t : table) (id : string) (r : row) (a : A) (db : database)
    : result string (A * database) :=
  let rs := <[id := r]> (rows t) in
  if unique_ok db (ident name) rs then Ok (a, set_rows name t rs db)
  else Err "duplicate key value violates unique constraint".

Definition next_version (r : row) : result string Z :=
  let v := version r + 1 in
  if v <? 2 ^ 63 then Ok v else Err "bigint out of range".

Definition as_jsonb (txt : string) : result string string :=
  match jsonb txt with Some j => Ok j | None => Err "invalid input syntax for type json" end.

Definition stmt_upsert_versioned (name id txt : string) (now : Z) (db : database)
    : result string (Z * database) :=
  with_table name db (fun t =>
    reject? negb (versioned t) with "column version does not exist" ;;
    let? j := as_jsonb txt in
    reject? negb (varchar 100 id) with "value too long" ;;
    match rows t !! id with
    | None => write_row name t id (mkRow j 1 now now) 1 db
    | Some r => let? v := next_version r in write_row name t id (mkRow j v (created_at r) now) v db
    end).

(** The answer is the new version, or nothing when no row matched. *)
Definition stmt_update_versioned (name id txt : string) (expected now : Z) (db : database)
    : result string (option Z * database) :=
  with_table name db (fun t =>
    reject? negb (versioned t) with "column version does not exist" ;;
    let? j := as_jsonb txt in
    match rows t !! id with
    | Some r =>
        if version r =? expected then
          let? v := next_version r in write_row name t id (mkRow j v (created_at r) now) (Some v) db
        else Ok (None, db)
    | None => Ok (None, db)
    end).

Definition stmt_upsert (name id txt : string) (now : Z) (db : database) : result string (() * database) :=
  with_table name db (fun t =>
    let? j := as_jsonb txt in
    reject? negb (varchar 100 id) with "value too long" ;;
    match rows t !! id with
    | None => write_row name t id (mkRow j 1 now now) () db
    | Some r => write_row name t id (mkRow j (version r) (created_at r) now) () db
    end).

Definition stmt_select (name id : string) (now : Z) (db : database) : result string (option row * database) :=
  with_table name db (fun t => Ok (rows t !! id, db)).

Definition stmt_select_versioned (name id : string) (now : Z) (db : database)
    : result string (option row * database) :=
  with_table name db (fun t =>
    reject? negb (versioned t) with "column version does not exist" ;;
    Ok (rows t !! id, db)).

(** The answer is the number of rows affected. *)
Definition stmt_delete (name id : string) (now : Z) (db : database) : result string (Z * database) :=
  with_table name db (fun t =>
    Ok (match rows t !! id with Some _ => 1 | None => 0 end, set_rows name t (delete id (rows t)) db)).

(** ** Operations *)

Definition PutVersioned (extKey collection docID txt : string) (expectedVersion : Z) : prog database Z :=
  do! tname := lift (tableName extKey collection) in
  if expectedVersion =? 0 then exec "put" (stmt_upsert_versioned tname docID txt)
  else
    do! v := exec "put" (stmt_update_versioned tname docID txt expectedVersion) in
    match v with
    | None => fail ErrVersionConflict
    | Some v => ret v
    end.

Definition GetVersioned (extKey collection docID : string) : prog database (option (string * Z)) :=
  do! tname := lift (tableName extKey collection) in
  do! r := exec "get" (stmt_select_versioned tname docID) in
  ret ((fun r => (data r, version r)) <$> r).

Definition DeleteIn (extKey collection docID : string) : prog database bool :=
  do! tname := lift (tableName extKey collection) in
  do! n := exec "delete" (stmt_delete tname docID) in
  ret (0 <? n).

Definition apply_op (extKey : string) (op : BatchOp) : prog database () :=
  if op_Delete op then
    do! _ := DeleteIn extKey (op_Collection op) (op_DocID op) in ret ()
  else
    do! _ := PutVersioned extKey (op_Collection op) (op_DocID op) (op_Data op) 0 in ret ().

(** Go returns the count and the error together. *)
Fixpoint applyBatch_from (applied : Z) (extKey : string) (ops : list BatchOp)
    : prog database (Z * option db_error) :=
  match ops with
  | [] => ret (applied, None)
  | op :: ops =>
      do! r := try (apply_op extKey op) in
      match r with
      | Err e => ret (applied, Some e)
      | Ok _ => applyBatch_from (applied + 1) extKey ops
      end
  end.

Definition applyBatch : string -> list BatchOp -> prog database (Z * option db_error) :=
  applyBatch_from 0.

(** Both returned values again: a batch in a transaction of the caller reports
    how far it came. *)
Definition BatchWrite (extKey : string) (ops : list BatchOp) : prog database (Z * option db_error) :=
  fun s =>
    match ops with
    | [] => (Ok (0, None), s)
    | _ =>
        match ex s with
        | InTx _ => applyBatch extKey ops s
        | Pool =>
            let '(r, s) :=
              own_tx (do! (n, e) := applyBatch extKey ops in
                      match e with Some e => fail e | None => ret n end) s in
            (Ok (match r with Ok n => (n, None) | Err e => (0, Some e) end), s)
        end
    end.

(** The operations of cmds.go that know no version. *)
Definition Put (extKey collection docID txt : string) : prog database () :=
  do! tname := lift (tableName extKey collection) in
  exec "put" (stmt_upsert tname docID txt).

Definition Get_ (extKey collection docID : string) : prog database (option string) :=
  do! tname := lift (tableName extKey collection) in
  do! r := exec "get" (stmt_select tname docID) in
  ret (data <$> r).

Definition Delete (extKey collection docID : string) : prog database () :=
  do! tname := lift (tableName extKey collection) in
  do! _ := exec "delete" (stmt_delete tname docID) in ret ().

(** ** What one statement does *)

Lemma write_row_ok {A} name t id r (a : A) db x db' :
  write_row name t id r a db = Ok (x, db') <->
  x = a /\ unique_ok db (ident name) (<[id := r]> (rows t)) = true /\
  db' = set_rows name t (<[id := r]> (rows t)) db.
Proof.
  unfold write_row. destruct (unique_ok _ _ _).
  - split; [intros [= <- <-]; done|by intros (-> & _ & ->)].
  - split; [done|by intros (_ & ? & _)].
Qed.

Lemma with_table_ok {A} name db (f : table -> result string (A * database)) x :
  with_table name db f = Ok x <-> exists t, tables db !! ident name = Some t /\ f t = Ok x.
Proof.
  unfold with_table. destruct (tables db !! ident name) as [t|].
  - split; [by exists t|by intros (t' & [= <-] & ?)].
  - split; [done|by intros (t' & ? & _)].
Qed.

Lemma next_version_ok r v : next_version r = Ok v <-> v = version r + 1 /\ v < 2 ^ 63.
Proof.
  unfold next_version. destruct (Z.ltb_spec (version r + 1) (2 ^ 63)) as [H|H].
  - split; [by intros [= <-]|by intros [-> _]].
  - split; [done|intros [-> ?]; lia].
Qed.

(** The one shape of every write: the table exists, and only the row [id] of
    it differs, as [P] relates its old and new contents. *)
Definition touches (name id : string) (P : option row -> option row -> Prop) (db db' : database) : Prop :=
  exists t rs, tables db !! ident name = Some t /\ db' = set_rows name t rs db /\
    (unique_ok db (ident name) rs = true \/ rs = delete id (rows t)) /\
    (forall id', id' <> id -> rs !! id' = rows t !! id') /\
    P (rows t !! id) (rs !! id).

Lemma write_row_touches {A} name t id r (a : A) db x db' (P : option row -> option row -> Prop) :
  tables db !! ident name = Some t -> write_row name t id r a db = Ok (x, db') ->
  P (rows t !! id) (Some r) -> x = a /\ touches name id P db db'.
Proof.
  intros Ht (-> & Hu & ->)%write_row_ok HP. split; [done|].
  exists t, (<[id := r]> (rows t)). split_and!; [done|done|by left| |by rewrite lookup_insert_eq].
  intros id' Hne. by rewrite lookup_insert_ne.
Qed.

(** A versioned write: the version goes up by one, or starts at one. *)
Definition bumped (txt : string) (now v : Z) (o o' : option row) : Prop :=
  exists j, jsonb txt = Some j /\
    match o with
    | None => v = 1 /\ o' = Some (mkRow j 1 now now)
    | Some r => v = version r + 1 /\ v < 2 ^ 63 /\ o' = Some (mkRow j v (created_at r) now)
    end.

Lemma as_jsonb_ok txt j : as_jsonb txt = Ok j -> jsonb txt = Some j.
Proof. unfold as_jsonb. destruct (jsonb txt); by intros [= <-]. Qed.

Lemma upsert_versioned_ok name id txt now db v db' :
  stmt_upsert_versioned name id txt now db = Ok (v, db') ->
  touches name id (bumped txt now v) db db'.
Proof.
  unfold stmt_upsert_versioned. rewrite with_table_ok. intros (t & Ht & H). peel_all H.
  apply as_jsonb_ok in Hr. destruct (rows t !! id) as [r0|] eqn:Hid.
  - peel H. apply next_version_ok in Hr0 as [-> Hv].
    pose proof (proj1 (proj1 (write_row_ok _ _ _ _ _ _ _ _) H)) as ->.
    apply (write_row_touches _ _ _ _ _ _ _ _ _ Ht H). rewrite Hid. by exists r.
  - pose proof (proj1 (proj1 (write_row_ok _ _ _ _ _ _ _ _) H)) as ->.
    apply (write_row_touches _ _ _ _ _ _ _ _ _ Ht H). rewrite Hid. by exists r.
Qed.

Lemma update_versioned_ok name id txt expected now db o db' :
  stmt_update_versioned name id txt expected now db = Ok (o, db') ->
  match o with
  | Some v => exists r, (tables db !! ident name ≫= fun t => rows t !! id) = Some r /\
      version r = expected /\ touches name id (bumped txt now v) db db'
  | None => db' = db /\
      forall r, (tables db !! ident name ≫= fun t => rows t !! id) = Some r -> version r <> expected
  end.
Proof.
  unfold stmt_update_versioned. rewrite with_table_ok. intros (t & Ht & H). peel_all H.
  apply as_jsonb_ok in Hr. rewrite Ht. simpl. destruct (rows t !! id) as [r0|] eqn:Hid.
  - destruct (Z.eqb_spec (version r0) expected) as [He|He].
    + peel H. apply next_version_ok in Hr0 as [-> Hv].
      pose proof (proj1 (proj1 (write_row_ok _ _ _ _ _ _ _ _) H)) as ->. exists r0.
      split_and!; [done|done|].
      apply (write_row_touches _ _ _ _ _ _ _ _ _ Ht H). rewrite Hid. by exists r.
    + simplify_eq. split; [done|]. by intros r' [= <-].
  - simplify_eq. done.
Qed.

Lemma upsert_ok name id txt now db x db' :
  stmt_upsert name id txt now db = Ok (x, db') ->
  touches name id (fun o o' => exists j, jsonb txt = Some j /\
    match o with
    | None => o' = Some (mkRow j 1 now now)
    | Some r => o' = Some (mkRow j (version r) (created_at r) now)
    end) db db'.
Proof.
  unfold stmt_upsert. rewrite with_table_ok. intros (t & Ht & H). peel_all H.
  apply as_jsonb_ok in Hr. destruct (rows t !! id) as [r0|] eqn:Hid;
    apply (write_row_touches _ _ _ _ _ _ _ _ _ Ht H); rewrite Hid; by exists r.
Qed.

Lemma delete_ok name id now db n db' :
  stmt_delete name id now db = Ok (n, db') ->
  touches name id (fun o o' => o' = None /\ n = match o with Some _ => 1 | None => 0 end) db db'.
Proof.
  unfold stmt_delete. rewrite with_table_ok. intros (t & Ht & [= <- <-]).
  exists t, (delete id (rows t)). split_and!; [done|done|by right| | |done].
  - intros id' Hne. by rewrite lookup_delete_ne.
  - by rewrite lookup_delete_eq.
Qed.

Lemma select_versioned_ok name id now db o db' :
  stmt_select_versioned name id now db = Ok (o, db') ->
  db' = db /\ o = (tables db !! ident name ≫= fun t => rows t !! id).
Proof.
  unfold stmt_select_versioned. rewrite with_table_ok. intros (t & Ht & H). peel H. simplify_eq.
  by rewrite Ht.
Qed.

Definition row_at (name id : string) (db : database) : option row :=
  tables db !! ident name ≫= fun t => rows t !! id.

Lemma touches_here name id P db db' :
  touches name id P db db' -> P (row_at name id db) (row_at name id db').
Proof.
  intros (t & rs & Ht & -> & _ & _ & HP). unfold row_at. rewrite Ht. simpl.
  by rewrite lookup_insert_eq.
Qed.

Lemma touches_elsewhere name id P db db' name' id' :
  touches name id P db db' -> (ident name', id') <> (ident name, id) ->
  row_at name' id' db' = row_at name' id' db.
Proof.
  intros (t & rs & Ht & -> & _ & Ho & _) Hne. unfold row_at. simpl.
  destruct (decide (ident name' = ident name)) as [E|E].
  - rewrite E, lookup_insert_eq, Ht. simpl. apply Ho. congruence.
  - by rewrite lookup_insert_ne.
Qed.

(** ** Operations, statement by statement *)

Definition expected_met (name id : string) (expected : Z) (db : database) : Prop :=
  expected = 0 \/ exists r, row_at name id db = Some r /\ version r = expected.

Lemma PutVersioned_inv k c id txt expected s r s' :
  PutVersioned k c id txt expected s = (r, s') ->
  match r with
  | Ok v => exists t, tableName k c = Ok t /\ expected_met t id expected (store s) /\
      touches t id (bumped txt (clock s) v) (store s) (store s')
  | Err e => store s' = store s /\
      (e = ErrVersionConflict -> expected <> 0 /\ exists t, tableName k c = Ok t /\
         ~ expected_met t id expected (store s))
  end.
Proof.
  intros H. unfold PutVersioned in H.
  apply bind_inv in H as [(t & s1 & [Ht ->]%lift_inv & H)|(e & [He ->]%lift_inv & ->)].
  - symmetry in Ht. destruct (Z.eqb_spec expected 0) as [E|E].
    + destruct r as [v|e].
      * apply exec_ok in H as (H & _). exists t. split_and!; [done|by left|].
        by apply upsert_versioned_ok.
      * pose proof (exec_err _ _ _ _ _ H) as (Hs & _). split; [done|]. intros ->.
        unfold exec in H. by repeat case_match; simplify_eq.
    + apply bind_inv in H as [([v|] & s2 & H & Hk)|(e & H & ->)].
      * injection Hk as <- <-. apply exec_ok in H as (H & _).
        apply update_versioned_ok in H as (r0 & Hr0 & Hv & Htc). exists t. split_and!; [done| |done].
        right. by exists r0.
      * injection Hk as <- <-. apply exec_ok in H as (H & _).
        apply update_versioned_ok in H as (Hs & Hne). split; [done|]. intros _. split; [done|].
        exists t. split; [done|]. intros [?|(r0 & Hr0 & Hv)]; [done|]. by apply (Hne r0).
      * pose proof (exec_err _ _ _ _ _ H) as (Hs & _). split; [done|]. intros ->.
        unfold exec in H. by repeat case_match; simplify_eq.
  - split; [done|]. intros ->. symmetry in He. unfold tableName, ValidateIdentifier in He.
    by destruct (identifierRE k), (identifierRE c).
Qed.

Lemma DeleteIn_inv k c id s r s' :
  DeleteIn k c id s = (r, s') ->
  match r with
  | Ok b => exists t, tableName k c = Ok t /\
      touches t id (fun o o' => o' = None /\ b = bool_decide (is_Some o)) (store s) (store s')
  | Err _ => store s' = store s
  end.
Proof.
  intros H. unfold DeleteIn in H.
  apply bind_inv in H as [(t & s1 & [Ht ->]%lift_inv & H)|(e & [He ->]%lift_inv & ->)]; [|done].
  apply bind_inv in H as [(n & s2 & H & Hk)|(e & H & ->)].
  - injection Hk as <- <-. apply exec_ok in H as (H & _). exists t. split; [done|].
    apply delete_ok in H as (t0 & rs & ? & ? & ? & ? & [Hn ->]). exists t0, rs.
    split_and!; [done|done|done|done|done|]. by destruct (rows t0 !! id).
  - by apply exec_err in H as (-> & _).
Qed.

Lemma GetVersioned_inv k c id s a s' :
  GetVersioned k c id s = (Ok a, s') ->
  exists t, tableName k c = Ok t /\ store s' = store s /\
    a = (fun r => (data r, version r)) <$> row_at t id (store s).
Proof.
  intros H. unfold GetVersioned in H.
  apply bind_inv in H as [(t & s1 & [Ht ->]%lift_inv & H)|(e & [He ->]%lift_inv & ?)]; [|done].
  apply bind_inv in H as [(o & s2 & H & Hk)|(e & H & ?)]; [|done].
  injection Hk as <- <-. apply exec_ok in H as (H & _). apply select_versioned_ok in H as [-> ->].
  by exists t.
Qed.

(** A preorder holds of [BatchWrite] when it holds of its elements. *)
Lemma within_applyBatch (R : database -> database -> Prop) `{!PreOrder R} k ops n :
  Forall (fun op => within R (apply_op k op)) ops -> within R (applyBatch_from n k ops).
Proof.
  intros H. revert n. induction H as [|op ops Hop _ IH]; intros n; simpl; [by apply within_ret|].
  apply within_bind; [done|by apply within_try|]. intros [a|e]; [apply IH|by apply within_ret].
Qed.

Lemma within_BatchWrite (R : database -> database -> Prop) `{!PreOrder R} k ops :
  Forall (fun op => within R (apply_op k op)) ops -> within R (BatchWrite k ops).
Proof.
  intros H s r s' E. unfold BatchWrite in E.
  destruct ops as [|op ops]; [by simplify_eq|].
  destruct (ex s).
  - destruct (own_tx _ s) as [r1 s1] eqn:Eo. simplify_eq.
    eapply (within_own_tx R); [|exact Eo]. apply within_bind; [done|by apply within_applyBatch|].
    intros [n [e|]]; [by apply within_fail|by apply within_ret].
  - by eapply (within_applyBatch R k (op :: ops)).
Qed.

(** ** The invariant *)

(** Versions start at one and stay within BIGINT, every index is on a table
    there is, and a unique index is unique. *)
Record db_ok (db : database) : Prop := {
  ok_versions : forall n t id r, tables db !! n = Some t -> rows t !! id = Some r ->
    1 <= version r < 2 ^ 63;
  ok_indexes : forall n ix, indexes db !! n = Some ix ->
    exists t, tables db !! on_table ix = Some t /\
      (iunique ix = true -> unique_on (ifields ix) (rows t) = true)
}.

Definition keeps_ok (db db' : database) : Prop := db_ok db -> db_ok db'.

#[export] Instance keeps_ok_preorder : PreOrder keeps_ok.
Proof. split; unfold keeps_ok; auto. Qed.

Lemma unique_ok_spec db n rs :
  unique_ok db n rs = true <->
  forall i ix, indexes db !! i = Some ix -> on_table ix = n -> iunique ix = true ->
    unique_on (ifields ix) rs = true.
Proof.
  unfold unique_ok. rewrite forallb_elem. split.
  - intros H i ix Hi Hn Hu. specialize (H ix).
    rewrite bool_decide_eq_true_2, Hu in H by done. apply H. apply list_elem_of_fmap.
    exists (i, ix). split; [done|]. by apply elem_of_map_to_list.
  - intros H ix ([i ix'] & -> & Hi%elem_of_map_to_list)%list_elem_of_fmap. simpl.
    case_bool_decide; simpl; [|done]. destruct (iunique ix') eqn:E; [|done]. simpl. by eapply H.
Qed.

Lemma unique_on_delete fields rs id : unique_on fields rs = true -> unique_on fields (delete id rs) = true.
Proof.
  unfold unique_on, row_list. rewrite !bool_decide_eq_true.
  destruct (rs !! id) as [r|] eqn:E.
  - rewrite <- (map_to_list_delete rs id r E). simpl.
    destruct (index_key fields r); [by intros [_ ?]%list.NoDup_cons|done].
  - by rewrite delete_id.
Qed.

Lemma touches_keeps_ok name id P db db' :
  (forall o r, P o (Some r) -> (forall r0, o = Some r0 -> 1 <= version r0 < 2 ^ 63) ->
    1 <= version r < 2 ^ 63) ->
  touches name id P db db' -> keeps_ok db db'.
Proof.
  intros HP (t & rs & Ht & -> & Hu & Ho & Hid) [Hv Hi]. constructor; simpl.
  - intros n t' id' r Hn Hr. destruct (decide (n = ident name)) as [->|].
    + rewrite lookup_insert_eq in Hn. simplify_eq/=. destruct (decide (id' = id)) as [->|].
      * rewrite Hr in Hid. apply (HP _ _ Hid). intros r0. by eapply Hv.
      * rewrite Ho in Hr by done. by eapply Hv.
    + rewrite lookup_insert_ne in Hn by done. by eapply Hv.
  - intros n ix Hn. destruct (Hi n ix Hn) as (t0 & Ht0 & Hun).
    destruct (decide (on_table ix = ident name)) as [E|E].
    + rewrite E in *. assert (t0 = t) as -> by congruence. exists (mkTable rs (versioned t)).
      rewrite lookup_insert_eq. split; [done|]. simpl. intros Hx. destruct Hu as [Hu| ->].
      * eapply unique_ok_spec; [exact Hu|done|done|done].
      * by apply unique_on_delete, Hun.
    + exists t0. by rewrite lookup_insert_ne.
Qed.

Lemma PutVersioned_keeps_ok k c id txt e : within keeps_ok (PutVersioned k c id txt e).
Proof.
  intros s [v|x] s' H; apply PutVersioned_inv in H.
  - destruct H as (t & _ & _ & H). eapply touches_keeps_ok; [|exact H]. intros o r (j & _ & Hb) Hr.
    destruct o as [r0|]; [|by destruct Hb as [-> [= ->]]].
    destruct Hb as (-> & Hlt & [= ->]). simpl. specialize (Hr r0 eq_refl). lia.
  - destruct H as [-> _]. reflexivity.
Qed.

Lemma DeleteIn_keeps_ok k c id : within keeps_ok (DeleteIn k c id).
Proof.
  intros s [b|x] s' H; apply DeleteIn_inv in H; [|by rewrite H].
  destruct H as (t & _ & H). eapply touches_keeps_ok; [|exact H]. by intros o r [? _].
Qed.

Lemma apply_op_within (R : database -> database -> Prop) `{!PreOrder R} k op :
  (op_Delete op = true -> within R (DeleteIn k (op_Collection op) (op_DocID op))) ->
  (op_Delete op = false -> within R (PutVersioned k (op_Collection op) (op_DocID op) (op_Data op) 0)) ->
  within R (apply_op k op).
Proof.
  intros Hd Hp. unfold apply_op. destruct (op_Delete op);
    (apply within_bind; [done|auto|intros _; by apply within_ret]).
Qed.

Lemma BatchWrite_keeps_ok k ops : within keeps_ok (BatchWrite k ops).
Proof.
  apply within_BatchWrite; [apply _|]. apply list.Forall_forall. intros op _.
  apply apply_op_within; [apply _|..]; intros _; [apply DeleteIn_keeps_ok|apply PutVersioned_keeps_ok].
Qed.

Lemma Put_keeps_ok k c id txt : within keeps_ok (Put k c id txt).
Proof.
  intros s r s' H. unfold Put in H.
  apply bind_inv in H as [(t & s1 & [Ht ->]%lift_inv & H)|(e & [He ->]%lift_inv & ->)]; [|reflexivity].
  destruct r as [[]|e]; [|by apply exec_err in H as (-> & _)].
  apply exec_ok in H as (H & _). apply upsert_ok in H. eapply touches_keeps_ok; [|exact H].
  intros o r (j & _ & Hb) Hr. destruct o as [r0|]; [|by injection Hb as ->].
  injection Hb as ->. simpl. by apply Hr.
Qed.

(** ** Histories *)

(** The calls other replicas make between two of ours. *)
Inductive doc_call :=
| CPut (k c id txt : string) (expected : Z)
| CGet (k c id : string)
| CDelete (k c id : string)
| CBatch (k : string) (ops : list BatchOp).

Definition run_call (cl : doc_call) (s : session database) : database :=
  match cl with
  | CPut k c id txt e => store (PutVersioned k c id txt e s).2
  | CGet k c id => store (GetVersioned k c id s).2
  | CDelete k c id => store (DeleteIn k c id s).2
  | CBatch k ops => store (BatchWrite k ops s).2
  end.

(** Each call on a connection of its own, with its own faults and time. *)
Definition run_history (db : database) (h : list (doc_call * list bool * Z)) : database :=
  foldl (fun db '(cl, fs, now) => run_call cl (mkSession db Pool fs now)) db h.

Definition same_row (name id k c id' : string) : Prop :=
  exists t, tableName k c = Ok t /\ ident t = ident name /\ id' = id.

Definition deletes (name id : string) (cl : doc_call) : Prop :=
  match cl with
  | CDelete k c id' => same_row name id k c id'
  | CBatch k ops => Exists (fun op => op_Delete op = true /\
      same_row name id k (op_Collection op) (op_DocID op)) ops
  | _ => False
  end.

(** A row that is there stays there, and is the same row or has a higher
    version. *)
Definition grows (name id : string) (db db' : database) : Prop :=
  forall r, row_at name id db = Some r ->
  exists r', row_at name id db' = Some r' /\ (r' = r \/ version r < version r').

#[export] Instance grows_preorder name id : PreOrder (grows name id).
Proof.
  split.
  - intros db r Hr. exists r. auto.
  - intros d1 d2 d3 H12 H23 r Hr. destruct (H12 r Hr) as (r2 & Hr2 & H2).
    destruct (H23 r2 Hr2) as (r3 & Hr3 & H3). exists r3. split; [done|].
    destruct H2 as [->|], H3 as [->|]; auto. right. lia.
Qed.

Lemma touches_grows name id name' id' P db db' :
  (ident name' = ident name -> id' = id ->
    forall r, P (Some r) (row_at name' id' db') ->
      exists r', row_at name' id' db' = Some r' /\ version r < version r') ->
  touches name' id' P db db' -> grows name id db db'.
Proof.
  intros HP H r Hr. destruct (decide ((ident name, id) = (ident name', id'))) as [E|E].
  - injection E as E ->. unfold row_at in Hr |- *. rewrite E in Hr |- *.
    pose proof (touches_here _ _ _ _ _ H) as Hh. unfold row_at in Hh, HP. rewrite Hr in Hh.
    destruct (HP (eq_sym E) eq_refl r Hh) as (r' & ? & ?). exists r'. auto.
  - rewrite <- (touches_elsewhere _ _ _ _ _ name id H E) in Hr. exists r. auto.
Qed.

Lemma PutVersioned_grows name id k c id' txt e : within (grows name id) (PutVersioned k c id' txt e).
Proof.
  intros s [v|x] s' H; apply PutVersioned_inv in H; [|by destruct H as [-> _]].
  destruct H as (t & _ & _ & H). eapply touches_grows; [|exact H].
  intros _ _ r (j & _ & -> & _ & ->). eexists. split; [done|]. simpl. lia.
Qed.

Lemma DeleteIn_grows name id k c id' :
  ~ same_row name id k c id' -> within (grows name id) (DeleteIn k c id').
Proof.
  intros Hn s [v|x] s' H; apply DeleteIn_inv in H; [|by rewrite H].
  destruct H as (t & Ht & H). eapply touches_grows; [|exact H].
  intros E1 E2. destruct Hn. by exists t.
Qed.

Lemma within_run {A} (R : database -> database -> Prop) (p : prog database A) s :
  within R p -> R (store s) (store (p s).2).
Proof. intros H. destruct (p s) as [r s'] eqn:E. by eapply H. Qed.

Lemma run_call_grows name id cl s : ~ deletes name id cl -> grows name id (store s) (run_call cl s).
Proof.
  destruct cl as [k c id' txt e|k c id'|k c id'|k ops]; simpl; intros Hd.
  - apply within_run, PutVersioned_grows.
  - apply within_run. unfold GetVersioned. apply within_bind; [apply _|apply (within_lift _)|].
    intros t. apply within_bind; [apply _| |intros o; apply (within_ret _)].
    apply within_exec; [apply _|]. intros now d a d' Hs.
    apply select_versioned_ok in Hs as [-> _]. reflexivity.
  - by apply within_run, DeleteIn_grows.
  - apply within_run, within_BatchWrite; [apply _|]. apply list.Forall_forall. intros op Hop.
    apply apply_op_within; [apply _|..].
    + intros Hdel. apply DeleteIn_grows. intros Hs. apply Hd, list.Exists_exists. by exists op.
    + intros _. apply PutVersioned_grows.
Qed.

Lemma run_history_grows name id h db :
  Forall (fun x => ~ deletes name id x.1.1) h -> grows name id db (run_history db h).
Proof.
  intros H. revert db. induction H as [|[[cl fs] now] h Hx _ IH]; intros db; [reflexivity|].
  etransitivity; [|apply IH].
  apply (run_call_grows name id cl (mkSession db Pool fs now) Hx).
Qed.

(** ** Whose tables an operation reaches *)

Definition op_tables (cl : doc_call) : list (string * string) :=
  match cl with
  | CPut k c _ _ _ | CGet k c _ | CDelete k c _ => [(k, c)]
  | CBatch k ops => (fun op => (k, op_Collection op)) <$> ops
  end.

(** Only the rows of tables named by [names] differ. *)
Definition only (names : list (string * string)) (db db' : database) : Prop :=
  indexes db' = indexes db /\
  forall n, (forall k c t, (k, c) ∈ names -> tableName k c = Ok t -> ident t <> n) ->
    tables db' !! n = tables db !! n.

#[export] Instance only_preorder names : PreOrder (only names).
Proof.
  split; [by split|]. intros d1 d2 d3 [E1 H1] [E2 H2]. split; [congruence|].
  intros n Hn. by rewrite H2, H1.
Qed.

Lemma touches_only names k c t id P db db' :
  (k, c) ∈ names -> tableName k c = Ok t -> touches t id P db db' -> only names db db'.
Proof.
  intros Hin Ht (t0 & rs & H0 & -> & _). split; [done|]. intros n Hn. simpl.
  rewrite lookup_insert_ne; [done|]. by eapply Hn.
Qed.

Lemma PutVersioned_only names k c id txt e :
  (k, c) ∈ names -> within (only names) (PutVersioned k c id txt e).
Proof.
  intros Hin s [v|x] s' H; apply PutVersioned_inv in H; [|by destruct H as [-> _]].
  destruct H as (t & Ht & _ & H). by eapply touches_only.
Qed.

Lemma DeleteIn_only names k c id : (k, c) ∈ names -> within (only names) (DeleteIn k c id).
Proof.
  intros Hin s [v|x] s' H; apply DeleteIn_inv in H; [|by rewrite H].
  destruct H as (t & Ht & H). by eapply touches_only.
Qed.

Lemma GetVersioned_same k c id : within eq (GetVersioned k c id).
Proof.
  unfold GetVersioned. apply within_bind; [apply _|apply (within_lift _)|].
  intros t. apply within_bind; [apply _| |intros o; apply (within_ret _)].
  apply within_exec; [apply _|]. intros now d a d' Hs. by apply select_versioned_ok in Hs as [-> _].
Qed.

Lemma run_call_only cl s : only (op_tables cl) (store s) (run_call cl s).
Proof.
  destruct cl as [k c id txt e|k c id|k c id|k ops]; simpl.
  - apply within_run, PutVersioned_only. by left.
  - by rewrite <- (within_run eq _ s (GetVersioned_same k c id)).
  - apply within_run, DeleteIn_only. by left.
  - apply within_run, within_BatchWrite; [apply _|]. apply list.Forall_forall. intros op Hop.
    assert ((k, op_Collection op) ∈ ((fun op => (k, op_Collection op)) <$> ops)) as Hin
      by (apply list_elem_of_fmap; by exists op).
    apply apply_op_within; [apply _|..]; intros _; [by apply DeleteIn_only|by apply PutVersioned_only].
Qed.

(** ** What holds *)


(** A write with an expected version takes effect exactly once or not at
    all: it succeeds only when no version was demanded or the stored one is the
    one demanded, then exactly that document changes, to the given contents
    and the next version; a conflict is reported only when the stored version
    is another or the document is gone; and every error leaves the database
    as it was. *)
Lemma PutVersioned_spec k c id txt expected s :
  match PutVersioned k c id txt expected s with
  | (Ok v, s') => exists t, tableName k c = Ok t /\ expected_met t id expected (store s) /\
      bumped txt (clock s) v (row_at t id (store s)) (row_at t id (store s')) /\
      (forall t' id', (ident t', id') <> (ident t, id) -> row_at t' id' (store s') = row_at t' id' (store s))
  | (Err e, s') => store s' = store s /\
      (e = ErrVersionConflict -> expected <> 0 /\ exists t, tableName k c = Ok t /\
         ~ expected_met t id expected (store s))
  end.
Proof.
  destruct (PutVersioned k c id txt expected s) as [[v|e] s'] eqn:E; apply PutVersioned_inv in E; [|done].
  destruct E as (t & Ht & He & Htc). exists t. split_and!; [done|done|by eapply touches_here|].
  intros t' id' Hne. by eapply touches_elsewhere.
Qed.

(** Running the operations of a batch one after the other, all succeeding. *)
Inductive applied_all (k : string) : list BatchOp -> session database -> session database -> Prop :=
| applied_nil s : applied_all k [] s s
| applied_cons op ops s s1 s2 :
    apply_op k op s = (Ok (), s1) -> applied_all k ops s1 s2 -> applied_all k (op :: ops) s s2.

Lemma applyBatch_from_spec k ops : forall n s m e s',
  applyBatch_from n k ops s = (Ok (m, e), s') ->
  match e with
  | None => m = n + Z.of_nat (length ops) /\ applied_all k ops s s'
  | Some _ => exists done op rest s1, ops = done ++ op :: rest /\ m = n + Z.of_nat (length done) /\
      applied_all k done s s1 /\ exists er, apply_op k op s1 = (Err er, s') /\ e = Some er
  end.
Proof.
  induction ops as [|op ops IH]; intros n s m e s' H; simpl in H.
  - injection H as <- <- <-. split; [simpl; lia|constructor].
  - unfold bind, try in H. destruct (apply_op k op s) as [[[]|er] s1] eqn:E.
    + specialize (IH _ _ _ _ _ H). destruct e as [er|].
      * destruct IH as (dn & o & rest & s2 & -> & -> & Hd & Ho). exists (op :: dn), o, rest, s2.
        split_and!; [done|simpl; lia|by econstructor|done].
      * destruct IH as [-> Ha]. split; [simpl; lia|by econstructor].
    + injection H as <- <- <-. exists [], op, ops, s. split_and!; [done|simpl; lia|constructor|]. by exists er.
Qed.

Lemma applyBatch_from_ok k ops n s : exists m e s', applyBatch_from n k ops s = (Ok (m, e), s').
Proof.
  revert n s. induction ops as [|op ops IH]; intros n s; simpl; [by repeat eexists|].
  unfold bind, try. destruct (apply_op k op s) as [[[]|er] s1]; [apply IH|by repeat eexists].
Qed.

(** C26. A batch is all or nothing. Outside a transaction, [BatchWrite] either
    reports the number of its operations, and the database is what running all
    of them in order left, or reports an error and a count of zero, and the
    database is the one it found - whichever operation failed, or the commit. *)
Theorem BatchWrite_atomic k ops s r s' :
  ex s = Pool -> BatchWrite k ops s = (r, s') ->
  (r = Ok (Z.of_nat (length ops), None) /\
     exists s2, applied_all k ops (mkSession (store s) (InTx false) (tail (faults s)) (clock s)) s2 /\
       store s' = store s2) \/
  (exists e, r = Ok (0, Some e) /\ store s' = store s).
Proof.
  intros Hex H. unfold BatchWrite in H. destruct ops as [|op ops].
  - injection H as <- <-. left. split; [done|]. eexists. split; [constructor|done].
  - rewrite Hex in H. destruct (own_tx _ s) as [r1 s1] eqn:E. injection H as <- <-.
    apply own_tx_atomic in E. destruct r1 as [n|e]; [left|right; by exists e].
    destruct E as (s2 & E & Hs). unfold bind in E. unfold applyBatch in E.
    destruct (applyBatch_from_ok k (op :: ops) 0
      (mkSession (store s) (InTx false) (tail (faults s)) (clock s))) as (m & e & s3 & Ea).
    rewrite Ea in E. destruct e as [e|]; [done|]. injection E as <- <-.
    apply applyBatch_from_spec in Ea as [-> Ha]. split; [done|]. by exists s3.
Qed.

(** The well-formedness of the store - versions at least one and within
    BIGINT, indexes on existing tables, unique indexes unique - is kept by
    every operation, whatever it answers and whatever fails inside it. *)
Lemma documents_keep_ok cl k c id txt s :
  db_ok (store s) -> db_ok (run_call cl s) /\ db_ok (store (Put k c id txt s).2).
Proof.
  intros H. split; [|by apply (within_run keeps_ok _ s (Put_keeps_ok k c id txt))].
  revert H. destruct cl as [k' c' id' txt' e|k' c' id'|k' c' id'|k' ops]; simpl; intros H.
  - by apply (within_run keeps_ok _ s (PutVersioned_keeps_ok k' c' id' txt' e)).
  - by rewrite <- (within_run eq _ s (GetVersioned_same k' c' id')).
  - by apply (within_run keeps_ok _ s (DeleteIn_keeps_ok k' c' id')).
  - by apply (within_run keeps_ok _ s (BatchWrite_keeps_ok k' ops)).
Qed.

(** What the server documents of names: two different folded names of at most
    63 bytes are two different names. *)
Context (ident_short : forall a b, (String.length a <= 63)%nat -> (String.length b <= 63)%nat ->
  ident a = ident b -> to_lower a = to_lower b).

Lemma tableName_apart k c t k' c' t' :
  tableName k c = Ok t -> tableName k' c' = Ok t' ->
  has_byte "_" k = false -> has_byte "_" k' = false -> to_lower k <> to_lower k' ->
  (String.length t <= 63)%nat -> (String.length t' <= 63)%nat -> ident t <> ident t'.
Proof.
  intros (_ & _ & ->)%tableName_ok (_ & _ & ->)%tableName_ok Hk Hk' Hne Hl Hl' E.
  apply ident_short in E; [|done|done]. apply Hne. unfold to_lower in E.
  rewrite !string_map_app in E. apply sapp_inj_l in E. simpl in E.
  apply sep_inj in E as [E _]; [done|..]; by apply eq_trans with (1 := has_byte_underscore_lower _).
Qed.

(** Plugins cannot reach each other's documents. Whatever operation of a
    plugin runs, and whatever it answers, no document of a plugin with another
    key changes, as long as neither key contains an underscore and the table
    names fit in 63 bytes. *)
Lemma plugin_isolation cl s k k' c' t' id :
  Forall (fun x => x.1 = k /\ forall t, tableName x.1 x.2 = Ok t -> (String.length t <= 63)%nat) (op_tables cl) ->
  tableName k' c' = Ok t' -> (String.length t' <= 63)%nat ->
  has_byte "_" k = false -> has_byte "_" k' = false -> to_lower k <> to_lower k' ->
  row_at t' id (run_call cl s) = row_at t' id (store s).
Proof.
  intros Ht Ht' Hl' Hk Hk' Hne. unfold row_at.
  rewrite (proj2 (run_call_only cl s)); [done|]. intros k1 c1 t1 Hin H1.
  eapply list.Forall_forall in Ht as [E Hl]; [|exact Hin]. simpl in E, Hl. subst k1.
  eapply tableName_apart; eauto.
Qed.
End server.

(** With an underscore in a key the tables are shared: this is the same table
    for plugin [a] with collection [b_c] and plugin [a_b] with collection
    [c]. *)
Lemma tables_shared : tableName "a" "b_c" = tableName "a_b" "c" /\ is_ok (tableName "a" "b_c") = true.
Proof. done. Qed.

(** ** A concrete server *)

Definition pg_ident (s : string) : string := String.substring 0 63 (to_lower s).
Definition pg_jsonb (s : string) : option string := if String.eqb s "" then None else Some s.
Definition pg_field (f d : string) : option string := Some d.
Definition pg_varchar (n : Z) (s : string) : bool := Z.of_nat (String.length s) <=? n.

Definition shop_db : database :=
  mkDb {[ "ext_shop_items" := mkTable {[ "a1" := mkRow "red" 1 0 0 ]} true ]}
       {[ "idx_shop_items_colour" := mkIndex "ext_shop_items" ["colour"] true ]}.
Definition shop : session database := mkSession shop_db Pool [] 5.

(** A second document of the same colour is refused by the unique index. *)
Example unique_refused :
  (PutVersioned pg_ident pg_jsonb pg_field pg_varchar "shop" "items" "a2" "red" 0 shop).1 =
    Err (SqlFailed "put" "duplicate key value violates unique constraint").
Proof. vm_compute. reflexivity. Qed.

(** Deleting and writing again starts over at version one: a caller that read
    the first document can then overwrite the second. *)
Example delete_resets_version :
  let s1 := (DeleteIn pg_ident "shop" "items" "a1" shop).2 in
  let s2 := (PutVersioned pg_ident pg_jsonb pg_field pg_varchar "shop" "items" "a1" "blue" 0 s1).2 in
  (PutVersioned pg_ident pg_jsonb pg_field pg_varchar "shop" "items" "a1" "stale" 1 s2).1 = Ok 2.
Proof. vm_compute. reflexivity. Qed.

(** Two plugins whose keys contain an underscore write the same document. *)
Example shared_document_overwritten :
  let s := mkSession (mkDb {[ "ext_a_b_c" := mkTable ∅ true ]} ∅) Pool [] 0 in
  let put := PutVersioned pg_ident pg_jsonb pg_field pg_varchar in
  let s1 := (put "a" "b_c" "x" "mine" 0 s).2 in
  let s2 := (put "a_b" "c" "x" "theirs" 0 s1).2 in
  (GetVersioned pg_ident "a" "b_c" "x" s2).1 = Ok (Some ("theirs", 2)).
Proof. vm_compute. reflexivity. Qed.

Lemma shop_db_ok : db_ok pg_field shop_db.
Proof.
  constructor.
  - intros n t id r H1 H2. unfold shop_db in H1. simpl in H1. apply lookup_singleton_Some in H1 as [<- <-].
    simpl in H2. apply lookup_singleton_Some in H2 as [<- <-]. simpl. lia.
  - intros n ix H. simpl in H. apply lookup_singleton_Some in H as [<- <-].
    eexists. split; [reflexivity|]. done.
Qed.

Lemma substring_all s : forall n, (String.length s <= n)%nat -> String.substring 0 n s = s.
Proof.
  induction s as [|a s IH]; intros [|n] H; simpl in *; try done; [lia|].
  rewrite IH; [done|lia].
Qed.

Lemma length_string_map f s : String.length (string_map f s) = String.length s.
Proof. induction s; simpl; congruence. Qed.

Lemma pg_ident_short a b :
  (String.length a <= 63)%nat -> (String.length b <= 63)%nat ->
  pg_ident a = pg_ident b -> to_lower a = to_lower b.
Proof.
  unfold pg_ident, to_lower. intros Ha Hb. by rewrite !substring_all by (by rewrite length_string_map).
Qed.


Lemma BatchWrite_atomic_witness :
  let ops := [mkBatchOp false "items" "a2" "blue"; mkBatchOp false "items" "a3" "red"] in
  let '(r, s') := BatchWrite pg_ident pg_jsonb pg_field pg_varchar "shop" ops shop in
  store s' = shop_db /\ exists e, r = Ok (0, Some e).
Proof.
  intros ops.
  destruct (BatchWrite pg_ident pg_jsonb pg_field pg_varchar "shop" ops shop) as [r s'] eqn:E.
  destruct (BatchWrite_atomic pg_ident pg_jsonb pg_field pg_varchar "shop" ops shop r s' eq_refl E)
    as [[-> _]|(e & -> & Hs)]; [|by split; [|exists e]].
  exfalso. assert (exists e, (BatchWrite pg_ident pg_jsonb pg_field pg_varchar "shop" ops shop).1 = Ok (0, Some e)) as [e He]
    by (eexists; vm_compute; reflexivity).
  rewrite E in He. discriminate He.
Defined.
