(* ===== verification/Schema.v ===== *)
(** * core/db/cmds.go: provisioning a plugin's collections

    [ReconcileSchema] creates the declared tables and indexes and drops the
    indexes it no longer finds declared, one statement after the other on the
    pool, so a failure in the middle leaves what came before. *)

From S2P Require Import Prelude GoStrings Sql Documents.
From Stdlib Require Import Ascii.

Open Scope Z_scope.

(** SQL's [LIKE] on patterns without a backslash. *)
Fixpoint like (p s : string) : bool :=
  match p with
  | EmptyString => String.eqb s ""
  | String "%" p' =>
      (fix go (s : string) : bool :=
         like p' s || match s with EmptyString => false | String _ s' => go s' end) s
  | String "_" p' => match s with EmptyString => false | String _ s' => like p' s' end
  | String c p' => match s with EmptyString => false | String d s' => Ascii.eqb c d && like p' s' end
  end.

Record Index := mkIndexDecl { Fields : list string; Unique : bool }.
Record CollectionSchema := mkCollection { cs_Name : string; cs_Indexes : list Index }.

Section server.
Context (ident : string -> string) (field_text : string -> string -> option string).

(** ** Statements *)

(** [CREATE TABLE IF NOT EXISTS] *)
Definition stmt_create_table (name : string) (now : Z) (db : database) : result string (() * database) :=
  match tables db !! ident name with
  | Some _ => Ok ((), db)
  | None => Ok ((), mkDb (<[ident name := mkTable ∅ true]> (tables db)) (indexes db))
  end.

(** [ADD COLUMN IF NOT EXISTS version BIGINT NOT NULL DEFAULT 1] *)
Definition stmt_add_version (name : string) (now : Z) (db : database) : result string (() * database) :=
  with_table ident name db (fun t =>
    if versioned t then Ok ((), db)
    else
      let rs := (fun r => mkRow (data r) 1 (created_at r) (updated_at r)) <$> rows t in
      Ok ((), mkDb (<[ident name := mkTable rs true]> (tables db)) (indexes db))).

(** [CREATE (UNIQUE) INDEX IF NOT EXISTS]: nothing happens when a relation of
    that name exists, whatever it is. *)
Definition stmt_create_index (name tname : string) (ix : Index) (now : Z) (db : database)
    : result string (() * database) :=
  with_table ident tname db (fun t =>
    match indexes db !! ident name, tables db !! ident name with
    | None, None =>
        reject? Unique ix && negb (unique_on field_text (Fields ix) (rows t))
          with "could not create unique index" ;;
        Ok ((), mkDb (tables db)
          (<[ident name := mkIndex (ident tname) (Fields ix) (Unique ix)]> (indexes db)))
    | _, _ => Ok ((), db)
    end).

(** [SELECT indexname FROM pg_indexes WHERE tablename = $1 AND indexname LIKE
    $2]: the catalogue holds the names the server resolved, and compares them
    with the text as it is. *)
Definition stmt_list_indexes (tname pattern : string) (now : Z) (db : database)
    : result string (list string * database) :=
  Ok ((filter (fun p => on_table p.2 = tname /\ like pattern p.1 = true) (map_to_list (indexes db))).*1, db).

Definition stmt_drop_index (name : string) (now : Z) (db : database) : result string (() * database) :=
  Ok ((), mkDb (tables db) (delete (ident name) (indexes db))).

(** ** Operations *)

Definition index_prefix (extKey collection : string) : string :=
  "idx_" +:+ extKey +:+ "_" +:+ collection +:+ "_".

Definition dropStaleIndexes (extKey collection tname : string) (desired : list string) : prog database () :=
  do! names := exec "list indexes" (stmt_list_indexes tname (index_prefix extKey collection +:+ "%")) in
  let stale := filter (fun n => n ∉ desired) names in
  each (fun n => if negb (identifierRE n) then ret () else exec "drop stale index" (stmt_drop_index n)) stale.

(** The loop over the declared indexes, with the [desired] set it collects. *)
Fixpoint create_indexes (extKey collection tname : string) (l : list Index) : prog database (list string) :=
  match l with
  | [] => ret []
  | ix :: l =>
      if bool_decide (Fields ix = []) then create_indexes extKey collection tname l
      else
        do! _ := lift (res_map jsonPathExpr (Fields ix)) in
        let name := indexName extKey collection (Fields ix) in
        do! _ := exec "create index" (stmt_create_index name tname ix) in
        do! desired := create_indexes extKey collection tname l in
        ret (name :: desired)
  end.

Definition reconcile_collection (extKey : string) (col : CollectionSchema) : prog database () :=
  do! tname := lift (tableName extKey (cs_Name col)) in
  do! _ := exec "create table" (stmt_create_table tname) in
  do! _ := exec "add version column" (stmt_add_version tname) in
  do! desired := create_indexes extKey (cs_Name col) tname (cs_Indexes col) in
  dropStaleIndexes extKey (cs_Name col) tname desired.

Definition ReconcileSchema (extKey : string) (collections : list CollectionSchema) : prog database () :=
  each (reconcile_collection extKey) collections.

(** [CMDSData.ProvisionSchema] of core/hostsvc/data.go. *)
Definition ProvisionSchema (pluginKey : string) (collections : list CollectionSchema) : prog database () :=
  match collections with
  | [] => ret ()
  | _ => ReconcileSchema pluginKey collections
  end.

(** ** It only adds: no document is lost *)

(** Every table that was there is there with the same documents, and their
    versions unless the table had none. *)
Definition keeps_documents (db db' : database) : Prop :=
  forall n t, tables db !! n = Some t -> exists t', tables db' !! n = Some t' /\
    (versioned t = true -> t' = t) /\
    (fun r => (data r, created_at r, updated_at r)) <$> rows t' =
      (fun r => (data r, created_at r, updated_at r)) <$> rows t.

#[export] Instance keeps_documents_preorder : PreOrder keeps_documents.
Proof.
  split.
  - intros db n t Ht. by exists t.
  - intros d1 d2 d3 H12 H23 n t Ht. destruct (H12 n t Ht) as (t2 & Ht2 & Hv2 & Hr2).
    destruct (H23 n t2 Ht2) as (t3 & Ht3 & Hv3 & Hr3). exists t3. split_and!; [done| |by rewrite Hr3].
    intros Hv. rewrite Hv3; [by apply Hv2|]. by rewrite Hv2.
Qed.

Lemma within_eq_keeps {A} (p : prog database A) : within eq p -> within keeps_documents p.
Proof. intros H s r s' E. by rewrite (H s r s' E). Qed.

Lemma create_table_ok name now db a db' :
  stmt_create_table name now db = Ok (a, db') ->
  indexes db' = indexes db /\ is_Some (tables db' !! ident name) /\
  forall n, tables db' !! n = tables db !! n \/
    tables db !! n = None /\ n = ident name /\ tables db' !! n = Some (mkTable ∅ true).
Proof.
  unfold stmt_create_table. destruct (tables db !! ident name) as [t|] eqn:E; intros [= <- <-].
  - split_and!; [done|done|by left].
  - split_and!; [done|simpl; rewrite lookup_insert_eq; by eexists|]. intros n. simpl.
    destruct (decide (n = ident name)) as [->|]; [right; by rewrite lookup_insert_eq|].
    left. by rewrite lookup_insert_ne.
Qed.

Lemma create_index_ok name tname ix now db a db' :
  stmt_create_index name tname ix now db = Ok (a, db') ->
  tables db' = tables db /\ (indexes db' = indexes db \/
    exists t, tables db !! ident tname = Some t /\ indexes db !! ident name = None /\
      (Unique ix = true -> unique_on field_text (Fields ix) (rows t) = true) /\
      indexes db' = <[ident name := mkIndex (ident tname) (Fields ix) (Unique ix)]> (indexes db)).
Proof.
  unfold stmt_create_index. rewrite with_table_ok. intros (t & Ht & H).
  destruct (indexes db !! ident name) eqn:Ei; [simplify_eq; auto|].
  destruct (tables db !! ident name) eqn:Et; [simplify_eq; auto|].
  peel H. simplify_eq/=. split; [done|]. right. exists t. split_and!; [done|done| |done].
  intros Hu. by rewrite Hu in Hg; destruct (unique_on _ _ _).
Qed.

Lemma add_version_keeps name : within keeps_documents (exec "add version column" (stmt_add_version name)).
Proof.
  apply within_exec; [apply _|]. intros now db a db' H n t Hn. unfold stmt_add_version in H.
  apply with_table_ok in H as (t0 & Ht0 & H). destruct (versioned t0) eqn:Ev; simplify_eq/=; [by exists t|].
  destruct (decide (n = ident name)) as [->|]; [|exists t; by rewrite lookup_insert_ne].
  rewrite lookup_insert_eq. eexists. split; [done|]. assert (t = t0) as -> by congruence.
  split; [congruence|]. simpl. rewrite <- map_fmap_compose. done.
Qed.

Lemma create_indexes_keeps k c tname l :
  within keeps_documents (create_indexes k c tname l).
Proof.
  induction l as [|ix l IH]; simpl; [apply (within_ret _)|].
  case_bool_decide; [done|]. apply within_bind; [apply _|apply (within_lift _)|]. intros _.
  apply within_bind; [apply _| |].
  - apply within_exec; [apply _|]. intros now db a db' Hc n t Ht.
    apply create_index_ok in Hc as [-> _]. by exists t.
  - intros _. apply within_bind; [apply _|done|]. intros d. apply (within_ret _).
Qed.

Lemma dropStaleIndexes_tables k c tname desired :
  within (fun db db' => tables db' = tables db) (dropStaleIndexes k c tname desired).
Proof.
  assert (PreOrder (fun db db' : database => tables db' = tables db)) as HP
    by (split; [done|intros x y z; congruence]).
  unfold dropStaleIndexes. apply within_bind; [done| |].
  - apply within_exec; [done|]. by intros now db a db' [= <- <-].
  - intros names. apply within_each; [done|]. apply list.Forall_forall. intros n _.
    destruct (negb (identifierRE n)); [by apply within_ret|].
    apply within_exec; [done|]. by intros now db a db' [= <- <-].
Qed.

Lemma reconcile_collection_keeps k col : within keeps_documents (reconcile_collection k col).
Proof.
  unfold reconcile_collection.
  apply within_bind; [apply _|apply (within_lift _)|]. intros tname.
  apply within_bind; [apply _| |].
  - apply within_exec; [apply _|]. intros now db a db' H n t Ht.
    apply create_table_ok in H as (_ & _ & H). destruct (H n) as [->|[E _]]; [by exists t|congruence].
  - intros _. apply within_bind; [apply _|apply add_version_keeps|]. intros _.
    apply within_bind; [apply _|apply create_indexes_keeps|]. intros desired s r s' H n t Ht.
    apply dropStaleIndexes_tables in H. exists t. by rewrite H.
Qed.

(** ** The store stays well formed *)

Notation keeps_ok := (keeps_ok field_text).

Lemma unique_on_data fields (f : row -> row) rs :
  (forall r, data (f r) = data r) -> unique_on field_text fields (f <$> rs) = unique_on field_text fields rs.
Proof.
  intros Hf. unfold unique_on. f_equal. apply bool_decide_ext.
  assert (omap (index_key field_text fields) (row_list (f <$> rs)) =
    omap (index_key field_text fields) (row_list rs)) as ->; [|done].
  assert (forall r, index_key field_text fields (f r) = index_key field_text fields r) as Hk
    by (intros r; unfold index_key; by rewrite Hf).
  unfold row_list. rewrite map_to_list_fmap.
  induction (map_to_list rs) as [|[i r] l IH]; [done|]. csimpl. by rewrite Hk, IH.
Qed.

Lemma db_ok_set_table db n t :
  (forall id r, rows t !! id = Some r -> 1 <= version r < 2 ^ 63) ->
  (forall i ix, indexes db !! i = Some ix -> on_table ix = n -> iunique ix = true ->
    unique_on field_text (ifields ix) (rows t) = true) ->
  db_ok field_text db -> db_ok field_text (mkDb (<[n := t]> (tables db)) (indexes db)).
Proof.
  intros Hr Hu [Hv Hi]. constructor; simpl.
  - intros n' t' id r Hn. destruct (decide (n' = n)) as [->|].
    + rewrite lookup_insert_eq in Hn. injection Hn as <-. apply Hr.
    + rewrite lookup_insert_ne in Hn by done. by apply (Hv n').
  - intros i ix Hix. destruct (Hi i ix Hix) as (t0 & Ht0 & Hun).
    destruct (decide (on_table ix = n)) as [E|E].
    + exists t. rewrite E, lookup_insert_eq. split; [done|]. by apply (Hu i).
    + exists t0. by rewrite lookup_insert_ne.
Qed.

Lemma create_table_keeps_ok name : within keeps_ok (exec "create table" (stmt_create_table name)).
Proof.
  apply within_exec; [apply _|]. intros now db a db' H Hok. unfold stmt_create_table in H.
  destruct (tables db !! ident name) eqn:E; simplify_eq; [done|].
  apply db_ok_set_table; [by intros id r [=]|done|done].
Qed.

Lemma add_version_keeps_ok name : within keeps_ok (exec "add version column" (stmt_add_version name)).
Proof.
  apply within_exec; [apply _|]. intros now db a db' H Hok. unfold stmt_add_version in H.
  apply with_table_ok in H as (t & Ht & H). destruct (versioned t); simplify_eq; [done|].
  apply db_ok_set_table; simpl; [| |done].
  - intros id r Hr. apply lookup_fmap_Some in Hr as (r0 & <- & _). simpl. lia.
  - intros i ix Hix Hon Hu. rewrite unique_on_data by done.
    destruct (ok_indexes _ _ Hok i ix Hix) as (t0 & Ht0 & Hun). rewrite Hon in Ht0. simplify_eq. by apply Hun.
Qed.

Lemma create_index_keeps_ok name tname ix :
  within keeps_ok (exec "create index" (stmt_create_index name tname ix)).
Proof.
  apply within_exec; [apply _|]. intros now db a db' H [Hv Hi].
  apply create_index_ok in H as [Et [Ei|(t & Ht & Hno & Hu & Ei)]]; destruct db' as [ts ixs]; simpl in *;
    subst ts ixs; [done|]. constructor; simpl; [done|]. intros n x Hn.
  destruct (decide (n = ident name)) as [->|].
  - rewrite lookup_insert_eq in Hn. injection Hn as <-. by exists t.
  - rewrite lookup_insert_ne in Hn by done. by apply Hi in Hn.
Qed.

Lemma drop_index_keeps_ok n : within keeps_ok (exec "drop stale index" (stmt_drop_index n)).
Proof.
  apply within_exec; [apply _|]. intros now db a db' [= _ <-] [Hv Hi]. constructor; simpl; [done|].
  intros m ix [_ Hm]%lookup_delete_Some. by apply Hi in Hm.
Qed.

Lemma reconcile_collection_keeps_ok k col : within keeps_ok (reconcile_collection k col).
Proof.
  unfold reconcile_collection.
  apply within_bind; [apply _|apply (within_lift _)|]. intros tname.
  apply within_bind; [apply _|apply create_table_keeps_ok|]. intros _.
  apply within_bind; [apply _|apply add_version_keeps_ok|]. intros _.
  apply within_bind; [apply _| |].
  - induction (cs_Indexes col) as [|ix l IH]; simpl; [apply (within_ret _)|].
    case_bool_decide; [done|]. apply within_bind; [apply _|apply (within_lift _)|]. intros _.
    apply within_bind; [apply _|apply create_index_keeps_ok|]. intros _.
    apply within_bind; [apply _|done|]. intros d. apply (within_ret _).
  - intros desired. unfold dropStaleIndexes. apply within_bind; [apply _| |].
    + apply within_exec; [apply _|]. intros now db a db' [= _ <-]. reflexivity.
    + intros names. apply within_each; [apply _|]. apply list.Forall_forall. intros n _.
      destruct (negb (identifierRE n)); [apply (within_ret _)|apply drop_index_keeps_ok].
Qed.

(** ** Which indexes there are afterwards *)

Definition declared (extKey : string) (col : CollectionSchema) : list string :=
  (fun ix => indexName extKey (cs_Name col) (Fields ix)) <$> filter (fun ix => Fields ix <> []) (cs_Indexes col).

Lemma each_ok_inv {A} (f : A -> prog database ()) a l s s' :
  each f (a :: l) s = (Ok (), s') -> exists s1, f a s = (Ok (), s1) /\ each f l s1 = (Ok (), s').
Proof. simpl. rewrite bind_ok. intros ([] & s1 & H1 & H2). by exists s1. Qed.

Lemma create_indexes_ok k c tname l : forall s d s',
  create_indexes k c tname l s = (Ok d, s') ->
  d = (fun ix => indexName k c (Fields ix)) <$> filter (fun ix => Fields ix <> []) l /\
  tables (store s') = tables (store s) /\
  (forall n ix, indexes (store s) !! n = Some ix -> indexes (store s') !! n = Some ix) /\
  (forall n ix, indexes (store s') !! n = Some ix ->
     indexes (store s) !! n = Some ix \/ exists name, name ∈ d /\ n = ident name) /\
  (forall name, name ∈ d ->
     is_Some (indexes (store s') !! ident name) \/ is_Some (tables (store s') !! ident name)).
Proof.
  induction l as [|ix l IH]; intros s d s' H; simpl in H.
  - injection H as <- <-. split_and!; [done|done|done|by left|]. intros name Hn. by apply not_elem_of_nil in Hn.
  - rewrite filter_cons. case_bool_decide as Hf.
    + rewrite decide_False by (intros Hx; by apply Hx). by apply IH.
    + rewrite decide_True by done.
      apply bind_ok in H as (fs & s1 & [Hfs ->]%lift_inv & H).
      apply bind_ok in H as ([] & s2 & Hc & H). apply bind_ok in H as (d2 & s3 & Hd & H).
      injection H as <- <-. apply exec_ok in Hc as (Hc & _).
      destruct (IH _ _ _ Hd) as (-> & Ht & Hmono & Hnew & Hhas). clear IH.
      pose proof Hc as Hc2. apply create_index_ok in Hc2 as [Htc Hi].
      set (name := indexName k c (Fields ix)) in *. split_and!; [done|congruence| | |].
      * intros n x Hn. apply Hmono. destruct Hi as [->|(t & _ & Hno & _ & ->)]; [done|].
        rewrite lookup_insert_ne; [done|]. intros <-. congruence.
      * intros n x Hn. destruct (Hnew n x Hn) as [Hold|(nm & ? & ?)]; [|right; exists nm; split; [by right|done]].
        destruct Hi as [E|(t & _ & Hno & _ & E)]; rewrite E in Hold; [by left|].
        destruct (decide (n = ident name)) as [->|]; [right; exists name; split; [by left|done]|].
        left. by rewrite lookup_insert_ne in Hold.
      * intros nm [->|Hin]%elem_of_cons; [|by apply Hhas]. rewrite Ht.
        unfold stmt_create_index in Hc. apply with_table_ok in Hc as (t & _ & Hc).
        destruct (indexes (store s) !! ident name) as [x|] eqn:E1.
        { left. exists x. apply Hmono. injection Hc as <-. done. }
        destruct (tables (store s) !! ident name) as [x|] eqn:E2.
        { right. rewrite Htc. by exists x. }
        peel Hc. injection Hc as Hc. left. eexists. apply Hmono. rewrite <- Hc. simpl.
        by rewrite lookup_insert_eq.
Qed.

Lemma drop_each_ok stale : forall s s',
  each (fun n => if negb (identifierRE n) then ret () else exec "drop stale index" (stmt_drop_index n)) stale s
    = (Ok (), s') ->
  tables (store s') = tables (store s) /\
  forall m, indexes (store s') !! m =
    if bool_decide (m ∈ ident <$> filter (fun n => identifierRE n = true) stale) then None
    else indexes (store s) !! m.
Proof.
  induction stale as [|n stale IH]; intros s s' H.
  - injection H as <-. split; [done|]. intros m. rewrite bool_decide_eq_false_2; [done|]. apply not_elem_of_nil.
  - apply each_ok_inv in H as (s1 & H1 & H). destruct (IH _ _ H) as [Ht Hi]. clear IH.
    rewrite filter_cons. destruct (identifierRE n); simpl in H1 |- *.
    + apply exec_ok in H1 as ([= H1] & _). rewrite Ht, <- H1. simpl. split; [done|].
      intros m. rewrite Hi, <- H1. simpl. destruct (decide (m = ident n)) as [->|Hne].
      * rewrite lookup_delete_eq, (bool_decide_eq_true_2 (ident n ∈ ident n :: _)) by by left.
        by case_bool_decide.
      * rewrite lookup_delete_ne by done. do 2 case_bool_decide; try done; exfalso; set_solver.
    + injection H1 as <-. done.
Qed.

Lemma list_indexes_ok tname pattern now db names db' :
  stmt_list_indexes tname pattern now db = Ok (names, db') ->
  db' = db /\ forall n, n ∈ names <->
    exists ix, indexes db !! n = Some ix /\ on_table ix = tname /\ like pattern n = true.
Proof.
  unfold stmt_list_indexes. intros H. split; [congruence|].
  assert (names = (filter (fun p => on_table p.2 = tname /\ like pattern p.1 = true)
    (map_to_list (indexes db))).*1) as -> by congruence.
  intros n. rewrite list_elem_of_fmap. split.
  - intros ([m ix] & -> & [[Ho Hl] Hm%elem_of_map_to_list]%list_elem_of_filter). by exists ix.
  - intros (ix & Hn & Ho & Hl). exists (n, ix). split; [done|]. apply list_elem_of_filter.
    split; [done|]. by apply elem_of_map_to_list.
Qed.

(** The name of a catalogue entry is one the server resolved. *)
Definition catalogued (db : database) : Prop :=
  forall n, is_Some (indexes db !! n) -> ident n = n.

(** What a successful run did, statement by statement. *)
Lemma reconcile_collection_ok k col s s' :
  (forall a, ident (ident a) = ident a) -> catalogued (store s) ->
  reconcile_collection k col s = (Ok (), s') ->
  exists t (mid : gmap string index), tableName k (cs_Name col) = Ok t /\
    (forall n ix, indexes (store s) !! n = Some ix -> mid !! n = Some ix) /\
    (forall name, name ∈ declared k col ->
      is_Some (mid !! ident name) \/ is_Some (tables (store s') !! ident name)) /\
    (forall n, is_Some (mid !! n) -> ident n = n) /\
    forall n, indexes (store s') !! n =
      match mid !! n with
      | Some ix =>
          if bool_decide (on_table ix = t) && like (index_prefix k (cs_Name col) +:+ "%") n
             && identifierRE n && bool_decide (n ∉ declared k col)
          then None else Some ix
      | None => None
      end.
Proof.
  intros Hid Hcat H. unfold reconcile_collection in H.
  apply bind_ok in H as (t & s1 & [Ht ->]%lift_inv & H). symmetry in Ht.
  apply bind_ok in H as ([] & s1 & H1 & H). apply bind_ok in H as ([] & s2 & H2 & H).
  apply bind_ok in H as (d & s3 & H3 & H). unfold dropStaleIndexes in H.
  apply bind_ok in H as (names & s4 & H4 & H).
  apply exec_ok in H1 as (H1 & _). apply create_table_ok in H1 as (E1 & _).
  apply exec_ok in H2 as (H2 & _). unfold stmt_add_version in H2. apply with_table_ok in H2 as (t0 & _ & H2).
  assert (indexes (store s2) = indexes (store s)) as E2.
  { destruct (versioned t0); injection H2 as <-; exact E1. }
  destruct (create_indexes_ok _ _ _ _ _ _ _ H3) as (Hd & _ & Hmono & Hnew & Hhas). fold (declared k col) in Hd.
  apply exec_ok in H4 as (H4 & _). apply list_indexes_ok in H4 as (Hs4 & Hnames). rewrite E2 in Hmono, Hnew.
  destruct (drop_each_ok _ _ _ H) as [Ht4 Hi].
  assert (forall n, is_Some (indexes (store s3) !! n) -> ident n = n) as Hfix.
  { intros n [ix Hn]. destruct (Hnew n ix Hn) as [Hold|(nm & _ & ->)]; [by apply Hcat; exists ix|apply Hid]. }
  subst d. exists t, (indexes (store s3)). split_and!; [done|done| |done|].
  { intros nm Hin. destruct (Hhas nm Hin) as [?|Hx]; [by left|right]. by rewrite Ht4, Hs4. }
  intros n. rewrite Hi, Hs4. clear Hi. case_bool_decide as Hdrop.
  - apply list_elem_of_fmap in Hdrop as (m & -> & Hm).
    apply list_elem_of_filter in Hm as [Hre Hm]. apply list_elem_of_filter in Hm as [Hnd Hm].
    apply Hnames in Hm as (ix & Hm & Hot & Hlike).
    rewrite (Hfix m ltac:(by exists ix)), Hm, Hlike, Hre, (bool_decide_eq_true_2 (on_table ix = t)),
      (bool_decide_eq_true_2 (m ∉ declared k col)) by done. done.
  - destruct (indexes (store s3) !! n) as [ix|] eqn:En; [|done].
    destruct (bool_decide (on_table ix = t) && _ && _ && _) eqn:Eb; [|done].
    exfalso. apply Hdrop. apply andb_true_iff in Eb as [[[?%bool_decide_eq_true ?]%andb_true_iff ?]%andb_true_iff
      ?%bool_decide_eq_true].
    apply list_elem_of_fmap. exists n. split; [by rewrite Hfix by (by exists ix)|].
    apply list_elem_of_filter. split; [done|]. apply list_elem_of_filter. split; [done|].
    apply Hnames. by exists ix.
Qed.

(** Reconciling one collection leaves exactly the declared indexes, as long
    as their names are what the server calls them: after success every
    declared index whose name the server does not change is there (or a table
    has its name), no index of the collection's table with the collection's
    prefix is left that is not declared, and indexes of other tables are
    untouched. An index whose declared name the server changes - one with an
    upper-case letter, or longer than 63 bytes - is listed under the changed
    name, is not found declared, and is dropped by the very call that created
    it. *)
Lemma reconcile_indexes k col s s' t :
  (forall a, ident (ident a) = ident a) -> catalogued (store s) ->
  tableName k (cs_Name col) = Ok t -> reconcile_collection k col s = (Ok (), s') ->
  let ours n ix := on_table ix = t /\ identifierRE n = true /\
    like (index_prefix k (cs_Name col) +:+ "%") n = true in
  (forall n ix, indexes (store s') !! n = Some ix -> ours n ix -> n ∈ declared k col) /\
  (forall name, name ∈ declared k col -> ident name = name ->
    is_Some (indexes (store s') !! name) \/ is_Some (tables (store s') !! name)) /\
  (forall n ix, indexes (store s) !! n = Some ix -> on_table ix <> t -> indexes (store s') !! n = Some ix) /\
  (forall name, name ∈ declared k col -> ident name ∉ declared k col ->
    forall ix, indexes (store s') !! ident name = Some ix -> ~ ours (ident name) ix).
Proof.
  intros Hid Hcat Ht H ours.
  destruct (reconcile_collection_ok k col s s' Hid Hcat H) as (t' & mid & Ht' & Hmono & Hhas & Hfix & Hi).
  assert (t' = t) as -> by congruence.
  assert (forall n ix, indexes (store s') !! n = Some ix -> ours n ix -> n ∈ declared k col) as Hours.
  { intros n ix Hn (Hot & Hre & Hl). rewrite Hi in Hn.
    destruct (mid !! n) as [x|] eqn:Em; [|done].
    destruct (decide (n ∈ declared k col)) as [?|Hno]; [done|].
    rewrite Hre, Hl, (bool_decide_eq_true_2 (n ∉ _)) in Hn by done.
    case_bool_decide; simpl in Hn; [done|]. congruence. }
  split_and!; [done| | |].
  - intros nm Hin Hnm. destruct (Hhas nm Hin) as [[ix Hm]|?]; rewrite Hnm in *; [left|by right].
    rewrite Hi, Hm, (bool_decide_eq_false_2 (nm ∉ _)), andb_false_r by (intros Hx; by apply Hx). by exists ix.
  - intros n ix Hn Hot. by rewrite Hi, (Hmono n ix Hn), bool_decide_eq_false_2 by done.
  - intros nm _ Hno ix Hx Ho. by apply Hno, (Hours _ ix).
Qed.

(** Provisioning loses nothing: whatever is declared and wherever it stops,
    every table that was there keeps all its documents, with their versions
    unless it had none, and the store stays well formed. *)
Lemma reconcile_keeps_documents k cols s r s' :
  ProvisionSchema k cols s = (r, s') ->
  keeps_documents (store s) (store s') /\ (db_ok field_text (store s) -> db_ok field_text (store s')).
Proof.
  unfold ProvisionSchema. destruct cols as [|col cols]; [intros [= <- <-]; by split; [reflexivity|]|].
  intros H. split.
  - apply (within_each keeps_documents (reconcile_collection k)) in H; [done|]. apply list.Forall_forall.
    intros c _. apply reconcile_collection_keeps.
  - apply (within_each keeps_ok (reconcile_collection k)) in H; [done|]. apply list.Forall_forall.
    intros c _. apply reconcile_collection_keeps_ok.
Qed.
End server.

(** ** Concrete schemas *)

Definition empty_db : session database := mkSession (mkDb ∅ ∅) Pool [] 0.
Definition orders (field : string) : CollectionSchema :=
  mkCollection "orders" [mkIndexDecl [field] true].

Example lower_case_index_kept :
  let s := (ReconcileSchema pg_ident pg_field "shop" [orders "customer"] empty_db).2 in
  indexes (store s) = {[ "idx_shop_orders_customer" := mkIndex "ext_shop_orders" ["customer"] true ]}.
Proof. vm_compute. reflexivity. Qed.

(** The unique index on a field with a capital letter is created and dropped
    by one call, which reports success, and duplicates are then accepted. *)
Lemma camel_case_index_dropped :
  let '(r, s) := ReconcileSchema pg_ident pg_field "shop" [orders "customerId"] empty_db in
  r = Ok () /\ indexes (store s) = ∅ /\
  let put := PutVersioned pg_ident pg_jsonb pg_field pg_varchar "shop" "orders" in
  (put "a" "same" 0 s).1 = Ok 1 /\ (put "b" "same" 0 (put "a" "same" 0 s).2).1 = Ok 1.
Proof. vm_compute. done. Qed.

(** Two declared indexes of one collection can have one name; the second is
    then never created. *)
Lemma index_names_collide :
  indexName "shop" "items" ["b_c"] = indexName "shop" "items" ["b"; "c"].
Proof. done. Qed.

Lemma pg_ident_idem a : pg_ident (pg_ident a) = pg_ident a.
Proof.
  unfold pg_ident. assert (forall s, to_lower (to_lower s) = to_lower s) as Hl.
  { intros s. induction s as [|c s IH]; [done|]. unfold to_lower in *. simpl. rewrite IH. f_equal.
    by destruct c as [[] [] [] [] [] [] [] []]. }
  assert (forall n s, to_lower (String.substring 0 n s) = String.substring 0 n (to_lower s)) as Hs.
  { intros n. induction n as [|n IH]; intros [|c s]; simpl; try done. unfold to_lower in *. simpl. by rewrite IH. }
  assert (forall n s, String.substring 0 n (String.substring 0 n s) = String.substring 0 n s) as Hn.
  { intros n. induction n as [|n IH]; intros [|c s]; simpl; try done. by rewrite IH. }
  by rewrite Hs, Hn, Hl.
Qed.
