(* ===== verification/Migrations.v ===== *)
(** * core/db/migrations.go: declarative changes to stored documents

    [ApplyMigration], on the database of Documents.v: a list of actions, each
    one UPDATE over the documents of a collection, in one transaction. The
    program does not call it yet.

    The server's share is a parameter: the fields of a JSONB text that is an
    object and the text of an object with given fields, [to_jsonb] of a text,
    and what an UPDATE makes of a document that is no object. A statement looks
    at the unique indexes once, when all rows are changed; PostgreSQL, which looks
    at every row, may refuse it on the way: that is one of the faults a session
    has for every statement. *)

From S2P Require Import Prelude GoStrings Sql Documents.
From Stdlib Require Import Ascii.

Open Scope Z_scope.

Record MigrationAction := mkAction {
  ma_Type : string; ma_Collection : string; ma_From : string; ma_To : string; ma_Field : string; ma_Default : string
}.
Record Migration := mkMigration { mg_Version : string; mg_Actions : list MigrationAction }.

(** The three statements. *)
Inductive change := Rename (from to : string) | Drop (field : string) | SetDefault (field value : string).

Section server.
Context (ident : string -> string) (field_text : string -> string -> option string)
  (fields : string -> option (gmap string string)) (object : gmap string string -> string)
  (to_jsonb : string -> string) (other : change -> string -> result string string).

(** An object after the UPDATE; the WHERE clause leaves one alone that has not,
    or for a default has, the field. *)
Definition changed (c : change) (m : gmap string string) : gmap string string :=
  match c with
  | Rename from to => match m !! from with Some v => <[to := v]> (delete from m) | None => m end
  | Drop f => delete f m
  | SetDefault f v => match m !! f with Some _ => m | None => <[f := to_jsonb v]> m end
  end.

Definition changed_text (c : change) (txt : string) : result string string :=
  match fields txt with
  | Some m => if bool_decide (changed c m = m) then Ok txt else Ok (object (changed c m))
  | None => other c txt
  end.

Definition with_data (r : row) (txt : string) : row := mkRow txt (version r) (created_at r) (updated_at r).

(** The rows of a table, each changed, or the first complaint. *)
Definition changed_rows (c : change) (rs : gmap string row) : result string (gmap string row) :=
  foldr (fun '(id, r) acc =>
    let? rs := acc in let? txt := changed_text c (data r) in Ok (<[id := with_data r txt]> rs)) (Ok ∅) (map_to_list rs).

Definition stmt_change (name : string) (c : change) (now : Z) (db : database) : result string (() * database) :=
  with_table ident name db (fun t =>
    let? rs := changed_rows c (rows t) in
    if unique_ok field_text db (ident name) rs then Ok ((), set_rows ident name t rs db)
    else Err "duplicate key value violates unique constraint").

(** The switch over the type of an action, its checks included. *)
Definition change_of (a : MigrationAction) : result db_error change :=
  if String.eqb (ma_Type a) "rename_field" then
    let? _ := ValidateIdentifier "rename_field from" (ma_From a) in
    let? _ := ValidateIdentifier "rename_field to" (ma_To a) in
    Ok (Rename (ma_From a) (ma_To a))
  else if String.eqb (ma_Type a) "drop_field" then
    let? _ := ValidateIdentifier "drop_field" (ma_Field a) in Ok (Drop (ma_Field a))
  else if String.eqb (ma_Type a) "set_default" then
    let? _ := ValidateIdentifier "set_default" (ma_Field a) in Ok (SetDefault (ma_Field a) (ma_Default a))
  else Err (BadQuery ("unknown migration action type " +:+ ma_Type a)).

Definition apply_action (extKey : string) (a : MigrationAction) : prog database () :=
  do! tname := lift (tableName extKey (ma_Collection a)) in
  do! c := lift (change_of a) in
  exec ("apply " +:+ ma_Type a +:+ " on " +:+ tname) (stmt_change tname c).

(** What the transaction itself fails with. *)
Definition migration_error (e : db_error) : db_error :=
  match e with
  | SqlFailed "begin batch" w => SqlFailed "begin migration tx" w
  | SqlFailed "commit batch" w => SqlFailed "commit migration" w
  | e => e
  end.

Definition ApplyMigration (extKey : string) (mig : Migration) : prog database () := fun s =>
  let '(r, s) := own_tx (each (apply_action extKey) (mg_Actions mig)) s in
  (match r with Ok _ => Ok () | Err e => Err (migration_error e) end, s).

(** ** Facts *)

(** An action twice is the action once, document by document. *)
Lemma changed_idem c m : changed c (changed c m) = changed c m.
Proof.
  destruct c as [from to|f|f v]; simpl.
  - destruct (m !! from) as [v|] eqn:E; [|by rewrite E]. destruct (decide (to = from)) as [->|Hne].
    + rewrite lookup_insert_eq. rewrite delete_insert_eq, delete_delete_eq. done.
    + rewrite lookup_insert_ne, lookup_delete_eq by done. done.
  - apply delete_delete_eq.
  - destruct (m !! f) as [w|] eqn:E; [by rewrite E|]. by rewrite lookup_insert_eq.
Qed.

Context (Fields : forall m, fields (object m) = Some m).

(** A migration as its changes to one object. *)
Definition migrated (cs : list change) (m : gmap string string) : gmap string string := foldl (fun m c => changed c m) m cs.

Lemma changed_rows_go c (l : list (string * row)) (rs : gmap string row) :
  foldr (fun '(id, r) acc =>
    let? rs := acc in let? txt := changed_text c (data r) in Ok (<[id := with_data r txt]> rs)) (Ok ∅) l = Ok rs ->
  NoDup l.*1 ->
  forall id, match list_to_map (M := gmap string row) l !! id with
             | Some r => exists txt, changed_text c (data r) = Ok txt /\ rs !! id = Some (with_data r txt)
             | None => rs !! id = None
             end.
Proof.
  revert rs. induction l as [|[k r] l IH]; intros rs; simpl; [intros [= <-] _ id; by rewrite !lookup_empty|].
  destruct (foldr _ _ l) as [rs0|e] eqn:El; simpl; [|done]. destruct (changed_text c (data r)) as [txt|e] eqn:Et; simpl; [|done].
  intros [= <-] [Hk Hn]%list.NoDup_cons id. destruct (decide (k = id)) as [<-|Hne].
  - rewrite !lookup_insert_eq. by exists txt.
  - rewrite !lookup_insert_ne by done. by apply IH.
Qed.

(** A statement rewrites the document of every row of its table, and neither the
    version nor the times. *)
Lemma changed_rows_spec c rs rs' id : changed_rows c rs = Ok rs' ->
  match rs !! id with
  | Some r => exists txt, changed_text c (data r) = Ok txt /\ rs' !! id = Some (with_data r txt)
  | None => rs' !! id = None
  end.
Proof.
  unfold changed_rows. intros H. pose proof (changed_rows_go c _ _ H (NoDup_fst_map_to_list rs) id) as Hl.
  by rewrite list_to_map_to_list in Hl.
Qed.

(** The documents of one table that are objects follow [changed]. *)
Lemma stmt_change_spec name c now db db' id r m : stmt_change name c now db = Ok ((), db') ->
  (exists t, tables db !! ident name = Some t /\ rows t !! id = Some r) -> fields (data r) = Some m ->
  exists t' r', tables db' !! ident name = Some t' /\ rows t' !! id = Some r' /\ fields (data r') = Some (changed c m) /\
    version r' = version r.
Proof using Fields.
  unfold stmt_change, with_table. intros H (t & Ht & Hr) Hm. rewrite Ht in H.
  destruct (changed_rows c (rows t)) as [rs|e] eqn:Ec; simpl in H; [|done].
  destruct (unique_ok _ _ _ _); [|done]. injection H as <-.
  pose proof (changed_rows_spec c _ _ id Ec) as Hs. rewrite Hr in Hs. destruct Hs as (txt & Htxt & Hrs).
  exists (mkTable rs (versioned t)), (with_data r txt). unfold set_rows. simpl. rewrite lookup_insert_eq. split_and!; try done.
  simpl. unfold changed_text in Htxt. rewrite Hm in Htxt. case_bool_decide as Hb; injection Htxt as <-; [by rewrite Hm, Hb|].
  apply Fields.
Qed.

(** All or nothing: a migration that fails has changed nothing, and one that
    succeeds has run every one of its statements, in order. *)
Fixpoint runs (extKey : string) (acts : list MigrationAction) (now : Z) (db : database) : option database :=
  match acts with
  | [] => Some db
  | a :: acts =>
      match tableName extKey (ma_Collection a), change_of a with
      | Ok t, Ok c => match stmt_change t c now db with Ok (_, db) => runs extKey acts now db | Err _ => None end
      | _, _ => None
      end
  end.

Lemma each_runs extKey acts s u s' : each (apply_action extKey) acts s = (Ok u, s') ->
  runs extKey acts (clock s) (store s) = Some (store s') /\ ex s' = ex s.
Proof.
  revert s. induction acts as [|a acts IH]; intros s; simpl; [by intros [= _ <-]|].
  intros (u1 & s1 & H1 & H2)%bind_ok. unfold apply_action in H1.
  apply bind_ok in H1 as (t & s2 & H3 & H4). apply lift_inv in H3 as [Ht ->].
  apply bind_ok in H4 as (c & s3 & H5 & H6). apply lift_inv in H5 as [Hc ->].
  rewrite <- Ht, <- Hc. destruct (exec_ok _ _ _ _ _ H6) as (Hs & He & Hcl). rewrite Hs.
  destruct (IH s1 H2) as [H7 H8]. rewrite <- Hcl. split; [done|]. by rewrite H8.
Qed.

Lemma ApplyMigration_atomic extKey mig s r s' : ApplyMigration extKey mig s = (r, s') ->
  match r with
  | Ok _ => runs extKey (mg_Actions mig) (clock s) (store s) = Some (store s')
  | Err _ => store s' = store s
  end.
Proof.
  unfold ApplyMigration, own_tx. destruct (faults s) as [|[] fs]; [|by intros [= <- <-]|];
    destruct (each _ _ _) as [[u|e] s1] eqn:Ee; try (by intros [= <- <-]);
    apply each_runs in Ee as [Hr Hx]; simpl in Hr, Hx; rewrite Hx;
    (destruct (faults s1) as [|[] fs1]; by intros [= <- <-]).
Qed.
End server.

(** The three actions do nothing the second time, but a migration of two may:
    after a rename, a default for the old name is renamed over the value when the
    migration runs again. *)
Example run_twice_loses :
  let cs := [Rename "name" "full_name"; SetDefault "name" "none"] in
  let m := migrated id cs {[ "name" := "ann" ]} in
  m !! "full_name" = Some "ann" /\ migrated id cs m !! "full_name" = Some "none".
Proof. split; vm_compute; reflexivity. Qed.

(** A rename takes the place of a field that has the new name already. *)
Example rename_overwrites :
  changed id (Rename "name" "full_name") (<["full_name" := "Ann"]> {[ "name" := "ann" ]}) !! "full_name" = Some "ann".
Proof. vm_compute. reflexivity. Qed.
