(* ===== verification/Provision.v ===== *)
(** * core/main.go: a plugin's collections, when it is started

    What the factory of host services does before a plugin starts: the
    collections of its manifest become the store's schema, which is reconciled;
    a failure is logged, and the plugin is started. This is where the checks of
    Manifest.v meet those of Sql.v. *)

From Stdlib Require Import Ascii.
From S2P Require Import Prelude GoStrings Manifest Sql Documents Schema.

Open Scope Z_scope.

Definition collectionsOf (m : Manifest) : list CollectionSchema :=
  (fun c => Schema.mkCollection (col_name c)
     ((fun ix => mkIndexDecl (ix_fields ix) (ix_unique ix)) <$> col_indexes c)) <$> Collections m.

Section server.
Context (ident : string -> string) (jsonb : string -> option string)
  (field_text : string -> string -> option string) (varchar : Z -> string -> bool).

(** With a document store; the answer is what is logged, if anything. *)
Definition provision (m : Manifest) : prog database (option db_error) :=
  do! r := try (ProvisionSchema ident field_text (Key m) (collectionsOf m)) in
  ret (match r with Ok _ => None | Err e => Some e end).

(** ** A manifest the store can serve *)

Definition served_index (ix : Manifest.Index) : Prop := Forall (fun f => identifierRE f = true) (ix_fields ix).
Definition served_collection (c : Collection) : Prop :=
  identifierRE (col_name c) = true /\ Forall served_index (col_indexes c).
Definition served (m : Manifest) : Prop := identifierRE (Key m) = true /\ Forall served_collection (Collections m).

(** No program of the store starts with more than a check of names. *)
Lemma unserved_key_table k c : identifierRE k = false -> tableName k c = Err (InvalidIdentifier "extension key" k).
Proof. intros Hk. unfold tableName, ValidateIdentifier. by rewrite Hk. Qed.

(** A key that is no identifier: the manifest may be accepted, but nothing is
    created for it, and every operation on its documents fails. *)
Lemma unserved_key m s : identifierRE (Key m) = false -> Collections m <> [] ->
  provision m s = (Ok (Some (InvalidIdentifier "extension key" (Key m))), s) /\
  forall c id txt v,
    (PutVersioned ident jsonb field_text varchar (Key m) c id txt v s).1 = Err (InvalidIdentifier "extension key" (Key m)) /\
    (GetVersioned ident (Key m) c id s).1 = Err (InvalidIdentifier "extension key" (Key m)) /\
    (DeleteIn ident (Key m) c id s).1 = Err (InvalidIdentifier "extension key" (Key m)).
Proof.
  intros Hk Hc. split.
  - unfold provision, collectionsOf. destruct (Collections m) as [|c cs]; [done|].
    unfold try, bind at 1. cbn [fmap list_fmap ProvisionSchema]. unfold ReconcileSchema. cbn [each].
    unfold bind at 1, reconcile_collection at 1, bind at 1, lift. by rewrite (unserved_key_table _ _ Hk).
  - intros c id txt v. unfold PutVersioned, GetVersioned, DeleteIn, bind, lift. by rewrite !(unserved_key_table _ _ Hk).
Qed.

(** What is logged of a manifest the store can serve is never about a name: a
    statement was refused by the server. *)
Definition only_statements {A} (p : prog database A) : Prop :=
  forall s e s', p s = (Err e, s') -> exists doing w, e = SqlFailed doing w.

Lemma only_exec {A} doing (stmt : Z -> database -> result string (A * database)) : only_statements (exec doing stmt).
Proof.
  intros s e s'. unfold exec. destruct (faults s) as [|[] fs].
  2: { intros [= <- _]. by eexists _, _. }
  all: destruct (ex s) as [|[]]; try (intros [= <- _]; by eexists _, _).
  all: destruct (stmt (clock s) (store s)) as [[a d]|w]; [done|]; intros [= <- _]; by eexists _, _.
Qed.
Lemma only_bind {A B} (p : prog database A) (k : A -> prog database B) :
  only_statements p -> (forall a, only_statements (k a)) -> only_statements (bind p k).
Proof. intros Hp Hk s e s' [(a & s1 & _ & H)|(e1 & H & [= <-])]%bind_inv; [by eapply Hk|by eapply Hp]. Qed.
Lemma only_lift {A} (x : result db_error A) : (exists a, x = Ok a) -> only_statements (lift x).
Proof. by intros [a ->] s e s'. Qed.
Lemma only_ret {A} (a : A) : only_statements (ret a).
Proof. done. Qed.
Lemma only_each {A} (f : A -> prog database ()) l : (forall a, a ∈ l -> only_statements (f a)) -> only_statements (each f l).
Proof.
  induction l as [|a l IH]; simpl; intros Hf; [apply only_ret|].
  apply only_bind; [apply Hf; left|]. intros _. apply IH. intros b Hb. apply Hf. by right.
Qed.

Lemma served_paths fs : Forall (fun f => identifierRE f = true) fs -> exists ps, res_map jsonPathExpr fs = Ok ps.
Proof.
  induction 1 as [|f fs Hf _ [ps IH]]; [by exists []|]. simpl. unfold jsonPathExpr at 1, ValidateIdentifier. rewrite Hf. simpl.
  rewrite IH. simpl. by eexists.
Qed.

Lemma create_indexes_only k c tname l : Forall served_index l ->
  only_statements (create_indexes ident field_text k c tname ((fun ix => mkIndexDecl (ix_fields ix) (ix_unique ix)) <$> l)).
Proof.
  induction 1 as [|ix l Hix _ IH]; simpl; [apply only_ret|]. case_bool_decide; [exact IH|].
  apply only_bind; [by apply only_lift, served_paths|]. intros _. apply only_bind; [apply only_exec|]. intros _.
  apply only_bind; [exact IH|]. intros d. apply only_ret.
Qed.

(** A collection whose table is there is there when the schema is reconciled. *)
Lemma reconcile_creates k col s s' t : tableName k (cs_Name col) = Ok t ->
  reconcile_collection ident field_text k col s = (Ok (), s') -> is_Some (tables (store s') !! ident t).
Proof.
  intros Ht (t' & s1 & H1 & H)%bind_ok. apply lift_inv in H1 as [E ->]. assert (t' = t) as -> by congruence.
  apply bind_ok in H as (u & s2 & H2 & H). apply exec_ok in H2 as (H2 & _). apply create_table_ok in H2 as (_ & [tb Htb] & _).
  assert (within keeps_documents (bind (exec "add version column" (stmt_add_version ident t)) (fun _ =>
      bind (create_indexes ident field_text k (cs_Name col) t (cs_Indexes col)) (fun d =>
      dropStaleIndexes ident k (cs_Name col) t d)))) as Hw.
  { apply within_bind; [apply _|apply add_version_keeps|]. intros _. apply within_bind; [apply _|apply create_indexes_keeps|].
    intros d s3 r s4 H3 n t0 Ht0. apply dropStaleIndexes_tables in H3. rewrite H3. by exists t0. }
  destruct (Hw _ _ _ H _ _ Htb) as (tb' & Htb' & _). by exists tb'.
Qed.

Lemma reconcile_only k c : identifierRE k = true -> served_collection c ->
  only_statements (reconcile_collection ident field_text k
    (Schema.mkCollection (col_name c) ((fun ix => mkIndexDecl (ix_fields ix) (ix_unique ix)) <$> col_indexes c))).
Proof.
  intros Hk [Hc Hi]. unfold reconcile_collection. cbn [cs_Name cs_Indexes].
  apply only_bind; [apply only_lift; eexists; by apply tableName_ok|]. intros t.
  apply only_bind; [apply only_exec|]. intros _. apply only_bind; [apply only_exec|]. intros _.
  apply only_bind; [by apply create_indexes_only|]. intros d. unfold dropStaleIndexes.
  apply only_bind; [apply only_exec|]. intros names. apply only_each. intros n _.
  destruct (negb _); [apply only_ret|apply only_exec].
Qed.

Lemma each_creates k cols s s' : each (reconcile_collection ident field_text k) cols s = (Ok (), s') ->
  forall col t, col ∈ cols -> tableName k (cs_Name col) = Ok t -> is_Some (tables (store s') !! ident t).
Proof.
  revert s. induction cols as [|c cols IH]; intros s; simpl; [intros _ col t Hin; by apply elem_of_nil in Hin|].
  intros ([] & s1 & H1 & H2)%bind_ok col t [->|Hin]%elem_of_cons Ht; [|by eapply IH].
  destruct (reconcile_creates k c s s1 t Ht H1) as [tb Htb].
  assert (within keeps_documents (each (reconcile_collection ident field_text k) cols)) as Hw.
  { apply within_each; [apply _|]. apply list.Forall_forall. intros c' _. apply reconcile_collection_keeps. }
  destruct (Hw _ _ _ H2 _ _ Htb) as (tb' & Htb' & _). by exists tb'.
Qed.

(** A manifest with names the store takes: what is logged is a statement the
    server has refused; and when nothing is logged every collection has its
    table. *)
Lemma provision_served m s r s' : served m -> provision m s = (Ok r, s') ->
  match r with
  | Some e => exists doing w, e = SqlFailed doing w
  | None => forall c t, c ∈ Collections m -> tableName (Key m) (col_name c) = Ok t -> is_Some (tables (store s') !! ident t)
  end.
Proof.
  intros [Hk Hc] H. unfold provision in H. apply bind_ok in H as (x & s1 & H1 & H2). injection H2 as <- <-.
  unfold try in H1. destruct (ProvisionSchema ident field_text (Key m) (collectionsOf m) s) as [x1 s2] eqn:E.
  injection H1 as <- <-. unfold ProvisionSchema in E.
  assert (each (reconcile_collection ident field_text (Key m)) (collectionsOf m) s = (x1, s2)) as E'.
  { destruct (collectionsOf m); exact E. }
  destruct x1 as [[]|e].
  - intros c t Hin Ht. eapply (each_creates _ _ _ _ E' (Schema.mkCollection (col_name c)
      ((fun ix => mkIndexDecl (ix_fields ix) (ix_unique ix)) <$> col_indexes c)) t); [|exact Ht].
    apply list_elem_of_fmap. by exists c.
  - eapply (only_each _ (collectionsOf m)); [|exact E']. intros col (c & -> & Hin)%list_elem_of_fmap.
    apply reconcile_only; [done|]. by apply (proj1 (list.Forall_forall _ _) Hc).
Qed.
End server.

(** A key with a hyphen is accepted by Validate and by the installer, and is none
    the store can serve: the plugin starts, without its tables. *)
Definition hyphen : Manifest :=
  mkManifest "my-notes" "" "1.0.0" 0 (mkRuntime "bin/plugin" [] 0) ["db"] [] [Manifest.mkCollection "notes" []] [] [] [] [].

Example hyphen_accepted : Validate hyphen = Ok tt /\ identifierRE (Key hyphen) = false.
Proof. split; vm_compute; reflexivity. Qed.
