(* ===== verification/Base64.v ===== *)
(** * encoding/base64, RawURLEncoding

    The encoding the cursors of core/db/query.go use: the URL alphabet, no
    padding. Decoding is Go's: line breaks are skipped, a final group may have
    two or three characters, and unused low bits are not looked at. *)

From S2P Require Import Prelude GoStrings.
From Stdlib Require Import Ascii.

Open Scope Z_scope.

Definition byte_of (a : ascii) : Z := Z.of_nat (nat_of_ascii a).
Definition of_byte (z : Z) : ascii := ascii_of_nat (Z.to_nat z).

Definition alphabet : list ascii :=
  String.list_ascii_of_string "ABCDEFGHIJKLMNOPQRSTUVWXYZabcdefghijklmnopqrstuvwxyz0123456789-_".

Definition b64_char (d : Z) : ascii := nth (Z.to_nat d) alphabet "A"%char.

Definition b64_val (a : ascii) : option Z :=
  (fun p => Z.of_nat p.1) <$> list_find (fun b => b = a) alphabet.

Fixpoint b64_encode (s : string) : string :=
  match s with
  | EmptyString => ""
  | String a EmptyString =>
      let v := byte_of a * 65536 in
      String (b64_char (v / 262144)) (String (b64_char (v / 4096 mod 64)) "")
  | String a (String b EmptyString) =>
      let v := byte_of a * 65536 + byte_of b * 256 in
      String (b64_char (v / 262144)) (String (b64_char (v / 4096 mod 64))
        (String (b64_char (v / 64 mod 64)) ""))
  | String a (String b (String c s)) =>
      let v := byte_of a * 65536 + byte_of b * 256 + byte_of c in
      String (b64_char (v / 262144)) (String (b64_char (v / 4096 mod 64))
        (String (b64_char (v / 64 mod 64)) (String (b64_char (v mod 64)) (b64_encode s))))
  end.

(** [s] without its line breaks. *)
Fixpoint decode_quads (s : string) : option string :=
  match s with
  | EmptyString => Some ""
  | String _ EmptyString => None
  | String a (String b EmptyString) =>
      x ← b64_val a; y ← b64_val b;
      Some (String (of_byte ((x * 262144 + y * 4096) / 65536)) "")
  | String a (String b (String c EmptyString)) =>
      x ← b64_val a; y ← b64_val b; z ← b64_val c;
      let v := x * 262144 + y * 4096 + z * 64 in
      Some (String (of_byte (v / 65536)) (String (of_byte (v / 256 mod 256)) ""))
  | String a (String b (String c (String d s))) =>
      x ← b64_val a; y ← b64_val b; z ← b64_val c; w ← b64_val d;
      let v := x * 262144 + y * 4096 + z * 64 + w in
      r ← decode_quads s;
      Some (String (of_byte (v / 65536)) (String (of_byte (v / 256 mod 256))
        (String (of_byte (v mod 256)) r)))
  end.

Fixpoint skip_breaks (s : string) : string :=
  match s with
  | EmptyString => ""
  | String a s =>
      if (nat_of_ascii a =? 10)%nat || (nat_of_ascii a =? 13)%nat then skip_breaks s
      else String a (skip_breaks s)
  end.

Definition b64_decode (s : string) : option string := decode_quads (skip_breaks s).

(** ** Decoding undoes encoding *)

Lemma byte_range a : 0 <= byte_of a < 256.
Proof. unfold byte_of. pose proof (nat_ascii_bounded a). lia. Qed.

Lemma of_byte_of a z : z = byte_of a -> of_byte z = a.
Proof. intros ->. unfold of_byte, byte_of. by rewrite Nat2Z.id, ascii_nat_embedding. Qed.

(** A property of the 64 digits is checked digit by digit. *)
Lemma digits_all (P : Z -> bool) :
  forallb P (map Z.of_nat (seq 0 64)) = true -> forall d, 0 <= d < 64 -> P d = true.
Proof.
  rewrite forallb_forall. intros H d Hd. apply H, in_map_iff. exists (Z.to_nat d).
  split; [lia|]. apply in_seq. lia.
Qed.

Lemma b64_val_char d : 0 <= d < 64 -> b64_val (b64_char d) = Some d.
Proof.
  intros Hd. apply (bool_decide_eq_true (b64_val (b64_char d) = Some d)).
  revert d Hd. apply digits_all. vm_compute. reflexivity.
Qed.

Lemma b64_char_no_break d : 0 <= d < 64 ->
  (nat_of_ascii (b64_char d) =? 10)%nat || (nat_of_ascii (b64_char d) =? 13)%nat = false.
Proof.
  intros Hd. apply negb_true_iff. revert d Hd. apply digits_all. vm_compute. reflexivity.
Qed.

Lemma skip_char d s : 0 <= d < 64 -> skip_breaks (String (b64_char d) s) = String (b64_char d) (skip_breaks s).
Proof. intros Hd. simpl. by rewrite b64_char_no_break. Qed.

Ltac sextet := Z.to_euclidean_division_equations; lia.

Theorem b64_roundtrip s : b64_decode (b64_encode s) = Some s.
Proof.
  unfold b64_decode.
  assert (forall n s, (String.length s <= n)%nat -> decode_quads (skip_breaks (b64_encode s)) = Some s) as H;
    [|by apply (H (String.length s))].
  clear s. induction n as [|n IH]; intros [|a [|b [|c s]]] Hn; simpl in Hn; try done; try lia;
    pose proof (byte_range a); try pose proof (byte_range b); try pose proof (byte_range c);
    cbn [b64_encode]; rewrite !skip_char by sextet; cbn [skip_breaks decode_quads];
    rewrite !b64_val_char by sextet; cbn [mbind option_bind].
  - rewrite (of_byte_of a) by sextet. done.
  - rewrite (of_byte_of a), (of_byte_of b) by sextet. done.
  - rewrite IH by lia. cbn [mbind option_bind].
    rewrite (of_byte_of a), (of_byte_of b), (of_byte_of c) by sextet. done.
Qed.

Lemma b64_encode_nonempty s : s <> "" -> b64_encode s <> "".
Proof. by destruct s as [|a [|b [|c s]]]. Qed.

Example b64_example : b64_encode "{}?" = "e30_" /\ b64_decode "e30_" = Some "{}?".
Proof. by vm_compute. Qed.
