(* ===== verification/SqlText.v ===== *)
(** * core/db/query.go: the SQL text and its placeholders

    How the field paths, the WHERE fragment and the statements around it are
    rendered, and a reader of the [$n] placeholders of a text, against which
    the rendering is proved.

    Operators are normalised on ASCII: an operator spelled with a non-ASCII
    letter whose upper case is an ASCII one is refused here and read as that
    operator by the code. *)

From stdpp Require Import pretty.
From Stdlib Require Import Ascii.
From S2P Require Import Prelude GoStrings Sql.

Open Scope Z_scope.

(** ** Reading placeholders *)

Fixpoint placeholders_from (cur : option Z) (s : string) : list Z :=
  match s with
  | EmptyString => match cur with Some n => [n] | None => [] end
  | String a s =>
      match cur, digit_val a with
      | Some n, Some d => placeholders_from (Some (10 * n + d)) s
      | _, _ =>
          (match cur with Some n => [n] | None => [] end) ++
          placeholders_from (if Ascii.eqb a "$" then Some 0 else None) s
      end
  end.

Definition placeholders (s : string) : list Z := placeholders_from None s.

(** Text that cannot prolong a number in front of it. *)
Definition opens (t : string) : Prop :=
  match t with EmptyString => True | String a _ => digit_val a = None end.

(** [s] has exactly the placeholders [l], wherever it is put. *)
Definition ph (s : string) (l : list Z) : Prop :=
  forall t, opens t -> opens (s +:+ t) /\ placeholders (s +:+ t) = l ++ placeholders t.

Lemma ph_placeholders s l : ph s l -> placeholders s = l.
Proof. intros H. destruct (H "" I) as [_ E]. by rewrite sapp_nil_r, app_nil_r in E. Qed.

Lemma ph_app s1 s2 l1 l2 : ph s1 l1 -> ph s2 l2 -> ph (s1 +:+ s2) (l1 ++ l2).
Proof.
  intros H1 H2 t Ht. rewrite <- sapp_assoc. destruct (H2 t Ht) as [O2 E2].
  destruct (H1 _ O2) as [O1 E1]. split; [done|]. by rewrite E1, E2, app_assoc.
Qed.

Lemma placeholders_none a s : placeholders_from None (String a s) =
  placeholders_from (if Ascii.eqb a "$" then Some 0 else None) s.
Proof. simpl. by destruct (digit_val a). Qed.

Lemma plain_placeholders s t : has_byte "$" s = false -> placeholders (s +:+ t) = placeholders t.
Proof.
  unfold placeholders. induction s as [|a s IH]; [done|]. cbn [has_byte String.append].
  intros [Ha Hs]%orb_false_iff. by rewrite placeholders_none, Ha, IH.
Qed.

Lemma ph_plain s : opens s -> has_byte "$" s = false -> ph s [].
Proof.
  intros Ho Hs t Ht. split; [by destruct s|]. by rewrite plain_placeholders.
Qed.

Lemma placeholders_end n t : opens t -> placeholders_from (Some n) t = n :: placeholders t.
Proof.
  destruct t as [|a t]; [done|]. simpl. intros Ha. unfold placeholders. by rewrite placeholders_none, Ha.
Qed.

Lemma digit_of_char x : (x < 10)%N -> digit_val (pretty_N_char x) = Some (Z.of_N x).
Proof.
  intros Hx. assert (x = 0 \/ x = 1 \/ x = 2 \/ x = 3 \/ x = 4 \/ x = 5 \/ x = 6 \/ x = 7 \/ x = 8 \/ x = 9)%N
    as Hc by lia.
  destruct_or! Hc; subst x; reflexivity.
Qed.

Lemma pretty_N_go_append x : forall s t, pretty_N_go x s +:+ t = pretty_N_go x (s +:+ t).
Proof.
  induction (N.lt_wf_0 x) as [x _ IH]. intros s t. destruct (decide (0 < x)%N) as [Hx|Hx].
  - rewrite !(pretty_N_go_step x) by done. rewrite IH; [done|]. apply N.div_lt; lia.
  - assert (x = 0)%N as -> by lia. by rewrite !pretty_N_go_0.
Qed.

Lemma placeholders_number x : (0 < x)%N -> forall s,
  placeholders_from (Some 0) (pretty_N_go x s) = placeholders_from (Some (Z.of_N x)) s.
Proof.
  induction (N.lt_wf_0 x) as [x _ IH]. intros Hx s. rewrite pretty_N_go_step by done.
  assert (x `mod` 10 < 10)%N as Hm by (apply N.mod_lt; lia).
  assert (Z.of_N x = 10 * Z.of_N (x `div` 10)%N + Z.of_N (x `mod` 10)%N) as E
    by (rewrite <- N2Z.inj_mul with (n := 10%N), <- N2Z.inj_add, <- N.div_mod'; done).
  destruct (decide (0 < x `div` 10)%N) as [Hd|Hd].
  - rewrite IH by (done || apply N.div_lt; lia). cbn [placeholders_from].
    by rewrite digit_of_char, E.
  - assert (x `div` 10 = 0)%N as E0 by lia. rewrite E0, pretty_N_go_0. cbn [placeholders_from].
    rewrite digit_of_char, E, E0 by done. done.
Qed.

Definition dollar (n : Z) : string := "$" +:+ itoa n.

Lemma ph_dollar n : 0 < n -> ph (dollar n) [n].
Proof.
  intros Hn t Ht. split; [done|]. unfold dollar, itoa.
  destruct n as [|p|p]; [lia| |lia].
  change (pretty (Z.pos p)) with (pretty (N.pos p)). unfold pretty, pretty_N.
  rewrite decide_False by done. rewrite <- sapp_assoc, pretty_N_go_append.
  unfold placeholders. cbn [String.append]. rewrite placeholders_none. cbn [Ascii.eqb].
  rewrite (placeholders_number (N.pos p)) by lia. simpl. by rewrite placeholders_end.
Qed.

Lemma ph_join sep ss ls :
  ph sep [] -> Forall2 ph ss ls -> ph (join sep ss) (concat ls).
Proof.
  intros Hsep H. induction H as [|s l ss ls Hs Hss IH]; [by apply ph_plain|].
  destruct ss as [|s' ss].
  - inversion Hss; subst. simpl. by rewrite app_nil_r.
  - rewrite join_cons by done. simpl. apply ph_app; [done|]. apply (ph_app _ _ []); [done|]. done.
Qed.

Lemma word_no_dollar s : all_bytes is_word s = true -> has_byte "$" s = false.
Proof.
  induction s as [|a s IH]; [done|]. simpl. intros [Ha Hs]%andb_true_iff. rewrite (IH Hs), orb_false_r.
  destruct (Ascii.eqb_spec a "$"); [subst a; done|done].
Qed.

Lemma ident_plain s : identifierRE s = true -> has_byte "$" s = false.
Proof. intros [H _]%identifierRE_word. by apply word_no_dollar. Qed.

Lemma ident_ph s : identifierRE s = true -> ph s [].
Proof.
  intros H. apply ph_plain; [|by apply ident_plain]. destruct s as [|a s]; [done|].
  simpl in *. apply andb_true_iff in H as [H _]. by destruct a as [[] [] [] [] [] [] [] []].
Qed.

(** ** Fields, predicates, operators *)

Record Predicate := mkPredicate { p_Field : string; p_Op : string; p_Values : list string }.
Record SortField := mkSortField { s_Field : string; Descending : bool }.

(** Bound parameters. *)
Inductive arg := AStr (s : string) | AInt (z : Z).

Definition jsonPath (field : string) : result db_error string :=
  reject? String.eqb field "" with FieldRequired ;;
  let parts := split_byte "." field in
  reject? negb (forallb identifierRE parts) with InvalidIdentifier "field" field ;;
  match parts with
  | [p] => Ok ("(data->>'" +:+ p +:+ "')")
  | _ => Ok ("(data#>>'{" +:+ join "," parts +:+ "}')")
  end.

(** One predicate: its clause and its arguments, the placeholders counting
    from [n]. *)
Definition clause_of (p : Predicate) (n : Z) : result db_error (string * list string) :=
  let? expr := jsonPath (p_Field p) in
  let op := to_upper (trim_space (p_Op p)) in
  let op := if String.eqb op "" then "=" else op in
  if bool_decide (op ∈ ["="; "!="; ">"; ">="; "<"; "<="; "LIKE"]) then
    match p_Values p with
    | [v] => Ok (expr +:+ " " +:+ op +:+ " " +:+ dollar (n + 1), [v])
    | _ => Err (BadQuery "operator needs exactly one value")
    end
  else if String.eqb op "IN" then
    match p_Values p with
    | [] => Ok ("FALSE", [])
    | vs =>
        let marks := imap (fun i _ => dollar (n + 1 + Z.of_nat i)) vs in
        Ok (expr +:+ " IN (" +:+ join ", " marks +:+ ")", vs)
    end
  else if String.eqb op "BETWEEN" then
    match p_Values p with
    | [a; b] => Ok (expr +:+ " BETWEEN " +:+ dollar (n + 1) +:+ " AND " +:+ dollar (n + 2), [a; b])
    | _ => Err (BadQuery "BETWEEN needs exactly two values")
    end
  else if String.eqb op "IS NULL" then Ok (expr +:+ " IS NULL", [])
  else if String.eqb op "IS NOT NULL" then Ok (expr +:+ " IS NOT NULL", [])
  else Err (BadQuery "unsupported operator").

Fixpoint clauses_of (preds : list Predicate) (n : Z) : result db_error (list string * list string) :=
  match preds with
  | [] => Ok ([], [])
  | p :: preds =>
      let? (c, vs) := clause_of p n in
      let? (cs, ws) := clauses_of preds (n + Z.of_nat (length vs)) in
      Ok (c :: cs, vs ++ ws)
  end.

Definition buildWhere (preds : list Predicate) (argOffset : Z) : result db_error (string * list arg) :=
  match preds with
  | [] => Ok ("", [])
  | _ =>
      let? (clauses, vs) := clauses_of preds argOffset in
      Ok (" WHERE " +:+ join " AND " clauses, AStr <$> vs)
  end.

(** ** What is proved of them *)

(** The numbers [n+1 .. n+k]. *)
Definition upto (n : Z) (k : nat) : list Z := (fun i => n + 1 + Z.of_nat i) <$> seq 0 k.

Lemma upto_app n j k : upto n (j + k) = upto n j ++ upto (n + Z.of_nat j) k.
Proof.
  unfold upto. rewrite seq_app, fmap_app. f_equal. simpl.
  replace (seq j k) with (Nat.add j <$> seq 0 k) by (rewrite fmap_add_seq; f_equal; lia).
  rewrite <- list_fmap_compose. apply list_fmap_ext. intros i x _. simpl. lia.
Qed.

Lemma jsonPath_ok field e :
  jsonPath field = Ok e -> ph e [] /\ Forall (fun p => identifierRE p = true) (split_byte "." field).
Proof.
  unfold jsonPath. intros H. peel_all H. zbool.
  assert (Forall (fun p => identifierRE p = true) (split_byte "." field)) as Hall
    by (apply list.Forall_forall; by apply forallb_elem).
  split; [|done]. destruct (split_byte "." field) as [|p [|q ps]] eqn:Es.
  - by destruct (split_byte_ne "." field).
  - apply Ok_inj in H as <-. apply list.Forall_cons in Hall as [Hall _].
    apply (ph_app _ _ [] []); [by apply ph_plain|]. apply (ph_app _ _ [] []); [by apply ident_ph|by apply ph_plain].
  - apply Ok_inj in H as <-. apply (ph_app _ _ [] []); [by apply ph_plain|].
    apply (ph_app _ _ [] []); [|by apply ph_plain].
    replace [] with (concat (replicate (length (p :: q :: ps)) (@nil Z)) : list Z)
      by (generalize (length (p :: q :: ps)); intros n; by induction n).
    apply ph_join; [by apply ph_plain|]. clear Es. revert Hall. generalize (p :: q :: ps). intros l Hl.
    induction Hl as [|x l Hx _ IH]; simpl; constructor; [by apply ident_ph|done].
Qed.

Lemma ph_marks (vs : list string) n :
  0 <= n -> Forall2 ph (imap (fun i _ => dollar (n + 1 + Z.of_nat i)) vs) ((fun z => [z]) <$> upto n (length vs)).
Proof.
  intros Hn. apply Forall2_same_length_lookup_2.
  - rewrite length_imap, length_fmap. unfold upto. by rewrite length_fmap, length_seq.
  - intros i x l Hx Hl. apply list_lookup_imap_Some in Hx as (v & _ & ->).
    apply list_lookup_fmap_Some in Hl as (z & -> & Hz). unfold upto in Hz.
    apply list_lookup_fmap_Some in Hz as (j & -> & [-> _]%lookup_seq). apply ph_dollar. lia.
Qed.

Lemma concat_singletons (l : list Z) : concat ((fun z => [z]) <$> l) = l.
Proof. induction l as [|z l IH]; [done|]. csimpl. by rewrite IH. Qed.

Ltac ph_text :=
  repeat match goal with
  | |- ph (_ +:+ _) _ => eapply ph_app
  | |- ph (dollar _) _ => apply ph_dollar; lia
  | H : ph ?e _ |- ph ?e _ => exact H
  | |- ph _ _ => apply ph_plain; reflexivity
  end.

Lemma ph_eq s l l' : ph s l -> l = l' -> ph s l'.
Proof. by intros ? <-. Qed.

Lemma plain_op op : op ∈ ["="; "!="; ">"; ">="; "<"; "<="; "LIKE"] -> ph op [].
Proof. rewrite !elem_of_cons. intros [->|[->|[->|[->|[->|[->|[->|H]]]]]]]; try by apply ph_plain. by apply not_elem_of_nil in H. Qed.

(** The placeholders of a clause are the next numbers, one per argument. *)
Lemma clause_of_ph p n c vs :
  0 <= n -> clause_of p n = Ok (c, vs) -> ph c (upto n (length vs)) /\ (vs = p_Values p \/ vs = []).
Proof.
  intros Hn H. unfold clause_of in H. peel H. apply jsonPath_ok in Hr as [He _].
  set (op := if String.eqb (to_upper (trim_space (p_Op p))) "" then "=" else to_upper (trim_space (p_Op p))) in H.
  case_bool_decide as Hop.
  { apply plain_op in Hop. destruct (p_Values p) as [|v [|? ?]]; try done.
    apply Ok_inj, pair_eq in H as [<- <-]. split; [|by left].
    eapply ph_eq; [ph_text|unfold upto; simpl; f_equal; lia]. }
  destruct (String.eqb op "IN").
  { destruct (p_Values p) as [|v vs'] eqn:Ev; apply Ok_inj, pair_eq in H as [<- <-];
      [split; [by apply ph_plain|by left]|].
    split; [|by left]. eapply ph_eq; [ph_text; apply ph_join; [by apply ph_plain|by apply ph_marks]|].
    by rewrite concat_singletons, app_nil_r. }
  destruct (String.eqb op "BETWEEN").
  { destruct (p_Values p) as [|a [|b [|? ?]]]; try done.
    apply Ok_inj, pair_eq in H as [<- <-]. split; [|by left].
    eapply ph_eq; [ph_text|]. unfold upto. simpl. f_equal; [lia|]. f_equal. lia. }
  destruct (String.eqb op "IS NULL"); [|destruct (String.eqb op "IS NOT NULL"); [|done]];
    apply Ok_inj, pair_eq in H as [<- <-]; (split; [eapply ph_eq; [ph_text|done]|by right]).
Qed.

(** The operator as the code normalises it, and the values it binds. *)
Definition op_of (p : Predicate) : string :=
  let op := to_upper (trim_space (p_Op p)) in if String.eqb op "" then "=" else op.

Definition bound (p : Predicate) : list string :=
  if String.eqb (op_of p) "IS NULL" || String.eqb (op_of p) "IS NOT NULL" then [] else p_Values p.

Lemma clause_of_bound p n c vs : clause_of p n = Ok (c, vs) -> vs = bound p.
Proof.
  intros H. unfold clause_of in H. peel H. unfold bound. fold (op_of p) in H.
  case_bool_decide as Hop.
  { assert (String.eqb (op_of p) "IS NULL" || String.eqb (op_of p) "IS NOT NULL" = false) as ->.
    { rewrite !elem_of_cons in Hop. destruct Hop as [->|[->|[->|[->|[->|[->|[->|Hop]]]]]]]; try done.
      by apply not_elem_of_nil in Hop. }
    destruct (p_Values p) as [|v [|? ?]]; try done. by apply Ok_inj, pair_eq in H as [_ <-]. }
  destruct (String.eqb_spec (op_of p) "IN") as [->|].
  { destruct (p_Values p); by apply Ok_inj, pair_eq in H as [_ <-]. }
  destruct (String.eqb_spec (op_of p) "BETWEEN") as [->|].
  { destruct (p_Values p) as [|a [|b [|? ?]]]; try done. by apply Ok_inj, pair_eq in H as [_ <-]. }
  destruct (String.eqb (op_of p) "IS NULL"); [|destruct (String.eqb (op_of p) "IS NOT NULL"); [|done]];
    by apply Ok_inj, pair_eq in H as [_ <-].
Qed.

(** The same question with other values. *)
Definition same_shape (p q : Predicate) : Prop :=
  p_Field p = p_Field q /\ p_Op p = p_Op q /\ length (p_Values p) = length (p_Values q).

Lemma imap_same_length {A B C} (f : nat -> C) : forall (l : list A) (k : list B),
  length l = length k -> imap (fun i _ => f i) l = imap (fun i _ => f i) k.
Proof.
  intros l. revert f. induction l as [|a l IH]; intros f [|b k] H; simpl in *; try done.
  f_equal. apply (IH (fun i => f (S i))). lia.
Qed.

Lemma clause_of_shape p q n :
  same_shape p q ->
  match clause_of p n with
  | Ok (c, vs) => exists ws, clause_of q n = Ok (c, ws) /\ length ws = length vs
  | Err e => clause_of q n = Err e
  end.
Proof.
  destruct p as [f o vs], q as [f' o' ws]. intros (Hf & Ho & Hl). simpl in Hf, Ho, Hl. subst f' o'.
  unfold clause_of. cbn [p_Field p_Op p_Values]. destruct (jsonPath f) as [e|e]; [|done]. cbn [res_bind].
  set (op := if String.eqb (to_upper (trim_space o)) "" then "=" else to_upper (trim_space o)). clearbody op.
  case_bool_decide.
  { destruct vs as [|v [|? ?]], ws as [|w [|? ?]]; try done. by eexists. }
  destruct (String.eqb op "IN").
  { destruct vs as [|v vs], ws as [|w ws]; try done; [by exists []|].
    rewrite (imap_same_length (fun i => dollar (n + 1 + Z.of_nat i)) (v :: vs) (w :: ws)) by done.
    by exists (w :: ws). }
  destruct (String.eqb op "BETWEEN").
  { destruct vs as [|a [|b [|? ?]]], ws as [|a' [|b' [|? ?]]]; try done. by eexists. }
  destruct (String.eqb op "IS NULL"); [by exists []|].
  destruct (String.eqb op "IS NOT NULL"); [by exists []|done].
Qed.

Lemma clauses_of_ph preds : forall n cs vs,
  0 <= n -> clauses_of preds n = Ok (cs, vs) ->
  exists ls, Forall2 ph cs ls /\ concat ls = upto n (length vs) /\ vs = concat (bound <$> preds).
Proof.
  induction preds as [|p preds IH]; intros n cs vs Hn H; cbn [clauses_of] in H.
  - apply Ok_inj, pair_eq in H as [<- <-]. exists []. split_and!; [constructor|done|done].
  - peel H. destruct r as [c vs1]. peel H. destruct r as [cs1 vs2].
    apply Ok_inj, pair_eq in H as [<- <-]. pose proof (clause_of_bound _ _ _ _ Hr) as Hb.
    apply clause_of_ph in Hr as [Hc _]; [|done].
    apply IH in Hr0 as (ls & Hls & Hcat & ->); [|lia]. exists (upto n (length vs1) :: ls).
    split_and!; [by constructor| |by rewrite Hb].
    rewrite length_app, upto_app, <- Hcat. done.
Qed.

Lemma clauses_of_shape preds preds' : Forall2 same_shape preds preds' -> forall n,
  match clauses_of preds n with
  | Ok (cs, vs) => exists ws, clauses_of preds' n = Ok (cs, ws) /\ length ws = length vs
  | Err e => clauses_of preds' n = Err e
  end.
Proof.
  induction 1 as [|p q preds preds' Hpq _ IH]; intros n; cbn [clauses_of]; [by exists []|].
  pose proof (clause_of_shape p q n Hpq) as Hc. destruct (clause_of p n) as [[c vs]|e]; [|by rewrite Hc].
  destruct Hc as (ws & -> & Hl). cbn [res_bind]. rewrite Hl. specialize (IH (n + Z.of_nat (length vs))).
  destruct (clauses_of preds (n + Z.of_nat (length vs))) as [[cs vs']|e]; [|by rewrite IH].
  destruct IH as (ws' & -> & Hl'). cbn [res_bind]. exists (ws ++ ws').
  split; [done|]. by rewrite !length_app, Hl, Hl'.
Qed.

(** C27. Values never reach the SQL text. When [buildWhere] renders a fragment,
    its placeholders are exactly the numbers after the offset, in order and
    once each, one per bound argument; the arguments are exactly the values of
    the predicates in order; and the same fields and operators with any other
    values, however hostile, render the very same text. *)
Theorem buildWhere_spec preds n w args :
  0 <= n -> buildWhere preds n = Ok (w, args) ->
  placeholders w = upto n (length args) /\
  args = AStr <$> concat (bound <$> preds) /\
  Forall (fun p => Forall (fun s => identifierRE s = true) (split_byte "." (p_Field p))) preds /\
  forall preds', Forall2 same_shape preds preds' ->
    buildWhere preds' n = Ok (w, AStr <$> concat (bound <$> preds')).
Proof.
  intros Hn H. destruct preds as [|p preds].
  - apply Ok_inj, pair_eq in H as [<- <-]. split_and!; [done|done|constructor|].
    intros preds' Hs. by inversion Hs.
  - unfold buildWhere in H. peel H. destruct r as [cs vs]. apply Ok_inj, pair_eq in H as [<- <-].
    destruct (clauses_of_ph _ _ _ _ Hn Hr) as (ls & Hls & Hcat & Hvs). split_and!.
    + rewrite length_fmap, <- Hcat. apply ph_placeholders.
      apply (ph_app _ _ []); [by apply ph_plain|]. apply ph_join; [by apply ph_plain|done].
    + by rewrite Hvs.
    + clear - Hr. revert n cs vs Hr. generalize (p :: preds). intros l.
      induction l as [|q l IH]; intros n cs vs H; constructor; cbn [clauses_of] in H;
        peel H; destruct r as [c vs1]; peel H.
      * unfold clause_of in Hr. peel Hr. by apply jsonPath_ok in Hr1 as [_ ?].
      * destruct r as [cs1 vs2]. by eapply IH.
    + intros preds' Hs. pose proof (clauses_of_shape _ _ Hs n) as Hc. rewrite Hr in Hc.
      destruct Hc as (ws & Hc & _). destruct (clauses_of_ph _ _ _ _ Hn Hc) as (_ & _ & _ & ->).
      destruct preds' as [|q preds']; [by inversion Hs|]. unfold buildWhere. by rewrite Hc.
Qed.

Lemma buildWhere_spec_witness :
  let p v := mkPredicate "profile.city" " like " [v] in
  let w := " WHERE (data#>>'{profile,city}') LIKE $1" in
  buildWhere [p "x%"] 0 = Ok (w, [AStr "x%"]) /\ placeholders w = [1] /\
  buildWhere [p "'; DROP TABLE users; --"] 0 = Ok (w, [AStr "'; DROP TABLE users; --"]).
Proof.
  intros p w. assert (buildWhere [p "x%"] 0 = Ok (w, [AStr "x%"])) as H by (vm_compute; reflexivity).
  destruct (buildWhere_spec [p "x%"] 0 w [AStr "x%"] ltac:(lia) H) as (Hp & _ & _ & Hs).
  split; [exact H|]. split; [rewrite Hp; reflexivity|].
  refine (Hs [p "'; DROP TABLE users; --"] _). repeat constructor.
Defined.
