(* ===== verification/Select.v ===== *)
(** * The statements a page of documents is read with

    What core/db/query.go asks of PostgreSQL, apart from how it builds the
    text: a select as data, its text with numbered placeholders and the
    arguments for them, and what a server answers it with. Query.v proves that
    the text it builds is the text of the statement that is meant. *)

From S2P Require Import Prelude GoStrings StableSort Sql SqlText.

Open Scope Z_scope.

(** ** Statements *)

(** A condition on the text of a field, given by the path to it. *)
Inductive cond :=
| Compare (path : list string) (op v : string)
| OneOf (path : list string) (vs : list string)
| Between (path : list string) (low high : string)
| IsNull (path : list string) | IsNotNull (path : list string)
| Never.

Inductive direction := Asc | Desc.

#[export] Instance direction_eq_dec : EqDecision direction.
Proof. solve_decision. Defined.

(** Id and data of the rows that satisfy the conditions and come after a key in
    a direction, if one is given, ordered in a direction by some fields and
    then the id, cut at a limit. *)
Record page_stmt := mkPage {
  pg_table : string; pg_conds : list cond; pg_keys : list (list string); pg_dir : direction;
  pg_after : option (direction * list string * string); pg_limit : Z
}.

(** A key has a value for every field. *)
Definition well_formed (st : page_stmt) : Prop :=
  match pg_after st with Some (_, ks, _) => length ks = length (pg_keys st) | None => True end.

(** ** Text *)

Definition column (path : list string) : string :=
  match path with
  | [p] => "(data->>'" +:+ p +:+ "')"
  | _ => "(data#>>'{" +:+ join "," path +:+ "}')"
  end.

Definition cond_values (c : cond) : list string :=
  match c with
  | Compare _ _ v => [v] | OneOf _ vs => vs | Between _ a b => [a; b]
  | IsNull _ | IsNotNull _ | Never => []
  end.

(** The placeholders of [k] values after the first [n]. *)
Definition marks (n : Z) (k : nat) : string :=
  join ", " ((fun i => dollar (n + Z.of_nat i)) <$> seq 1 k).

Definition cond_text (n : Z) (c : cond) : string :=
  match c with
  | Compare p op _ => column p +:+ " " +:+ op +:+ " " +:+ marks n 1
  | OneOf p vs => column p +:+ " IN (" +:+ marks n (length vs) +:+ ")"
  | Between p _ _ => column p +:+ " BETWEEN " +:+ marks n 1 +:+ " AND " +:+ marks (n + 1) 1
  | IsNull p => column p +:+ " IS NULL"
  | IsNotNull p => column p +:+ " IS NOT NULL"
  | Never => "FALSE"
  end.

Fixpoint conds_text (n : Z) (cs : list cond) : list string :=
  match cs with
  | [] => []
  | c :: cs => cond_text n c :: conds_text (n + Z.of_nat (length (cond_values c))) cs
  end.

Definition dir_text (d : direction) : string := match d with Asc => "ASC" | Desc => "DESC" end.
Definition after_text (d : direction) : string := match d with Asc => ">" | Desc => "<" end.

Definition columns (st : page_stmt) : list string := (column <$> pg_keys st) ++ ["id"].

Definition where_values (st : page_stmt) : list string := concat (cond_values <$> pg_conds st).

Definition where_texts (st : page_stmt) : list string :=
  conds_text 0 (pg_conds st) ++
  match pg_after st with
  | Some (d, ks, _) =>
      ["(" +:+ join ", " (columns st) +:+ ") " +:+ after_text d +:+ " (" +:+
       marks (Z.of_nat (length (where_values st))) (length ks + 1) +:+ ")"]
  | None => []
  end.

Definition page_args (st : page_stmt) : list arg :=
  (AStr <$> where_values st) ++
  match pg_after st with Some (_, ks, id) => AStr <$> ks ++ [id] | None => [] end ++
  [AInt (pg_limit st)].

Definition page_text (st : page_stmt) : string :=
  "SELECT id, data FROM " +:+ pg_table st +:+
  match where_texts st with [] => "" | ts => " WHERE " +:+ join " AND " ts end +:+
  " ORDER BY " +:+ join ", " ((fun e => e +:+ " " +:+ dir_text (pg_dir st)) <$> columns st) +:+
  " LIMIT " +:+ dollar (Z.of_nat (length (page_args st))).

(** ** Answers *)

(** A row: its id and its document. *)
Notation row := (string * string)%type.

Section meaning.
(** The order of the server's texts and its LIKE; and the text of a field of a
    row, NULL where it has none. *)
Context (tlt : string -> string -> bool) (like : string -> string -> bool)
  (col : list string -> row -> option string).

Definition compare (op x v : string) : bool :=
  if String.eqb op "=" then String.eqb x v
  else if String.eqb op "!=" then negb (String.eqb x v)
  else if String.eqb op ">" then tlt v x
  else if String.eqb op ">=" then negb (tlt x v)
  else if String.eqb op "<" then tlt x v
  else if String.eqb op "<=" then negb (tlt v x)
  else String.eqb op "LIKE" && like x v.

(** A comparison with NULL holds of nothing. *)
Definition holds (r : row) (c : cond) : bool :=
  match c with
  | Compare p op v => match col p r with Some x => compare op x v | None => false end
  | OneOf p vs => match col p r with Some x => existsb (String.eqb x) vs | None => false end
  | Between p a b => match col p r with Some x => compare ">=" x a && compare "<=" x b | None => false end
  | IsNull p => match col p r with Some _ => false | None => true end
  | IsNotNull p => match col p r with Some _ => true | None => false end
  | Never => false
  end.

(** The row comparison [(x, ...) > (k, ...)], or [<]: the first pair that
    differs decides, unless a NULL comes first. *)
Fixpoint beyond (d : direction) (xs : list (option string)) (ks : list string) : bool :=
  match xs, ks with
  | Some x :: xs, k :: ks =>
      if String.eqb x k then beyond d xs ks else match d with Asc => tlt k x | Desc => tlt x k end
  | _, _ => false
  end.

(** What a row is ordered by. *)
Definition sort_values (keys : list (list string)) (r : row) : list (option string) :=
  ((fun p => col p r) <$> keys) ++ [Some r.1].

(** NULL is greater than every text. *)
Definition value_lt (x y : option string) : bool :=
  match x, y with
  | Some x, Some y => tlt x y
  | Some _, None => true
  | None, _ => false
  end.

Fixpoint precedes (d : direction) (xs ys : list (option string)) : bool :=
  match xs, ys with
  | x :: xs, y :: ys =>
      if decide (x = y) then precedes d xs ys else match d with Asc => value_lt x y | Desc => value_lt y x end
  | _, _ => false
  end.

Definition kept (st : page_stmt) (r : row) : bool :=
  forallb (holds r) (pg_conds st) &&
  match pg_after st with
  | Some (d, ks, id) => beyond d (sort_values (pg_keys st) r) (ks ++ [id])
  | None => true
  end.

(** [l] answers the statement on a table of the rows [stored]. *)
Definition answers (stored : list row) (st : page_stmt) (l : list row) : Prop :=
  exists full, full ≡ₚ List.filter (kept st) stored /\
    StronglySorted (fun x y => precedes (pg_dir st) (sort_values (pg_keys st) y) (sort_values (pg_keys st) x) = false) full /\
    l = take (Z.to_nat (pg_limit st)) full.

(** *** Keys without NULL *)

Context `{!StrictTotal tlt}.

Lemma beyond_irrefl d ks : beyond d (Some <$> ks) ks = false.
Proof using Type. induction ks as [|k ks IH]; [done|]. csimpl. by rewrite String.eqb_refl. Qed.

Lemma beyond_trans d a b c :
  beyond d (Some <$> b) a = true -> beyond d (Some <$> c) b = true -> beyond d (Some <$> c) a = true.
Proof using StrictTotal0.
  revert b c. induction a as [|x a IH]; intros [|y b] [|z c]; csimpl; try done.
  destruct (String.eqb_spec y x) as [->|Hyx].
  - destruct (String.eqb_spec z x) as [->|]; [by apply IH|done].
  - destruct (String.eqb_spec z y) as [->|Hzy].
    + intros H _. by rewrite (proj2 (String.eqb_neq _ _) Hyx).
    + intros H1 H2. destruct (String.eqb_spec z x) as [->|]; [exfalso|].
      * assert (tlt x x = true) as H by (destruct d; by eapply st_trans). by rewrite st_irrefl in H.
      * destruct d; by eapply st_trans.
Qed.

(** Between keys of one length that differ, one comes first. *)
Lemma precedes_beyond d xs ys :
  length xs = length ys -> xs <> ys -> precedes d (Some <$> ys) (Some <$> xs) = false ->
  beyond d (Some <$> ys) xs = true.
Proof using StrictTotal0.
  revert ys. induction xs as [|x xs IH]; intros [|y ys] Hl Hne; csimpl; try done. simpl in Hl.
  destruct (decide (Some y = Some x)) as [[= ->]|Hyx].
  - rewrite String.eqb_refl. apply IH; [lia|congruence].
  - assert (y <> x) as Hyx' by congruence. rewrite (proj2 (String.eqb_neq _ _) Hyx').
    intros H. destruct (st_total x y) as [H1|[->|H1]]; [|done|]; destruct d; simpl in H; congruence.
Qed.
End meaning.
