(* ===== verification/Query.v ===== *)
(** * core/db/query.go and cmds.go: reading documents

    [Query] with its sort, its cursor and its page, [Find], and [Aggregate].
    The server is a parameter: [select] answers a text with its bound
    arguments, as does [select_agg] for an aggregation. JSON is a parameter
    too: reading a document, writing a value, and the cursor's payload.

    The theorem about pages supposes of the server only that it answers the
    statements of Select.v as they mean, and proves that the text built here is
    the text of the right one. *)

From Stdlib Require Import Ascii.
From S2P Require Import Prelude GoStrings StableSort Sql Base64 SqlText Select.

Open Scope Z_scope.

(** A decoded document. A number is what the code asks of its [float64]: the
    integer it equals, if [v == float64(int64(v))], and its [%v]. *)
Inductive json :=
| JNull
| JBool (b : bool)
| JNum (as_int : option Z) (shown : string)
| JStr (s : string)
| JArr (l : list json)
| JObj (fields : list (string * json)).

Record QueryOptions := mkQueryOptions {
  Predicates : list Predicate; Sort : list SortField; Limit : Z; Cursor : string
}.

Record QueryResult := mkQueryResult {
  Documents : list string; IDs : list string; NextCursor : string; HasMore : bool
}.

Definition DefaultQueryLimit : Z := 100.
Definition MaxQueryLimit : Z := 1000.

Definition query_limit (l : Z) : Z :=
  let l := if l <=? 0 then DefaultQueryLimit else l in
  if MaxQueryLimit <? l then MaxQueryLimit else l.

Section json.
Context (parse_object : string -> option (list (string * json)))
  (marshal_value : json -> string)
  (cursor_json : list string -> string -> string)
  (cursor_unjson : string -> option (list string * string)).

(** ** Cursors *)

Definition encodeCursor (keys : list string) (id : string) : string :=
  b64_encode (cursor_json keys id).

Definition decodeCursor (s : string) : result db_error (list string * string) :=
  match b64_decode s with
  | None => Err (BadQuery "malformed cursor")
  | Some raw =>
      match cursor_unjson raw with
      | None => Err (BadQuery "malformed cursor")
      | Some c => Ok c
      end
  end.

Definition obj_get (seg : string) (fields : list (string * json)) : json :=
  match list_find (fun p => p.1 = seg) fields with
  | Some (_, (_, v)) => v
  | None => JNull
  end.

Definition render (v : json) : string :=
  match v with
  | JNull => ""
  | JStr s => s
  | JNum (Some z) _ => itoa z
  | JNum None shown => shown
  | JBool true => "true"
  | JBool false => "false"
  | v => marshal_value v
  end.

Fixpoint lookupPath (cur : json) (path : list string) : string :=
  match path with
  | [] => render cur
  | seg :: path =>
      match cur with
      | JObj fields => lookupPath (obj_get seg fields) path
      | _ => ""
      end
  end.

Definition sortKeysOf (doc : string) (sort : list SortField) : result db_error (list string) :=
  match sort with
  | [] => Ok []
  | _ =>
      match parse_object doc with
      | None => Err (BadQuery "decode document for cursor")
      | Some fields => Ok ((fun s => lookupPath (JObj fields) (split_byte "." (s_Field s))) <$> sort)
      end
  end.

(** ** The statement of a page *)

Definition sort_exprs (sort : list SortField) : result db_error (list string) :=
  let descending := match sort with s :: _ => Descending s | [] => false end in
  res_map (fun s =>
    let? e := jsonPath (s_Field s) in
    reject? xorb (Descending s) descending with BadQuery "cursor pagination needs one direction" ;;
    Ok e) sort.

(** The keyset condition: its text and its arguments, after [n] others. *)
Definition cursor_clause (exprs : list string) (comparison : string) (keys : list string) (id : string)
    (n : Z) : string * list arg :=
  let marks := imap (fun i _ => dollar (n + 1 + Z.of_nat i)) (keys ++ [id]) in
  ("(" +:+ join ", " (exprs ++ ["id"]) +:+ ") " +:+ comparison +:+ " (" +:+ join ", " marks +:+ ")",
   AStr <$> keys ++ [id]).

Definition build_query (extKey collection : string) (opts : QueryOptions)
    : result db_error (string * list arg) :=
  let? table := tableName extKey collection in
  let limit := query_limit (Limit opts) in
  let? (whr, args) := buildWhere (Predicates opts) 0 in
  let? exprs := sort_exprs (Sort opts) in
  let descending := match Sort opts with s :: _ => Descending s | [] => false end in
  let direction := if descending then "DESC" else "ASC" in
  let comparison := if descending then "<" else ">" in
  let? (whr, args) :=
    (if String.eqb (Cursor opts) "" then Ok (whr, args)
     else
       let? (keys, id) := decodeCursor (Cursor opts) in
       reject? negb (bool_decide (length keys = length exprs)) with
         BadQuery "cursor does not match the current sort" ;;
       let (clause, more) := cursor_clause exprs comparison keys id (Z.of_nat (length args)) in
       Ok ((if String.eqb whr "" then " WHERE " +:+ clause else whr +:+ " AND " +:+ clause), args ++ more)) in
  let orderBy := ((fun e => e +:+ " " +:+ direction) <$> exprs) ++ ["id " +:+ direction] in
  let args := args ++ [AInt (limit + 1)] in
  Ok ("SELECT id, data FROM " +:+ table +:+ whr +:+ " ORDER BY " +:+ join ", " orderBy +:+
      " LIMIT " +:+ dollar (Z.of_nat (length args)), args).

(** The loop over the rows: it keeps [room] of them and stops at one more. *)
Fixpoint collect (room : nat) (rows : list (string * string)) : list (string * string) * bool :=
  match rows, room with
  | [], _ => ([], false)
  | _ :: _, O => ([], true)
  | r :: rows, S room => let '(page, more) := collect room rows in (r :: page, more)
  end.

Definition Query_ (select : string -> list arg -> result string (list (string * string)))
    (extKey collection : string) (opts : QueryOptions) : result db_error QueryResult :=
  let? (query, args) := build_query extKey collection opts in
  match select query args with
  | Err e => Err (SqlFailed "query" e)
  | Ok rows =>
      let '(page, more) := collect (Z.to_nat (query_limit (Limit opts))) rows in
      match list.last page with
      | Some (lastID, lastDoc) =>
          if more && negb (String.eqb lastID "") then
            let? keys := sortKeysOf lastDoc (Sort opts) in
            Ok (mkQueryResult page.*2 page.*1 (encodeCursor keys lastID) more)
          else Ok (mkQueryResult page.*2 page.*1 "" more)
      | None => Ok (mkQueryResult [] [] "" more)
      end
  end.

(** ** Find and Aggregate *)

Record Filter := mkFilter { f_Field : string; Operator : string; Value : string }.

Definition normalizeOperator (op : string) : string :=
  if bool_decide (op ∈ [">"; "<"; ">="; "<="; "LIKE"; "!="]) then op else "=".

Fixpoint find_clauses (filters : list Filter) (argIdx : Z) : result db_error (list string * list arg) :=
  match filters with
  | [] => Ok ([], [])
  | f :: filters =>
      let? expr := jsonPathExpr (f_Field f) in
      let? (cs, args) := find_clauses filters (argIdx + 1) in
      Ok ((expr +:+ " " +:+ normalizeOperator (Operator f) +:+ " " +:+ dollar argIdx) :: cs,
          AStr (Value f) :: args)
  end.

Definition build_find (extKey collection : string) (filters : list Filter) (limit offset : Z)
    : result db_error (string * list arg) :=
  let? table := tableName extKey collection in
  let? (cs, args) := find_clauses filters 1 in
  let whr := match cs with [] => "" | _ => "WHERE " +:+ join " AND " cs end in
  let limit := if limit <=? 0 then 100 else limit in
  let offset := if offset <? 0 then 0 else offset in
  let argIdx := 1 + Z.of_nat (length filters) in
  Ok ("SELECT data FROM " +:+ table +:+ " " +:+ whr +:+ " ORDER BY created_at LIMIT " +:+ dollar argIdx +:+
      " OFFSET " +:+ dollar (argIdx + 1) +:+ ";", args ++ [AInt limit; AInt offset]).

Definition Find (select : string -> list arg -> result string (list string))
    (extKey collection : string) (filters : list Filter) (limit offset : Z) : result db_error (list string) :=
  let? (query, args) := build_find extKey collection filters limit offset in
  match select query args with
  | Err e => Err (SqlFailed "find" e)
  | Ok docs => Ok docs
  end.

Record AggregateOptions := mkAggregateOptions {
  a_Predicates : list Predicate; Func : string; a_Field : string; GroupBy : list string
}.

Definition agg_func (func : string) : result db_error string :=
  let fn := to_upper (trim_space func) in
  if bool_decide (fn ∈ ["COUNT"; "SUM"; "AVG"; "MIN"; "MAX"]) then Ok fn
  else if String.eqb fn "" then Ok "COUNT"
  else Err (BadQuery "unsupported aggregate function").

Definition build_aggregate (extKey collection : string) (opts : AggregateOptions)
    : result db_error (string * list arg) :=
  let? table := tableName extKey collection in
  let? fn := agg_func (Func opts) in
  let? expr := (if String.eqb fn "COUNT" then Ok "*"
                else let? path := jsonPath (a_Field opts) in Ok ("(" +:+ path +:+ ")::numeric")) in
  let? groups := res_map jsonPath (GroupBy opts) in
  let? (whr, args) := buildWhere (a_Predicates opts) 0 in
  let selected := groups ++ [fn +:+ "(" +:+ expr +:+ ")::float8"] in
  let query := "SELECT " +:+ join ", " selected +:+ " FROM " +:+ table +:+ whr in
  Ok ((match groups with [] => query | _ => query +:+ " GROUP BY " +:+ join ", " groups end), args).

(** A bucket; [F] is [float64], NULL reads as [zero]. *)
Definition Aggregate {F} (zero : F)
    (select_agg : string -> list arg -> result string (list (list (option string) * option F)))
    (extKey collection : string) (opts : AggregateOptions)
    : result db_error (list (gmap string string * F)) :=
  let? (query, args) := build_aggregate extKey collection opts in
  match select_agg query args with
  | Err e => Err (SqlFailed "aggregate" e)
  | Ok rows =>
      Ok ((fun '(vals, v) =>
             (foldl (fun m '(g, x) => <[g := default "" x]> m) (∅ : gmap string string)
                (zip (GroupBy opts) vals),
              default zero v)) <$> rows)
  end.

(** ** Placeholders of whole statements *)

Lemma plains (l : list string) : Forall (fun s => ph s []) l -> ph (join ", " l) [].
Proof.
  intros H. assert (concat (replicate (length l) (@nil Z)) = []) as <-
    by (generalize (length l); intros n; by induction n).
  apply ph_join; [by apply ph_plain|]. induction H; simpl; by constructor.
Qed.

Lemma table_ph k c t : tableName k c = Ok t -> ph t [].
Proof.
  intros (Hk & Hc & ->)%tableName_ok. apply ident_ph in Hk. apply ident_ph in Hc. eapply ph_eq; [ph_text|done].
Qed.

Lemma sort_exprs_ph sort es : sort_exprs sort = Ok es -> Forall (fun e => ph e []) es /\ length es = length sort.
Proof.
  unfold sort_exprs. rewrite res_map_ok. intros H. split; [|by apply Forall2_length in H].
  induction H as [|s e ss es H _ IH]; constructor; [|done].
  peel H. peel H. apply Ok_inj in H as <-. by apply jsonPath_ok in Hr as [? _].
Qed.

Lemma where_ph preds w args :
  buildWhere preds 0 = Ok (w, args) -> ph w (upto 0 (length args)).
Proof.
  intros H. destruct preds as [|p preds]; [apply Ok_inj, pair_eq in H as [<- <-]; by apply ph_plain|].
  unfold buildWhere in H. peel H. destruct r as [cs vs]. apply Ok_inj, pair_eq in H as [<- <-].
  destruct (clauses_of_ph _ 0 _ _ ltac:(lia) Hr) as (ls & Hls & Hcat & _). rewrite length_fmap, <- Hcat.
  apply (ph_app _ _ []); [by apply ph_plain|]. apply ph_join; [by apply ph_plain|done].
Qed.

Lemma cursor_clause_ph exprs comparison keys id n :
  Forall (fun e => ph e []) exprs -> ph comparison [] -> 0 <= n ->
  ph (cursor_clause exprs comparison keys id n).1 (upto n (length (cursor_clause exprs comparison keys id n).2)).
Proof.
  intros He Hc Hn. unfold cursor_clause. cbn [fst snd]. rewrite length_fmap.
  assert (ph (join ", " (exprs ++ ["id"])) []) as H1.
  { apply plains, list.Forall_app. split; [done|]. constructor; [by apply ph_plain|constructor]. }
  pose proof (ph_join ", " _ _ (ph_plain ", " eq_refl eq_refl) (ph_marks (keys ++ [id]) n Hn)) as H2.
  rewrite concat_singletons in H2. eapply ph_eq; [ph_text|]. by rewrite app_nil_r.
Qed.

Lemma upto_S k : upto 0 (k + 1) = upto 0 k ++ [Z.of_nat (k + 1)].
Proof. rewrite upto_app. f_equal. unfold upto. simpl. f_equal. lia. Qed.

Lemma build_query_ph k c opts q args :
  build_query k c opts = Ok (q, args) -> placeholders q = upto 0 (length args).
Proof.
  intros H. unfold build_query in H. peel H. peel H. destruct r0 as [w wargs]. peel H. peel H.
  destruct r1 as [w2 args2]. apply Ok_inj, pair_eq in H as [<- <-].
  apply table_ph in Hr. apply where_ph in Hr0. apply sort_exprs_ph in Hr1 as [Hes Hlen].
  assert (ph w2 (upto 0 (length args2))) as Hw2.
  { destruct (String.eqb (Cursor opts) ""); [by apply Ok_inj, pair_eq in Hr2 as [<- <-]|].
    peel Hr2. destruct r1 as [keys id]. peel Hr2.
    match type of Hr2 with context [cursor_clause ?a ?b ?c ?d ?e] =>
      pose proof (cursor_clause_ph a b c d e Hes) as Hcl; destruct (cursor_clause a b c d e) as [clause more] end.
    cbn [fst snd] in Hcl. specialize (Hcl ltac:(by destruct (Sort opts) as [|[? []]]; apply ph_plain) ltac:(lia)).
    apply Ok_inj, pair_eq in Hr2 as [<- <-]. rewrite length_app, upto_app, Z.add_0_l.
    destruct (String.eqb_spec w "") as [->|].
    - assert (length wargs = 0%nat) as E.
      { pose proof (ph_placeholders _ _ Hr0) as E. apply (f_equal length) in E. unfold upto in E.
        rewrite length_fmap, length_seq in E. done. }
      rewrite E in Hcl |- *. apply (ph_app _ _ []); [by apply ph_plain|done].
    - apply ph_app; [done|]. apply (ph_app _ _ []); [by apply ph_plain|done]. }
  apply ph_placeholders. rewrite length_app. simpl length. rewrite upto_S.
  assert (ph (join ", " (((fun e => e +:+ " " +:+ (if match Sort opts with s :: _ => Descending s | [] => false end
      then "DESC" else "ASC")) <$> r0) ++ ["id " +:+ (if match Sort opts with s :: _ => Descending s | [] => false end
      then "DESC" else "ASC")])) []) as Ho.
  { apply plains, list.Forall_app. split; [|constructor; [|constructor]].
    - clear - Hes. induction Hes as [|e es He _ IH]; csimpl; constructor; [|done].
      eapply ph_eq; [ph_text; by destruct (match Sort opts with s :: _ => Descending s | [] => false end); apply ph_plain|done].
    - by destruct (match Sort opts with s :: _ => Descending s | [] => false end); apply ph_plain. }
  eapply ph_eq; [ph_text|]. simpl. done.
Qed.

Lemma find_clauses_ph fs : forall n cs args,
  0 < n -> find_clauses fs n = Ok (cs, args) ->
  length args = length fs /\ length cs = length fs /\
  exists ls, Forall2 ph cs ls /\ concat ls = upto (n - 1) (length fs).
Proof.
  induction fs as [|f fs IH]; intros n cs args Hn H; cbn [find_clauses] in H.
  - apply Ok_inj, pair_eq in H as [<- <-]. split_and!; [done|done|]. exists []. by split; [constructor|].
  - peel H. peel H. destruct r0 as [cs1 args1]. apply Ok_inj, pair_eq in H as [<- <-].
    destruct (IH (n + 1) _ _ ltac:(lia) Hr0) as (La & Lc & ls & Hls & Hcat).
    split_and!; [simpl; lia|simpl; lia|]. exists ([n] :: ls). split.
    + constructor; [|done]. unfold jsonPathExpr in Hr. peel Hr. apply Ok_inj in Hr as <-.
      unfold ValidateIdentifier in Hr1. destruct (identifierRE (f_Field f)) eqn:E; [|done]. apply ident_ph in E.
      assert (ph (normalizeOperator (Operator f)) []) as Hop.
      { unfold normalizeOperator. case_bool_decide as Hin; [|by apply ph_plain].
        rewrite !elem_of_cons in Hin. destruct Hin as [->|[->|[->|[->|[->|[->|Hin]]]]]]; try by apply ph_plain.
        by apply not_elem_of_nil in Hin. }
      eapply ph_eq; [ph_text|done].
    + simpl length. replace (S (length fs)) with (1 + length fs)%nat by lia. rewrite upto_app.
      replace (n - 1 + Z.of_nat 1) with n by lia.
      replace (upto (n - 1) 1) with [n] by (unfold upto; simpl; f_equal; lia).
      replace (n + 1 - 1) with n in Hcat by lia. csimpl. by rewrite Hcat.
Qed.

(** Every statement the store builds for a read is closed: in [Query] (with
    or without a cursor), [Find] and [Aggregate] the placeholders of the text
    are exactly [$1] to [$n] in order and once each, [n] the number of bound
    arguments - nothing a plugin sends can add, drop or reorder one. *)
Lemma statements_closed k c opts filters limit offset aopts :
  (forall q args, build_query k c opts = Ok (q, args) -> placeholders q = upto 0 (length args)) /\
  (forall q args, build_find k c filters limit offset = Ok (q, args) -> placeholders q = upto 0 (length args)) /\
  (forall q args, build_aggregate k c aopts = Ok (q, args) -> placeholders q = upto 0 (length args)).
Proof.
  split_and!; [apply build_query_ph| |].
  - intros q args H. unfold build_find in H. peel H. peel H. destruct r0 as [cs fargs].
    apply Ok_inj, pair_eq in H as [<- <-]. apply table_ph in Hr.
    destruct (find_clauses_ph _ 1 _ _ ltac:(lia) Hr0) as (La & Lc & ls & Hls & Hcat).
    replace (1 - 1) with 0 in Hcat by lia. rewrite length_app, La. simpl length.
    apply ph_placeholders.
    assert (ph match cs with [] => "" | _ :: _ => "WHERE " +:+ join " AND " cs end (upto 0 (length filters))) as Hw.
    { rewrite <- Hcat. destruct cs as [|c1 cs]; [inversion Hls; by apply ph_plain|].
      apply (ph_app _ _ []); [by apply ph_plain|]. apply ph_join; [by apply ph_plain|done]. }
    eapply ph_eq; [ph_text|]. replace (length filters + 2)%nat with (length filters + 1 + 1)%nat by lia.
    rewrite !upto_S. simpl. rewrite <- app_assoc. f_equal. simpl. f_equal; [lia|]. f_equal. lia.
  - intros q args H. unfold build_aggregate in H. peel H. peel H. peel H. peel H. peel H.
    destruct r3 as [w wargs]. apply Ok_inj, pair_eq in H as [<- <-].
    apply table_ph in Hr. apply where_ph in Hr3. apply ph_placeholders.
    assert (ph r0 []) as Hfn.
    { unfold agg_func in Hr0. case_bool_decide as Hin.
      - apply Ok_inj in Hr0 as <-. rewrite !elem_of_cons in Hin.
        destruct Hin as [->|[->|[->|[->|[->|Hin]]]]]; try by apply ph_plain. by apply not_elem_of_nil in Hin.
      - destruct (String.eqb _ ""); [|done]. apply Ok_inj in Hr0 as <-. by apply ph_plain. }
    assert (ph r1 []) as Hex.
    { destruct (String.eqb r0 "COUNT"); [apply Ok_inj in Hr1 as <-; by apply ph_plain|].
      peel Hr1. apply Ok_inj in Hr1 as <-. apply jsonPath_ok in Hr4 as [Hp _]. eapply ph_eq; [ph_text|done]. }
    assert (Forall (fun e => ph e []) r2) as Hg.
    { apply res_map_ok in Hr2. induction Hr2 as [|g e gs es Hge _ IH]; constructor; [|done].
      by apply jsonPath_ok in Hge as [? _]. }
    assert (ph (join ", " (r2 ++ [r0 +:+ "(" +:+ r1 +:+ ")::float8"])) []) as Hsel.
    { apply plains, list.Forall_app. split; [done|]. constructor; [|constructor]. eapply ph_eq; [ph_text|done]. }
    destruct r2 as [|g gs]; [eapply ph_eq; [ph_text|done]|].
    pose proof (plains _ Hg) as Hgj. eapply ph_eq; [ph_text|]. by rewrite !app_nil_r.
Qed.

(** ** The statement that is meant *)

(** The condition a predicate stands for. *)
Definition cond_of (p : Predicate) : option cond :=
  let path := split_byte "." (p_Field p) in
  let op := op_of p in
  if String.eqb op "IS NULL" then Some (IsNull path)
  else if String.eqb op "IS NOT NULL" then Some (IsNotNull path)
  else if String.eqb op "IN" then Some (match p_Values p with [] => Never | vs => OneOf path vs end)
  else if String.eqb op "BETWEEN" then
    match p_Values p with [a; b] => Some (Between path a b) | _ => None end
  else match p_Values p with [v] => Some (Compare path op v) | _ => None end.

Definition sort_paths (sort : list SortField) : list (list string) := (fun s => split_byte "." (s_Field s)) <$> sort.
Definition sort_dir (sort : list SortField) : direction :=
  match sort with s :: _ => if Descending s then Desc else Asc | [] => Asc end.

Lemma column_path field e : jsonPath field = Ok e -> e = column (split_byte "." field).
Proof using.
  unfold jsonPath. intros H. peel_all H. destruct (split_byte "." field) as [|p [|q ps]]; by apply Ok_inj in H as <-.
Qed.

Lemma marks_imap (vs : list string) n :
  join ", " (imap (fun i _ => dollar (n + 1 + Z.of_nat i)) vs) = marks n (length vs).
Proof using.
  unfold marks. f_equal. apply list_eq. intros i. rewrite list_lookup_imap, list_lookup_fmap.
  destruct (decide (i < length vs)%nat) as [Hi|Hi].
  - destruct (lookup_lt_is_Some_2 vs i Hi) as [v ->]. rewrite lookup_seq_lt by done. simpl. f_equal. f_equal. lia.
  - rewrite (lookup_ge_None_2 vs) by lia. rewrite lookup_seq_ge by lia. done.
Qed.

Lemma clause_cond p n c vs :
  clause_of p n = Ok (c, vs) -> exists cd, cond_of p = Some cd /\ c = cond_text n cd /\ vs = cond_values cd.
Proof using.
  intros H. unfold clause_of in H. peel H. apply column_path in Hr as ->. fold (op_of p) in H. unfold cond_of.
  case_bool_decide as Hop.
  { destruct (p_Values p) as [|v [|? ?]]; try done. apply Ok_inj, pair_eq in H as [<- <-].
    exists (Compare (split_byte "." (p_Field p)) (op_of p) v). split; [|done].
    rewrite !elem_of_cons in Hop.
    destruct Hop as [->|[->|[->|[->|[->|[->|[->|Hop]]]]]]]; try done. by apply not_elem_of_nil in Hop. }
  destruct (String.eqb_spec (op_of p) "IN") as [->|].
  { destruct (p_Values p) as [|v vs'] eqn:Ev; apply Ok_inj, pair_eq in H as [<- <-]; [by exists Never|].
    exists (OneOf (split_byte "." (p_Field p)) (v :: vs')). split; [done|]. split; [|done].
    cbn [cond_text]. by rewrite marks_imap. }
  destruct (String.eqb_spec (op_of p) "BETWEEN") as [->|].
  { destruct (p_Values p) as [|a [|b [|? ?]]]; try done. apply Ok_inj, pair_eq in H as [<- <-]. simpl.
    eexists. split; [done|]. split; [|done]. unfold cond_text, marks. cbn [seq fmap list_fmap join].
    by replace (n + 1 + Z.of_nat 1) with (n + 2) by lia. }
  destruct (String.eqb_spec (op_of p) "IS NULL"); [|destruct (String.eqb_spec (op_of p) "IS NOT NULL"); [|done]];
    apply Ok_inj, pair_eq in H as [<- <-]; by eexists.
Qed.

Lemma clauses_conds preds : forall n cs vs,
  clauses_of preds n = Ok (cs, vs) ->
  exists cds, mapM cond_of preds = Some cds /\ cs = conds_text n cds /\ vs = concat (cond_values <$> cds).
Proof using.
  induction preds as [|p preds IH]; intros n cs vs H; cbn [clauses_of] in H.
  - apply Ok_inj, pair_eq in H as [<- <-]. by exists [].
  - peel H. destruct r as [c vs1]. peel H. destruct r as [cs1 vs2]. apply Ok_inj, pair_eq in H as [<- <-].
    apply clause_cond in Hr as (cd & Hcd & -> & ->). apply IH in Hr0 as (cds & Hcds & -> & ->).
    exists (cd :: cds). split; [|done]. apply mapM_Some_2. constructor; [done|by apply mapM_Some_1].
Qed.

Definition where_text (ts : list string) : string :=
  match ts with [] => "" | _ => " WHERE " +:+ join " AND " ts end.

Lemma where_conds preds w args :
  buildWhere preds 0 = Ok (w, args) ->
  exists cds, mapM cond_of preds = Some cds /\ w = where_text (conds_text 0 cds) /\
    args = AStr <$> concat (cond_values <$> cds).
Proof using.
  intros H. destruct preds as [|p preds]; [apply Ok_inj, pair_eq in H as [<- <-]; by exists []|].
  unfold buildWhere in H. peel H. destruct r as [cs vs]. apply Ok_inj, pair_eq in H as [<- <-].
  apply clauses_conds in Hr as (cds & Hcds & -> & ->). exists cds. split; [done|]. split; [|done].
  destruct cds; [|done]. apply mapM_Some_1, Forall2_length in Hcds. discriminate Hcds.
Qed.

(** One more condition. *)
Lemma where_text_snoc ts x :
  (if String.eqb (where_text ts) "" then " WHERE " +:+ x else where_text ts +:+ " AND " +:+ x) = where_text (ts ++ [x]).
Proof using.
  destruct ts as [|t ts]; [done|]. unfold where_text.
  destruct (String.eqb_spec (" WHERE " +:+ join " AND " (t :: ts)) "") as [E|_]; [discriminate E|].
  change ((t :: ts) ++ [x]) with (t :: (ts ++ [x])). cbv iota.
  change (t :: (ts ++ [x])) with ((t :: ts) ++ [x]). by rewrite (join_app " AND " (t :: ts) [x]) by done.
Qed.

Lemma sort_columns sort es : sort_exprs sort = Ok es -> es = column <$> sort_paths sort.
Proof using.
  unfold sort_exprs. rewrite res_map_ok. intros H. induction H as [|s e ss es H _ IH]; [done|]. unfold sort_paths in *. csimpl.
  peel H. peel H. apply Ok_inj in H as <-. by rewrite <- IH, <- (column_path _ _ Hr).
Qed.

(** The text and arguments [build_query] makes, of the first page and of one
    after a cursor, are those of the statement that is meant: the table of the
    collection, the conditions of the predicates, the sort fields and then the
    id in the one direction, the rows after the cursor in that direction, and
    one row more than the page. *)
Lemma build_query_page k c preds sort limit qa :
  build_query k c (mkQueryOptions preds sort limit "") = Ok qa ->
  exists cds, mapM cond_of preds = Some cds /\ forall cursor after,
    (cursor = "" /\ after = None \/
     exists ks id, cursor <> "" /\ decodeCursor cursor = Ok (ks, id) /\ length ks = length sort /\
       after = Some (sort_dir sort, ks, id)) ->
    let st := mkPage ("ext_" +:+ k +:+ "_" +:+ c) cds (sort_paths sort) (sort_dir sort) after (query_limit limit + 1) in
    build_query k c (mkQueryOptions preds sort limit cursor) = Ok (page_text st, page_args st).
Proof using.
  intros H. unfold build_query in H |- *. cbn [Predicates Sort Limit Cursor] in *. peel H. peel H. destruct r0 as [w wargs]. peel H. clear H.
  rewrite Hr, Hr0, Hr1. cbn [res_bind]. apply tableName_ok in Hr as (_ & _ & ->).
  apply where_conds in Hr0 as (cds & Hcds & -> & ->). pose proof (sort_exprs_ph _ _ Hr1) as [_ Hlen].
  apply sort_columns in Hr1 as ->. exists cds. split; [done|]. intros cursor after Hafter. cbv zeta.
  assert (forall (b : bool), b = match sort with s :: _ => Descending s | [] => false end ->
    sort_dir sort = if b then Desc else Asc) as Hdir by (intros b ->; by destruct sort as [|[? []]]).
  generalize dependent (match sort with s :: _ => Descending s | [] => false end). intros b Hdir.
  specialize (Hdir b eq_refl).
  assert (forall es : list string, ((fun e => e +:+ " " +:+ (if b then "DESC" else "ASC")) <$> es) ++
      ["id " +:+ (if b then "DESC" else "ASC")] =
    (fun e => e +:+ " " +:+ dir_text (sort_dir sort)) <$> es ++ ["id"]) as Hord.
  { intros es. rewrite fmap_app, Hdir. by destruct b. }
  destruct Hafter as [[-> ->]|(ks & id & Hne & Hdec & Hks & ->)].
  - simpl (String.eqb "" ""). cbv iota. cbn [res_bind]. rewrite Hord. unfold page_text, page_args, columns, where_texts, where_values.
    cbn [pg_table pg_conds pg_keys pg_dir pg_after pg_limit]. rewrite !app_nil_r. by destruct (conds_text 0 cds).
  - rewrite (proj2 (String.eqb_neq _ _) Hne), Hdec. cbn [res_bind].
    rewrite length_fmap in Hlen |- *. unfold sort_paths in *. rewrite length_fmap in *.
    rewrite bool_decide_true by done. cbn [negb]. cbv iota. unfold cursor_clause.
    rewrite marks_imap, where_text_snoc, Hord, !length_fmap, length_app. cbn [length res_bind].
    unfold page_text, page_args, columns, where_texts, where_values.
    cbn [pg_table pg_conds pg_keys pg_dir pg_after pg_limit]. rewrite <- app_assoc.
    rewrite Hdir. destruct (conds_text 0 cds); by destruct b.
Qed.

(** ** Cursors and pages *)

(** What the code relies on of encoding/json: the payload of a cursor reads
    back, for the keys and ids of [valid] text. *)
Context (valid : string -> Prop)
  (cursor_law : forall keys id, Forall valid keys -> valid id ->
     cursor_unjson (cursor_json keys id) = Some (keys, id) /\ cursor_json keys id <> "").

(** A cursor reads back as the row it was made of, and is never the empty
    string that would mean the first page. *)
Lemma cursor_roundtrip keys id :
  Forall valid keys -> valid id ->
  decodeCursor (encodeCursor keys id) = Ok (keys, id) /\ encodeCursor keys id <> "".
Proof.
  intros Hk Hi. destruct (cursor_law keys id Hk Hi) as [Hu Hne]. unfold decodeCursor, encodeCursor.
  rewrite b64_roundtrip, Hu. split; [done|]. by apply b64_encode_nonempty.
Qed.

Lemma collect_spec room rows :
  collect room rows = (take room rows, bool_decide (room < length rows)%nat).
Proof.
  revert room. induction rows as [|r rows IH]; intros [|room]; simpl; try done.
  rewrite IH. f_equal. apply bool_decide_ext. lia.
Qed.

Lemma query_limit_bounds l : 1 <= query_limit l <= MaxQueryLimit.
Proof.
  unfold query_limit, DefaultQueryLimit, MaxQueryLimit.
  destruct (Z.leb_spec l 0); [done|]. destruct (Z.ltb_spec 1000 l); lia.
Qed.

(** Reading page after page, as a client does. *)
Fixpoint read_all (fuel : nat) (select : string -> list arg -> result string (list (string * string)))
    (k c : string) (opts : QueryOptions) : result db_error (list (string * string)) :=
  let? r := Query_ select k c opts in
  let page := zip (IDs r) (Documents r) in
  match HasMore r, fuel with
  | false, _ => Ok page
  | true, O => Err (BadQuery "out of fuel")
  | true, S fuel =>
      let? rest := read_all fuel select k c
        (mkQueryOptions (Predicates opts) (Sort opts) (Limit opts) (NextCursor r)) in
      Ok (page ++ rest)
  end.

Section pagination.
Context (k c : string) (preds : list Predicate) (sort : list SortField) (limit : Z).
Context (select : string -> list arg -> result string (list (string * string))).
(** The rows in order, and the strict order on sort keys and id. *)
Context (rows : list (string * string)) (keys_of : string * string -> list string)
  (lt : list string * string -> list string * string -> Prop) `{Hdec : forall a b, Decision (lt a b)}.

Definition key_of (r : string * string) : list string * string := (keys_of r, r.1).
Definition opts_at (cursor : string) : QueryOptions := mkQueryOptions preds sort limit cursor.
Definition page_size : nat := Z.to_nat (query_limit limit + 1).

(** What reading page after page needs of the statements that are built: the
    order is a strict order and the rows come sorted; they are answered with
    the rows after the cursor, cut at the limit; and a document's sort keys are
    what it is ordered by. *)
Record paged : Prop := {
  lt_irrefl : forall a, ~ lt a a;
  lt_trans : forall a b d, lt a b -> lt b d -> lt a d;
  rows_sorted : StronglySorted (fun a b => lt (key_of a) (key_of b)) rows;
  rows_valid : forall r, r ∈ rows -> r.1 <> "" /\ valid r.1 /\ Forall valid (keys_of r) /\
    sortKeysOf r.2 sort = Ok (keys_of r);
  first_page : exists q args, build_query k c (opts_at "") = Ok (q, args) /\
    select q args = Ok (take page_size rows);
  next_page : forall r, r ∈ rows -> exists q args,
    build_query k c (opts_at (encodeCursor (keys_of r) r.1)) = Ok (q, args) /\
    select q args = Ok (take page_size (filter (fun x => lt (key_of r) (key_of x)) rows))
}.

Lemma after_row pre r post :
  paged -> rows = pre ++ r :: post -> filter (fun x => lt (key_of r) (key_of x)) rows = post.
Proof.
  intros S E. pose proof (rows_sorted S) as Hs. rewrite E in Hs |- *. clear E.
  apply StronglySorted_app in Hs as (Hcross & _ & Hs). apply StronglySorted_inv in Hs as [_ Hs].
  rewrite list.filter_app.
  assert (forall l : list (string * string), (forall x, x ∈ l -> ~ lt (key_of r) (key_of x)) ->
    filter (fun x => lt (key_of r) (key_of x)) l = []) as Hnone.
  { intros l. induction l as [|x l IH]; [done|]. intros Hl. rewrite filter_cons, decide_False by (apply Hl; by left).
    apply IH. intros y Hy. apply Hl. by right. }
  assert (forall l : list (string * string), (forall x, x ∈ l -> lt (key_of r) (key_of x)) ->
    filter (fun x => lt (key_of r) (key_of x)) l = l) as Hall.
  { intros l. induction l as [|x l IH]; [done|]. intros Hl. rewrite filter_cons, decide_True by (apply Hl; by left).
    f_equal. apply IH. intros y Hy. apply Hl. by right. }
  rewrite Hnone; [|].
  - rewrite filter_cons, decide_False by apply (lt_irrefl S). simpl. apply Hall.
    intros x Hx. by eapply list.Forall_forall in Hs.
  - intros x Hx Hlt. apply (lt_irrefl S (key_of r)), (lt_trans S _ (key_of x)); [done|].
    apply Hcross; [done|by left].
Qed.

(** One query answers the next page of what is left and, when more is left,
    the cursor of its last row. *)
Lemma query_page cursor q args left_ :
  paged -> build_query k c (opts_at cursor) = Ok (q, args) -> select q args = Ok (take page_size left_) ->
  (exists pre, rows = pre ++ left_) ->
  let n := Z.to_nat (query_limit limit) in
  exists r, Query_ select k c (opts_at cursor) = Ok r /\
    zip (IDs r) (Documents r) = take n left_ /\ HasMore r = bool_decide (n < length left_)%nat /\
    ((n < length left_)%nat -> exists lastrow, take n left_ !! (n - 1)%nat = Some lastrow /\
       NextCursor r = encodeCursor (keys_of lastrow) lastrow.1).
Proof.
  intros S Hb Hsel [pre Hpre] n. pose proof (query_limit_bounds limit) as Hl.
  assert (page_size = n + 1)%nat as Hps by (unfold page_size, n; lia).
  assert (0 < n)%nat as Hn by (unfold n; lia).
  unfold Query_. rewrite Hb. cbn [res_bind]. rewrite Hsel. cbn [opts_at Limit Sort]. fold n.
  rewrite collect_spec, take_take, Hps, Nat.min_l by lia.
  assert (bool_decide (n < length (take (n + 1) left_))%nat = bool_decide (n < length left_)%nat) as ->
    by (apply bool_decide_ext; rewrite length_take; lia).
  set (page := take n left_).
  assert (zip page.*1 page.*2 = page) as Hzip by apply zip_fst_snd.
  destruct (list.last page) as [[lastID lastDoc]|] eqn:Elast.
  - assert ((lastID, lastDoc) ∈ rows) as Hin.
    { rewrite Hpre. apply elem_of_app. right. apply last_Some_elem_of in Elast. by apply elem_of_take in Elast as (i & ? & _); eapply list_elem_of_lookup_2. }
    destruct (rows_valid S _ Hin) as (Hne & _ & _ & Hk). simpl in Hne, Hk.
    destruct (String.eqb_spec lastID ""); [done|]. rewrite andb_true_r.
    case_bool_decide as Hmore.
    + rewrite Hk. cbn [res_bind]. eexists. split; [done|]. cbn. split_and!; [done|done|].
      intros _. exists (lastID, lastDoc). split; [|done].
      rewrite last_lookup in Elast. fold page. rewrite <- Elast. f_equal.
      unfold page. rewrite length_take. lia.
    + eexists. split; [done|]. cbn. by split_and!.
  - apply last_None in Elast. eexists. split; [done|]. cbn. rewrite Elast. split_and!; [done|done|].
    intros Hlt. exfalso. apply (f_equal length) in Elast. unfold page in Elast. rewrite length_take in Elast.
    simpl in Elast. lia.
Qed.

Lemma read_all_left : paged -> forall fuel left_ cursor q args,
  (length left_ <= fuel)%nat -> (exists pre, rows = pre ++ left_) ->
  build_query k c (opts_at cursor) = Ok (q, args) -> select q args = Ok (take page_size left_) ->
  read_all fuel select k c (opts_at cursor) = Ok left_.
Proof.
  intros S. pose proof (query_limit_bounds limit) as Hl. set (n := Z.to_nat (query_limit limit)).
  assert (0 < n)%nat as Hn by (unfold n; lia).
  induction fuel as [|fuel IH]; intros left_ cursor q args Hf Hpre Hb Hsel;
    destruct (query_page cursor q args left_ S Hb Hsel Hpre) as (r & Hq & Hpage & Hmore & Hcur);
    fold n in Hpage, Hmore, Hcur; cbn [read_all]; rewrite Hq; cbn [res_bind]; rewrite Hpage, Hmore.
  - rewrite bool_decide_eq_false_2 by lia. rewrite take_ge by lia. done.
  - case_bool_decide as Hlt; [|by rewrite take_ge by lia].
    destruct (Hcur Hlt) as (lastrow & Hlast & ->). destruct Hpre as [pre Hpre].
    assert (left_ = take (n - 1) left_ ++ lastrow :: drop n left_) as Hsplit.
    { rewrite lookup_take_Some in Hlast. destruct Hlast as [Hlast _].
      rewrite <- (take_drop n left_) at 1. replace n with (Datatypes.S (n - 1))%nat at 1 by lia.
      by rewrite (take_S_r _ _ _ Hlast), <- app_assoc. }
    assert (rows = (pre ++ take (n - 1) left_) ++ lastrow :: drop n left_) as Hrows
      by (rewrite <- app_assoc, <- Hsplit; done).
    assert (lastrow ∈ rows) as Hin by (rewrite Hrows; set_solver).
    destruct (next_page S lastrow Hin) as (q2 & args2 & Hb2 & Hsel2).
    rewrite (after_row _ _ _ S Hrows) in Hsel2. cbn [opts_at Predicates Sort Limit].
    rewrite (IH (drop n left_) _ q2 args2); [|rewrite length_drop; lia| |done|done].
    + cbn [res_bind]. by rewrite take_drop.
    + exists ((pre ++ take (n - 1) left_) ++ [lastrow]). by rewrite <- app_assoc.
Qed.

Lemma paged_complete : paged -> read_all (length rows) select k c (opts_at "") = Ok rows.
Proof.
  intros Hs. destruct (first_page Hs) as (q & args & Hb & Hsel).
  apply (read_all_left Hs (length rows) rows "" q args); [done|by exists []|done|done].
Qed.
End pagination.

(** *** On a server that answers statements as they mean *)

Section on_postgres.
Context (k c : string) (preds : list Predicate) (sort : list SortField) (limit : Z).
Context (select : string -> list arg -> result string (list row)).
(** The rows of the table; the order of texts, LIKE, and the text of a field. *)
Context (stored : list row) (tlt like : string -> string -> bool) `{!StrictTotal tlt}
  (col : list string -> row -> option string) (conds : list cond).

Definition keys_of (r : row) : list string :=
  match sortKeysOf r.2 sort with Ok ks => ks | Err _ => [] end.

Definition matches (r : row) : bool := forallb (holds tlt like col r) conds.

(** What the code relies on. Of the server: that it answers every well-formed
    statement on the table with the conditions and sort fields in question,
    whatever the directions, the key and the limit, as it means. Of the table:
    that ids are a key; and that the documents that match have the sort fields,
    with the text in the document that the server sorts by. *)
Record served : Prop := {
  srv_answers : forall st, pg_table st = "ext_" +:+ k +:+ "_" +:+ c -> pg_conds st = conds ->
    pg_keys st = sort_paths sort -> well_formed st -> 0 <= pg_limit st ->
    exists l, select (page_text st) (page_args st) = Ok l /\ answers tlt like col stored st l;
  srv_ids : NoDup stored.*1;
  srv_rows : forall r, r ∈ stored -> matches r = true ->
    r.1 <> "" /\ valid r.1 /\ Forall valid (keys_of r) /\ sortKeysOf r.2 sort = Ok (keys_of r) /\
    ((fun p => col p r) <$> sort_paths sort) = Some <$> keys_of r
}.

Notation dir := (sort_dir sort).
Notation values r := (sort_values col (sort_paths sort) r).

Definition row_key (r : row) : list string := keys_of r ++ [r.1].
Definition key_lt (a b : list string * string) : Prop := beyond tlt dir (Some <$> b.1 ++ [b.2]) (a.1 ++ [a.2]) = true.

#[local] Instance key_lt_dec a b : Decision (key_lt a b).
Proof. unfold key_lt. apply _. Defined.

Lemma values_key r : served -> r ∈ stored -> matches r = true -> values r = Some <$> row_key r.
Proof.
  intros S Hr Hm. destruct (srv_rows S r Hr Hm) as (_ & _ & _ & _ & Hv).
  unfold sort_values, row_key. by rewrite Hv, fmap_app.
Qed.

Lemma row_key_length r : served -> r ∈ stored -> matches r = true -> length (row_key r) = (length sort + 1)%nat.
Proof.
  intros S Hr Hm. destruct (srv_rows S r Hr Hm) as (_ & _ & _ & _ & Hv). apply (f_equal length) in Hv.
  unfold sort_paths in Hv. rewrite !length_fmap in Hv. unfold row_key. rewrite length_app. simpl. lia.
Qed.

(** Sorted as the server sorts is sorted by the strict order. *)
Lemma sorted_strictly l :
  served -> (forall r, r ∈ l -> r ∈ stored /\ matches r = true) -> NoDup l.*1 ->
  StronglySorted (fun x y => precedes tlt dir (values y) (values x) = false) l ->
  StronglySorted (fun x y => key_lt (keys_of x, x.1) (keys_of y, y.1)) l.
Proof using StrictTotal0 cursor_law.
  intros S Hl Hnd Hs. induction Hs as [|x l _ IH Hx]; [constructor|].
  csimpl in Hnd. apply list.NoDup_cons in Hnd as [Hni Hnd]. constructor; [apply IH; [set_solver|done]|].
  apply list.Forall_forall. intros y Hy. pose proof (proj1 (list.Forall_forall _ _) Hx y Hy) as Hp. cbn beta in Hp.
  destruct (Hl x ltac:(by left)) as [Hx1 Hx2]. destruct (Hl y ltac:(by right)) as [Hy1 Hy2].
  rewrite !values_key in Hp by done. unfold key_lt. cbn [fst snd].
  apply (precedes_beyond tlt dir (row_key x) (row_key y)); [by rewrite !row_key_length| |exact Hp].
  unfold row_key. intros [_ E]%app_inj_2; [|done]. apply Hni. injection E as ->. by apply list_elem_of_fmap_2.
Qed.

Lemma stored_filter f l : l ≡ₚ List.filter f stored -> NoDup stored.*1 ->
  NoDup l.*1 /\ forall r, r ∈ l -> r ∈ stored /\ f r = true.
Proof.
  intros Hl Hnd. split.
  - rewrite Hl. clear - Hnd. induction stored as [|x s IH]; [constructor|]. csimpl in Hnd. apply list.NoDup_cons in Hnd as [Hx Hnd].
    simpl. destruct (f x); [|by apply IH]. csimpl. apply list.NoDup_cons. split; [|by apply IH].
    intros (y & E & Hy)%list_elem_of_fmap. apply Hx, list_elem_of_fmap. exists y. split; [done|].
    by apply list_elem_of_In, filter_In in Hy as [Hy%list_elem_of_In _].
  - intros r Hr. rewrite Hl in Hr. apply list_elem_of_In, filter_In in Hr as [Hr%list_elem_of_In ?]. done.
Qed.

Lemma page_filter (P : row -> Prop) `{forall r, Decision (P r)} f (l rows : list row) :
  rows ≡ₚ List.filter matches l -> (forall r, r ∈ l -> f r = matches r && bool_decide (P r)) ->
  filter P rows ≡ₚ List.filter f l.
Proof.
  intros -> Hf. induction l as [|x l IH]; [done|].
  assert (forall r, r ∈ l -> f r = matches r && bool_decide (P r)) as Hf' by (intros; apply Hf; by right).
  simpl. rewrite (Hf x) by by left. destruct (matches x); simpl; [|by apply IH].
  rewrite filter_cons. case_decide as Hx.
  - rewrite bool_decide_true by done. by rewrite (IH Hf').
  - rewrite bool_decide_false by done. by apply IH.
Qed.

Lemma filter_sorted (P : row -> Prop) `{forall r, Decision (P r)} (R : row -> row -> Prop) l :
  StronglySorted R l -> StronglySorted R (filter P l).
Proof.
  induction 1 as [|x l _ IH Hx]; [constructor|]. rewrite filter_cons. case_decide; [|done]. constructor; [done|].
  apply list.Forall_forall. intros y [_ Hy]%list_elem_of_filter. by apply (proj1 (list.Forall_forall _ _) Hx).
Qed.

Lemma served_paged qa :
  build_query k c (opts_at preds sort limit "") = Ok qa -> mapM cond_of preds = Some conds -> served ->
  exists rows, rows ≡ₚ List.filter matches stored /\
    StronglySorted (fun x y => precedes tlt dir (values y) (values x) = false) rows /\
    paged k c preds sort limit select rows keys_of key_lt.
Proof using StrictTotal0 cursor_law.
  intros Hb Hc S. pose proof (query_limit_bounds limit) as Hlim.
  destruct (build_query_page _ _ _ _ _ _ Hb) as (cds & Hcds & Hpage). rewrite Hc in Hcds. injection Hcds as <-.
  destruct (srv_answers S (mkPage ("ext_" +:+ k +:+ "_" +:+ c) conds (sort_paths sort) dir None (query_limit limit + 1))
    eq_refl eq_refl eq_refl I ltac:(simpl; lia)) as (l0 & Hsel0 & rows & Hperm & Hsorted & ->).
  cbn [pg_dir pg_keys pg_limit] in *.
  assert (List.filter (kept tlt like col (mkPage ("ext_" +:+ k +:+ "_" +:+ c) conds (sort_paths sort) dir None
    (query_limit limit + 1))) stored = List.filter matches stored) as Hk0.
  { apply filter_ext. intros r. unfold kept, matches. cbn. by rewrite andb_true_r. }
  rewrite Hk0 in Hperm. destruct (stored_filter _ _ Hperm (srv_ids S)) as [Hnd Hin].
  pose proof (sorted_strictly rows S Hin Hnd Hsorted) as Hstrict.
  exists rows. split; [done|]. split; [done|]. constructor.
  - intros [a x]. unfold key_lt. cbn. by rewrite beyond_irrefl.
  - intros [a x] [b y] [d z]. unfold key_lt. cbn. by apply beyond_trans.
  - exact Hstrict.
  - intros r [Hr Hm]%Hin. destruct (srv_rows S r Hr Hm) as (? & ? & ? & ? & _). done.
  - do 2 eexists. split; [apply (Hpage "" None); by left|]. exact Hsel0.
  - intros r [Hr Hm]%Hin. destruct (srv_rows S r Hr Hm) as (_ & Hvid & Hvk & _ & Hcol).
    destruct (cursor_roundtrip _ _ Hvk Hvid) as [Hdec Hne].
    assert (length (keys_of r) = length sort) as Hlen.
    { apply (f_equal length) in Hcol. unfold sort_paths in Hcol. by rewrite !length_fmap in Hcol. }
    do 2 eexists. split.
    { apply (Hpage _ (Some (dir, keys_of r, r.1))). right. exists (keys_of r), r.1. done. }
    edestruct (srv_answers S (mkPage ("ext_" +:+ k +:+ "_" +:+ c) conds (sort_paths sort) dir
      (Some (dir, keys_of r, r.1)) (query_limit limit + 1)) eq_refl eq_refl eq_refl) as (l & Hsel & full & Hpf & Hsf & ->).
    { unfold well_formed, sort_paths. cbn. by rewrite length_fmap. }
    { simpl. lia. }
    rewrite Hsel. f_equal. cbn [pg_dir pg_keys pg_limit] in *. unfold page_size. f_equal.
    assert (full ≡ₚ filter (fun x => key_lt (keys_of r, r.1) (keys_of x, x.1)) rows) as Hfp.
    { rewrite Hpf. symmetry. apply page_filter; [done|]. intros x Hx. unfold kept. cbn [pg_conds pg_after pg_keys].
      fold (matches x). destruct (matches x) eqn:Hmx; [|done]. cbn [andb]. rewrite values_key by done.
      destruct (bool_decide_reflect (key_lt (keys_of r, r.1) (keys_of x, x.1))) as [H|H]; [exact H|].
      by apply not_true_is_false. }
    destruct (stored_filter _ _ Hpf (srv_ids S)) as [Hndf _].
    apply (StronglySorted_unique_strong (fun x y => key_lt (keys_of x, x.1) (keys_of y, y.1))); [| | |done].
    + intros x y _ _ H1 H2. exfalso. pose proof (beyond_trans tlt dir _ _ _ H1 H2) as H.
      cbn [fst snd] in H. by rewrite beyond_irrefl in H.
    + apply sorted_strictly; [done| |done|done]. intros x Hx. rewrite Hfp in Hx. apply list_elem_of_filter in Hx as [_ Hx].
      by apply Hin.
    + by apply filter_sorted.
Qed.

End on_postgres.
End json.

(** ** A concrete store *)

(** Documents of at most one field, cursors separated by bars. *)
Definition toy_parse (d : string) : option (list (string * json)) :=
  Some (if String.eqb d "" then [] else [("k", JStr d)]).
Definition toy_marshal (v : json) : string := "".
Definition toy_cursor (keys : list string) (id : string) : string := String "c" (join "|" (id :: keys)).
Definition toy_uncursor (s : string) : option (list string * string) :=
  match s with
  | String _ s => match split_byte "|" s with id :: keys => Some (keys, id) | [] => None end
  | EmptyString => None
  end.

Lemma toy_law keys id :
  Forall (fun s => has_byte "|" s = false) keys -> has_byte "|" id = false ->
  toy_uncursor (toy_cursor keys id) = Some (keys, id) /\ toy_cursor keys id <> "".
Proof.
  intros Hk Hi. split; [|done]. unfold toy_cursor, toy_uncursor.
  rewrite (split_join "|"); [done|done|by constructor].
Qed.

(** Four documents, one without the field. *)
Definition toy_stored : list row := [("d", "x"); ("c", ""); ("a", "y"); ("b", "y")].
Definition toy_sorted : list row := [("d", "x"); ("a", "y"); ("b", "y")].

Definition toy_preds : list Predicate := [mkPredicate "k" "is not null" []].
Definition toy_sort : list SortField := [mkSortField "k" false].
Definition toy_conds : list cond := [IsNotNull ["k"]].

Definition toy_col (path : list string) (r : row) : option string :=
  if bool_decide (path = ["k"]) then if String.eqb r.2 "" then None else Some r.2 else None.

Definition toy_page (d : direction) (after : option (direction * list string * string)) (n : Z) : page_stmt :=
  mkPage "ext_shop_items" toy_conds (sort_paths toy_sort) d after n.

(** A server of this one table: it knows the texts of its statements. *)
Definition toy_eval (st : page_stmt) : list row :=
  take (Z.to_nat (pg_limit st))
    (List.filter (kept String.ltb (fun _ _ => false) toy_col st)
       match pg_dir st with Asc => toy_sorted | Desc => rev toy_sorted end).

Definition toy_select (q : string) (args : list arg) : result string (list row) :=
  let known := match args with
    | [AInt n] => [toy_page Asc None n; toy_page Desc None n]
    | [AStr key; AStr id; AInt n] =>
        [toy_page Asc (Some (Asc, [key], id)) n; toy_page Asc (Some (Desc, [key], id)) n;
         toy_page Desc (Some (Asc, [key], id)) n; toy_page Desc (Some (Desc, [key], id)) n]
    | _ => []
    end in
  match List.find (fun st => String.eqb (page_text st) q) known with
  | Some st => Ok (toy_eval st)
  | None => Err "syntax error"
  end.

Lemma toy_select_page d after n :
  well_formed (toy_page d after n) ->
  toy_select (page_text (toy_page d after n)) (page_args (toy_page d after n)) = Ok (toy_eval (toy_page d after n)).
Proof.
  destruct after as [[[d' [|key [|]]] id]|]; intros H; try discriminate H; destruct d; try destruct d'; reflexivity.
Qed.

Lemma toy_eval_answers d after n :
  answers String.ltb (fun _ _ => false) toy_col toy_stored (toy_page d after n) (toy_eval (toy_page d after n)).
Proof.
  set (st := toy_page d after n). unfold toy_eval.
  set (all := match pg_dir st with Asc => toy_sorted | Desc => rev toy_sorted end).
  exists (List.filter (kept String.ltb (fun _ _ => false) toy_col st) all). split; [|split; [|done]].
  - assert (List.filter (kept String.ltb (fun _ _ => false) toy_col st) toy_stored =
      List.filter (kept String.ltb (fun _ _ => false) toy_col st) [("d", "x"); ("a", "y"); ("b", "y")]) as ->.
    { simpl. by destruct (kept _ _ _ st ("d", "x")). }
    fold toy_sorted. subst all. destruct (pg_dir st); [done|].
    assert (forall f (l : list row), List.filter f (rev l) ≡ₚ List.filter f l) as Hrev; [|apply Hrev].
    intros f l. induction l as [|x l IH]; [done|]. simpl. rewrite List.filter_app, IH. simpl.
    destruct (f x); [|by rewrite app_nil_r]. by rewrite (comm (++)).
  - assert (StronglySorted (fun x y => precedes String.ltb (pg_dir st) (sort_values toy_col (pg_keys st) y)
      (sort_values toy_col (pg_keys st) x) = false) all) as Hs.
    { subst all st. destruct d; repeat (constructor; [|]); repeat constructor; reflexivity. }
    revert Hs. generalize (kept String.ltb (fun _ _ => false) toy_col st). clear. intros f.
    induction 1 as [|x l _ IH Hx]; [constructor|]. simpl. destruct (f x); [|done]. constructor; [done|].
    apply list.Forall_forall. intros y Hy. apply (proj1 (list.Forall_forall _ _) Hx).
    by apply list_elem_of_In, filter_In in Hy as [Hy%list_elem_of_In _].
Qed.

Lemma toy_served :
  served toy_parse toy_marshal (fun s => has_byte "|" s = false) "shop" "items" toy_sort toy_select toy_stored
    String.ltb (fun _ _ => false) toy_col toy_conds.
Proof.
  constructor.
  - intros [tb cs ks d after n] Ht Hc Hk Hw _. simpl in Ht, Hc, Hk. subst tb cs ks.
    exists (toy_eval (toy_page d after n)). split; [by apply toy_select_page|apply toy_eval_answers].
  - eapply bool_decide_unpack. vm_compute. exact I.
  - intros r Hr. unfold toy_stored in Hr. rewrite !elem_of_cons in Hr.
    destruct Hr as [->|[->|[->|[->|Hr]]]]; [| | | |by apply not_elem_of_nil in Hr]; intros Hm; try discriminate Hm;
      (split; [done|]); (split; [done|]); (split; [by repeat constructor|]); split; reflexivity.
Qed.


(** Three documents, the last two without the field the query sorts by. In
    ascending order PostgreSQL puts their NULL keys last, and a comparison with
    NULL keeps no row: after a cursor on ("", id) come the rows whose key is
    not NULL and greater. *)
Definition null_select (q : string) (args : list arg) : result string (list (string * string)) :=
  let all := [("a", "x"); ("b", ""); ("d", "")] in
  match args with
  | [AInt n] => Ok (take (Z.to_nat n) all)
  | [AStr key; AStr id; AInt n] =>
      Ok (take (Z.to_nat n) (filter (fun r => r.2 <> "" /\
        (String.ltb key r.2 || String.eqb key r.2 && String.ltb id r.1) = true) all))
  | _ => Err "syntax error"
  end.

(** A client then reads the first document twice and never the last. *)
Lemma missing_sort_key_restarts :
  read_all toy_parse toy_marshal toy_cursor toy_uncursor 3 null_select "shop" "items"
    (mkQueryOptions [] [mkSortField "k" false] 2 "") = Ok [("a", "x"); ("b", ""); ("a", "x")].
Proof. vm_compute. reflexivity. Qed.

(** [Find] reads any operator it does not know as equality, where [Query]
    refuses it: a caller asking for [IN] or for [like] gets another answer. *)
Lemma find_falls_back :
  build_find "shop" "items" [mkFilter "k" "IN" "x"] 10 0 = build_find "shop" "items" [mkFilter "k" "=" "x"] 10 0 /\
  normalizeOperator "like" = "=".
Proof. vm_compute. done. Qed.
