(* ===== verification/Queue.v ===== *)
(** * core/db/queue.go: the durable queue

    The table [plugin_queue] with the columns and the partial unique index of
    migration 000007, and each operation as the statement it sends. [now] is
    the application's clock ([q.now()]), the session's clock is the server's
    [CURRENT_TIMESTAMP]. Rows another transaction has locked, which the claim
    skips, are an argument of [Claim]. [varchar n] is the texts a [VARCHAR(n)]
    column takes. *)

From S2P Require Import Prelude GoStrings StableSort Sql.

Open Scope Z_scope.

Inductive mstatus := Pending | Processing | Done | Dead.

#[export] Instance mstatus_eq_dec : EqDecision mstatus.
Proof. solve_decision. Defined.

Record msg := mkMsg {
  m_id : Z; owner_key : string; topic : string; payload : string;
  m_status : mstatus; priority : Z; attempts : Z; max_attempts : Z;
  available_at : Z; locked_until : option Z; dedup_key : option string;
  last_error : option string; parent_trace_id : string; m_updated_at : Z
}.

(** The table and the sequence behind [id]. *)
Record queue := mkQueue { msgs : gmap Z msg; id_seq : Z }.

Record Message := mkMessage {
  ID : Z; Topic : string; Payload : string; Attempt : Z; MaxAttempts : Z; ParentTraceID : string
}.

Record EnqueueOptions := mkEnqueueOptions {
  Delay : Z; DedupKey : string; Priority : Z; o_MaxAttempts : Z; TraceID : string
}.

Record QueueStats := mkQueueStats { s_Pending : Z; s_Processing : Z; s_Done : Z; s_Dead : Z }.

Record DeadMessage := mkDeadMessage {
  d_ID : Z; d_Topic : string; d_Payload : string; d_Attempts : Z; LastError : string; FailedAt : Z
}.

Definition DefaultMaxAttempts : Z := 5.

Definition int4 (z : Z) : bool := (- 2 ^ 31 <=? z) && (z <? 2 ^ 31).

(** [UPDATE plugin_queue SET f WHERE P] *)
Definition update (P : msg -> bool) (f : msg -> msg) (q : queue) : queue :=
  mkQueue ((fun m => if P m then f m else m) <$> msgs q) (id_seq q).

Definition affected (P : msg -> bool) (q : queue) : list msg :=
  filter (fun m => P m = true) (map_to_list (msgs q)).*2.

Definition in_flight (m : msg) : bool :=
  match m_status m with Pending | Processing => true | _ => false end.

(** Two rows the unique index keeps apart. *)
Definition clash (m m' : msg) : bool :=
  in_flight m && in_flight m' && String.eqb (owner_key m) (owner_key m') &&
  String.eqb (topic m) (topic m') &&
  match dedup_key m, dedup_key m' with Some a, Some b => String.eqb a b | _, _ => false end.

Section server.
Context (varchar : Z -> string -> bool).

(** ** Enqueue *)

Definition stmt_insert (m : msg) (now : Z) (q : queue) : result string (option Z * queue) :=
  let id := id_seq q + 1 in
  reject? negb (varchar 100 (owner_key m) && varchar 200 (topic m) && varchar 64 (parent_trace_id m) &&
                match dedup_key m with Some d => varchar 200 d | None => true end)
    with "value too long" ;;
  reject? negb (int4 (priority m) && int4 (max_attempts m)) with "integer out of range" ;;
  let m := mkMsg id (owner_key m) (topic m) (payload m) Pending (priority m) 0 (max_attempts m)
    (available_at m) None (dedup_key m) None (parent_trace_id m) now in
  if existsb (clash m) (map_to_list (msgs q)).*2 then Ok (None, mkQueue (msgs q) id)
  else Ok (Some id, mkQueue (<[id := m]> (msgs q)) id).

(** The answer: the id and whether the message was a duplicate. *)
Definition Enqueue (now : Z) (ownerKey top pay : string) (opts : EnqueueOptions) : prog queue (Z * bool) :=
  if String.eqb top "" then fail (BadQuery "topic is required")
  else
    let maxAttempts := if o_MaxAttempts opts <=? 0 then DefaultMaxAttempts else o_MaxAttempts opts in
    let dedup := if String.eqb (DedupKey opts) "" then None else Some (DedupKey opts) in
    do! id := exec "enqueue" (stmt_insert (mkMsg 0 ownerKey top pay Pending (Priority opts) 0 maxAttempts
      (now + Delay opts) None dedup None (TraceID opts) 0)) in
    ret (match id with None => (0, true) | Some id => (id, false) end).

(** ** Claim *)

Definition claimable (ownerKey top : string) (now : Z) (skip : Z -> bool) (m : msg) : bool :=
  String.eqb (owner_key m) ownerKey && String.eqb (topic m) top &&
  bool_decide (m_status m = Pending) && (available_at m <=? now) && negb (skip (m_id m)).

(** [ORDER BY priority DESC, id] *)
Definition claim_less (a b : msg) : bool :=
  (priority b <? priority a) || ((priority a =? priority b) && (m_id a <? m_id b)).

Definition claim_set (ownerKey top : string) (now limit : Z) (skip : Z -> bool) (q : queue) : list msg :=
  take (Z.to_nat limit) (sort_stable claim_less (affected (claimable ownerKey top now skip) q)).

Definition lease (until now : Z) (m : msg) : msg :=
  mkMsg (m_id m) (owner_key m) (topic m) (payload m) Processing (priority m) (attempts m + 1)
    (max_attempts m) (available_at m) (Some until) (dedup_key m) (last_error m) (parent_trace_id m) now.

(** The columns of [RETURNING]. *)
Definition to_message (m : msg) : Message :=
  mkMessage (m_id m) (topic m) (payload m) (attempts m) (max_attempts m) (parent_trace_id m).

Definition stmt_claim (ownerKey top : string) (now limit until : Z) (skip : Z -> bool) (server_now : Z)
    (q : queue) : result string (list Message * queue) :=
  let claimed := claim_set ownerKey top now limit skip q in
  Ok ((fun m => to_message (lease until server_now m)) <$> claimed,
      update (fun m => bool_decide (m_id m ∈ m_id <$> claimed)) (lease until server_now) q).

Definition Claim (now : Z) (skip : Z -> bool) (ownerKey top : string) (limit visibility : Z)
    : prog queue (list Message) :=
  let limit := if limit <=? 0 then 1 else limit in
  let visibility := if visibility <=? 0 then 30 * 1000000000 else visibility in
  exec "claim" (stmt_claim ownerKey top now limit (now + visibility) skip).

(** ** Ack, Nack, ReapExpired, RetryDead, PurgeDone *)

Definition held_by (ownerKey : string) (id : Z) (m : msg) : bool :=
  (m_id m =? id) && String.eqb (owner_key m) ownerKey && bool_decide (m_status m = Processing).

Definition set_done (now : Z) (m : msg) : msg :=
  mkMsg (m_id m) (owner_key m) (topic m) (payload m) Done (priority m) (attempts m) (max_attempts m)
    (available_at m) None (dedup_key m) (last_error m) (parent_trace_id m) now.

Definition stmt_update (P : msg -> bool) (f : Z -> msg -> msg) (now : Z) (q : queue)
    : result string (list msg * queue) :=
  Ok (f now <$> affected P q, update P (f now) q).

Definition Ack (ownerKey : string) (id : Z) : prog queue () :=
  do! _ := exec "ack" (stmt_update (held_by ownerKey id) set_done) in ret ().

(** [CASE WHEN attempts >= max_attempts THEN 'dead' ELSE 'pending' END] *)
Definition requeue_status (m : msg) : mstatus := if max_attempts m <=? attempts m then Dead else Pending.

Definition set_nacked (available : Z) (reason : string) (now : Z) (m : msg) : msg :=
  mkMsg (m_id m) (owner_key m) (topic m) (payload m) (requeue_status m) (priority m) (attempts m)
    (max_attempts m) available None (dedup_key m) (Some reason) (parent_trace_id m) now.

(** What [OnDeadLetter] is called with. *)
Record dead_letter := mkDeadLetter {
  l_owner : string; l_topic : string; l_id : Z; l_attempts : Z; l_reason : string
}.

Definition Nack (now : Z) (ownerKey : string) (id : Z) (reason : string) (retryAfter : Z)
    : prog queue (option dead_letter) :=
  let retryAfter := if retryAfter <=? 0 then 0 else retryAfter in
  do! rows := exec "nack" (stmt_update (held_by ownerKey id) (set_nacked (now + retryAfter) reason)) in
  ret (match rows with
       | [] => None
       | m :: _ =>
           if bool_decide (m_status m = Dead)
           then Some (mkDeadLetter ownerKey (topic m) id (attempts m) reason) else None
       end).

Definition expired_lease (now : Z) (m : msg) : bool :=
  bool_decide (m_status m = Processing) &&
  match locked_until m with Some l => l <? now | None => false end.

Definition set_reaped (now : Z) (m : msg) : msg :=
  mkMsg (m_id m) (owner_key m) (topic m) (payload m) (requeue_status m) (priority m) (attempts m)
    (max_attempts m) (available_at m) None (dedup_key m)
    (Some (default "visibility timeout expired" (last_error m))) (parent_trace_id m) now.

Definition ReapExpired (now : Z) : prog queue Z :=
  do! rows := exec "reap" (stmt_update (expired_lease now) set_reaped) in ret (Z.of_nat (length rows)).

Definition dead_of (ownerKey : string) (id : Z) (m : msg) : bool :=
  (m_id m =? id) && String.eqb (owner_key m) ownerKey && bool_decide (m_status m = Dead).

Definition set_revived (available now : Z) (m : msg) : msg :=
  mkMsg (m_id m) (owner_key m) (topic m) (payload m) Pending (priority m) 0 (max_attempts m)
    available None (dedup_key m) (last_error m) (parent_trace_id m) now.

(** The unique index refuses a revived row whose key is in flight again. *)
Definition stmt_retry (ownerKey : string) (id available now : Z) (q : queue) : result string (list msg * queue) :=
  let revived := set_revived available now <$> affected (dead_of ownerKey id) q in
  if existsb (fun m => existsb (fun m' => negb (m_id m =? m_id m') && clash m m') (map_to_list (msgs q)).*2) revived
  then Err "duplicate key value violates unique constraint"
  else Ok (revived, update (dead_of ownerKey id) (set_revived available now) q).

Definition RetryDead (now : Z) (ownerKey : string) (id : Z) : prog queue () :=
  do! rows := exec "retry dead" (stmt_retry ownerKey id now) in
  match rows with [] => fail (BadQuery "no dead message") | _ => ret () end.

Definition stmt_purge (cutoff now : Z) (q : queue) : result string (Z * queue) :=
  let gone m := bool_decide (m_status m = Done) && (m_updated_at m <? cutoff) in
  Ok (Z.of_nat (length (affected gone q)),
      mkQueue (filter (fun p => gone p.2 = false) (msgs q)) (id_seq q)).

Definition PurgeDone (now olderThan : Z) : prog queue Z := exec "purge" (stmt_purge (now - olderThan)).

(** ** Reading *)

(** [SELECT owner_key, count] ... [GROUP BY owner_key]: an owner with no row has
    no entry. *)
Definition count_by_owner (P : msg -> bool) (q : queue) : gmap string Z :=
  foldr (fun m acc => <[owner_key m := default 0 (acc !! owner_key m) + 1]> acc) ∅ (affected P q).

Definition stmt_count (P : msg -> bool) (now : Z) (q : queue) : result string (gmap string Z * queue) :=
  Ok (count_by_owner P q, q).

Definition DeadDepth : prog queue (gmap string Z) :=
  exec "dead depth" (stmt_count (fun m => bool_decide (m_status m = Dead))).

Definition PendingDepth : prog queue (gmap string Z) := exec "queue depth" (stmt_count in_flight).

Definition Stats (ownerKey top : string) : prog queue QueueStats :=
  exec "queue stats" (fun _ q =>
    let mine := affected (fun m => String.eqb (owner_key m) ownerKey && String.eqb (topic m) top) q in
    let n st := count (fun m => m_status m = st) mine in
    Ok (mkQueueStats (n Pending) (n Processing) (n Done) (n Dead), q)).

(** [ORDER BY updated_at DESC, id DESC] *)
Definition dead_less (a b : msg) : bool :=
  (m_updated_at b <? m_updated_at a) || ((m_updated_at a =? m_updated_at b) && (m_id b <? m_id a)).

Definition Dead_ (ownerKey : string) (limit : Z) : prog queue (list DeadMessage) :=
  let limit := if (limit <=? 0) || (200 <? limit) then 50 else limit in
  exec "list dead" (fun _ q =>
    Ok ((fun m => mkDeadMessage (m_id m) (topic m) (payload m) (attempts m) (default "" (last_error m)) (m_updated_at m))
          <$> take (Z.to_nat limit) (sort_stable dead_less
                (affected (fun m => String.eqb (owner_key m) ownerKey && bool_decide (m_status m = Dead)) q)), q)).

(** ** The invariant *)

Definition msg_ok (m : msg) : Prop :=
  0 <= attempts m <= max_attempts m /\ 0 < max_attempts m /\
  match m_status m with
  | Pending => locked_until m = None /\ attempts m < max_attempts m
  | Processing => is_Some (locked_until m) /\ 1 <= attempts m
  | Done => locked_until m = None
  | Dead => locked_until m = None /\ attempts m = max_attempts m
  end.

Record queue_ok (q : queue) : Prop := {
  ok_row : forall i m, msgs q !! i = Some m -> m_id m = i /\ i <= id_seq q /\ msg_ok m;
  ok_unique : forall i j m m', msgs q !! i = Some m -> msgs q !! j = Some m' ->
    clash m m' = true -> i = j
}.

Definition keeps_ok (q q' : queue) : Prop := queue_ok q -> queue_ok q'.

#[export] Instance keeps_ok_preorder : PreOrder keeps_ok.
Proof. split; unfold keeps_ok; auto. Qed.

Lemma lookup_update P f q i :
  msgs (update P f q) !! i = (fun m => if P m then f m else m) <$> msgs q !! i.
Proof. unfold update. simpl. apply lookup_fmap. Qed.

Lemma affected_elem P q m : m ∈ affected P q <-> P m = true /\ exists i, msgs q !! i = Some m.
Proof.
  unfold affected. rewrite list_elem_of_filter, list_elem_of_fmap. split.
  - intros [HP ([i m'] & -> & H%elem_of_map_to_list)]. split; [done|]. by exists i.
  - intros [HP [i H]]. split; [done|]. exists (i, m). split; [done|]. by apply elem_of_map_to_list.
Qed.

(** What the unique index looks at. *)
Definition same_key (m m' : msg) : Prop :=
  m_id m' = m_id m /\ owner_key m' = owner_key m /\ topic m' = topic m /\ dedup_key m' = dedup_key m.

Lemma clash_back m m' n n' :
  same_key m m' -> same_key n n' -> (in_flight m' = true -> in_flight m = true) ->
  (in_flight n' = true -> in_flight n = true) -> clash m' n' = true -> clash m n = true.
Proof.
  unfold clash. intros (_ & Ho & Ht & Hd) (_ & Ho' & Ht' & Hd') Hm Hn.
  rewrite Ho, Ht, Hd, Ho', Ht', Hd', !andb_true_iff. naive_solver.
Qed.

Lemma update_keeps_ok P f q :
  (forall m, P m = true -> same_key m (f m) /\ (in_flight (f m) = true -> in_flight m = true) /\
    (msg_ok m -> msg_ok (f m))) ->
  keeps_ok q (update P f q).
Proof.
  intros Hf [Hr Hu].
  assert (forall m, same_key m (if P m then f m else m) /\
    (in_flight (if P m then f m else m) = true -> in_flight m = true) /\
    (msg_ok m -> msg_ok (if P m then f m else m))) as Hg.
  { intros m. destruct (P m) eqn:E; [by apply (Hf m)|]. done. }
  constructor.
  - intros i m'. rewrite lookup_update. intros (m & Hm & ->)%fmap_Some.
    destruct (Hr i m Hm) as (Hi & Hs & Hok). destruct (Hg m) as ((Hid & _) & _ & Hgo).
    rewrite Hid. auto.
  - intros i j m' n'. rewrite !lookup_update. intros (m & Hm & ->)%fmap_Some (n & Hn & ->)%fmap_Some Hc.
    apply (Hu i j m n Hm Hn). destruct (Hg m) as (? & ? & _), (Hg n) as (? & ? & _). by eapply clash_back.
Qed.

Lemma requeue_ok m : msg_ok m -> m_status m = Processing ->
  match requeue_status m with
  | Pending => attempts m < max_attempts m
  | Dead => attempts m = max_attempts m
  | _ => False
  end.
Proof.
  unfold msg_ok, requeue_status. intros (? & ? & H) E. rewrite E in H.
  destruct (Z.leb_spec (max_attempts m) (attempts m)); lia.
Qed.

Lemma held_by_spec k id m :
  held_by k id m = true <-> m_id m = id /\ owner_key m = k /\ m_status m = Processing.
Proof.
  unfold held_by. rewrite !andb_true_iff, Z.eqb_eq, String.eqb_eq, bool_decide_eq_true. tauto.
Qed.

Lemma dead_of_spec k id m : dead_of k id m = true <-> m_id m = id /\ owner_key m = k /\ m_status m = Dead.
Proof.
  unfold dead_of. rewrite !andb_true_iff, Z.eqb_eq, String.eqb_eq, bool_decide_eq_true. tauto.
Qed.

Lemma claimable_spec k t now skip m :
  claimable k t now skip m = true <->
  owner_key m = k /\ topic m = t /\ m_status m = Pending /\ available_at m <= now /\ skip (m_id m) = false.
Proof.
  unfold claimable.
  rewrite !andb_true_iff, !String.eqb_eq, bool_decide_eq_true, Z.leb_le, negb_true_iff. tauto.
Qed.

Lemma expired_lease_spec now m :
  expired_lease now m = true <->
  m_status m = Processing /\ exists l, locked_until m = Some l /\ l < now.
Proof.
  unfold expired_lease. rewrite andb_true_iff, bool_decide_eq_true.
  destruct (locked_until m) as [l|]; [rewrite Z.ltb_lt|]; naive_solver.
Qed.

(** The claimed rows are claimable, and each stands once. *)
Lemma claim_set_elem k t now limit skip q m :
  m ∈ claim_set k t now limit skip q -> claimable k t now skip m = true /\ exists i, msgs q !! i = Some m.
Proof.
  unfold claim_set. intros (i & Hm & _)%elem_of_take. apply list_elem_of_lookup_2 in Hm.
  rewrite sort_stable_perm in Hm. by apply affected_elem in Hm.
Qed.

Lemma claim_set_id k t now limit skip q m :
  queue_ok q -> (exists i, msgs q !! i = Some m) -> m_id m ∈ m_id <$> claim_set k t now limit skip q ->
  m ∈ claim_set k t now limit skip q.
Proof.
  intros Hok [i Hm] (m' & E & Hm')%list_elem_of_fmap.
  destruct (claim_set_elem _ _ _ _ _ _ _ Hm') as (_ & j & Hj).
  destruct (ok_row _ Hok i m Hm) as [Ei _]. destruct (ok_row _ Hok j m' Hj) as [Ej _].
  assert (m' = m) as <- by congruence. done.
Qed.

Lemma Claim_keeps_ok now skip k t limit vis : within keeps_ok (Claim now skip k t limit vis).
Proof.
  unfold Claim. apply within_exec; [apply _|]. intros snow q a q' [= _ <-] Hok.
  set (cs := claim_set _ _ _ _ _ _). revert Hok.
  assert (forall m, (exists i, msgs q !! i = Some m) -> bool_decide (m_id m ∈ m_id <$> cs) = true ->
    queue_ok q -> m_status m = Pending) as Hp.
  { intros m Hm Hin%bool_decide_eq_true Hok. apply claim_set_id in Hin; [|done|done].
    apply claim_set_elem in Hin as [Hc _]. apply claimable_spec in Hc. tauto. }
  intros [Hr Hu]. pose proof (Build_queue_ok q Hr Hu) as Hok. constructor.
  - intros i m'. rewrite lookup_update. intros (m & Hm & ->)%fmap_Some.
    destruct (Hr i m Hm) as (Hi & Hs & Hm1 & Hm0 & Hm2).
    destruct (bool_decide (m_id m ∈ m_id <$> cs)) eqn:E; [|done].
    specialize (Hp m (ex_intro _ i Hm) E Hok). rewrite Hp in Hm2.
    split_and!; [done|done|]. split; [simpl; lia|]. split; [simpl; lia|]. simpl. split; [by eexists|lia].
  - intros i j m' n'. rewrite !lookup_update. intros (m & Hm & ->)%fmap_Some (n & Hn & ->)%fmap_Some Hc.
    apply (Hu i j m n Hm Hn). eapply clash_back; [| | | |exact Hc].
    + by destruct (bool_decide (m_id m ∈ m_id <$> cs)).
    + by destruct (bool_decide (m_id n ∈ m_id <$> cs)).
    + destruct (bool_decide (m_id m ∈ _)) eqn:E; [|done]. intros _.
      unfold in_flight. by rewrite (Hp m (ex_intro _ i Hm) E Hok).
    + destruct (bool_decide (m_id n ∈ _)) eqn:E; [|done]. intros _.
      unfold in_flight. by rewrite (Hp n (ex_intro _ j Hn) E Hok).
Qed.

Lemma stmt_update_keeps P f :
  (forall now m, P m = true -> same_key m (f now m) /\ (in_flight (f now m) = true -> in_flight m = true) /\
    (msg_ok m -> msg_ok (f now m))) ->
  forall doing, within keeps_ok (exec doing (stmt_update P f)).
Proof.
  intros Hf doing. apply within_exec; [apply _|]. intros now q a q' [= _ <-]. apply update_keeps_ok. apply Hf.
Qed.

Lemma Ack_keeps_ok k id : within keeps_ok (Ack k id).
Proof.
  unfold Ack. apply within_bind; [apply _| |intros _; apply (within_ret _)]. apply stmt_update_keeps.
  intros now m (_ & _ & E)%held_by_spec. split; [done|]. split; [done|].
  by intros (Ha & Hx & H).
Qed.

Lemma requeue_keeps m a e now :
  m_status m = Processing ->
  let m' := mkMsg (m_id m) (owner_key m) (topic m) (payload m) (requeue_status m) (priority m) (attempts m)
    (max_attempts m) a None (dedup_key m) e (parent_trace_id m) now in
  same_key m m' /\ (in_flight m' = true -> in_flight m = true) /\ (msg_ok m -> msg_ok m').
Proof.
  intros E m'. split; [done|]. split; [unfold in_flight; by rewrite E|]. intros Hok.
  pose proof (requeue_ok m Hok E) as Hs. destruct Hok as (Ha & Hx & _). split; [done|]. split; [done|]. simpl.
  destruct (requeue_status m); done.
Qed.

Lemma Nack_keeps_ok now k id reason r : within keeps_ok (Nack now k id reason r).
Proof.
  unfold Nack. apply within_bind; [apply _| |intros rows; apply (within_ret _)]. apply stmt_update_keeps.
  intros snow m (_ & _ & E)%held_by_spec. by apply requeue_keeps.
Qed.

Lemma ReapExpired_keeps_ok now : within keeps_ok (ReapExpired now).
Proof.
  unfold ReapExpired. apply within_bind; [apply _| |intros rows; apply (within_ret _)]. apply stmt_update_keeps.
  intros snow m (E & _)%expired_lease_spec. by apply requeue_keeps.
Qed.

Lemma not_clash m l : existsb (clash m) l = false -> forall m', m' ∈ l -> clash m m' = false.
Proof.
  intros H m' Hm'. destruct (clash m m') eqn:E; [|done].
  assert (existsb (clash m) l = true) by (apply existsb_elem; by exists m'). congruence.
Qed.

Lemma clash_sym m m' : clash m m' = clash m' m.
Proof.
  unfold clash. destruct (in_flight m), (in_flight m'); simpl; try done.
  rewrite (String.eqb_sym (owner_key m)), (String.eqb_sym (topic m)).
  destruct (dedup_key m) as [a|], (dedup_key m') as [b|]; try done. by rewrite (String.eqb_sym a b).
Qed.

Lemma elem_rows q i m : msgs q !! i = Some m -> m ∈ (map_to_list (msgs q)).*2.
Proof. intros H. apply list_elem_of_fmap. exists (i, m). split; [done|]. by apply elem_of_map_to_list. Qed.

Lemma Enqueue_keeps_ok now k t pay opts : within keeps_ok (Enqueue now k t pay opts).
Proof.
  unfold Enqueue. destruct (String.eqb t ""); [apply (within_fail _)|].
  apply within_bind; [apply _| |intros id; apply (within_ret _)].
  apply within_exec; [apply _|]. intros snow q a q' H [Hr Hu]. unfold stmt_insert in H.
  peel H. peel H. cbn [owner_key topic payload priority max_attempts available_at dedup_key parent_trace_id] in H.
  match type of H with context [existsb (clash ?x) _] => set (m := x) in H end.
  destruct (existsb (clash m) _) eqn:Ec; injection H as <- <-.
  - constructor; simpl; [|done]. intros i x Hx. destruct (Hr i x Hx) as (? & ? & ?). split_and!; [done|lia|done].
  - assert (msg_ok m) as Hm.
    { unfold msg_ok, m. simpl. assert (0 < (if o_MaxAttempts opts <=? 0 then DefaultMaxAttempts else o_MaxAttempts opts))
        by (unfold DefaultMaxAttempts; destruct (Z.leb_spec (o_MaxAttempts opts) 0); lia).
      split; [lia|]. split; [lia|]. by split. }
    constructor; simpl.
    + intros i x. destruct (decide (i = id_seq q + 1)) as [->|].
      * rewrite lookup_insert_eq. intros [= <-]. split_and!; [done|lia|done].
      * rewrite lookup_insert_ne by done. intros Hx. destruct (Hr i x Hx) as (? & ? & ?). split_and!; [done|lia|done].
    + intros i j x y. destruct (decide (i = id_seq q + 1)) as [->|], (decide (j = id_seq q + 1)) as [->|];
        rewrite ?lookup_insert_eq, ?lookup_insert_ne by done; [done| | |apply Hu].
      * intros [= <-] Hy Hc. rewrite (not_clash _ _ Ec y) in Hc; [done|]. by eapply elem_rows.
      * intros Hx [= <-] Hc. rewrite clash_sym, (not_clash _ _ Ec x) in Hc; [done|]. by eapply elem_rows.
Qed.

Lemma RetryDead_keeps_ok now k id : within keeps_ok (RetryDead now k id).
Proof.
  unfold RetryDead. apply within_bind; [apply _| |intros [|? ?]; [apply (within_fail _)|apply (within_ret _)]].
  apply within_exec; [apply _|]. intros snow q a q' H [Hr Hu]. unfold stmt_retry in H. peel H.
  injection H as <- <-.
  assert (forall i m, msgs q !! i = Some m -> dead_of k id m = true -> forall j n, msgs q !! j = Some n ->
    i <> j -> clash (set_revived now snow m) n = false) as Hno.
  { intros i m Hm Hd j n Hn Hne. destruct (clash (set_revived now snow m) n) eqn:E; [|done].
    assert (existsb (fun m => existsb (fun m' => negb (m_id m =? m_id m') && clash m m') (map_to_list (msgs q)).*2)
      (set_revived now snow <$> affected (dead_of k id) q) = true) as Hx; [|congruence].
    apply existsb_elem. exists (set_revived now snow m). split.
    - apply list_elem_of_fmap. exists m. split; [done|]. apply affected_elem. split; [done|]. by exists i.
    - apply existsb_elem. exists n. split; [by eapply elem_rows|]. rewrite E, andb_true_r.
      destruct (Hr i m Hm) as [<- _], (Hr j n Hn) as [<- _]. simpl.
      destruct (Z.eqb_spec (m_id m) (m_id n)); done. }
  constructor.
  - intros i m'. rewrite lookup_update. intros (m & Hm & ->)%fmap_Some.
    destruct (Hr i m Hm) as (Hi & Hs & Ha & Hx & Hst). destruct (dead_of k id m) eqn:E; [|done].
    apply dead_of_spec in E as (_ & _ & E). rewrite E in Hst. split_and!; [done|done|].
    split; [simpl; lia|]. split; [simpl; lia|]. simpl. by split.
  - intros i j m' n'. rewrite !lookup_update. intros (m & Hm & ->)%fmap_Some (n & Hn & ->)%fmap_Some Hc.
    destruct (decide (i = j)) as [|Hne]; [done|]. exfalso.
    destruct (dead_of k id m) eqn:E1, (dead_of k id n) eqn:E2.
    + apply dead_of_spec in E1 as (<- & _), E2 as (E2 & _). destruct (Hr i m Hm) as [? _], (Hr j n Hn) as [? _]. congruence.
    + by rewrite (Hno i m Hm E1 j n Hn Hne) in Hc.
    + rewrite clash_sym, (Hno j n Hn E2 i m Hm) in Hc; done.
    + by apply Hne, (Hu i j m n).
Qed.

(** ** Histories *)

(** Any sequence of operations by any callers, each with its own faults and
    server time; [skip] is what other transactions have locked at the time. *)
Inductive qop :=
| QEnqueue (now : Z) (k t pay : string) (opts : EnqueueOptions)
| QClaim (now : Z) (skip : Z -> bool) (k t : string) (limit visibility : Z)
| QAck (k : string) (id : Z)
| QNack (now : Z) (k : string) (id : Z) (reason : string) (retryAfter : Z)
| QReap (now : Z)
| QRetry (now : Z) (k : string) (id : Z)
| QPurge (now olderThan : Z).

(** What the operation delivers, and the table after it. *)
Definition run_op (o : qop) (s : session queue) : list Message * queue :=
  match o with
  | QEnqueue now k t pay opts => ([], store (Enqueue now k t pay opts s).2)
  | QClaim now skip k t limit vis =>
      let '(r, s) := Claim now skip k t limit vis s in (match r with Ok ms => ms | Err _ => [] end, store s)
  | QAck k id => ([], store (Ack k id s).2)
  | QNack now k id reason r => ([], store (Nack now k id reason r s).2)
  | QReap now => ([], store (ReapExpired now s).2)
  | QRetry now k id => ([], store (RetryDead now k id s).2)
  | QPurge now older => ([], store (PurgeDone now older s).2)
  end.

Definition history : Type := list (qop * list bool * Z).

Fixpoint run_history (h : history) (q : queue) : list Message * queue :=
  match h with
  | [] => ([], q)
  | (o, fs, t) :: h =>
      let '(ms, q) := run_op o (mkSession q Pool fs t) in
      let '(ms', q) := run_history h q in (ms ++ ms', q)
  end.

Lemma run_op_keeps_ok o s : queue_ok (store s) -> queue_ok (run_op o s).2.
Proof.
  intros Hok. destruct o as [now k t pay opts|now skip k t l v|k id|now k id rs r|now|now k id|now old]; simpl.
  - destruct (Enqueue now k t pay opts s) as [r s'] eqn:E. by apply (Enqueue_keeps_ok _ _ _ _ _ _ _ _ E).
  - destruct (Claim now skip k t l v s) as [r s'] eqn:E. by apply (Claim_keeps_ok _ _ _ _ _ _ _ _ _ E).
  - destruct (Ack k id s) as [r s'] eqn:E. by apply (Ack_keeps_ok _ _ _ _ _ E).
  - destruct (Nack now k id rs r s) as [r' s'] eqn:E. by apply (Nack_keeps_ok _ _ _ _ _ _ _ _ E).
  - destruct (ReapExpired now s) as [r s'] eqn:E. by apply (ReapExpired_keeps_ok _ _ _ _ E).
  - destruct (RetryDead now k id s) as [r s'] eqn:E. by apply (RetryDead_keeps_ok _ _ _ _ _ _ E).
  - destruct (PurgeDone now old s) as [r s'] eqn:E. simpl. revert E Hok.
    assert (within keeps_ok (PurgeDone now old)) as Hw; [|intros E; by apply (Hw _ _ _ E)].
    apply within_exec; [apply _|]. intros snow q a q' [= _ <-] [Hr Hu]. constructor; simpl.
    + intros i m [Hm _]%map_lookup_filter_Some. by apply Hr.
    + intros i j m n [Hm _]%map_lookup_filter_Some [Hn _]%map_lookup_filter_Some. by apply Hu.
Qed.

(** ** What one operation does to one row *)

(** The number of times a message is among those delivered. *)
Definition deliveries (id : Z) (ms : list Message) : Z := count (fun m => ID m = id) ms.

(** The ways an operation can act on the row [id]. *)
Inductive row_step (o : qop) (id : Z) (m : msg) : Z -> option msg -> Prop :=
| row_same : row_step o id m 0 (Some m)
| row_claimed now skip k t limit vis until snow :
    o = QClaim now skip k t limit vis -> claimable k t now skip m = true ->
    row_step o id m 1 (Some (lease until snow m))
| row_acked snow :
    o = QAck (owner_key m) id -> m_status m = Processing -> row_step o id m 0 (Some (set_done snow m))
| row_nacked now reason r available snow :
    o = QNack now (owner_key m) id reason r -> m_status m = Processing ->
    row_step o id m 0 (Some (set_nacked available reason snow m))
| row_reaped now snow :
    o = QReap now -> expired_lease now m = true -> row_step o id m 0 (Some (set_reaped snow m))
| row_revived now snow :
    o = QRetry now (owner_key m) id -> m_status m = Dead ->
    row_step o id m 0 (Some (set_revived now snow m))
| row_purged now older :
    o = QPurge now older -> m_status m = Done -> row_step o id m 0 None.

Lemma update_row P f q id m o :
  msgs q !! id = Some m ->
  (P m = true -> row_step o id m 0 (Some (f m))) -> row_step o id m 0 (msgs (update P f q) !! id).
Proof.
  intros Hm Hf. rewrite lookup_update, Hm. simpl. destruct (P m); [by apply Hf|constructor].
Qed.

Lemma claim_deliveries k t now limit skip q id m until snow :
  queue_ok q -> msgs q !! id = Some m ->
  deliveries id ((fun m => to_message (lease until snow m)) <$> claim_set k t now limit skip q) =
  if bool_decide (m_id m ∈ m_id <$> claim_set k t now limit skip q) then 1 else 0.
Proof.
  intros Hok Hm. destruct (ok_row _ Hok id m Hm) as [Hid _].
  assert (NoDup (m_id <$> claim_set k t now limit skip q)) as Hnd.
  { unfold claim_set. rewrite fmap_take. eapply sublist_NoDup; [|apply sublist_take].
    rewrite sort_stable_perm. unfold affected.
    eapply sublist_NoDup; [|apply fmap_sublist, sublist_filter].
    assert (m_id <$> (map_to_list (msgs q)).*2 = (map_to_list (msgs q)).*1) as ->; [|apply NoDup_fst_map_to_list].
    rewrite <- list_fmap_compose. apply list_fmap_ext. intros n [i x] Hx. simpl.
    apply list_elem_of_lookup_2, elem_of_map_to_list in Hx. by destruct (ok_row _ Hok i x Hx). }
  rewrite Hid. revert Hnd. generalize (claim_set k t now limit skip q). intros l Hnd. clear Hm.
  unfold deliveries. induction l as [|x l IH]; [by rewrite bool_decide_eq_false_2 by apply not_elem_of_nil|].
  apply list.NoDup_cons in Hnd as [Hni Hnd]. specialize (IH Hnd). rewrite fmap_cons, count_cons, IH. simpl.
  destruct (decide (m_id x = id)) as [E|Hne].
  - rewrite E in Hni |- *. rewrite (bool_decide_eq_false_2 (id ∈ m_id <$> l)) by done. by rewrite bool_decide_eq_true_2 by by left.
  - do 2 case_bool_decide; try done; exfalso; set_solver.
Qed.

Lemma run_op_row o s id m :
  queue_ok (store s) -> msgs (store s) !! id = Some m ->
  row_step o id m (deliveries id (run_op o s).1) (msgs (run_op o s).2 !! id).
Proof.
  intros Hok Hm. destruct (ok_row _ Hok id m Hm) as (Hid & Hseq & Hmok).
  destruct o as [now k t pay opts|now skip k t l v|k i|now k i rs r|now|now k i|now old]; simpl.
  - assert (within (fun q q' => id <= id_seq q -> id <= id_seq q' /\ msgs q' !! id = msgs q !! id)
      (Enqueue now k t pay opts)) as Hw.
    { assert (PreOrder (fun q q' : queue => id <= id_seq q -> id <= id_seq q' /\ msgs q' !! id = msgs q !! id)) as HP.
      { split; [by intros q|]. intros x y z Hxy Hyz Hx. destruct (Hxy Hx) as [Hy E1], (Hyz ltac:(tauto)) as [Hz E2].
        split; [done|congruence]. }
      unfold Enqueue. destruct (String.eqb t ""); [by apply within_fail|].
      apply within_bind; [done| |intros x; by apply within_ret]. apply within_exec; [done|].
      intros snow q a q' H Hq. unfold stmt_insert in H. peel H. peel H.
      destruct (existsb _ _); injection H as <- <-; simpl; (split; [lia|]); [done|].
      apply lookup_insert_ne. lia. }
    destruct (Enqueue now k t pay opts s) as [r s'] eqn:E. simpl.
    destruct (Hw _ _ _ E Hseq) as [_ ->]. rewrite Hm. constructor.
  - destruct (Claim now skip k t l v s) as [r s'] eqn:E. unfold Claim in E. destruct r as [ms|e].
    + apply exec_ok in E as (E & _). injection E as <- <-. cbn [fst snd]. rewrite (claim_deliveries _ _ _ _ _ _ _ m) by done.
      rewrite lookup_update, Hm. simpl. case_bool_decide as Hin; [|constructor].
      apply claim_set_id in Hin; [|done|by exists id]. apply claim_set_elem in Hin as [Hc _].
      eapply row_claimed; [done|exact Hc].
    + apply exec_err in E as (-> & _). simpl. rewrite Hm. constructor.
  - destruct (Ack k i s) as [r s'] eqn:E. simpl. unfold Ack in E.
    apply bind_inv in E as [(a & s1 & E & Hk)|(e & E & _)].
    + injection Hk as _ <-. apply exec_ok in E as (E & _). injection E as _ <-. apply update_row; [done|].
      intros (<- & <- & Hst)%held_by_spec. rewrite Hid. by apply row_acked.
    + apply exec_err in E as (-> & _). rewrite Hm. constructor.
  - destruct (Nack now k i rs r s) as [r' s'] eqn:E. simpl. unfold Nack in E.
    apply bind_inv in E as [(a & s1 & E & Hk)|(e & E & _)].
    + injection Hk as _ <-. apply exec_ok in E as (E & _). injection E as _ <-. apply update_row; [done|].
      intros (<- & <- & Hst)%held_by_spec. rewrite Hid. by eapply row_nacked.
    + apply exec_err in E as (-> & _). rewrite Hm. constructor.
  - destruct (ReapExpired now s) as [r' s'] eqn:E. simpl. unfold ReapExpired in E.
    apply bind_inv in E as [(a & s1 & E & Hk)|(e & E & _)].
    + injection Hk as _ <-. apply exec_ok in E as (E & _). injection E as _ <-. apply update_row; [done|].
      intros Hst. by eapply row_reaped.
    + apply exec_err in E as (-> & _). rewrite Hm. constructor.
  - destruct (RetryDead now k i s) as [r' s'] eqn:E. simpl. unfold RetryDead in E.
    apply bind_inv in E as [(a & s1 & E & Hk)|(e & E & _)].
    + assert (store s' = store s1) as -> by (destruct a; injection Hk as _ <-; done).
      apply exec_ok in E as (E & _). unfold stmt_retry in E. peel E. injection E as _ <-. apply update_row; [done|].
      intros (<- & <- & Hst)%dead_of_spec. rewrite Hid. by eapply row_revived.
    + apply exec_err in E as (-> & _). rewrite Hm. constructor.
  - destruct (PurgeDone now old s) as [r' s'] eqn:E. simpl. unfold PurgeDone in E. destruct r' as [n|e].
    + apply exec_ok in E as (E & _). injection E as _ <-. simpl. rewrite map_lookup_filter, Hm. simpl.
      destruct (bool_decide (m_status m = Done) && (m_updated_at m <? now - old)) eqn:Eg.
      * rewrite option_guard_False by done. apply andb_true_iff in Eg as [Hd%bool_decide_eq_true _].
        by eapply row_purged.
      * rewrite option_guard_True by done. constructor.
    + apply exec_err in E as (-> & _). rewrite Hm. constructor.
Qed.

(** A deleted row stays away: ids are not used again. *)
Definition stays_gone (id : Z) (q q' : queue) : Prop :=
  id_seq q <= id_seq q' /\ (id <= id_seq q -> msgs q !! id = None -> msgs q' !! id = None).

#[export] Instance stays_gone_preorder id : PreOrder (stays_gone id).
Proof.
  split; [by intros q|]. intros x y z [H1 H2] [H3 H4]. split; [lia|]. intros Hs Hx. apply H4; [lia|]. by apply H2.
Qed.

Lemma update_stays_gone id P f q : stays_gone id q (update P f q).
Proof. split; [simpl; lia|]. intros _ Hx. by rewrite lookup_update, Hx. Qed.

Lemma run_op_gone o s id :
  queue_ok (store s) -> id <= id_seq (store s) -> msgs (store s) !! id = None ->
  deliveries id (run_op o s).1 = 0 /\ msgs (run_op o s).2 !! id = None /\ id <= id_seq (run_op o s).2.
Proof.
  intros Hok Hseq Hno.
  assert (forall A (p : prog queue A), within (stays_gone id) p ->
    msgs (store (p s).2) !! id = None /\ id <= id_seq (store (p s).2)) as Hgone.
  { intros A p Hp. destruct (p s) as [r s'] eqn:E. destruct (Hp _ _ _ E) as [H1 H2]. simpl. split; [auto|lia]. }
  assert (forall doing P f, within (stays_gone id) (exec doing (stmt_update P f))) as Hupd.
  { intros doing P f. apply within_exec; [apply _|]. intros now q a q' [= _ <-]. apply update_stays_gone. }
  destruct o as [now k t pay opts|now skip k t l v|k i|now k i rs r|now|now k i|now old]; simpl.
  - split; [done|]. apply Hgone. unfold Enqueue. destruct (String.eqb t ""); [apply (within_fail _)|].
    apply within_bind; [apply _| |intros x; apply (within_ret _)]. apply within_exec; [apply _|].
    intros snow q a q' H. unfold stmt_insert in H. peel H. peel H.
    destruct (existsb _ _); injection H as <- <-; (split; [simpl; lia|]); [done|].
    intros Hs Hx. simpl. rewrite lookup_insert_ne; [done|lia].
  - destruct (Claim now skip k t l v s) as [r s'] eqn:E. simpl. unfold Claim in E. destruct r as [ms|e].
    + apply exec_ok in E as (E & _). injection E as <- <-. simpl. rewrite lookup_fmap, Hno. split_and!; [|done|done].
      apply count_zero. intros x (m & -> & Hm)%list_elem_of_fmap. simpl. apply claim_set_elem in Hm as (_ & j & Hj).
      intros <-. destruct (ok_row _ Hok j m Hj) as [<- _]. congruence.
    + apply exec_err in E as (-> & _). done.
  - split; [done|]. apply Hgone. unfold Ack. apply within_bind; [apply _|apply Hupd|intros x; apply (within_ret _)].
  - split; [done|]. apply Hgone. unfold Nack. apply within_bind; [apply _|apply Hupd|intros x; apply (within_ret _)].
  - split; [done|]. apply Hgone. unfold ReapExpired. apply within_bind; [apply _|apply Hupd|intros x; apply (within_ret _)].
  - split; [done|]. apply Hgone. unfold RetryDead.
    apply within_bind; [apply _| |intros [|? ?]; [apply (within_fail _)|apply (within_ret _)]].
    apply within_exec; [apply _|]. intros snow q a q' H. unfold stmt_retry in H. peel H. injection H as _ <-.
    apply update_stays_gone.
  - split; [done|]. apply Hgone. apply within_exec; [apply _|]. intros snow q a q' [= _ <-]. split; [simpl; lia|].
    intros _ Hx. simpl. rewrite map_lookup_filter, Hx. done.
Qed.

Lemma deliveries_app id a b : deliveries id (a ++ b) = deliveries id a + deliveries id b.
Proof. apply count_app. Qed.

Lemma history_gone h : forall q id,
  queue_ok q -> id <= id_seq q -> msgs q !! id = None -> deliveries id (run_history h q).1 = 0.
Proof.
  induction h as [|[[o fs] t] h IH]; intros q id Hok Hs Hno; [done|]. simpl.
  pose proof (run_op_keeps_ok o (mkSession q Pool fs t) Hok) as Hok'.
  destruct (run_op_gone o (mkSession q Pool fs t) id Hok Hs Hno) as (Hd & Hno' & Hs').
  destruct (run_op o _) as [ms q']. specialize (IH q' id Hok' Hs' Hno'). simpl in *.
  destruct (run_history h q') as [ms' q'']. simpl in *. rewrite deliveries_app. lia.
Qed.

(** ** What holds *)

(** C31. The table stays well formed under any operations with any failures:
    attempts never exceed their maximum, a row waiting has attempts left, a
    row being processed has a lease and counts its delivery, a dead row has
    used its last attempt, and no two rows in flight share an owner, topic and
    deduplication key. *)
Theorem queue_invariant h q : queue_ok q -> queue_ok (run_history h q).2.
Proof.
  revert q. induction h as [|[[o fs] t] h IH]; intros q Hok; [done|]. simpl.
  pose proof (run_op_keeps_ok o (mkSession q Pool fs t) Hok) as Hok'.
  destruct (run_op o _) as [ms q']. specialize (IH q' Hok'). simpl in *.
  by destruct (run_history h q').
Qed.

Definition revives (id : Z) (o : qop) : Prop := match o with QRetry _ _ i => i = id | _ => False end.

(** C29. A message is delivered at most its maximum number of times. Over any
    history in which nobody revives it, the deliveries of a message and the
    attempts it had used never exceed [max_attempts], whoever claims, nacks,
    reaps or purges and whatever fails. *)
Theorem deliveries_bounded h q id m :
  queue_ok q -> msgs q !! id = Some m -> Forall (fun x => ~ revives id x.1.1) h ->
  deliveries id (run_history h q).1 + attempts m <= max_attempts m.
Proof.
  intros Hok Hm Hh. revert q m Hok Hm.
  induction Hh as [|[[o fs] t] h Ho _ IH]; intros q m Hok Hm; simpl.
  - destruct (ok_row _ Hok id m Hm) as (_ & _ & Ha & _). unfold deliveries. rewrite count_nil. lia.
  - pose proof (run_op_keeps_ok o (mkSession q Pool fs t) Hok) as Hok'.
    pose proof (run_op_row o (mkSession q Pool fs t) id m Hok Hm) as Hrow.
    destruct (ok_row _ Hok id m Hm) as (_ & Hseq & Ha & _).
    destruct (run_op o _) as [ms q'] eqn:Eop. cbn [fst snd] in *.
    destruct (run_history h q') as [ms' q''] eqn:Eh. cbn [fst snd]. rewrite deliveries_app.
    assert (ms' = (run_history h q').1) as -> by by rewrite Eh.
    inversion Hrow as [E1 E2|? ? ? ? ? ? ? ? Eo Hc E1 E2|? ? ? E1 E2|? ? ? ? ? ? ? E1 E2|? ? ? ? E1 E2|? ? Eo ? E1 E2|? ? ? ? E1 E2];
      try (specialize (IH q' _ Hok' (eq_sym E2)); simpl in IH; lia).
    + exfalso. apply Ho. simpl. by rewrite Eo.
    + rewrite (history_gone h q' id Hok'); [lia| |done].
      pose proof (run_op_keeps_ok o (mkSession q Pool fs t) Hok) as _.
      assert (within (fun x y => id_seq x <= id_seq y) (PurgeDone now older)) as Hw.
      { apply within_exec; [|by intros ? ? ? ? [= _ <-]]. split; [by intros x|intros x y z; lia]. }
      subst o. simpl in Eop. injection Eop as _ <-.
      destruct (PurgeDone now older _) as [r s'] eqn:Ep. apply Hw in Ep. simpl in *. lia.
Qed.

(** The operations of the holder of a lease. *)
Definition releases (id : Z) (m : msg) (o : qop) : Prop :=
  match o with
  | QAck k i | QNack _ k i _ _ => k = owner_key m /\ i = id
  | QReap now => exists l, locked_until m = Some l /\ l < now
  | _ => False
  end.

(** C30. A lease is exclusive. While a message is being processed, and until its
    owner acknowledges or returns it or the reaper runs after its visibility
    timeout, no claim by anybody delivers it again and its row does not
    change, however many consumers poll. *)
Theorem lease_exclusive h q id m :
  queue_ok q -> msgs q !! id = Some m -> m_status m = Processing ->
  Forall (fun x => ~ releases id m x.1.1) h ->
  deliveries id (run_history h q).1 = 0 /\ msgs (run_history h q).2 !! id = Some m.
Proof.
  intros Hok Hm Hst Hh. revert q Hok Hm.
  induction Hh as [|[[o fs] t] h Ho _ IH]; intros q Hok Hm; [done|]. simpl.
  pose proof (run_op_keeps_ok o (mkSession q Pool fs t) Hok) as Hok'.
  pose proof (run_op_row o (mkSession q Pool fs t) id m Hok Hm) as Hrow.
  destruct (run_op o _) as [ms q'] eqn:Eop. cbn [fst snd] in *.
  inversion Hrow as [E1 E2|? ? ? ? ? ? ? ? Eo Hc E1 E2|? Eo ? E1 E2|? ? ? ? ? Eo ? E1 E2|? ? Eo Hx E1 E2|? ? ? Hx E1 E2|? ? ? Hx E1 E2];
    try congruence.
  - symmetry in E1. destruct (IH q' Hok' (eq_sym E2)) as [H1 H2].
    destruct (run_history h q') as [ms' q'']. simpl in *. rewrite deliveries_app. split; [lia|done].
  - apply claimable_spec in Hc as (_ & _ & Hc & _). congruence.
  - exfalso. apply Ho. simpl. by rewrite Eo.
  - exfalso. apply Ho. simpl. by rewrite Eo.
  - exfalso. apply Ho. simpl. rewrite Eo. apply expired_lease_spec in Hx. naive_solver.
Qed.

Definition acks (id : Z) (m : msg) (o : qop) : Prop :=
  match o with QAck k i => k = owner_key m /\ i = id | _ => False end.

(** Accepted work is not lost. Over any history in which its owner does not
    acknowledge it, a message that is not done is still in the table with its
    payload, waiting, being processed, or parked as dead for somebody to
    revive; it is neither marked done nor deleted. *)
Lemma not_lost h q id m :
  queue_ok q -> msgs q !! id = Some m -> m_status m <> Done ->
  Forall (fun x => ~ acks id m x.1.1) h ->
  exists m', msgs (run_history h q).2 !! id = Some m' /\ m_status m' <> Done /\
    payload m' = payload m /\ owner_key m' = owner_key m /\ topic m' = topic m.
Proof.
  intros Hok Hm Hst Hh. revert q m Hok Hm Hst Hh.
  induction h as [|[[o fs] t] h IH]; intros q m Hok Hm Hst Hh; [by exists m|]. simpl.
  apply list.Forall_cons in Hh as [Ho Hh].
  pose proof (run_op_keeps_ok o (mkSession q Pool fs t) Hok) as Hok'.
  pose proof (run_op_row o (mkSession q Pool fs t) id m Hok Hm) as Hrow.
  destruct (run_op o _) as [ms q'] eqn:Eop. cbn [fst snd] in *.
  assert (forall m1, msgs q' !! id = Some m1 -> m_status m1 <> Done -> payload m1 = payload m ->
    owner_key m1 = owner_key m -> topic m1 = topic m ->
    exists m', msgs (run_history h q').2 !! id = Some m' /\ m_status m' <> Done /\
      payload m' = payload m /\ owner_key m' = owner_key m /\ topic m' = topic m) as Hgo.
  { intros m1 H1 H2 Hp Hk Ht. rewrite <- Hp, <- Hk, <- Ht. apply (IH q' m1 Hok' H1 H2).
    eapply list.Forall_impl; [exact Hh|]. intros x Hx. unfold acks in *. by rewrite Hk. }
  destruct (run_history h q') as [ms' q'']. simpl in *.
  assert (requeue_status m <> Done) as Hrq by (unfold requeue_status; by destruct (_ <=? _)).
  inversion Hrow as [E1 E2|? ? ? ? ? ? ? ? Eo Hc E1 E2|? Eo ? E1 E2|? ? ? ? ? Eo ? E1 E2|? ? Eo Hx E1 E2|? ? ? Hx E1 E2|? ? ? Hx E1 E2];
    try congruence; try (by apply (Hgo _ (eq_sym E2))).
  exfalso. apply Ho. simpl. by rewrite Eo.
Qed.

Definition claim_key (m : msg) : Z * Z := (- priority m, m_id m).

Lemma claim_less_key a b : claim_less a b = lex Z.ltb Z.ltb (claim_key a) (claim_key b).
Proof.
  unfold claim_less, lex, claim_key. simpl. case_decide as E.
  - assert (priority a = priority b) as -> by lia. rewrite Z.ltb_irrefl, Z.eqb_refl. done.
  - destruct (Z.eqb_spec (priority a) (priority b)); [lia|]. rewrite andb_false_l, orb_false_r.
    destruct (Z.ltb_spec (priority b) (priority a)), (Z.ltb_spec (- priority a) (- priority b)); lia || done.
Qed.

(** A claim takes exactly the right messages. It delivers waiting messages
    of that owner and topic that are due and not locked by another
    transaction, as many as there are up to the limit, each once; none that
    stays behind comes before one that is taken, in order of priority and then
    age; exactly those rows are leased until the visibility timeout with one
    more attempt, and no other row changes. *)
Lemma Claim_spec now skip k t limit vis s ms s' :
  queue_ok (store s) -> Claim now skip k t limit vis s = (Ok ms, s') ->
  let lim := if limit <=? 0 then 1 else limit in
  let until := now + (if vis <=? 0 then 30 * 1000000000 else vis) in
  exists taken, ms = (fun m => to_message (lease until (clock s) m)) <$> taken /\ NoDup (m_id <$> taken) /\
    length taken = Nat.min (Z.to_nat lim) (length (affected (claimable k t now skip) (store s))) /\
    (forall m, m ∈ taken -> claimable k t now skip m = true /\ msgs (store s) !! m_id m = Some m /\
       msgs (store s') !! m_id m = Some (lease until (clock s) m)) /\
    (forall i m, msgs (store s) !! i = Some m -> m ∉ taken -> msgs (store s') !! i = Some m) /\
    (forall m m' i, m ∈ taken -> msgs (store s) !! i = Some m' -> claimable k t now skip m' = true ->
       m' ∉ taken -> claim_less m m' = true).
Proof.
  intros Hok H lim until. unfold Claim in H. apply exec_ok in H as (H & _). injection H as <- Hs.
  fold lim until in Hs. exists (claim_set k t now lim skip (store s)).
  set (taken := claim_set k t now lim skip (store s)) in *.
  assert (forall i m, msgs (store s) !! i = Some m ->
    msgs (store s') !! i = Some (if bool_decide (m_id m ∈ m_id <$> taken) then lease until (clock s) m else m)) as Hrow.
  { intros i m Hm. rewrite <- Hs, lookup_update, Hm. done. }
  pose proof (sort_stable_perm claim_less (affected (claimable k t now skip) (store s))) as Hperm.
  assert (NoDup (m_id <$> sort_stable claim_less (affected (claimable k t now skip) (store s)))) as Hnd.
  { rewrite Hperm. unfold affected. eapply sublist_NoDup; [|apply fmap_sublist, sublist_filter].
    assert (m_id <$> (map_to_list (msgs (store s))).*2 = (map_to_list (msgs (store s))).*1) as ->;
      [|apply NoDup_fst_map_to_list].
    rewrite <- list_fmap_compose. apply list_fmap_ext. intros n [i x] Hx. simpl.
    apply list_elem_of_lookup_2, elem_of_map_to_list in Hx. by destruct (ok_row _ Hok i x Hx). }
  split_and!; [done| | | | |].
  - unfold taken, claim_set. rewrite fmap_take. eapply sublist_NoDup; [exact Hnd|apply sublist_take].
  - unfold taken, claim_set. by rewrite length_take, (Permutation_length Hperm).
  - intros m Hm. destruct (claim_set_elem _ _ _ _ _ _ _ Hm) as (Hc & i & Hi).
    destruct (ok_row _ Hok i m Hi) as [Hid _]. rewrite Hid. split_and!; [done|done|].
    rewrite (Hrow i m Hi), bool_decide_eq_true_2; [done|]. apply list_elem_of_fmap. by exists m.
  - intros i m Hi Hm. rewrite (Hrow i m Hi). case_bool_decide as Hin; [|done].
    exfalso. apply Hm, (claim_set_id k t now lim skip (store s) m Hok); [by exists i|done].
  - intros m m' i Hm Hi Hc Hn.
    pose proof (sort_stable_sorted claim_less claim_key (lex Z.ltb Z.ltb) claim_less_key
      (affected (claimable k t now skip) (store s))) as Hsort.
    rewrite <- (take_drop (Z.to_nat lim)) in Hsort. apply StronglySorted_app in Hsort as (Hcross & _ & _).
    assert (m' ∈ drop (Z.to_nat lim) (sort_stable claim_less (affected (claimable k t now skip) (store s)))) as Hd.
    { assert (m' ∈ sort_stable claim_less (affected (claimable k t now skip) (store s))) as Hin
        by (rewrite Hperm; apply affected_elem; split; [done|by exists i]).
      rewrite <- (take_drop (Z.to_nat lim)) in Hin. by apply elem_of_app in Hin as [?|?]. }
    specialize (Hcross m m' Hm Hd). unfold in_order in Hcross. rewrite claim_less_key in Hcross |- *.
    destruct (st_total (lt := lex Z.ltb Z.ltb) (claim_key m) (claim_key m')) as [?|[E|?]]; [done| |congruence].
    exfalso. apply Hn. destruct (claim_set_elem _ _ _ _ _ _ _ Hm) as (_ & j & Hj).
    destruct (ok_row _ Hok j m Hj) as [E1 _], (ok_row _ Hok i m' Hi) as [E2 _].
    unfold claim_key in E. injection E as _ E. assert (m' = m) as -> by congruence. done.
Qed.
End server.

(** ** Concrete histories *)

Definition any_text (n : Z) (s : string) : bool := true.

(** One message of a plugin [shop], being processed by a first consumer until
    time 40, on its second and last attempt but one. *)
Definition job : msg := mkMsg 1 "shop" "mail" "hello" Processing 0 2 3 0 (Some 40) (Some "k1") None "" 0.
Definition one_job : queue := mkQueue {[ 1 := job ]} 1.

Lemma one_job_ok : queue_ok one_job.
Proof.
  constructor.
  - intros i m H. simpl in H. apply lookup_singleton_Some in H as [<- <-]. split_and!; [done|simpl; lia|].
    split; [simpl; lia|]. split; [simpl; lia|]. simpl. split; [by eexists|lia].
  - intros i j m m' H H' _. simpl in H, H'.
    apply lookup_singleton_Some in H as [<- _]. by apply lookup_singleton_Some in H' as [<- _].
Qed.

Lemma queue_invariant_witness :
  queue_ok (run_history any_text [(QReap 50, [], 50); (QClaim 51 (fun _ => false) "shop" "mail" 10 30, [], 51)] one_job).2.
Proof. exact (queue_invariant any_text _ one_job one_job_ok). Defined.

(** The lease lapses, the message is delivered a third time, lapses again and is
    dead: one delivery, and two attempts before it. *)
Definition lapsing : history :=
  [(QReap 50, [], 50); (QClaim 51 (fun _ => false) "shop" "mail" 10 30, [], 51); (QReap 90, [], 90);
   (QClaim 91 (fun _ => false) "shop" "mail" 10 30, [], 91)].

Lemma deliveries_bounded_witness :
  deliveries 1 (run_history any_text lapsing one_job).1 + 2 <= 3 /\
  deliveries 1 (run_history any_text lapsing one_job).1 = 1.
Proof.
  split; [|vm_compute; reflexivity].
  apply (deliveries_bounded any_text lapsing one_job 1 job one_job_ok); [reflexivity|].
  repeat constructor; intros [].
Defined.

(** A message that dies because its lease lapsed is parked by the reaper, which
    reports to nobody: [OnDeadLetter] belongs to [Nack] alone. *)
Example reaper_parks_silently :
  (m_status <$> msgs (run_history any_text lapsing one_job).2 !! 1) = Some Dead.
Proof. vm_compute. reflexivity. Qed.

Lemma lease_exclusive_witness :
  msgs (run_history any_text [(QReap 40, [], 40); (QClaim 41 (fun _ => false) "shop" "mail" 10 30, [], 41);
    (QAck "other" 1, [], 42)] one_job).2 !! 1 = Some job.
Proof.
  apply (lease_exclusive any_text _ one_job 1 job one_job_ok); [reflexivity|reflexivity|].
  repeat constructor; simpl.
  - intros (l & [= <-] & H). lia.
  - intros [].
  - intros [H _]. discriminate H.
Defined.

(** Two messages waiting and one processing; the claim takes the one of higher
    priority. *)
Definition two_waiting : queue :=
  mkQueue {[ 1 := mkMsg 1 "shop" "mail" "a" Pending 0 0 5 0 None None None "" 0;
             2 := mkMsg 2 "shop" "mail" "b" Pending 9 0 5 0 None None None "" 0 ]} 2.

Lemma two_waiting_ok : queue_ok two_waiting.
Proof.
  assert (forall i m, msgs two_waiting !! i = Some m ->
    (i = 1 \/ i = 2) /\ m_id m = i /\ dedup_key m = None /\ msg_ok m) as Hr.
  { intros i m H. simpl in H. apply lookup_insert_Some in H as [[<- <-]|[_ H]].
    - split_and!; [by left|done|done|]. split; [simpl; lia|]. split; [simpl; lia|]. by split.
    - apply lookup_singleton_Some in H as [<- <-]. split_and!; [by right|done|done|].
      split; [simpl; lia|]. split; [simpl; lia|]. by split. }
  constructor.
  - intros i m H. destruct (Hr i m H) as (Hi & ? & _ & ?). split_and!; [done|simpl; lia|done].
  - intros i j m m' H H' Hc. destruct (Hr i m H) as (_ & _ & Hd & _). exfalso.
    unfold clash in Hc. rewrite Hd, andb_false_r in Hc. discriminate Hc.
Qed.

(** A consumer whose lease has lapsed and been taken over still ends the
    message: its late [Ack] matches the second consumer's row. *)
Lemma stale_ack_ends_anothers_lease :
  let q := (run_history any_text [(QReap 50, [], 50); (QClaim 51 (fun _ => false) "shop" "mail" 1 30, [], 51)] one_job).2 in
  (m_status <$> msgs q !! 1) = Some Processing /\
  (m_status <$> msgs (run_history any_text [(QAck "shop" 1, [], 52)] q).2 !! 1) = Some Done /\
  (m_status <$> msgs (run_history any_text [(QNack 52 "shop" 1 "late" 0, [], 52)] q).2 !! 1) = Some Dead.
Proof. vm_compute. done. Qed.

(** Reviving a message whose deduplication key is in flight again is refused by
    the unique index, not reported as a duplicate. *)
Lemma revive_refused :
  let dead := mkMsg 1 "shop" "mail" "a" Dead 0 3 3 0 None (Some "k1") None "" 0 in
  let q := mkQueue {[ 1 := dead; 2 := mkMsg 2 "shop" "mail" "b" Pending 0 0 3 0 None (Some "k1") None "" 0 ]} 2 in
  (RetryDead 10 "shop" 1 (mkSession q Pool [] 10)).1 =
    Err (SqlFailed "retry dead" "duplicate key value violates unique constraint").
Proof. vm_compute. reflexivity. Qed.
