(* ===== verification/Auth.v ===== *)
(** * core/auth: users and sessions

    The table [system_users] with the queries of core/db/sqlc that touch it,
    the user-administration operations of users.go as the statements they
    send, and the session store of auth.go. bcrypt, the text a [VARCHAR(n)]
    column takes and what the sequence behind [id] and the random source draw
    are arguments. *)

From S2P Require Import Prelude GoStrings Sql.

Open Scope Z_scope.

Record User := mkUser { u_ID : Z; u_Username : string; u_Role : string }.

Record user_row := mkUserRow {
  r_Username : string; r_PasswordHash : string; r_Role : string; r_CreatedAt : option Z
}.

(** [system_users] by [id]. *)
Notation users := (gmap Z user_row).

Record UserRecord := mkUserRecord {
  rec_ID : Z; rec_Username : string; rec_Role : string; rec_CreatedAt : option Z
}.

Definition is_admin (u : user_row) : bool := String.eqb (r_Role u) "admin".

Inductive auth_error :=
| ErrInvalidCredentials
| ErrLastAdmin
| ErrUserMissing
| Required (what : string)
| HashFailed (why : string)
| RandFailed
| CountAdminsFailed (e : db_error)
| SqlError (e : db_error).

Definition query {D A} (m : prog D A) : prog D (result auth_error A) := wrapped SqlError m.

(** ** The queries *)

Section queries.
Context (varchar : Z -> string -> bool).

Definition named (username : string) (kv : Z * user_row) : bool := String.eqb (r_Username kv.2) username.

Definition CountUsers : prog users Z :=
  exec "CountUsers" (fun _ d => Ok (Z.of_nat (size d), d)).

Definition CountAdmins : prog users Z :=
  exec "CountAdmins" (fun _ d =>
    Ok (Z.of_nat (size (filter (fun kv => is_admin kv.2 = true) d)), d)).

Definition GetUserByID (id : Z) : prog users user_row :=
  exec "GetUserByID" (fun _ d =>
    match d !! id with Some u => Ok (u, d) | None => Err "sql: no rows in result set" end).

Definition GetUserByUsername (username : string) : prog users (Z * user_row) :=
  exec "GetUserByUsername" (fun _ d =>
    match filter (fun kv => named username kv = true) (map_to_list d) with
    | kv :: _ => Ok (kv, d)
    | [] => Err "sql: no rows in result set"
    end).

(** [nextval] is the id the sequence gives. *)
Definition q_CreateUser (nextval : Z) (username hash role : string) : prog users () :=
  exec "CreateUser" (fun now d =>
    reject? 2 ^ 31 <=? nextval with "nextval: reached maximum value of sequence" ;;
    reject? negb (varchar 50 username && varchar 255 hash && varchar 50 role) with "value too long" ;;
    reject? existsb (named username) (map_to_list d) with "duplicate key value: username" ;;
    reject? bool_decide (is_Some (d !! nextval)) with "duplicate key value: id" ;;
    Ok ((), <[nextval := mkUserRow username hash role (Some now)]> d)).

Definition q_UpdateUserPassword (id : Z) (hash : string) : prog users () :=
  exec "UpdateUserPassword" (fun _ d =>
    match d !! id with
    | None => Ok ((), d)
    | Some u =>
        if varchar 255 hash then
          Ok ((), <[id := mkUserRow (r_Username u) hash (r_Role u) (r_CreatedAt u)]> d)
        else Err "value too long"
    end).

Definition q_UpdateUserRole (id : Z) (role : string) : prog users () :=
  exec "UpdateUserRole" (fun _ d =>
    match d !! id with
    | None => Ok ((), d)
    | Some u =>
        if varchar 50 role then
          Ok ((), <[id := mkUserRow (r_Username u) (r_PasswordHash u) role (r_CreatedAt u)]> d)
        else Err "value too long"
    end).

Definition q_DeleteUser (id : Z) : prog users () :=
  exec "DeleteUser" (fun _ d => Ok ((), delete id d)).

(** [SELECT ... ORDER BY id] *)
Definition id_le (a b : Z * user_row) : Prop := a.1 <= b.1.
#[local] Instance id_le_dec a b : Decision (id_le a b).
Proof. unfold id_le. apply _. Defined.

Definition q_ListUsers : prog users (list (Z * user_row)) :=
  exec "ListUsers" (fun _ d => Ok (merge_sort id_le (map_to_list d), d)).

(** ** User administration *)

Context (GenerateFromPassword : string -> string -> result string string).
Context (CompareHashAndPassword : string -> string -> bool).

Definition ListUsers : prog users (result auth_error (list UserRecord)) :=
  do? rows := query q_ListUsers in
  ret (Ok ((fun kv => mkUserRecord kv.1 (r_Username kv.2) (r_Role kv.2) (r_CreatedAt kv.2)) <$> rows)).

(** [salt] is what bcrypt draws. *)
Definition hash_password (salt password : string) : result auth_error string :=
  match GenerateFromPassword salt password with
  | Ok h => Ok h
  | Err why => Err (HashFailed why)
  end.

Definition CreateUser (nextval : Z) (salt username password role : string)
    : prog users (result auth_error ()) :=
  if String.eqb username "" || String.eqb password "" then
    ret (Err (Required "username and password are required"))
  else
    let role := if String.eqb role "" then "user" else role in
    do? hash := ret (hash_password salt password) in
    query (q_CreateUser nextval username hash role).

Definition SetPassword (salt : string) (id : Z) (password : string) : prog users (result auth_error ()) :=
  if String.eqb password "" then ret (Err (Required "password is required"))
  else
    do? hash := ret (hash_password salt password) in
    query (q_UpdateUserPassword id hash).

Definition ensureNotLastAdmin (id : Z) : prog users (result auth_error ()) :=
  do! row := try (GetUserByID id) in
  match row with
  | Err _ => ret (Err ErrUserMissing)
  | Ok row =>
      if negb (is_admin row) then ret (Ok ())
      else
        do! n := try CountAdmins in
        ret (match n with
             | Err e => Err (CountAdminsFailed e)
             | Ok n => if n <=? 1 then Err ErrLastAdmin else Ok ()
             end)
  end.

Definition SetRole (id : Z) (role : string) : prog users (result auth_error ()) :=
  if String.eqb role "" then ret (Err (Required "role is required"))
  else
    do? _ := (if negb (String.eqb role "admin") then ensureNotLastAdmin id else ret (Ok ())) in
    query (q_UpdateUserRole id role).

Definition DeleteUser (id : Z) : prog users (result auth_error ()) :=
  do? _ := ensureNotLastAdmin id in
  query (q_DeleteUser id).

Definition ChangePassword (salt : string) (id : Z) (oldPassword newPassword : string)
    : prog users (result auth_error ()) :=
  do! row := try (GetUserByID id) in
  match row with
  | Err _ => ret (Err ErrUserMissing)
  | Ok row =>
      if negb (CompareHashAndPassword (r_PasswordHash row) oldPassword) then
        ret (Err ErrInvalidCredentials)
      else SetPassword salt id newPassword
  end.

Definition SeedDefaultAdmin (nextval : Z) (salt username password : string)
    : prog users (result auth_error bool) :=
  do? n := query CountUsers in
  if 0 <? n then ret (Ok false)
  else
    do? hash := ret (hash_password salt password) in
    do? _ := query (q_CreateUser nextval username hash "admin") in
    ret (Ok true).
End queries.

(** ** Sessions *)

Record sess := mkSess { s_user : User; expiresAt : Z }.

(** The store: the sessions, and the database behind it. *)
Record Store := mkStore { sessions : gmap string sess; st_db : session users }.

Definition ttl : Z := 24 * 3600 * 10 ^ 9.

Definition newToken (drawn : option (list Z)) : result auth_error string :=
  match drawn with
  | None => Err RandFailed
  | Some b => Ok (hex_encode b)
  end.

(** [now] is [time.Now()]; the comparison made for an unknown user only takes
    time. *)
Definition Login (Compare : string -> string -> bool) (now : Z) (drawn : option (list Z))
    (username password : string) (s : Store) : result auth_error (string * User) * Store :=
  let '(row, d) := GetUserByUsername username (st_db s) in
  let s := mkStore (sessions s) d in
  match row with
  | Err _ => (Err ErrInvalidCredentials, s)
  | Ok (id, row) =>
      if negb (Compare (r_PasswordHash row) password) then (Err ErrInvalidCredentials, s)
      else
        let user := mkUser id (r_Username row) (r_Role row) in
        match newToken drawn with
        | Err e => (Err e, s)
        | Ok token =>
            (Ok (token, user), mkStore (<[token := mkSess user (now + ttl)]> (sessions s)) d)
        end
  end.

Definition Resolve (now : Z) (token : string) (s : Store) : option User * Store :=
  if String.eqb token "" then (None, s)
  else match sessions s !! token with
       | None => (None, s)
       | Some e =>
           if expiresAt e <? now then (None, mkStore (delete token (sessions s)) (st_db s))
           else (Some (s_user e), s)
       end.

Definition Logout (token : string) (s : Store) : Store :=
  mkStore (delete token (sessions s)) (st_db s).

(** An operation on the users, run by the store. *)
Definition on_db {A} (m : prog users (result auth_error A)) (s : Store) : result auth_error A * Store :=
  let '(r, d) := m (st_db s) in
  (match r with Ok r => r | Err e => Err (SqlError e) end, mkStore (sessions s) d).

(** ** Histories

    The calls the handlers and startup make, each at the time it runs and with
    the statements of it that fail. *)

Inductive call :=
| CCreate (nextval : Z) (salt username password role : string)
| CSetPassword (salt : string) (id : Z) (password : string)
| CSetRole (id : Z) (role : string)
| CDelete (id : Z)
| CChange (salt : string) (id : Z) (oldPassword newPassword : string)
| CSeed (nextval : Z) (salt username password : string)
| CList
| CLogin (drawn : option (list Z)) (username password : string)
| CResolve (token : string)
| CLogout (token : string).

Record event := mkEvent { ev_now : Z; ev_faults : list bool; ev_call : call }.

Section histories.
Context (varchar : Z -> string -> bool).
Context (Generate : string -> string -> result string string).
Context (Compare : string -> string -> bool).

Definition apply_call (now : Z) (c : call) (s : Store) : Store :=
  match c with
  | CCreate next salt name pw role => (on_db (CreateUser varchar Generate next salt name pw role) s).2
  | CSetPassword salt id pw => (on_db (SetPassword varchar Generate salt id pw) s).2
  | CSetRole id role => (on_db (SetRole varchar id role) s).2
  | CDelete id => (on_db (DeleteUser id) s).2
  | CChange salt id old new => (on_db (ChangePassword varchar Generate Compare salt id old new) s).2
  | CSeed next salt name pw => (on_db (SeedDefaultAdmin varchar Generate next salt name pw) s).2
  | CList => (on_db ListUsers s).2
  | CLogin drawn name pw => (Login Compare now drawn name pw s).2
  | CResolve token => (Resolve now token s).2
  | CLogout token => Logout token s
  end.

Definition at_event (e : event) (s : Store) : Store :=
  mkStore (sessions s) (mkSession (store (st_db s)) Pool (ev_faults e) (ev_now e)).

Definition run_event (s : Store) (e : event) : Store := apply_call (ev_now e) (ev_call e) (at_event e s).

Definition history (s : Store) (es : list event) : Store := foldl run_event s es.
End histories.

(** ** Lemmas *)

Section lemmas.
Context (varchar : Z -> string -> bool).
Context (Generate : string -> string -> result string string).
Context (Compare : string -> string -> bool).

Lemma GetUserByID_reads id : within eq (GetUserByID id).
Proof. apply within_read. intros now d a d' E. case_match; by simplify_eq. Qed.

Lemma GetUserByUsername_reads n : within eq (GetUserByUsername n).
Proof. apply within_read. intros now d a d' E. case_match; by simplify_eq. Qed.

Lemma CountUsers_reads : within eq CountUsers.
Proof. apply within_read. intros now d a d' E. by simplify_eq. Qed.

Lemma CountAdmins_reads : within eq CountAdmins.
Proof. apply within_read. intros now d a d' E. by simplify_eq. Qed.

Lemma q_ListUsers_reads : within eq q_ListUsers.
Proof. apply within_read. intros now d a d' E. by simplify_eq. Qed.

Lemma ListUsers_reads : within eq ListUsers.
Proof. unfold ListUsers. within_steps. apply q_ListUsers_reads. Qed.

Lemma ensureNotLastAdmin_reads id : within eq (ensureNotLastAdmin id).
Proof.
  apply within_bind; [apply _|apply (within_try _), GetUserByID_reads|]. intros [row|e]; [|apply (within_ret _)].
  case_match; [apply (within_ret _)|].
  apply within_bind; [apply _|apply (within_try _), CountAdmins_reads|]. intros n. apply (within_ret _).
Qed.

Lemma SetPassword_within (R : users -> users -> Prop) `{!PreOrder R} salt id pw :
  (forall h, within R (q_UpdateUserPassword varchar id h)) ->
  within R (SetPassword varchar Generate salt id pw).
Proof. intros H. unfold SetPassword. within_steps. apply H. Qed.

Lemma ChangePassword_within (R : users -> users -> Prop) `{!PreOrder R} salt id old pw :
  (forall h, within R (q_UpdateUserPassword varchar id h)) ->
  within R (ChangePassword varchar Generate Compare salt id old pw).
Proof.
  intros H. apply within_bind; [done|apply (within_try _), (reads_refl R), GetUserByID_reads|].
  intros [row|e]; [|apply (within_ret _)]. case_match; [apply (within_ret _)|]. by apply SetPassword_within.
Qed.

Lemma CreateUser_within (R : users -> users -> Prop) `{!PreOrder R} next salt name pw role :
  (forall h r, within R (q_CreateUser varchar next name h r)) ->
  within R (CreateUser varchar Generate next salt name pw role).
Proof. intros H. unfold CreateUser. within_steps; apply H. Qed.

(** *** The last administrator *)

Definition admin_row (id : Z) (d : users) : Prop := exists u, d !! id = Some u /\ is_admin u = true.
Definition has_admin (d : users) : Prop := exists id, admin_row id d.

(** An administrator other than [id]. *)
Definition other_admin (id : Z) (d : users) : Prop :=
  exists id' u, id' <> id /\ d !! id' = Some u /\ is_admin u = true.

Definition keeps_row (id : Z) (d d' : users) : Prop := admin_row id d -> admin_row id d'.
Definition keeps_admin (d d' : users) : Prop := has_admin d -> has_admin d'.

#[global] Instance keeps_row_preorder id : PreOrder (keeps_row id).
Proof. split; [intros d H; exact H|]. intros a b c Hab Hbc Ha. by apply Hbc, Hab. Qed.

#[local] Instance keeps_admin_preorder : PreOrder keeps_admin.
Proof. split; [intros d H; exact H|]. intros a b c Hab Hbc Ha. by apply Hbc, Hab. Qed.

Lemma size_two_other (id : Z) (d : users) :
  1 < Z.of_nat (size d) -> exists id' u, id' <> id /\ d !! id' = Some u.
Proof.
  intros Hsize. destruct (decide (delete id d = ∅)) as [E|E].
  - exfalso. pose proof (map_size_delete id d) as Hd. rewrite E, map_size_empty in Hd. case_match; simpl in *; lia.
  - apply map_choose in E as (id' & u & [Hne Hu]%lookup_delete_Some). by exists id', u.
Qed.

Lemma two_admins id d :
  1 < Z.of_nat (size (filter (fun kv => is_admin kv.2 = true) d)) -> other_admin id d.
Proof.
  intros (id' & u & Hne & [Hu Ha]%map_lookup_filter_Some)%(size_two_other id). by exists id', u.
Qed.

Lemma ensureNotLastAdmin_ok id s s' :
  ensureNotLastAdmin id s = (Ok (Ok ()), s') ->
  exists u, store s !! id = Some u /\ (is_admin u = true -> other_admin id (store s)).
Proof.
  unfold ensureNotLastAdmin. rewrite bind_ok. intros (row & s1 & Hrow & H).
  destruct row as [u|e]; [|done]. unfold try in Hrow.
  destruct (GetUserByID id s) as [x s1'] eqn:E. simplify_eq.
  pose proof (GetUserByID_reads id _ _ _ E) as Hs. apply exec_ok in E as (E & _).
  destruct (store s !! id) as [u'|] eqn:Hu; simplify_eq. eexists. split; [done|].
  intros Ha. rewrite Ha in H. simpl in H. apply bind_ok in H as (n & s2 & Hn & H).
  unfold try in Hn. destruct (CountAdmins s1) as [y s2'] eqn:E2. simplify_eq.
  destruct n as [n|e]; [|done]. apply exec_ok in E2 as (E2 & _). simplify_eq.
  unfold ret in H. destruct (Z.leb_spec (Z.of_nat (size (filter (fun kv => is_admin kv.2 = true) (store s1)))) 1);
    simplify_eq. rewrite Hs. apply two_admins. lia.
Qed.

Lemma other_admin_keeps id d d' :
  (forall id', id' <> id -> d' !! id' = d !! id') -> other_admin id d -> has_admin d'.
Proof. intros Hd (id' & u & Hne & Hu & Ha). exists id', u. by rewrite Hd. Qed.

(** Writing the row of a user that is not the last administrator. *)
Lemma keeps_after_ensure {A} id (m : prog users A) :
  (forall s r s', m s = (r, s') -> forall id', id' <> id -> store s' !! id' = store s !! id') ->
  within keeps_admin (do? _ := ensureNotLastAdmin id in query m).
Proof.
  intros Hm s r s' H Hadmin. apply ok_or_inv in H as [(a & s1 & He & H) | (r0 & H)].
  - destruct a. pose proof (ensureNotLastAdmin_reads id _ _ _ He) as Hs.
    apply ensureNotLastAdmin_ok in He as (u & Hu & Hother).
    unfold query, wrapped, bind, try, ret in H. destruct (m s1) as [x s1'] eqn:E. simplify_eq.
    specialize (Hm _ _ _ E). rewrite <- Hs in Hm.
    destruct (is_admin u) eqn:Hau; [by apply (other_admin_keeps id (store s)); auto|].
    destruct Hadmin as (i & v & Hv & Hav). exists i, v. rewrite Hm; [done|]. congruence.
  - by apply (ensureNotLastAdmin_reads id) in H as <-.
Qed.

Lemma UpdateRole_frame id role s r s' :
  q_UpdateUserRole varchar id role s = (r, s') -> forall id', id' <> id -> store s' !! id' = store s !! id'.
Proof.
  intros H id' Hne. destruct r as [a|e]; [|by apply exec_err in H as (-> & _)].
  apply exec_ok in H as (H & _). repeat case_match; try done; apply Ok_inj, pair_eq in H as [_ <-];
    by rewrite ?lookup_insert_ne.
Qed.

Lemma DeleteUser_frame id s r s' :
  q_DeleteUser id s = (r, s') -> forall id', id' <> id -> store s' !! id' = store s !! id'.
Proof.
  intros H id' Hne. destruct r as [a|e]; [|by apply exec_err in H as (-> & _)].
  apply exec_ok in H as (H & _). apply Ok_inj, pair_eq in H as [_ H]. rewrite <- H. by rewrite lookup_delete_ne.
Qed.

Lemma keeps_all_rows {A} (m : prog users A) :
  (forall id, within (keeps_row id) m) -> within keeps_admin m.
Proof. intros H s r s' E (id & Ha). exists id. by apply (H id _ _ _ E). Qed.

Lemma CreateUser_keeps_row id next name h r : within (keeps_row id) (q_CreateUser varchar next name h r).
Proof.
  apply within_exec; [apply _|]. intros now d a d' H (u & Hu & Ha). peel_all H.
  apply Ok_inj, pair_eq in H as [_ <-]. exists u. split; [|done].
  rewrite lookup_insert_ne; [done|]. intros ->. apply bool_decide_eq_false in Hg2. apply Hg2. by exists u.
Qed.

(** Rewriting the row of one user. *)
Lemma keeps_row_insert id id' d u v :
  d !! id' = Some u -> (id' = id -> is_admin u = true -> is_admin v = true) ->
  keeps_row id d (<[id' := v]> d).
Proof.
  intros Hu Hv (w & Hw & Ha). destruct (decide (id = id')) as [->|Hne].
  - exists v. rewrite lookup_insert_eq. split; [done|]. apply Hv; [done|]. congruence.
  - exists w. by rewrite lookup_insert_ne.
Qed.

Lemma UpdatePassword_keeps_row id id' h : within (keeps_row id) (q_UpdateUserPassword varchar id' h).
Proof.
  apply within_exec; [apply _|]. intros now d a d' H.
  repeat case_match; try done; apply Ok_inj, pair_eq in H as [_ <-]; [|reflexivity].
  by eapply keeps_row_insert.
Qed.

Lemma UpdateRole_keeps_row id id' role :
  id' <> id \/ role = "admin" -> within (keeps_row id) (q_UpdateUserRole varchar id' role).
Proof.
  intros Hor. apply within_exec; [apply _|]. intros now d a d' H.
  repeat case_match; try done; apply Ok_inj, pair_eq in H as [_ <-]; [|reflexivity].
  eapply keeps_row_insert; [done|]. intros -> _. by destruct Hor as [?| ->].
Qed.

Lemma DeleteUser_keeps_row id id' : id' <> id -> within (keeps_row id) (q_DeleteUser id').
Proof.
  intros Hne. apply within_exec; [apply _|]. intros now d a d' H (u & Hu & Ha).
  apply Ok_inj, pair_eq in H as [_ <-]. exists u. by rewrite lookup_delete_ne.
Qed.

Lemma SetRole_keeps id role : within keeps_admin (SetRole varchar id role).
Proof.
  unfold SetRole. case_match; [apply (within_ret _)|]. destruct (String.eqb_spec role "admin") as [->|Hne]; simpl.
  - apply (within_wrapped _), keeps_all_rows. intros id'. apply UpdateRole_keeps_row. by right.
  - apply keeps_after_ensure. apply UpdateRole_frame.
Qed.

Lemma apply_call_keeps now c s :
  has_admin (store (st_db s)) -> has_admin (store (st_db (apply_call varchar Generate Compare now c s))).
Proof.
  assert (forall A (m : prog users (result auth_error A)), within keeps_admin m ->
    has_admin (store (st_db s)) -> has_admin (store (st_db (on_db m s).2))) as Hdb.
  { intros A m Hm. unfold on_db. destruct (m (st_db s)) as [r d] eqn:E. by apply Hm in E. }
  destruct c; simpl.
  - apply Hdb, CreateUser_within; [apply _|]. intros. apply keeps_all_rows. intros. apply CreateUser_keeps_row.
  - apply Hdb, SetPassword_within; [apply _|]. intros. apply keeps_all_rows. intros. apply UpdatePassword_keeps_row.
  - apply Hdb, SetRole_keeps.
  - apply Hdb, keeps_after_ensure, DeleteUser_frame.
  - apply Hdb, ChangePassword_within; [apply _|]. intros. apply keeps_all_rows. intros. apply UpdatePassword_keeps_row.
  - apply Hdb. unfold SeedDefaultAdmin. within_steps; [apply (reads_refl _), CountUsers_reads|]. apply keeps_all_rows. intros. apply CreateUser_keeps_row.
  - apply Hdb, (reads_refl _), ListUsers_reads.
  - unfold Login. destruct (GetUserByUsername username (st_db s)) as [r d] eqn:E.
    apply GetUserByUsername_reads in E as ->. repeat case_match; done.
  - unfold Resolve. repeat case_match; done.
  - done.
Qed.

(** C13. As long as administrators act one at a time, the installation never
    runs out of them: from a table with an administrator in it, any history of
    logins, user creation, password and role changes, deletions and startup
    seeding leaves one, whatever statements fail on the way. *)
Theorem admin_kept (s : Store) (es : list event) :
  has_admin (store (st_db s)) -> has_admin (store (st_db (history varchar Generate Compare s es))).
Proof. revert s. induction es as [|e es IH]; intros s H; [done|]. by apply IH, apply_call_keeps. Qed.

(** What the two password operations can do to the table. *)
Lemma SetPassword_effect salt id pw s r s' :
  SetPassword varchar Generate salt id pw s = (r, s') ->
  store s' = store s \/
  exists row h, store s !! id = Some row /\ Generate salt pw = Ok h /\ pw <> "" /\
    store s' = <[id := mkUserRow (r_Username row) h (r_Role row) (r_CreatedAt row)]> (store s).
Proof.
  unfold SetPassword. destruct (String.eqb_spec pw "") as [->|Hne]; [intros [= _ <-]; by left|].
  intros [(h & s1 & Hh & Hq)|(r0 & H)]%ok_or_inv; [|injection H as _ <-; by left].
  unfold ret, hash_password in Hh. apply pair_eq in Hh as [Hh <-]. apply Ok_inj in Hh.
  destruct (Generate salt pw) as [h'|] eqn:Hg; [|done]. injection Hh as ->.
  unfold query, wrapped, bind, try, ret in Hq. destruct (q_UpdateUserPassword varchar id h s) as [x s1] eqn:E.
  simplify_eq. destruct x as [[]|e]; [|apply exec_err in E as (-> & _); by left].
  apply exec_ok in E as (E & _). destruct (store s !! id) as [row|] eqn:Hrow.
  - destruct (varchar 255 h); [|done]. apply Ok_inj, pair_eq in E as [_ <-]. right. by exists row, h.
  - apply Ok_inj, pair_eq in E as [_ <-]. by left.
Qed.

Lemma ChangePassword_effect salt id old pw s r s' :
  ChangePassword varchar Generate Compare salt id old pw s = (r, s') ->
  store s' = store s \/
  exists row h, store s !! id = Some row /\ Compare (r_PasswordHash row) old = true /\
    Generate salt pw = Ok h /\ pw <> "" /\
    store s' = <[id := mkUserRow (r_Username row) h (r_Role row) (r_CreatedAt row)]> (store s).
Proof.
  unfold ChangePassword. intros H. unfold bind, try in H.
  destruct (GetUserByID id s) as [x s1] eqn:E. pose proof (GetUserByID_reads id _ _ _ E) as Hs.
  destruct x as [row|e]; [|injection H as _ <-; by left].
  apply exec_ok in E as (E & _). destruct (store s !! id) as [row'|] eqn:Hrow; [|done].
  apply Ok_inj, pair_eq in E as [-> _].
  destruct (Compare (r_PasswordHash row) old) eqn:Hc; simpl in H; [|injection H as _ <-; by left].
  apply SetPassword_effect in H as [->|(row2 & h & Hr & Hg & Hne & ->)]; [by left|right].
  rewrite <- Hs in *. exists row, h. rewrite Hrow in Hr. injection Hr as <-. done.
Qed.

(** *** Sessions *)

Lemma named_spec n kv : named n kv = true <-> r_Username kv.2 = n.
Proof. unfold named. apply String.eqb_eq. Qed.

Lemma GetUserByUsername_ok n s id u s' :
  GetUserByUsername n s = (Ok (id, u), s') -> store s !! id = Some u /\ r_Username u = n.
Proof.
  intros H. apply exec_ok in H as (H & _).
  destruct (filter (fun kv => named n kv = true) (map_to_list (store s))) as [|kv l] eqn:E; [done|].
  assert (kv ∈ filter (fun kv => named n kv = true) (map_to_list (store s))) as Hkv by (rewrite E; left).
  apply list_elem_of_filter in Hkv as [Hn Hkv]. apply Ok_inj, pair_eq in H as [-> _].
  apply elem_of_map_to_list in Hkv. by apply named_spec in Hn.
Qed.

(** Who a login lets in. *)
Lemma Login_ok now drawn n pw s tok u s' :
  Login Compare now drawn n pw s = (Ok (tok, u), s') ->
  newToken drawn = Ok tok /\
  sessions s' = <[tok := mkSess u (now + ttl)]> (sessions s) /\
  exists row, store (st_db s) !! u_ID u = Some row /\ r_Username row = n /\
    Compare (r_PasswordHash row) pw = true /\ u = mkUser (u_ID u) n (r_Role row).
Proof.
  unfold Login. destruct (GetUserByUsername n (st_db s)) as [[[id row]|e] d] eqn:E; [|done].
  destruct (Compare (r_PasswordHash row) pw) eqn:Hc; [|done]. simpl.
  destruct (newToken drawn) as [t|e]; [|done]. intros H. apply pair_eq in H as [H <-].
  apply Ok_inj, pair_eq in H as [<- <-]. apply GetUserByUsername_ok in E as [Hrow <-].
  split_and!; [done..|]. by exists row.
Qed.

Lemma Login_err now drawn n pw s e s' :
  Login Compare now drawn n pw s = (Err e, s') -> sessions s' = sessions s.
Proof.
  unfold Login. destruct (GetUserByUsername n (st_db s)) as [[[id row]|e'] d]; [|by intros [= _ <-]].
  destruct (Compare (r_PasswordHash row) pw); simpl; [|by intros [= _ <-]].
  destruct (newToken drawn); [done|]. by intros [= _ <-].
Qed.

(** What one event can do to the session of a token. *)
Lemma run_event_session s e tok se :
  sessions (run_event varchar Generate Compare s e) !! tok = Some se ->
  (exists drawn n pw, ev_call e = CLogin drawn n pw /\ expiresAt se = ev_now e + ttl /\
     (Login Compare (ev_now e) drawn n pw (at_event e s)).1 = Ok (tok, s_user se)) \/
  (sessions s !! tok = Some se /\ ev_call e <> CLogout tok).
Proof.
  unfold run_event. intros H.
  assert (forall A (m : prog users (result auth_error A)),
    sessions (on_db m (at_event e s)).2 !! tok = Some se -> sessions s !! tok = Some se) as Hdb.
  { intros A m. unfold on_db. by destruct (m _). }
  destruct (ev_call e) as [| | | | | | |drawn n pw|tok'|tok'] eqn:Ec; simpl in H;
    try (right; split; [by eapply Hdb|done]).
  - destruct (Login Compare (ev_now e) drawn n pw (at_event e s)) as [[[t u]|x] s'] eqn:E.
    + apply Login_ok in E as Hl. destruct Hl as (_ & Hs & _). simpl in H. rewrite Hs in H.
      apply lookup_insert_Some in H as [[<- <-]|[_ H]]; [left|by right].
      exists drawn, n, pw. by rewrite E.
    + right. split; [|done]. apply Login_err in E. simpl in H. by rewrite E in H.
  - right. split; [|done]. unfold Resolve in H. repeat case_match; try done. simpl in H.
    by apply lookup_delete_Some in H as [_ H].
  - right. apply lookup_delete_Some in H as [Hne H]. split; [done|]. congruence.
Qed.

Lemma history_snoc s es e :
  history varchar Generate Compare s (es ++ [e]) =
  run_event varchar Generate Compare (history varchar Generate Compare s es) e.
Proof. unfold history. by rewrite foldl_app. Qed.

Lemma session_from s0 es tok se :
  sessions s0 = ∅ ->
  sessions (history varchar Generate Compare s0 es) !! tok = Some se ->
  exists es1 e es2 drawn n pw,
    es = es1 ++ e :: es2 /\ ev_call e = CLogin drawn n pw /\ expiresAt se = ev_now e + ttl /\
    (Login Compare (ev_now e) drawn n pw (at_event e (history varchar Generate Compare s0 es1))).1 =
      Ok (tok, s_user se) /\
    Forall (fun e' => ev_call e' <> CLogout tok) es2.
Proof.
  intros H0. induction es as [|e es IH] using rev_ind; [simpl; by rewrite H0, lookup_empty|].
  rewrite history_snoc. intros [(drawn & n & pw & Hc & Hexp & Hl)|[H Hc]]%run_event_session.
  - by exists es, e, [], drawn, n, pw.
  - apply IH in H as (es1 & e1 & es2 & drawn & n & pw & -> & ? & ? & ? & Hes2).
    exists es1, e1, (es2 ++ [e]), drawn, n, pw. rewrite <- app_assoc. split_and!; try done.
    apply list.Forall_app. split; [done|]. by constructor.
Qed.

Lemma Resolve_some now tok s u s' :
  Resolve now tok s = (Some u, s') ->
  exists se, sessions s !! tok = Some se /\ s_user se = u /\ now <= expiresAt se.
Proof.
  unfold Resolve. case_match; [done|]. destruct (sessions s !! tok) as [se|]; [|done].
  case_match; [done|]. intros [= <- _]. exists se. zbool. auto.
Qed.

(** C15. A token resolves to a user only if it was handed out, at most 24 hours
    before, by a login under the name the user had then, with a password
    that matched the hash stored then, and has not been logged out since. *)
Theorem session_origin s0 es now tok u s' :
  sessions s0 = ∅ ->
  Resolve now tok (history varchar Generate Compare s0 es) = (Some u, s') ->
  exists es1 e es2 drawn n pw row,
    es = es1 ++ e :: es2 /\ ev_call e = CLogin drawn n pw /\
    (let s := history varchar Generate Compare s0 es1 in
     newToken drawn = Ok tok /\
     store (st_db s) !! u_ID u = Some row /\ r_Username row = n /\
     Compare (r_PasswordHash row) pw = true /\ u = mkUser (u_ID u) n (r_Role row)) /\
    now <= ev_now e + ttl /\
    Forall (fun e' => ev_call e' <> CLogout tok) es2.
Proof.
  intros H0 (se & Hse & <- & Hnow)%Resolve_some.
  destruct (session_from _ _ _ _ H0 Hse) as (es1 & e & es2 & drawn & n & pw & Hes & Hc & Hexp & Hl & Hes2).
  destruct (Login _ _ _ _ _ _) as [r s1] eqn:E in Hl. simpl in Hl. subst r.
  apply Login_ok in E as (Htok & _ & row & Hrow & Hn & Hpw & Hu).
  exists es1, e, es2, drawn, n, pw, row. split_and!; try done. lia.
Qed.

(** And it does resolve, from the login on and for 24 hours, unless the token
    is logged out or drawn again. *)
Lemma run_event_keeps_session s e tok se :
  sessions s !! tok = Some se ->
  ev_now e <= expiresAt se ->
  ev_call e <> CLogout tok ->
  (forall drawn n pw, ev_call e = CLogin drawn n pw -> newToken drawn <> Ok tok) ->
  sessions (run_event varchar Generate Compare s e) !! tok = Some se.
Proof.
  intros Hs Hnow Hout Hin. unfold run_event.
  assert (forall A (m : prog users (result auth_error A)),
    sessions (on_db m (at_event e s)).2 !! tok = Some se) as Hdb.
  { intros A m. unfold on_db. by destruct (m _). }
  destruct (ev_call e) as [| | | | | | |drawn n pw|tok'|tok'] eqn:Ec; simpl; try apply Hdb.
  - destruct (Login Compare (ev_now e) drawn n pw (at_event e s)) as [[[t u]|x] s'] eqn:E.
    + apply Login_ok in E as (Ht & Hs' & _). simpl. rewrite Hs', lookup_insert_ne; [done|].
      intros ->. by apply (Hin drawn n pw).
    + apply Login_err in E. simpl. by rewrite E.
  - unfold Resolve. case_match; [done|]. destruct (sessions (at_event e s) !! tok') as [se'|] eqn:E; [|done].
    case_match; [|done]. simpl. rewrite lookup_delete_ne; [done|]. intros ->.
    simpl in E. rewrite Hs in E. injection E as <-. zbool. lia.
  - rewrite lookup_delete_ne; [done|]. congruence.
Qed.

Theorem session_lives s now b n pw tok u s1 es t :
  Login Compare now (Some b) n pw s = (Ok (tok, u), s1) -> b <> [] ->
  Forall (fun e => ev_now e <= now + ttl /\ ev_call e <> CLogout tok /\
    forall drawn n pw, ev_call e = CLogin drawn n pw -> newToken drawn <> Ok tok) es ->
  t <= now + ttl ->
  (Resolve t tok (history varchar Generate Compare s1 es)).1 = Some u.
Proof.
  intros Hl Hb Hes Ht.
  assert (sessions (history varchar Generate Compare s1 es) !! tok = Some (mkSess u (now + ttl))) as H.
  { induction es as [|e es IH] using rev_ind.
    - unfold history. simpl. apply Login_ok in Hl as (_ & -> & _). apply lookup_insert_eq.
    - apply list.Forall_app in Hes as [Hes He]. rewrite history_snoc.
      apply list.Forall_singleton in He as (? & ? & ?). apply run_event_keeps_session; auto. }
  apply Login_ok in Hl as ([= <-] & _). unfold Resolve.
  destruct (String.eqb_spec (hex_encode b) "") as [E|_]; [by apply hex_encode_ne in E|].
  rewrite H. simpl. case_match; [zbool; lia|done].
Qed.
End lemmas.

(** ** Names stay unique, and a new password lets its user in *)

Definition unique_names (d : users) : Prop := forall i j u v,
  d !! i = Some u -> d !! j = Some v -> r_Username u = r_Username v -> i = j.

Definition keeps_unique (d d' : users) : Prop := unique_names d -> unique_names d'.

#[export] Instance keeps_unique_preorder : PreOrder keeps_unique.
Proof. split; [intros d H; exact H|]. intros a b c Hab Hbc Ha. by apply Hbc, Hab. Qed.

Section names.
Context (varchar : Z -> string -> bool).
Context (Generate : string -> string -> result string string).
Context (Compare : string -> string -> bool).

(** Rewriting a row under its own name. *)
Lemma unique_rename d id u v :
  d !! id = Some u -> r_Username v = r_Username u -> unique_names d -> unique_names (<[id := v]> d).
Proof.
  intros Hu Hv Hd i j a b Hi Hj Hab. apply lookup_insert_Some in Hi as [[<- <-]|[Hni Hi]];
    apply lookup_insert_Some in Hj as [[<- <-]|[Hnj Hj]]; [done| | |by eapply Hd].
  - apply (Hd id j u b Hu Hj). congruence.
  - apply (Hd i id a u Hi Hu). congruence.
Qed.

Lemma CreateUser_unique next name h r : within keeps_unique (q_CreateUser varchar next name h r).
Proof.
  apply within_exec; [apply _|]. intros now d a d' H Hd. peel_all H.
  apply Ok_inj, pair_eq in H as [_ <-].
  assert (forall i u, d !! i = Some u -> r_Username u <> name) as Hfree.
  { intros i u Hi <-. apply not_true_iff_false in Hg1. apply Hg1, existsb_elem.
    exists (i, u). split; [by apply elem_of_map_to_list|by apply named_spec]. }
  intros i j u v Hi Hj E. apply lookup_insert_Some in Hi as [[<- <-]|[_ Hi]];
    apply lookup_insert_Some in Hj as [[<- <-]|[_ Hj]]; [done| | |by eapply Hd].
  - by apply Hfree in Hj.
  - by apply Hfree in Hi.
Qed.

Lemma UpdatePassword_unique id h : within keeps_unique (q_UpdateUserPassword varchar id h).
Proof.
  apply within_exec; [apply _|]. intros now d a d' H Hd.
  repeat case_match; try done; apply Ok_inj, pair_eq in H as [_ <-]; [|done]. by eapply unique_rename.
Qed.

Lemma UpdateRole_unique id r : within keeps_unique (q_UpdateUserRole varchar id r).
Proof.
  apply within_exec; [apply _|]. intros now d a d' H Hd.
  repeat case_match; try done; apply Ok_inj, pair_eq in H as [_ <-]; [|done]. by eapply unique_rename.
Qed.

Lemma DeleteUser_unique id : within keeps_unique (q_DeleteUser id).
Proof.
  apply within_exec; [apply _|]. intros now d a d' H Hd. apply Ok_inj, pair_eq in H as [_ <-].
  intros i j u v [_ Hi]%lookup_delete_Some [_ Hj]%lookup_delete_Some. by eapply Hd.
Qed.

Lemma on_db_within (R : users -> users -> Prop) {A} (m : prog users (result auth_error A)) s :
  within R m -> R (store (st_db s)) (store (st_db (on_db m s).2)).
Proof. intros Hm. unfold on_db. destruct (m (st_db s)) as [r d] eqn:E. by apply Hm in E. Qed.

Lemma apply_call_unique now c s :
  unique_names (store (st_db s)) ->
  unique_names (store (st_db (apply_call varchar Generate Compare now c s))).
Proof.
  assert (forall id, within keeps_unique (ensureNotLastAdmin id)) as Hlast.
  { intros id. apply (reads_refl _), ensureNotLastAdmin_reads. }
  destruct c; simpl; try apply (on_db_within keeps_unique).
  - apply CreateUser_within; [apply _|]. intros. apply CreateUser_unique.
  - apply SetPassword_within; [apply _|]. intros. apply UpdatePassword_unique.
  - unfold SetRole. within_steps; auto using UpdateRole_unique.
  - unfold DeleteUser. within_steps; auto using DeleteUser_unique.
  - apply ChangePassword_within; [apply _|]. intros. apply UpdatePassword_unique.
  - unfold SeedDefaultAdmin. within_steps; [apply (reads_refl _), CountUsers_reads|apply CreateUser_unique].
  - apply (reads_refl _), ListUsers_reads.
  - unfold Login. destruct (GetUserByUsername username (st_db s)) as [r d] eqn:E.
    apply GetUserByUsername_reads in E as ->. repeat case_match; done.
  - unfold Resolve. repeat case_match; done.
  - done.
Qed.

Theorem names_stay_unique s es :
  unique_names (store (st_db s)) ->
  unique_names (store (st_db (history varchar Generate Compare s es))).
Proof. revert s. induction es as [|e es IH]; intros s H; [done|]. by apply IH, apply_call_unique. Qed.

Lemma GetUserByUsername_run s id u :
  store s !! id = Some u -> unique_names (store s) -> faults s = [] -> ex s = Pool ->
  (GetUserByUsername (r_Username u) s).1 = Ok (id, u).
Proof.
  intros Hu Hd Hf Hx. unfold GetUserByUsername, exec. rewrite Hf, Hx.
  destruct (filter (fun kv => named (r_Username u) kv = true) (map_to_list (store s))) as [|[i v] l] eqn:E.
  - exfalso. apply (not_elem_of_nil (id, u)). rewrite <- E. apply list_elem_of_filter.
    split; [by apply named_spec|by apply elem_of_map_to_list].
  - assert ((i, v) ∈ filter (fun kv => named (r_Username u) kv = true) (map_to_list (store s))) as H
      by (rewrite E; left).
    apply list_elem_of_filter in H as [Hn%named_spec Hi%elem_of_map_to_list]. simpl in Hn.
    assert (i = id) as -> by (by eapply Hd). rewrite Hu in Hi. by injection Hi as ->.
Qed.

(** bcrypt accepts a password against the hash it made of it. *)
Context (Compare_Generate : forall salt pw h, Generate salt pw = Ok h -> Compare h pw = true).

(** A password set is the password that logs in: after a successful
    [SetPassword] the user's name and the new password open a session with the
    user's id, name and role. *)
Lemma password_roundtrip salt id pw s d now b ss row :
  store s !! id = Some row -> unique_names (store s) -> ex s = Pool ->
  SetPassword varchar Generate salt id pw s = (Ok (Ok ()), d) -> faults d = [] ->
  (Login Compare now (Some b) (r_Username row) pw (mkStore ss d)).1 =
    Ok (hex_encode b, mkUser id (r_Username row) (r_Role row)).
Proof.
  intros Hrow Hd Hx Hset Hf. unfold SetPassword in Hset. case_match; [done|].
  apply ok_or_ok in Hset as (h & s1 & Hh & Hq). unfold ret in Hh. apply pair_eq in Hh as [Hh <-].
  unfold query in Hq. rewrite wrapped_ok in Hq. pose proof (UpdatePassword_unique id h _ _ _ Hq Hd) as Hd'.
  apply exec_ok in Hq as (Hq & Hx' & _). rewrite Hrow in Hq. destruct (varchar 255 h); [|done].
  apply Ok_inj, pair_eq in Hq as [_ Hq].
  assert (store d !! id = Some (mkUserRow (r_Username row) h (r_Role row) (r_CreatedAt row))) as Hr
    by (rewrite <- Hq; apply lookup_insert_eq).
  pose proof (GetUserByUsername_run d id _ Hr Hd' Hf ltac:(congruence)) as Hget.
  unfold Login. simpl in *. destruct (GetUserByUsername (r_Username row) d) as [x d']. simpl in Hget.
  subst x. simpl. unfold hash_password in Hh. destruct (Generate salt pw) as [h'|e] eqn:Hg; [|done].
  apply Ok_inj in Hh. injection Hh as ->. by rewrite (Compare_Generate _ _ _ Hg).
Qed.
End names.

(** ** Concrete tables *)

Definition ex_varchar (n : Z) (s : string) : bool := Z.of_nat (String.length s) <=? n.
Definition ex_Generate (salt pw : string) : result string string :=
  if (72 <? String.length pw)%nat then Err "bcrypt: password length exceeds 72 bytes" else Ok ("s." +:+ pw).
Definition ex_Compare (hash pw : string) : bool := String.eqb hash ("s." +:+ pw).

Definition ex_users : users :=
  {[ 1 := mkUserRow "ada" "s.pw1" "admin" None; 2 := mkUserRow "bob" "s.pw2" "admin" None;
     3 := mkUserRow "eve" "s.pw3" "user" None ]}.
Definition ex_store : Store := mkStore ∅ (mkSession ex_users Pool [] 0).

Lemma ex_Compare_Generate salt pw h : ex_Generate salt pw = Ok h -> ex_Compare h pw = true.
Proof. unfold ex_Generate. case_match; [done|]. intros [= <-]. apply String.eqb_refl. Qed.

Lemma ex_unique : unique_names ex_users.
Proof.
  intros i j u v Hi Hj E. unfold ex_users in *.
  repeat match goal with
  | H : <[_ := _]> _ !! _ = Some _ |- _ => apply lookup_insert_Some in H as [[<- <-]|[_ H]]
  | H : {[_ := _]} !! _ = Some _ |- _ => apply lookup_singleton_Some in H as [<- <-]
  end; done.
Qed.

Definition ex_history : list event :=
  [mkEvent 10 [] (CLogin (Some [1; 2]) "ada" "pw1");
   mkEvent 20 [] (CSetRole 2 "user");
   mkEvent 30 [] (CDelete 1);
   mkEvent 40 [false; true] (CDelete 3);
   mkEvent 50 [] (CResolve "0102")].

(** The demotion goes through; the deletion of the last administrator left is
    refused. *)
Lemma admin_kept_witness :
  has_admin ex_users /\
  has_admin (store (st_db (history ex_varchar ex_Generate ex_Compare ex_store ex_history))).
Proof.
  assert (has_admin ex_users) as H by (exists 1; eexists; split; reflexivity).
  split; [exact H|]. apply (admin_kept ex_varchar ex_Generate ex_Compare ex_store ex_history). exact H.
Defined.

Lemma session_origin_witness :
  sessions ex_store = ∅ /\
  exists s' es1 e es2, Resolve 60 "0102" (history ex_varchar ex_Generate ex_Compare ex_store ex_history) =
    (Some (mkUser 1 "ada" "admin"), s') /\ ex_history = es1 ++ e :: es2 /\ 60 <= ev_now e + ttl.
Proof.
  split; [reflexivity|].
  assert (exists s', Resolve 60 "0102" (history ex_varchar ex_Generate ex_Compare ex_store ex_history) =
    (Some (mkUser 1 "ada" "admin"), s')) as [s' H] by (eexists; vm_compute; reflexivity).
  destruct (session_origin ex_varchar ex_Generate ex_Compare ex_store ex_history 60 _ _ _ eq_refl H)
    as (es1 & e & es2 & _ & _ & _ & _ & Hes & _ & _ & Hnow & _).
  exists s', es1, e, es2. auto.
Defined.

(** ** What the design leaves open *)

(** The check and the write are two statements: two administrators who delete
    each other at the same time both pass the check. *)
Example two_deletions_leave_no_admin :
  let d := st_db ex_store in
  let '(r1, d) := ensureNotLastAdmin 1 d in
  let '(r2, d) := ensureNotLastAdmin 2 d in
  let '(_, d) := q_DeleteUser 1 d in
  let '(_, d) := q_DeleteUser 2 d in
  (r1, r2, (map_to_list (filter (fun kv => is_admin kv.2 = true) (store d)))) =
  (Ok (Ok ()), Ok (Ok ()), []).
Proof. reflexivity. Qed.

(** Seeding does not bring an administrator back as long as any user is left. *)
Example seeding_needs_an_empty_table :
  (SeedDefaultAdmin ex_varchar ex_Generate 9 "" "admin" "admin123"
     (mkSession {[ 3 := mkUserRow "eve" "s.pw3" "user" None ]} Pool [] 0)).1 = Ok (Ok false).
Proof. reflexivity. Qed.

(** A session holds the user as it was at login: a user deleted since then is
    still resolved, as an administrator. *)
Example deleted_admin_stays_logged_in :
  let s := history ex_varchar ex_Generate ex_Compare ex_store
    [mkEvent 0 [] (CLogin (Some [1; 2]) "bob" "pw2"); mkEvent 1 [] (CDelete 2)] in
  (store (st_db s) !! 2, (Resolve (ttl - 1) "0102" s).1) = (None, Some (mkUser 2 "bob" "admin")).
Proof. vm_compute. reflexivity. Qed.
