(* ===== verification/Egress.v ===== *)
(** * core/hostsvc/egress.go: outbound HTTP on a plugin's behalf

    The allow-list, the per-plugin rate window, the addresses a dial may reach
    and [Fetch], which puts them in order. URL parsing, name resolution, the
    connections and the HTTP client are parameters. Times are nanoseconds. *)

From Stdlib Require Import Ascii.
From S2P Require Import Prelude GoStrings Wire.

Open Scope Z_scope.

(** ** Data *)

Record EgressRequest := mkEgressRequest {
  eq_Method : string; eq_URL : string; eq_Headers : Header; eq_Body : string; eq_Timeout : Z
}.

Record EgressResponse := mkEgressResponse {
  es_StatusCode : Z; es_Headers : Header; es_Body : string
}.

(** What [url.Parse] gives: the scheme, the host with its port, and without. *)
Record URL := mkURL { u_Scheme : string; u_Host : string; u_Hostname : string }.

Inductive egress_error :=
| ErrEgressNotAllowed | ErrEgressRateLimited | ErrEgressBadRequest
| BadHTTPRequest | TransportError (e : string) | BodyError.

Record rateWindow := mkRateWindow { windowStart : Z; rw_count : Z }.

Record HTTPEgress := mkHTTPEgress {
  AllowFor : string -> list string; MaxResponseBytes : Z; DefaultTimeout : Z; RatePerMinute : Z
}.

Definition Minute : Z := 60 * 10 ^ 9.
Definition defaultEgressTimeout : Z := 15 * 10 ^ 9.
Definition defaultMaxResponse : Z := 8388608.
Definition defaultRatePerMinute : Z := 120.

Definition NewHTTPEgress (allowFor : string -> list string) : HTTPEgress :=
  mkHTTPEgress allowFor defaultMaxResponse defaultEgressTimeout defaultRatePerMinute.

(** ** The allow-list *)

Definition normalize_host (host : string) : string := to_lower (trim_suffix host ".").
Definition normalize_pattern (p : string) : string := to_lower (trim_space p).

Definition pattern_allows (host p : string) : bool :=
  if String.eqb p "" then false
  else if String.eqb p host then true
  else match cut_prefix "*." p with
       | Some suffix => has_suffix host ("." +:+ suffix)
       | None => false
       end.

Definition hostAllowed (host : string) (patterns : list string) : bool :=
  let host := normalize_host host in
  existsb (fun p => pattern_allows host (normalize_pattern p)) patterns.

Section target.
Context (url_Parse : string -> option URL).

Definition parseTarget (raw : string) : result egress_error URL :=
  reject? String.eqb raw "" with ErrEgressBadRequest ;;
  match url_Parse raw with
  | None => Err ErrEgressBadRequest
  | Some u =>
      reject? negb (String.eqb (u_Scheme u) "http" || String.eqb (u_Scheme u) "https") with ErrEgressBadRequest ;;
      reject? String.eqb (u_Host u) "" with ErrEgressBadRequest ;;
      Ok u
  end.
End target.

(** ** The rate window *)

Definition timeout (e : HTTPEgress) : Z :=
  if 0 <? DefaultTimeout e then DefaultTimeout e else defaultEgressTimeout.

Definition rateLimit (e : HTTPEgress) : Z :=
  if 0 <? RatePerMinute e then RatePerMinute e else defaultRatePerMinute.

Notation counts := (gmap string rateWindow).

Definition allowRate (e : HTTPEgress) (now : Z) (pluginKey : string) (c : counts) : bool * counts :=
  match c !! pluginKey with
  | Some w =>
      if Minute <=? now - windowStart w then (true, <[pluginKey := mkRateWindow now 1]> c)
      else if rateLimit e <=? rw_count w then (false, c)
      else (true, <[pluginKey := mkRateWindow (windowStart w) (int64 (rw_count w + 1))]> c)
  | None => (true, <[pluginKey := mkRateWindow now 1]> c)
  end.

(** ** Addresses *)

(** [net.IP]: four or sixteen bytes. *)
Notation IP := (list Z).

Definition To4 (ip : IP) : option (Z * Z * Z * Z) :=
  match ip with
  | [a; b; c; d] => Some (a, b, c, d)
  | [0; 0; 0; 0; 0; 0; 0; 0; 0; 0; 255; 255; a; b; c; d] => Some (a, b, c, d)
  | _ => None
  end.

(** The first two bytes of a sixteen-byte address. *)
Definition head16 (ip : IP) : option (Z * Z) :=
  match ip with
  | x :: y :: _ => if Nat.eqb (length ip) 16 then Some (x, y) else None
  | _ => None
  end.

Definition IsLoopback (ip : IP) : bool :=
  match To4 ip with
  | Some (a, _, _, _) => a =? 127
  | None => bool_decide (ip = [0; 0; 0; 0; 0; 0; 0; 0; 0; 0; 0; 0; 0; 0; 0; 1])
  end.

Definition IsPrivate (ip : IP) : bool :=
  match To4 ip with
  | Some (a, b, _, _) =>
      (a =? 10) || ((a =? 172) && (Z.land b 240 =? 16)) || ((a =? 192) && (b =? 168))
  | None => match head16 ip with Some (x, _) => Z.land x 254 =? 252 | None => false end
  end.

Definition IsLinkLocalUnicast (ip : IP) : bool :=
  match To4 ip with
  | Some (a, b, _, _) => (a =? 169) && (b =? 254)
  | None => match head16 ip with Some (x, y) => (x =? 254) && (Z.land y 192 =? 128) | None => false end
  end.

Definition IsLinkLocalMulticast (ip : IP) : bool :=
  match To4 ip with
  | Some (a, b, c, _) => (a =? 224) && (b =? 0) && (c =? 0)
  | None => match head16 ip with Some (x, y) => (x =? 255) && (Z.land y 15 =? 2) | None => false end
  end.

Definition IsUnspecified (ip : IP) : bool :=
  match To4 ip with
  | Some (a, b, c, d) => (a =? 0) && (b =? 0) && (c =? 0) && (d =? 0)
  | None => bool_decide (ip = replicate 16 0)
  end.

Definition IsMulticast (ip : IP) : bool :=
  match To4 ip with
  | Some (a, _, _, _) => Z.land a 240 =? 224
  | None => match head16 ip with Some (x, _) => x =? 255 | None => false end
  end.

Definition IsInterfaceLocalMulticast (ip : IP) : bool :=
  match head16 ip with Some (x, y) => (x =? 255) && (Z.land y 15 =? 1) | None => false end.

Definition blockedIP (ip : IP) : option string :=
  if IsLoopback ip then Some "loopback address"
  else if IsPrivate ip then Some "private address"
  else if IsLinkLocalUnicast ip || IsLinkLocalMulticast ip then Some "link-local address"
  else if IsUnspecified ip then Some "unspecified address"
  else if IsMulticast ip then Some "multicast address"
  else if IsInterfaceLocalMulticast ip then Some "interface-local address"
  else None.

(** Why a dial failed: refused by Core, or by the network. *)
Inductive dial_error := DialBlocked (ip : IP) | DialNoAddress | DialFailed (e : string) | DialResolve (e : string).

Section dialing.
(** [net.SplitHostPort], the resolver, and one connection attempt. *)
Context {conn : Type} (SplitHostPort : string -> result string (string * string))
        (LookupIPAddr : string -> result string (list IP))
        (connect : IP -> string -> result string conn).

Fixpoint dial_loop (port : string) (ips : list IP) (lastErr : option dial_error) : result dial_error (IP * conn) :=
  match ips with
  | [] => Err (default DialNoAddress lastErr)
  | ip :: ips =>
      match blockedIP ip with
      | Some _ => dial_loop port ips (Some (DialBlocked ip))
      | None =>
          match connect ip port with
          | Ok c => Ok (ip, c)
          | Err e => dial_loop port ips (Some (DialFailed e))
          end
      end
  end.

Definition guardedDial (addr : string) : result dial_error (IP * conn) :=
  match SplitHostPort addr with
  | Err e => Err (DialResolve e)
  | Ok (host, port) =>
      match LookupIPAddr host with
      | Err e => Err (DialResolve e)
      | Ok ips => dial_loop port ips None
      end
  end.
End dialing.

(** ** Fetch *)

Definition isHopByHop (header : string) : bool :=
  existsb (String.eqb (to_lower header))
    ["connection"; "keep-alive"; "proxy-authenticate"; "proxy-authorization";
     "te"; "trailer"; "transfer-encoding"; "upgrade"; "host"].

(** The request handed to the HTTP client, and what comes back: a body that may
    break off with an error after its last byte. *)
Record OutRequest := mkOutRequest {
  or_Method : string; or_URL : string; or_Header : Header; or_Body : string; or_Timeout : Z
}.
Record ClientResponse := mkClientResponse {
  cr_StatusCode : Z; cr_Header : Header; cr_Body : string; cr_fails : bool
}.

(** What a call does outside: the audit callback and the exchange itself. *)
Inductive effect :=
| Audit (pluginKey method url : string) (status : Z) (err : option egress_error)
| Exchange (r : OutRequest).

Definition forward_headers (h : Header) : Header :=
  foldl (fun out '(k, vs) => if isHopByHop k then out else foldl (fun out v => Header_Add out k v) out vs)
    ∅ (map_to_list h).

Definition read_limited (limit : Z) (r : ClientResponse) : result egress_error string :=
  if cr_fails r && (Z.of_nat (String.length (cr_Body r)) <? limit) then Err BodyError
  else Ok (String.substring 0 (Z.to_nat limit) (cr_Body r)).

Section fetching.
Context (url_Parse : string -> option URL) (valid_request : string -> string -> bool)
        (client_Do : OutRequest -> result string ClientResponse) (e : HTTPEgress).

Definition Fetch (now : Z) (pluginKey : string) (req : EgressRequest) (c : counts)
    : result egress_error EgressResponse * list effect * counts :=
  let audit m status err := Audit pluginKey m (eq_URL req) status err in
  match parseTarget url_Parse (eq_URL req) with
  | Err err => (Err err, [audit (eq_Method req) 0 (Some err)], c)
  | Ok target =>
      if negb (hostAllowed (u_Hostname target) (AllowFor e pluginKey)) then
        (Err ErrEgressNotAllowed, [audit (eq_Method req) 0 (Some ErrEgressNotAllowed)], c)
      else
        let '(ok, c) := allowRate e now pluginKey c in
        if negb ok then (Err ErrEgressRateLimited, [audit (eq_Method req) 0 (Some ErrEgressRateLimited)], c)
        else
          let tmo := if eq_Timeout req <=? 0 then timeout e else eq_Timeout req in
          let method := if String.eqb (eq_Method req) "" then "GET" else eq_Method req in
          if negb (valid_request method (eq_URL req)) then
            (Err BadHTTPRequest, [audit method 0 (Some BadHTTPRequest)], c)
          else
            let out := mkOutRequest method (eq_URL req) (forward_headers (eq_Headers req)) (eq_Body req) tmo in
            match client_Do out with
            | Err s => (Err (TransportError s), [Exchange out; audit method 0 (Some (TransportError s))], c)
            | Ok r =>
                let limit := if MaxResponseBytes e <=? 0 then defaultMaxResponse else MaxResponseBytes e in
                match read_limited limit r with
                | Err err => (Err err, [Exchange out; audit method (cr_StatusCode r) (Some err)], c)
                | Ok payload =>
                    (Ok (mkEgressResponse (cr_StatusCode r) (cr_Header r) payload),
                     [Exchange out; audit method (cr_StatusCode r) None], c)
                end
            end
  end.
End fetching.

(** ** Hosts by their labels *)

Definition labels (host : string) : list string := split_byte "."%char host.

Lemma under_domain host suffix :
  has_suffix host ("." +:+ suffix) = true <-> exists front, front <> [] /\ labels host = front ++ labels suffix.
Proof.
  rewrite has_suffix_iff. unfold labels. split.
  - intros [r ->]. exists (split_byte "."%char r). split; [apply split_byte_ne|]. apply split_byte_glue.
  - intros (front & Hne & H). exists (join "." front).
    rewrite <- (join_split "."%char host), H, join_app by (done || apply split_byte_ne).
    by rewrite join_split.
Qed.

(** The hosts a list of patterns grants: up to letter case, a trailing dot and
    space around a pattern, the host is one of the patterns, or a pattern is
    "*." and a domain of which the host is a proper subdomain, at any depth; a
    name that merely ends in the same letters is not. *)
Definition host_granted (host : string) (patterns : list string) : Prop :=
  exists p, p ∈ patterns /\ normalize_pattern p <> "" /\
    (normalize_pattern p = normalize_host host \/
     exists domain front, normalize_pattern p = "*." +:+ domain /\ front <> [] /\
       labels (normalize_host host) = front ++ labels domain).

Lemma hostAllowed_spec host patterns : hostAllowed host patterns = true <-> host_granted host patterns.
Proof.
  unfold hostAllowed, host_granted. rewrite existsb_elem. split; intros (p & Hp & H); exists p; (split; [done|]).
  - unfold pattern_allows in H. destruct (String.eqb_spec (normalize_pattern p) ""); [done|].
    split; [done|]. destruct (String.eqb_spec (normalize_pattern p) (normalize_host host)); [by left|right].
    destruct (cut_prefix _ _) as [d|] eqn:E; [|done]. apply cut_prefix_spec in E.
    apply under_domain in H as (front & Hf & Hl). by exists d, front.
  - destruct H as [Hne H]. unfold pattern_allows.
    destruct (String.eqb_spec (normalize_pattern p) ""); [done|].
    destruct (String.eqb_spec (normalize_pattern p) (normalize_host host)); [done|].
    destruct H as [|(d & front & Hd & Hf & Hl)]; [done|].
    rewrite (proj2 (cut_prefix_spec "*." _ d)) by done. apply under_domain. eauto.
Qed.

(** ** The rate bound *)

Section rate.
Context (e : HTTPEgress) (key : string).

(** How many of the calls [l], each a time and a plugin, are granted to [key]
    at times in [t, t + Minute). *)
Fixpoint granted (t : Z) (c : counts) (l : list (Z * string)) : Z :=
  match l with
  | [] => 0
  | (now, k) :: l =>
      let '(ok, c) := allowRate e now k c in
      (if decide (k = key /\ ok = true /\ t <= now < t + Minute) then 1 else 0) + granted t c l
  end.

Definition from (t : Z) (l : list (Z * string)) : Prop := Forall (fun nk => t <= nk.1) l.

Lemma granted_late t c l : from (t + Minute) l -> granted t c l = 0.
Proof using Type.
  intros H. revert c. induction H as [|[now k] l Hn H IH]; intros c; [done|]. cbn [granted].
  destruct (allowRate e now k c) as [ok c']. rewrite IH. cbn in Hn. rewrite decide_False by lia. done.
Qed.

Lemma rateLimit_pos : 0 < rateLimit e < 2 ^ 63 \/ 2 ^ 63 <= rateLimit e.
Proof using Type. unfold rateLimit. destruct (Z.ltb_spec 0 (RatePerMinute e)); unfold defaultRatePerMinute; lia. Qed.

(** One call of [key] itself. *)
Lemma allowRate_own now c ws n :
  rateLimit e < 2 ^ 63 -> c !! key = Some (mkRateWindow ws n) -> 1 <= n <= rateLimit e ->
  exists c', allowRate e now key c = ((Minute <=? now - ws) || (n <? rateLimit e), c') /\
    c' !! key = Some (if Minute <=? now - ws then mkRateWindow now 1
                      else if n <? rateLimit e then mkRateWindow ws (n + 1) else mkRateWindow ws n).
Proof using Type.
  intros Hl Hk Hn. unfold allowRate. rewrite Hk. cbn [windowStart rw_count].
  destruct (Minute <=? now - ws); [eexists; split; [done|apply lookup_insert_eq]|].
  destruct (Z.leb_spec (rateLimit e) n), (Z.ltb_spec n (rateLimit e)); try lia.
  - by eexists.
  - rewrite int64_id by (unfold in_int64; lia). eexists. split; [done|apply lookup_insert_eq].
Qed.

Lemma allowRate_first now c :
  c !! key = None -> exists c', allowRate e now key c = (true, c') /\ c' !! key = Some (mkRateWindow now 1).
Proof using Type. intros H. unfold allowRate. rewrite H. eexists. split; [done|apply lookup_insert_eq]. Qed.

Lemma allowRate_other now k c : k <> key -> (allowRate e now k c).2 !! key = c !! key.
Proof using Type.
  intros H. unfold allowRate. destruct (c !! k) as [w|]; [|by cbn; rewrite lookup_insert_ne].
  destruct (Minute <=? _); [by cbn; rewrite lookup_insert_ne|].
  destruct (rateLimit e <=? _); cbn; [done|by rewrite lookup_insert_ne].
Qed.

(** The most that can still be granted in [t, t + Minute), given the window. *)
Definition budget (t : Z) (past : bool) (w : option rateWindow) : Z :=
  match w with
  | Some w => if t <=? windowStart w then rateLimit e - rw_count w
              else if past then 2 * rateLimit e - rw_count w else 2 * rateLimit e
  | None => 2 * rateLimit e
  end.

Definition window_ok (last : Z) (w : option rateWindow) : Prop :=
  match w with Some w => 1 <= rw_count w <= rateLimit e /\ windowStart w <= last | None => True end.

(** [past] says that every remaining call is at [t] or later. *)
Lemma granted_budget t l : forall past c last,
  rateLimit e < 2 ^ 63 -> StronglySorted (fun a b => a.1 <= b.1) l -> from last l ->
  (past = true -> from t l) -> window_ok last (c !! key) ->
  granted t c l <= budget t past (c !! key).
Proof using Type.
  assert (Hpos : 0 < rateLimit e) by (destruct rateLimit_pos; lia).
  assert (HM : 0 < Minute) by (unfold Minute; lia).
  induction l as [|[now k] l IH]; intros past c last Hlim Hs Hlast Hpast Hw.
  { cbn. unfold budget. destruct (c !! key) as [w|]; cbn in *; repeat case_match; lia. }
  apply list.Forall_cons in Hlast as [Hn Hlast]. cbn [fst] in Hn.
  apply StronglySorted_inv in Hs as [Hs Hge]. cbn [fst] in Hge.
  assert (Hnext : forall c', window_ok now (c' !! key) ->
    granted t c' l <= budget t (bool_decide (t <= now)) (c' !! key)).
  { intros c' Hw'. apply (IH _ _ now); try done. intros Ht%bool_decide_eq_true.
    eapply list.Forall_impl; [exact Hge|]. intros; cbn in *; lia. }
  assert (Hp : past = true -> t <= now).
  { intros Hp. specialize (Hpast Hp). by apply list.Forall_cons in Hpast as [? _]. }
  cbn [granted]. destruct (decide (k = key)) as [->|Hk].
  2: { pose proof (allowRate_other now k c Hk) as Ho. destruct (allowRate e now k c) as [ok c']. cbn [snd] in Ho.
       rewrite decide_False by naive_solver. specialize (Hnext c'). rewrite Ho in Hnext.
       assert (window_ok now (c !! key)) as Hw'.
       { destruct (c !! key); cbn in *; [|done]. intuition lia. }
       specialize (Hnext Hw'). unfold budget in *. destruct (c !! key) as [w|]; [|lia]. cbn in *.
       destruct (t <=? windowStart w); [lia|]. destruct past, (bool_decide_reflect (t <= now)); lia. }
  destruct (c !! key) as [[ws n]|] eqn:Ec.
  2: { destruct (allowRate_first now c Ec) as (c' & -> & Hc'). specialize (Hnext c'). rewrite Hc' in Hnext.
       cbn in *. specialize (Hnext ltac:(lia)).
       destruct (Z.leb_spec t now), (decide _), (bool_decide_reflect (t <= now)); lia. }
  cbn in Hw. destruct (allowRate_own now c ws n Hlim Ec ltac:(lia)) as (c' & -> & Hc').
  specialize (Hnext c'). rewrite Hc' in Hnext. cbn [budget windowStart rw_count].
  destruct (Z.leb_spec Minute (now - ws)) as [HMw|HMw].
  - cbn in *. specialize (Hnext ltac:(lia)). destruct (Z.leb_spec t ws) as [Ht|Ht].
    + rewrite (granted_late t c' l) by (eapply list.Forall_impl; [exact Hge|]; intros; cbn in *; lia).
      rewrite decide_False by lia. lia.
    + destruct (Z.leb_spec t now), (decide _), (bool_decide_reflect (t <= now)), past; try lia.
      all: specialize (Hp eq_refl); lia.
  - destruct (Z.ltb_spec n (rateLimit e)); cbn in *; specialize (Hnext ltac:(lia));
      destruct (Z.leb_spec t ws), (bool_decide_reflect (t <= now)), past, (decide _); try lia.
    all: try specialize (Hp eq_refl); lia.
Qed.
End rate.

(** The rate window is a real bound. For any sequence of outbound calls in
    time order, by any plugins, no plugin is granted more than twice its limit
    in any interval of one minute, wherever that interval starts. *)
Lemma rate_bounded e key t l :
  rateLimit e < 2 ^ 63 -> StronglySorted (fun a b => a.1 <= b.1) l ->
  0 <= granted e key t ∅ l <= 2 * rateLimit e.
Proof.
  intros Hlim Hs. split.
  { clear Hs. generalize (∅ : gmap string rateWindow). induction l as [|[now k] l IH]; intros c; cbn [granted]; [lia|].
    destruct (allowRate e now k c) as [ok c']. specialize (IH c'). case_decide; lia. }
  destruct l as [|[now k] l]; [cbn; pose proof (rateLimit_pos e); lia|].
  pose proof (granted_budget e key t ((now, k) :: l) false ∅ now Hlim Hs) as H. rewrite lookup_empty in H.
  apply H; [|done|done]. apply StronglySorted_inv in Hs as [_ Hs]. constructor; [cbn; lia|exact Hs].
Qed.

(** Two calls either side of a window's edge: twice the limit is reached. *)

(** ** What a dial may reach *)

Definition byte (x : Z) : Prop := 0 <= x < 256.

Lemma byte_all (P : Z -> bool) : forallb P (seqZ 0 256) = true -> forall x, byte x -> P x = true.
Proof.
  intros H x Hx. rewrite forallb_forall in H. apply H. apply list_elem_of_In, elem_of_seqZ. unfold byte in Hx. lia.
Qed.

(** The bit tests as ranges of the byte. *)
Lemma private_172 b : byte b -> (Z.land b 240 =? 16) = ((16 <=? b) && (b <? 32)).
Proof.
  intros H. apply eqb_prop. revert b H. apply byte_all. vm_compute. reflexivity.
Qed.
Lemma multicast_224 a : byte a -> (Z.land a 240 =? 224) = ((224 <=? a) && (a <? 240)).
Proof.
  intros H. apply eqb_prop. revert a H. apply byte_all. vm_compute. reflexivity.
Qed.
Lemma unique_local a : byte a -> (Z.land a 254 =? 252) = ((252 <=? a) && (a <? 254)).
Proof.
  intros H. apply eqb_prop. revert a H. apply byte_all. vm_compute. reflexivity.
Qed.
Lemma link_local b : byte b -> (Z.land b 192 =? 128) = ((128 <=? b) && (b <? 192)).
Proof.
  intros H. apply eqb_prop. revert b H. apply byte_all. vm_compute. reflexivity.
Qed.

(** The addresses a plugin may be connected to: for IPv4, also in its IPv6
    form, everything but 127/8, 10/8, 172.16/12, 192.168/16, 169.254/16,
    224/4 and 0.0.0.0; for IPv6 everything but ::1, ::, fc00::/7, fe80::/10 and
    ff00::/8. *)
Definition reachable (ip : IP) : Prop :=
  match To4 ip with
  | Some (a, b, c, d) =>
      a <> 127 /\ a <> 10 /\ ~ (a = 172 /\ 16 <= b < 32) /\ ~ (a = 192 /\ b = 168) /\ ~ (a = 169 /\ b = 254) /\
      ~ 224 <= a < 240 /\ ~ (a = 0 /\ b = 0 /\ c = 0 /\ d = 0)
  | None =>
      ip <> [0; 0; 0; 0; 0; 0; 0; 0; 0; 0; 0; 0; 0; 0; 0; 1] /\ ip <> replicate 16 0 /\
      match head16 ip with
      | Some (x, y) => ~ 252 <= x < 254 /\ ~ (x = 254 /\ 128 <= y < 192) /\ x <> 255
      | None => True
      end
  end.

Lemma To4_bytes ip a b c d : Forall byte ip -> To4 ip = Some (a, b, c, d) -> byte a /\ byte b.
Proof.
  intros H E. unfold To4 in E.
  repeat (case_match; try discriminate); simplify_eq;
    repeat match goal with H : Forall byte (_ :: _) |- _ => apply list.Forall_cons in H as [? H] end; done.
Qed.

Lemma To4_long ip : is_Some (To4 ip) -> length ip = 16%nat -> head16 ip = Some (0, 0).
Proof.
  intros [p E] Hl. unfold To4 in E. repeat (case_match; try discriminate); simplify_eq/=; done.
Qed.

Lemma blockedIP_spec ip : Forall byte ip -> blockedIP ip = None <-> reachable ip.
Proof.
  intros Hb. unfold blockedIP, reachable, IsLoopback, IsPrivate, IsLinkLocalUnicast, IsLinkLocalMulticast,
    IsUnspecified, IsMulticast, IsInterfaceLocalMulticast.
  destruct (To4 ip) as [[[[a b] c] d]|] eqn:E.
  - destruct (To4_bytes ip a b c d Hb E) as [Ha Hb']. rewrite private_172, multicast_224 by done.
    assert (Hh : match head16 ip with Some (x, y) => (x =? 255) && (Z.land y 15 =? 1) | None => false end = false).
    { destruct (decide (length ip = 16%nat)) as [Hl|Hl]; [by rewrite (To4_long ip) by eauto|].
      unfold head16. destruct ip as [|x [|y ip]]; [done|done|]. by rewrite (proj2 (Nat.eqb_neq _ _) Hl). }
    rewrite Hh.
    destruct (Z.eqb_spec a 127), (Z.eqb_spec a 10), (Z.eqb_spec a 172), (Z.eqb_spec a 192), (Z.eqb_spec a 169),
      (Z.eqb_spec a 224), (Z.eqb_spec a 0); try lia; cbn [andb orb];
      repeat match goal with |- context [?x =? ?y] => destruct (Z.eqb_spec x y)
             | |- context [?x <=? ?y] => destruct (Z.leb_spec x y)
             | |- context [?x <? ?y] => destruct (Z.ltb_spec x y) end; cbn [andb orb];
      (split; [try done; intros _; lia|try done; intros ?; exfalso; lia]).
  - destruct (head16 ip) as [[x y]|] eqn:Eh.
    + assert (byte x /\ byte y) as [Hx Hy].
      { destruct ip as [|x' [|y' ip]]; [done|done|]. cbn [head16] in Eh. destruct (Nat.eqb _ _); [|done].
        injection Eh as -> ->. apply list.Forall_cons in Hb as [? Hb]. by apply list.Forall_cons in Hb as [? _]. }
      rewrite unique_local, link_local by done.
      destruct (bool_decide_reflect (ip = [0; 0; 0; 0; 0; 0; 0; 0; 0; 0; 0; 0; 0; 0; 0; 1])); [naive_solver|].
      destruct (bool_decide_reflect (ip = replicate 16 0)); cbn [andb orb].
      * split; [|naive_solver]. repeat case_match; try done.
      * destruct (Z.eqb_spec x 254), (Z.eqb_spec x 255); try lia; cbn [andb orb];
          repeat match goal with |- context [?x =? ?y] => destruct (Z.eqb_spec x y)
             | |- context [?x <=? ?y] => destruct (Z.leb_spec x y)
             | |- context [?x <? ?y] => destruct (Z.ltb_spec x y) end; cbn [andb orb];
          (split; [try done; intros _; split_and!; try done; lia|try done; intros (_ & _ & ? & ? & ?); exfalso; lia]).
    + destruct (bool_decide_reflect (ip = [0; 0; 0; 0; 0; 0; 0; 0; 0; 0; 0; 0; 0; 0; 0; 1])); [naive_solver|].
      destruct (bool_decide_reflect (ip = replicate 16 0)) as [->|]; cbn [andb orb]; naive_solver.
Qed.

(** The branch for interface-local multicast is never taken. *)
Lemma interface_local_unreachable ip : blockedIP ip <> Some "interface-local address".
Proof.
  unfold blockedIP. repeat (case_match; try done).
  destruct (To4 ip) as [[[[a b] c] d]|] eqn:E4; unfold IsMulticast, IsInterfaceLocalMulticast in *; rewrite E4 in *.
  - destruct (decide (length ip = 16%nat)) as [Hl|Hl]; [by rewrite (To4_long ip) in * by eauto|].
    unfold head16 in *. destruct ip as [|x [|y ip]]; [done|done|]. by rewrite (proj2 (Nat.eqb_neq _ _) Hl) in *.
  - destruct (head16 ip) as [[x y]|]; [|done]. by destruct (x =? 255).
Qed.

Section dial_facts.
Context {conn : Type} (connect : IP -> string -> result string conn).

Lemma dial_loop_ok port ips lastErr ip c :
  dial_loop connect port ips lastErr = Ok (ip, c) <->
  exists before after, ips = before ++ ip :: after /\ blockedIP ip = None /\ connect ip port = Ok c /\
    Forall (fun j => blockedIP j <> None \/ is_ok (connect j port) = false) before.
Proof using Type.
  revert lastErr. induction ips as [|i ips IH]; intros lastErr; cbn [dial_loop].
  { split; [done|]. by intros ([|] & ? & ? & _). }
  assert (Hskip : forall e, (blockedIP i <> None \/ is_ok (connect i port) = false) ->
    dial_loop connect port ips e = Ok (ip, c) <->
    exists before after, i :: ips = before ++ ip :: after /\ blockedIP ip = None /\ connect ip port = Ok c /\
      Forall (fun j => blockedIP j <> None \/ is_ok (connect j port) = false) before).
  { intros e Hi. rewrite IH. split.
    - intros (bf & af & -> & H). exists (i :: bf), af. rewrite list.Forall_cons. naive_solver.
    - intros ([|j bf] & af & [= <- Hl] & Hb & Hc & Hf).
      + destruct Hi as [Hi|Hi]; [congruence|]. by rewrite Hc in Hi.
      + apply list.Forall_cons in Hf as [_ Hf]. naive_solver. }
  destruct (blockedIP i) eqn:Eb; [apply Hskip; by left|].
  destruct (connect i port) as [c'|] eqn:Ec; [|apply Hskip; by right].
  split.
  - intros [= -> ->]. exists [], ips. naive_solver.
  - intros ([|j bf] & af & [= <- Hl] & Hb & Hc & Hf); [congruence|].
    apply list.Forall_cons in Hf as [[Hf|Hf] _]; [done|]. by rewrite Ec in Hf.
Qed.

Context (SplitHostPort : string -> result string (string * string)) (LookupIPAddr : string -> result string (list IP))
        (bytes : forall host ips, LookupIPAddr host = Ok ips -> Forall (Forall byte) ips).

(** A plugin's connection always ends at an address outside the loopback,
    private, link-local, multicast and unspecified ranges, whatever the name
    resolved to: [guardedDial] returns a connection exactly when some resolved
    address is reachable in that sense and answers, it is to the first such
    address, and every address tried before it was refused or did not answer.
    Other special-purpose ranges, 100.64/10 among them, count as reachable. *)
Lemma guardedDial_spec addr ip c :
  guardedDial SplitHostPort LookupIPAddr connect addr = Ok (ip, c) <->
  exists host port before after, SplitHostPort addr = Ok (host, port) /\
    LookupIPAddr host = Ok (before ++ ip :: after) /\ reachable ip /\ connect ip port = Ok c /\
    Forall (fun j => ~ reachable j \/ is_ok (connect j port) = false) before.
Proof using bytes.
  unfold guardedDial. destruct (SplitHostPort addr) as [[host port]|].
  2: { split; [done|]. by intros (? & ? & ? & ? & ? & _). }
  destruct (LookupIPAddr host) as [ips|] eqn:El.
  2: { split; [done|]. intros (? & ? & ? & ? & [= <- <-] & E & _). by rewrite El in E. }
  rewrite dial_loop_ok.
  assert (Hr : forall j, j ∈ ips -> blockedIP j = None <-> reachable j).
  { intros j Hj. apply blockedIP_spec. apply bytes in El. by apply (proj1 (list.Forall_forall _ _) El). }
  split.
  - intros (bf & af & -> & Hb & Hc & Hf). exists host, port, bf, af.
    split; [done|]. split; [done|]. split; [by apply Hr; set_solver|]. split; [done|].
    apply list.Forall_forall. intros j Hj. pose proof (proj1 (list.Forall_forall _ _) Hf j Hj) as [H|H]; [left|by right].
    by rewrite <- Hr by set_solver.
  - intros (? & ? & bf & af & [= <- <-] & E & Hb & Hc & Hf). rewrite El in E. injection E as ->.
    exists bf, af. split; [done|]. split; [by apply Hr; set_solver|]. split; [done|].
    apply list.Forall_forall. intros j Hj. pose proof (proj1 (list.Forall_forall _ _) Hf j Hj) as [H|H]; [left|by right].
    by rewrite Hr by set_solver.
Qed.
End dial_facts.

(** A name that resolves to the metadata address and to a public one. *)
Definition demo_lookup (host : string) : result string (list IP) := Ok [[169; 254; 169; 254]; [93; 184; 216; 34]].

Lemma demo_lookup_bytes host ips : demo_lookup host = Ok ips -> Forall (Forall byte) ips.
Proof. intros [= <-]. unfold byte. repeat constructor; lia. Qed.

(** ** Fetch *)

Lemma lower_upper a : lower_ascii (upper_ascii a) = lower_ascii a.
Proof. destruct a as [[] [] [] [] [] [] [] []]; reflexivity. Qed.

Lemma to_lower_canon k : to_lower (CanonicalHeaderKey k) = to_lower k.
Proof.
  unfold CanonicalHeaderKey. destruct (string_forall _ k); [|done]. generalize true.
  induction k as [|a k IH]; intros u; [done|]. cbn [canon_go to_lower string_map].
  unfold to_lower in IH. rewrite IH. destruct u; [by rewrite lower_upper|by rewrite lower_lower].
Qed.

Lemma isHopByHop_canon k : isHopByHop (CanonicalHeaderKey k) = isHopByHop k.
Proof. unfold isHopByHop. by rewrite to_lower_canon. Qed.

Lemma forward_headers_clean h k vs : forward_headers h !! k = Some vs -> isHopByHop k = false.
Proof.
  unfold forward_headers.
  assert (Hadd : forall l (out : Header) k0, isHopByHop k0 = false ->
    (forall k vs, out !! k = Some vs -> isHopByHop k = false) ->
    forall k vs, foldl (fun out v => Header_Add out k0 v) out l !! k = Some vs -> isHopByHop k = false).
  { intros l. induction l as [|v l IH]; intros out k0 Hk0 Ho; [done|]. cbn [foldl]. apply IH; [done|].
    intros k1 vs1. unfold Header_Add. destruct (decide (CanonicalHeaderKey k0 = k1)) as [<-|Hne].
    - intros _. by rewrite isHopByHop_canon.
    - rewrite lookup_insert_ne by done. apply Ho. }
  assert (Hout : forall k vs, (∅ : Header) !! k = Some vs -> isHopByHop k = false)
    by (intros ? ?; by rewrite lookup_empty).
  revert Hout. generalize (∅ : Header). generalize (map_to_list h). intros l. revert k vs.
  induction l as [|[k0 vs0] l IH]; intros k vs out Ho; [apply Ho|]. cbn [foldl]. apply IH.
  destruct (isHopByHop k0) eqn:E; [done|]. intros k1 vs1. by apply Hadd.
Qed.

Lemma substring_length n s : (String.length (String.substring 0 n s) <= n)%nat.
Proof. revert s. induction n as [|n IH]; intros [|a s]; cbn; [lia..|]. specialize (IH s). lia. Qed.

(** The plugin's rate window has room for one more request. *)
Definition rate_room (e : HTTPEgress) (now : Z) (key : string) (c : counts) : Prop :=
  match c !! key with
  | Some w => windowStart w + Minute <= now \/ rw_count w < rateLimit e
  | None => True
  end.

Lemma allowRate_room e now key c : (allowRate e now key c).1 = true <-> rate_room e now key c.
Proof.
  unfold allowRate, rate_room. destruct (c !! key) as [w|]; [|done].
  destruct (Z.leb_spec Minute (now - windowStart w)); [by split; [left; lia|]|].
  destruct (Z.leb_spec (rateLimit e) (rw_count w)); cbn; split; try done; [lia|by right].
Qed.

(** The checks that stand before an exchange. *)
Definition cleared (url_Parse : string -> option URL) (e : HTTPEgress) (now : Z) (key : string) (c : counts)
    (req : EgressRequest) : Prop :=
  eq_URL req <> "" /\ exists u, url_Parse (eq_URL req) = Some u /\ (u_Scheme u = "http" \/ u_Scheme u = "https") /\ u_Host u <> "" /\
    host_granted (u_Hostname u) (AllowFor e key) /\ rate_room e now key c.

Lemma parseTarget_spec url_Parse raw u :
  parseTarget url_Parse raw = Ok u ->
  raw <> "" /\ url_Parse raw = Some u /\ (u_Scheme u = "http" \/ u_Scheme u = "https") /\ u_Host u <> "".
Proof.
  unfold parseTarget. intros H. peel H. destruct (url_Parse raw) as [u'|]; [|done]. peel_all H. injection H as <-.
  split; [by apply String.eqb_neq|]. split; [done|]. apply negb_false_iff, orb_true_iff in Hg0. rewrite !String.eqb_eq in Hg0.
  split; [done|]. by apply String.eqb_neq in Hg1.
Qed.

Lemma timeout_pos e req : 0 < (if eq_Timeout req <=? 0 then timeout e else eq_Timeout req).
Proof.
  destruct (Z.leb_spec (eq_Timeout req) 0); [|lia]. unfold timeout.
  destruct (Z.ltb_spec 0 (DefaultTimeout e)); unfold defaultEgressTimeout; lia.
Qed.

(** The request that may go out for [req]: the method asked for, GET when none
    is, the URL and body asked for, a deadline, and no hop-by-hop header. *)
Definition outgoing (req : EgressRequest) (out : OutRequest) : Prop :=
  or_Method out = (if String.eqb (eq_Method req) "" then "GET" else eq_Method req) /\
  or_URL out = eq_URL req /\ or_Body out = eq_Body req /\ 0 < or_Timeout out /\
  (forall k, isHopByHop k = true -> or_Header out !! k = None).

(** What an exchange with answer [got] is to the plugin: a status to audit and
    a result. The body it is handed is the first [limit] bytes of the one that
    came, or all of it; a body that broke off before them is an error. *)
Definition relayed (limit : Z) (got : result string ClientResponse) (status : Z)
    (res : result egress_error EgressResponse) : Prop :=
  match got with
  | Err msg => status = 0 /\ res = Err (TransportError msg)
  | Ok r =>
      status = cr_StatusCode r /\
      match res with
      | Ok a => es_StatusCode a = cr_StatusCode r /\ es_Headers a = cr_Header r /\
          Z.of_nat (String.length (es_Body a)) <= limit /\
          exists rest, cr_Body r = es_Body a +:+ rest /\
            (rest = "" \/ Z.of_nat (String.length (es_Body a)) = limit)
      | Err err => err = BodyError /\ cr_fails r = true /\ Z.of_nat (String.length (cr_Body r)) < limit
      end
  end.

Definition body_limit (e : HTTPEgress) : Z :=
  if MaxResponseBytes e <=? 0 then defaultMaxResponse else MaxResponseBytes e.

Lemma substring_split n s :
  exists rest, s = String.substring 0 n s +:+ rest /\ (rest = "" \/ String.length (String.substring 0 n s) = n).
Proof.
  revert s. induction n as [|n IH]; intros s; [exists s; destruct s; auto|].
  destruct s as [|a s]; [exists ""; auto|]. destruct (IH s) as (rest & Hs & Hr). exists rest. cbn.
  split; [by rewrite Hs at 1|]. destruct Hr as [|Hr]; [by left|right; by rewrite Hr].
Qed.

Lemma read_limited_relayed limit r :
  0 <= limit ->
  relayed limit (Ok r) (cr_StatusCode r)
    match read_limited limit r with
    | Ok payload => Ok (mkEgressResponse (cr_StatusCode r) (cr_Header r) payload)
    | Err err => Err err
    end.
Proof.
  intros Hl. unfold relayed, read_limited. split; [done|].
  destruct (cr_fails r && _) eqn:E; [apply andb_true_iff in E as [E1 E2]; split; [done|]; split; [done|lia]|].
  do 2 (split; [done|]). cbn [es_Body].
  pose proof (substring_length (Z.to_nat limit) (cr_Body r)). split; [lia|].
  destruct (substring_split (Z.to_nat limit) (cr_Body r)) as (rest & Hs & Hr). exists rest.
  split; [done|]. destruct Hr as [|Hr]; [by left|right; lia].
Qed.

(** C8. Nothing leaves for a host a plugin was not granted. Whatever [Fetch]
    answers, what it does outside is at most one exchange and then exactly one
    audit entry, under the plugin's key, with the URL asked for and the error
    the plugin is told; the exchange takes place exactly when the URL is http
    or https with a host, the host is on that plugin's list, its rate window
    has room and the request is well formed; it is the request asked for
    without hop-by-hop headers, and what the plugin is told is what came of
    that one exchange, at most the configured number of body bytes. *)
Theorem Fetch_guarded url_Parse valid_request client_Do e now key req c :
  let '(res, effects, c') := Fetch url_Parse valid_request client_Do e now key req c in
  let ready := cleared url_Parse e now key c req /\
    valid_request (if String.eqb (eq_Method req) "" then "GET" else eq_Method req) (eq_URL req) = true in
  exists sent m status,
    effects = sent ++ [Audit key m (eq_URL req) status (match res with Ok _ => None | Err err => Some err end)] /\
    ((~ ready /\ sent = [] /\ status = 0 /\ is_ok res = false /\ (m = eq_Method req \/ m = "GET")) \/
     (ready /\ exists out, sent = [Exchange out] /\ outgoing req out /\ m = or_Method out /\
        relayed (body_limit e) (client_Do out) status res)).
Proof.
  unfold Fetch. cbv zeta.
  destruct (parseTarget url_Parse (eq_URL req)) as [u|err] eqn:Eu.
  2: { exists [], (eq_Method req), 0. split; [done|]. left. split; [|by auto].
       intros [(Hne & u & Hp & Hs & Hh & _) _]. unfold parseTarget in Eu.
       rewrite (proj2 (String.eqb_neq _ _) Hne), Hp in Eu.
       destruct Hs as [Hs|Hs]; rewrite Hs in Eu; cbn in Eu; by destruct (String.eqb_spec (u_Host u) ""). }
  apply parseTarget_spec in Eu as (Hne & Hp & Hs & Hh).
  destruct (hostAllowed (u_Hostname u) (AllowFor e key)) eqn:Ea; cbn [negb].
  2: { exists [], (eq_Method req), 0. split; [done|]. left. split; [|by auto].
       intros [(_ & u' & Hp' & _ & _ & Ha%hostAllowed_spec & _) _]. congruence. }
  pose proof (allowRate_room e now key c) as Hroom.
  destruct (allowRate e now key c) as [ok c1] eqn:Er. cbn [fst] in Hroom. destruct ok; cbn [negb].
  2: { exists [], (eq_Method req), 0. split; [done|]. left. split; [|by auto]. by intros [(_ & u' & _ & _ & _ & _ & Ha%Hroom) _]. }
  set (method := if String.eqb (eq_Method req) "" then "GET" else eq_Method req).
  assert (method = eq_Method req \/ method = "GET") as Hm by (unfold method; destruct (String.eqb _ _); auto).
  destruct (valid_request method (eq_URL req)) eqn:Ev; cbn [negb].
  2: { exists [], method, 0. split; [done|]. left. split; [|by auto]. by intros [_ ?]. }
  set (out := mkOutRequest _ _ _ _ _).
  assert (outgoing req out) as Ho.
  { split_and!; [done..|cbn; apply timeout_pos|]. intros k Hk. cbn [or_Header out].
    destruct (forward_headers _ !! k) eqn:E; [|done]. apply forward_headers_clean in E. congruence. }
  assert (cleared url_Parse e now key c req /\ true = true) as Hready.
  { split; [|done]. split; [done|]. exists u. apply hostAllowed_spec in Ea. by rewrite <- Hroom. }
  assert (0 <= body_limit e) as Hlim.
  { unfold body_limit, defaultMaxResponse. destruct (Z.leb_spec (MaxResponseBytes e) 0); lia. }
  destruct (client_Do out) as [r|msg] eqn:Ed.
  - fold (body_limit e). pose proof (read_limited_relayed (body_limit e) r Hlim) as Hr.
    destruct (read_limited (body_limit e) r) as [payload|err]; exists [Exchange out], method, (cr_StatusCode r);
      (split; [done|]; right; split; [done|]; exists out; by rewrite Ed).
  - exists [Exchange out], method, 0. split; [done|]. right. split; [done|]. exists out. by rewrite Ed.
Qed.
