(* ===== verification/HostMemory.v ===== *)
(** * core/hostsvc/memory.go: the in-process cache, locks and configuration

    Each method runs under its mutex, so a method is one step; the clock reads
    are arguments. [MemoryLocks] is then put in a step relation with the leases
    its callers hold, where the exclusion of a lock is an invariant. The order
    in which Go ranges over a map is an argument of the eviction. *)

From Stdlib Require Import Ascii.
From S2P Require Import Prelude GoStrings.

Open Scope Z_scope.

(** ** The cache *)

(** [expiresAt]: [None] is the zero time, no deadline. *)
Record cacheEntry := mkCacheEntry { ce_value : string; ce_expiresAt : option Z }.

Record MemoryCache := mkMemoryCache { entries : gmap string cacheEntry; maxEntries : Z }.

Definition DefaultCacheEntries : Z := 10000.

Definition NewMemoryCache (maxEntries : Z) : MemoryCache :=
  mkMemoryCache ∅ (if maxEntries <=? 0 then DefaultCacheEntries else maxEntries).

Definition cacheKey (pluginKey key : string) : string := pluginKey +:+ String Ascii.zero key.

Definition expired (now : Z) (deadline : option Z) : bool :=
  match deadline with None => false | Some d => negb (now <? d) end.

Definition Get (now : Z) (pluginKey key : string) (c : MemoryCache) : option string * MemoryCache :=
  match entries c !! cacheKey pluginKey key with
  | None => (None, c)
  | Some e =>
      if expired now (ce_expiresAt e)
      then (None, mkMemoryCache (delete (cacheKey pluginKey key) (entries c)) (maxEntries c))
      else (Some (ce_value e), c)
  end.

(** [order] is how the second range visits the keys of the map. *)
Definition evictLocked (now : Z) (order : gmap string cacheEntry -> list string) (es : gmap string cacheEntry)
    : gmap string cacheEntry :=
  let live := filter (fun ke => expired now (ce_expiresAt ke.2) = false) es in
  if (0 <? Z.of_nat (size es) - Z.of_nat (size live)) then live
  else
    let target := Z.of_nat (size es) / 10 in
    let target := if target =? 0 then 1 else target in
    foldl (fun es k => delete k es) es (take (Z.to_nat target) (order es)).

Definition Set_ (now : Z) (order : gmap string cacheEntry -> list string) (pluginKey key value : string) (ttl : Z)
    (c : MemoryCache) : MemoryCache :=
  let es := if maxEntries c <=? Z.of_nat (size (entries c)) then evictLocked now order (entries c) else entries c in
  let expires := if 0 <? ttl then Some (now + ttl) else None in
  mkMemoryCache (<[cacheKey pluginKey key := mkCacheEntry value expires]> es) (maxEntries c).

Definition Delete (pluginKey key : string) (c : MemoryCache) : MemoryCache :=
  mkMemoryCache (delete (cacheKey pluginKey key) (entries c)) (maxEntries c).

Definition Len (c : MemoryCache) : Z := Z.of_nat (size (entries c)).

(** ** Locks *)

Record lockState := mkLockState { ls_leaseID : string; ls_expiresAt : Z }.
Record Lease := mkLease { le_ID : string; le_ExpiresAt : Z }.

Record MemoryLocks := mkMemoryLocks { held : gmap string lockState; MaxHeld : Z; lastSweep : Z }.

Definition Second : Z := 10 ^ 9.
Definition DefaultMaxLocks : Z := 10000.
Definition lockSweepInterval : Z := 30 * Second.
Definition DefaultLockTTL : Z := 30 * Second.

Definition NewMemoryLocks (now : Z) : MemoryLocks := mkMemoryLocks ∅ DefaultMaxLocks now.

Definition Held (l : MemoryLocks) : Z := Z.of_nat (size (held l)).

Definition sweepExpiredLocked (now : Z) (l : MemoryLocks) : MemoryLocks :=
  if now - lastSweep l <? lockSweepInterval then l
  else mkMemoryLocks (filter (fun ks => expired now (Some (ls_expiresAt ks.2)) = false) (held l)) (MaxHeld l) now.

Definition lockKey (pluginKey name : string) : string := pluginKey +:+ String Ascii.zero name.

Definition maxHeld (l : MemoryLocks) : Z := if 0 <? MaxHeld l then MaxHeld l else DefaultMaxLocks.

(** [id] is the random lease id. *)
Definition tryAcquire (id : string) (now : Z) (pluginKey name : string) (ttl : Z) (l : MemoryLocks)
    : option Lease * MemoryLocks :=
  let k := lockKey pluginKey name in
  let l := sweepExpiredLocked now l in
  let grant :=
    let lease := mkLease id (now + ttl) in
    (Some lease, mkMemoryLocks (<[k := mkLockState id (now + ttl)]> (held l)) (MaxHeld l) (lastSweep l)) in
  match held l !! k with
  | Some cur => if negb (expired now (Some (ls_expiresAt cur))) then (None, l) else grant
  | None => if (0 <? maxHeld l) && (maxHeld l <=? Z.of_nat (size (held l))) then (None, l) else grant
  end.

Definition lease_ttl (ttl : Z) : Z := if ttl <=? 0 then DefaultLockTTL else ttl.

Definition Renew (now : Z) (pluginKey name leaseID : string) (ttl : Z) (l : MemoryLocks)
    : option Lease * MemoryLocks :=
  let ttl := lease_ttl ttl in
  let k := lockKey pluginKey name in
  match held l !! k with
  | None => (None, l)
  | Some cur =>
      if negb (String.eqb (ls_leaseID cur) leaseID) || expired now (Some (ls_expiresAt cur)) then (None, l)
      else (Some (mkLease leaseID (now + ttl)),
            mkMemoryLocks (<[k := mkLockState (ls_leaseID cur) (now + ttl)]> (held l)) (MaxHeld l) (lastSweep l))
  end.

Definition Release (pluginKey name leaseID : string) (l : MemoryLocks) : MemoryLocks :=
  let k := lockKey pluginKey name in
  match held l !! k with
  | Some cur => if String.eqb (ls_leaseID cur) leaseID
                then mkMemoryLocks (delete k (held l)) (MaxHeld l) (lastSweep l) else l
  | None => l
  end.

(** One turn of [Acquire]'s loop: what others did to the table before it, its
    two clock reads, its lease id, and whether the context ends in the wait. *)
Record acquire_round := mkRound {
  ar_others : MemoryLocks -> MemoryLocks; ar_now : Z; ar_check : Z; ar_id : string; ar_cancelled : bool
}.
Inductive acquire_result := Acquired (l : Lease) | NotAcquired | AcquireCancelled | AcquireWaiting.

Fixpoint acquire_loop (pluginKey name : string) (ttl wait deadline : Z) (rounds : list acquire_round)
    (l : MemoryLocks) : acquire_result * MemoryLocks :=
  match rounds with
  | [] => (AcquireWaiting, l)
  | r :: rounds =>
      match tryAcquire (ar_id r) (ar_now r) pluginKey name ttl (ar_others r l) with
      | (Some lease, l) => (Acquired lease, l)
      | (None, l) =>
          if (wait <=? 0) || negb (ar_check r <? deadline) then (NotAcquired, l)
          else if ar_cancelled r then (AcquireCancelled, l)
          else acquire_loop pluginKey name ttl wait deadline rounds l
      end
  end.

Definition Acquire (start : Z) (pluginKey name : string) (ttl wait : Z) (rounds : list acquire_round)
    (l : MemoryLocks) : acquire_result * MemoryLocks :=
  acquire_loop pluginKey name (lease_ttl ttl) wait (start + wait) rounds l.

(** ** Configuration *)

Notation StaticConfig := (gmap string (gmap string string)).

Definition Config_Get (pluginKey : string) (c : StaticConfig) : gmap string string := default ∅ (c !! pluginKey).
Definition Config_Set (pluginKey : string) (cfg : gmap string string) (c : StaticConfig) : StaticConfig :=
  <[pluginKey := cfg]> c.

(** ** The locks and their holders *)

(** What a caller knows of a lease it was granted. *)
Record holding := mkHolding { ho_key : string; ho_expires : Z }.

(** [granted] maps the ids of the leases given out and not released to what
    their holders know; [used] is every id ever drawn. *)
Record lock_world := mkLockWorld {
  lw_locks : MemoryLocks; lw_clock : Z; granted : gmap string holding; used : gset string
}.

(** The methods' effects, at one reading of the clock each, in any order and by
    any callers. Lease ids are 128 random bits: no id is drawn twice. *)
Inductive lock_step : lock_world -> lock_world -> Prop :=
| lock_tick c t :
    lw_clock c <= t -> lock_step c (mkLockWorld (lw_locks c) t (granted c) (used c))
| lock_granted c id p n ttl lease l' :
    0 < ttl -> id ∉ used c -> tryAcquire id (lw_clock c) p n ttl (lw_locks c) = (Some lease, l') ->
    lock_step c (mkLockWorld l' (lw_clock c)
      (<[le_ID lease := mkHolding (lockKey p n) (le_ExpiresAt lease)]> (granted c)) ({[id]} ∪ used c))
| lock_refused c id p n ttl l' :
    tryAcquire id (lw_clock c) p n ttl (lw_locks c) = (None, l') ->
    lock_step c (mkLockWorld l' (lw_clock c) (granted c) (used c))
| lock_renewed c p n id ttl lease l' :
    Renew (lw_clock c) p n id ttl (lw_locks c) = (Some lease, l') ->
    lock_step c (mkLockWorld l' (lw_clock c)
      (<[le_ID lease := mkHolding (lockKey p n) (le_ExpiresAt lease)]> (granted c)) (used c))
| lock_not_renewed c p n id ttl l' :
    Renew (lw_clock c) p n id ttl (lw_locks c) = (None, l') ->
    lock_step c (mkLockWorld l' (lw_clock c) (granted c) (used c))
| lock_released c p n id :
    lock_step c (mkLockWorld (Release p n id (lw_locks c)) (lw_clock c)
      (if decide (ls_leaseID <$> held (lw_locks c) !! lockKey p n = Some id) then delete id (granted c)
       else granted c) (used c)).

Definition lock_start (now : Z) : lock_world := mkLockWorld (NewMemoryLocks now) now ∅ ∅.

(** ** Exclusion *)

Record LockInv (c : lock_world) : Prop := mkLockInv {
  li_held : forall k st, held (lw_locks c) !! k = Some st ->
    granted c !! ls_leaseID st = Some (mkHolding k (ls_expiresAt st));
  li_live : forall id h, granted c !! id = Some h -> lw_clock c < ho_expires h ->
    held (lw_locks c) !! ho_key h = Some (mkLockState id (ho_expires h));
  li_used : forall id, is_Some (granted c !! id) -> id ∈ used c
}.

(** A sweep keeps every lease that is still live and adds none. *)
Lemma sweep_lookup now l k st :
  held (sweepExpiredLocked now l) !! k = Some st -> held l !! k = Some st.
Proof.
  unfold sweepExpiredLocked. destruct (_ <? _); [done|]. intros [H _]%map_lookup_filter_Some. done.
Qed.

Lemma sweep_live now l k st :
  held l !! k = Some st -> now < ls_expiresAt st -> held (sweepExpiredLocked now l) !! k = Some st.
Proof.
  intros H Hl. unfold sweepExpiredLocked. destruct (_ <? _); [done|]. apply map_lookup_filter_Some.
  split; [done|]. cbn. apply Z.ltb_lt in Hl. by rewrite Hl.
Qed.

Lemma sweep_inv c :
  LockInv c -> LockInv (mkLockWorld (sweepExpiredLocked (lw_clock c) (lw_locks c)) (lw_clock c) (granted c) (used c)).
Proof.
  intros [Hh Hl Hu]. split; cbn [lw_locks lw_clock granted used]; [| |done].
  - intros k st H%sweep_lookup. by apply Hh.
  - intros id h Hg Hlt. apply sweep_live; [by apply Hl|done].
Qed.

(** The two outcomes of an attempt, on the swept table. *)
Lemma tryAcquire_spec id now p n ttl l :
  let k := lockKey p n in
  let l1 := sweepExpiredLocked now l in
  (tryAcquire id now p n ttl l = (None, l1) /\
   ((exists st, held l1 !! k = Some st /\ now < ls_expiresAt st) \/
    (held l1 !! k = None /\ maxHeld l1 <= Z.of_nat (size (held l1))))) \/
  (tryAcquire id now p n ttl l =
     (Some (mkLease id (now + ttl)),
      mkMemoryLocks (<[k := mkLockState id (now + ttl)]> (held l1)) (MaxHeld l1) (lastSweep l1)) /\
   (forall st, held l1 !! k = Some st -> ls_expiresAt st <= now) /\
   (held l1 !! k = None -> Z.of_nat (size (held l1)) < maxHeld l1)).
Proof.
  cbv zeta. unfold tryAcquire. set (l1 := sweepExpiredLocked now l).
  assert (Hm : 0 < maxHeld l1).
  { unfold maxHeld. destruct (Z.ltb_spec 0 (MaxHeld l1)); [done|]. unfold DefaultMaxLocks. lia. }
  destruct (held l1 !! lockKey p n) as [st|] eqn:E; cbn [expired].
  - destruct (Z.ltb_spec now (ls_expiresAt st)); cbn [negb].
    + left. split; [done|]. left. by exists st.
    + right. split; [done|]. split; [by intros ? [= <-]|done].
  - apply Z.ltb_lt in Hm as Hm'. rewrite Hm'. cbn [andb]. destruct (Z.leb_spec (maxHeld l1) (Z.of_nat (size (held l1)))).
    + left. split; [done|]. by right.
    + right. split; [done|]. split; [done|lia].
Qed.

Lemma Renew_spec now p n id ttl l :
  let k := lockKey p n in
  Renew now p n id ttl l = (None, l) \/
  (exists st, held l !! k = Some st /\ ls_leaseID st = id /\ now < ls_expiresAt st /\
   Renew now p n id ttl l =
     (Some (mkLease id (now + lease_ttl ttl)),
      mkMemoryLocks (<[k := mkLockState id (now + lease_ttl ttl)]> (held l)) (MaxHeld l) (lastSweep l))).
Proof.
  cbv zeta. unfold Renew. destruct (held l !! lockKey p n) as [st|] eqn:E; [|by left]. cbn [expired].
  destruct (String.eqb_spec (ls_leaseID st) id) as [Hid|]; [|by left]. cbn [negb orb].
  destruct (Z.ltb_spec now (ls_expiresAt st)); [|by left]. cbn [negb]. right. exists st.
  by rewrite Hid.
Qed.

(** Granting or renewing [id] on [k] when no other live lease is on [k]. *)
Lemma insert_inv c k id exp :
  LockInv c ->
  (forall id' h, granted c !! id' = Some h -> id' <> id -> ho_key h = k -> ho_expires h <= lw_clock c) ->
  (forall k' st, held (lw_locks c) !! k' = Some st -> ls_leaseID st = id -> k' = k) ->
  LockInv (mkLockWorld (mkMemoryLocks (<[k := mkLockState id exp]> (held (lw_locks c)))
                          (MaxHeld (lw_locks c)) (lastSweep (lw_locks c)))
             (lw_clock c) (<[id := mkHolding k exp]> (granted c)) ({[id]} ∪ used c)).
Proof.
  intros [Hh Hl Hu] Hother Hown. split; cbn [lw_locks lw_clock granted used held].
  - intros k' st. destruct (decide (k = k')) as [<-|Hne].
    + rewrite lookup_insert_eq. intros [= <-]. cbn. by rewrite lookup_insert_eq.
    + rewrite lookup_insert_ne by done. intros H. rewrite lookup_insert_ne; [by apply Hh|].
      intros E. apply Hne. symmetry. by eapply Hown.
  - intros id' h. destruct (decide (id = id')) as [<-|Hne].
    + rewrite lookup_insert_eq. intros [= <-] _. cbn. by rewrite lookup_insert_eq.
    + rewrite lookup_insert_ne by done. intros Hg Hlt. rewrite lookup_insert_ne; [by apply Hl|].
      intros E. specialize (Hother id' h Hg ltac:(congruence) ltac:(congruence)). lia.
  - intros id' [h Hg]. destruct (decide (id = id')) as [<-|Hne]; [set_solver|].
    rewrite lookup_insert_ne in Hg by done. assert (id' ∈ used c) by (apply Hu; eauto). set_solver.
Qed.

Lemma lock_step_inv c c' : LockInv c -> lock_step c c' -> LockInv c'.
Proof.
  intros Hi Hs. destruct Hs as [c t Ht|c id p n ttl lease l' Httl Hid E|c id p n ttl l' E|c p n id ttl lease l' E|
    c p n id ttl l' E|c p n id].
  - destruct Hi as [Hh Hl Hu]. split; cbn in *; [done| |done]. intros id h Hg Hlt. apply Hl; [done|lia].
  - pose proof (sweep_inv c Hi) as Hi1.
    destruct (tryAcquire_spec id (lw_clock c) p n ttl (lw_locks c)) as [[E' _]|(E' & Hold & _)];
      rewrite E in E'; [done|]. injection E' as -> ->. cbn [le_ID le_ExpiresAt].
    apply (insert_inv _ (lockKey p n) id _ Hi1).
    + intros id' h Hg _ Hk. destruct (Z.ltb_spec (lw_clock c) (ho_expires h)) as [Hlt|]; [|done].
      pose proof (li_live _ Hi1 id' h Hg Hlt) as Hh. cbn [lw_locks] in Hh. rewrite Hk in Hh.
      specialize (Hold _ Hh). cbn in *. lia.
    + intros k' st Hh Hst. destruct Hid. apply (li_used _ Hi). rewrite <- Hst.
      pose proof (li_held _ Hi1 _ _ Hh) as Hg. cbn in Hg. eauto.
  - destruct (tryAcquire_spec id (lw_clock c) p n ttl (lw_locks c)) as [[E' _]|[E' _]];
      rewrite E in E'; [|done]. injection E' as ->. by apply sweep_inv.
  - destruct (Renew_spec (lw_clock c) p n id ttl (lw_locks c)) as [E'|(st & Hst & Hid & Hlive & E')];
      rewrite E in E'; [done|]. injection E' as -> ->. cbn [le_ID le_ExpiresAt].
    assert (Hused : {[id]} ∪ used c = used c).
    { apply set_eq. intros x. assert (id ∈ used c); [|set_solver].
      apply (li_used _ Hi). rewrite <- Hid, (li_held _ Hi _ _ Hst). eauto. }
    rewrite <- Hused. apply (insert_inv _ (lockKey p n) id _ Hi).
    + intros id' h Hg Hne Hk. destruct (Z.ltb_spec (lw_clock c) (ho_expires h)) as [Hlt|]; [|done].
      pose proof (li_live _ Hi id' h Hg Hlt) as Hh. rewrite Hk, Hst in Hh. injection Hh as ->. done.
    + intros k' st' Hst' Hid'. pose proof (li_held _ Hi _ _ Hst') as H1. pose proof (li_held _ Hi _ _ Hst) as H2.
      rewrite Hid' in H1. rewrite Hid in H2. rewrite H1 in H2. by injection H2.
  - destruct (Renew_spec (lw_clock c) p n id ttl (lw_locks c)) as [E'|(st & Hst & Hid & Hlive & E')];
      rewrite E in E'; [|done]. injection E' as ->. by destruct Hi.
  - unfold Release. destruct (held (lw_locks c) !! lockKey p n) as [st|] eqn:E; cbn [fmap option_fmap option_map].
    2: { by destruct Hi. }
    destruct (String.eqb_spec (ls_leaseID st) id) as [Hid|Hid].
    2: { rewrite decide_False by congruence. by destruct Hi. }
    rewrite decide_True by congruence. destruct Hi as [Hh Hl Hu]. split; cbn [lw_locks lw_clock granted used held].
    + intros k st'. destruct (decide (lockKey p n = k)) as [<-|Hne]; [by rewrite lookup_delete_eq|].
      rewrite lookup_delete_ne by done. intros Hst'. pose proof (Hh _ _ Hst') as Hg.
      rewrite lookup_delete_ne; [done|]. intros Heq. pose proof (Hh _ _ E) as Hg2.
      rewrite Hid in Hg2. rewrite <- Heq in Hg. rewrite Hg in Hg2. by injection Hg2.
    + intros id' h. destruct (decide (id = id')) as [<-|Hne]; [by rewrite lookup_delete_eq|].
      rewrite lookup_delete_ne by done. intros Hg Hlt. pose proof (Hl _ _ Hg Hlt) as Hk.
      rewrite lookup_delete_ne; [done|]. intros Heq. rewrite <- Heq, E in Hk. injection Hk as ->. done.
    + intros id' [h Hg]. destruct (decide (id = id')) as [<-|Hne]; [by rewrite lookup_delete_eq in Hg|].
      rewrite lookup_delete_ne in Hg by done. eauto.
Qed.

Lemma lock_start_inv now : LockInv (lock_start now).
Proof. split; cbn; intros *; rewrite ?lookup_empty; [done|done|by intros [? ?]]. Qed.

(** C9. A lock has at most one holder. Whatever is acquired, renewed, released
    and left to expire, by any callers at any times: two unexpired leases on the
    same lock are one lease, which the table records with the very deadline its
    holder knows; and an attempt is refused only while such a lease exists or
    the table is full of others. *)
Theorem lock_exclusive now c :
  rtc lock_step (lock_start now) c ->
  (forall id1 id2 h1 h2, granted c !! id1 = Some h1 -> granted c !! id2 = Some h2 -> ho_key h1 = ho_key h2 ->
     lw_clock c < ho_expires h1 -> lw_clock c < ho_expires h2 ->
     id1 = id2 /\ held (lw_locks c) !! ho_key h1 = Some (mkLockState id1 (ho_expires h1))) /\
  (forall id p n ttl, (tryAcquire id (lw_clock c) p n ttl (lw_locks c)).1 = None ->
     (exists id' h, granted c !! id' = Some h /\ ho_key h = lockKey p n /\ lw_clock c < ho_expires h) \/
     maxHeld (lw_locks c) <= Z.of_nat (size (held (lw_locks c)))).
Proof.
  intros Hr. assert (Hi : LockInv c) by (eapply (rtc_invariant lock_step LockInv lock_step_inv); [exact Hr|apply lock_start_inv]).
  split.
  - intros id1 id2 h1 h2 H1 H2 Hk Hl1 Hl2. pose proof (li_live _ Hi _ _ H1 Hl1) as E1.
    pose proof (li_live _ Hi _ _ H2 Hl2) as E2. split; [|done]. rewrite Hk, E2 in E1. by injection E1.
  - intros id p n ttl H. destruct (tryAcquire_spec id (lw_clock c) p n ttl (lw_locks c)) as [[_ Hw]|[E _]].
    2: { by rewrite E in H. }
    destruct Hw as [(st & Hst & Hlive)|[_ Hfull]]; [left|right].
    + apply sweep_lookup in Hst. eexists _, _. split; [by apply (li_held _ Hi)|done].
    + assert (Hm : forall l, maxHeld (sweepExpiredLocked (lw_clock c) l) = maxHeld l)
        by (intros l; unfold sweepExpiredLocked; by destruct (_ <? _)).
      rewrite Hm in Hfull. etransitivity; [exact Hfull|]. unfold sweepExpiredLocked. destruct (_ <? _); [done|].
      cbn [held]. apply inj_le, map_subseteq_size, map_filter_subseteq.
Qed.

(** Another caller asks while the first one's lease is live. *)
Lemma lock_exclusive_witness :
  let l0 := NewMemoryLocks 0 in
  let l1 := (tryAcquire "a" 0 "notes" "nightly" Second l0).2 in
  let c := mkLockWorld l1 0 {["a" := mkHolding (lockKey "notes" "nightly") Second]} {["a"]} in
  (tryAcquire "b" 0 "notes" "nightly" Second l1).1 = None /\
  held (lw_locks c) !! lockKey "notes" "nightly" = Some (mkLockState "a" Second).
Proof.
  cbv zeta. split; [vm_compute; reflexivity|].
  set (c := mkLockWorld _ _ _ _).
  assert (rtc lock_step (lock_start 0) c) as Hr.
  { apply rtc_once. change c with (mkLockWorld (tryAcquire "a" 0 "notes" "nightly" Second (NewMemoryLocks 0)).2 0
      (<[le_ID (mkLease "a" Second) := mkHolding (lockKey "notes" "nightly") (le_ExpiresAt (mkLease "a" Second))]>
         (granted (lock_start 0))) ({["a"]} ∪ used (lock_start 0))).
    apply (lock_granted (lock_start 0) "a" "notes" "nightly" Second (mkLease "a" Second)).
    - reflexivity.
    - apply not_elem_of_empty.
    - vm_compute. reflexivity. }
  exact (proj2 (proj1 (lock_exclusive 0 c Hr) "a" "a" (mkHolding (lockKey "notes" "nightly") Second)
    (mkHolding (lockKey "notes" "nightly") Second) ltac:(vm_compute; reflexivity) ltac:(vm_compute; reflexivity)
    eq_refl ltac:(vm_compute; reflexivity) ltac:(vm_compute; reflexivity))).
Defined.

(** ** The cache against an unbounded store *)

Inductive cache_op :=
| OpGet (now : Z) (pluginKey key : string)
| OpSet (now : Z) (pluginKey key value : string) (ttl : Z)
| OpDelete (pluginKey key : string).

Definition op_plugin (o : cache_op) : string :=
  match o with OpGet _ p _ => p | OpSet _ p _ _ _ => p | OpDelete p _ => p end.

(** The store a plugin may imagine: its own entries, each until its deadline. *)
Notation ideal := (gmap (string * string) cacheEntry).

Definition ideal_do (o : cache_op) (i : ideal) : option string * ideal :=
  match o with
  | OpGet now p k => (match i !! (p, k) with
                      | Some e => if expired now (ce_expiresAt e) then None else Some (ce_value e)
                      | None => None
                      end, i)
  | OpSet now p k v ttl => (None, <[(p, k) := mkCacheEntry v (if 0 <? ttl then Some (now + ttl) else None)]> i)
  | OpDelete p k => (None, delete (p, k) i)
  end.

Section cache.
Context (order : gmap string cacheEntry -> list string)
        (enumerates : forall m, order m ≡ₚ (map_to_list m).*1).

Definition cache_do (o : cache_op) (c : MemoryCache) : option string * MemoryCache :=
  match o with
  | OpGet now p k => Get now p k c
  | OpSet now p k v ttl => (None, Set_ now order p k v ttl c)
  | OpDelete p k => (None, Delete p k c)
  end.

Fixpoint cache_run (ops : list cache_op) (c : MemoryCache) (i : ideal) : list (option string * option string) * MemoryCache :=
  match ops with
  | [] => ([], c)
  | o :: ops =>
      let '(r, c) := cache_do o c in
      let '(ri, i) := ideal_do o i in
      let '(rs, c) := cache_run ops c i in ((r, ri) :: rs, c)
  end.

(** What the cache still has is what the store has. *)
Definition agrees (c : MemoryCache) (i : ideal) : Prop :=
  forall p k e, has_byte Ascii.zero p = false -> entries c !! cacheKey p k = Some e -> i !! (p, k) = Some e.

Lemma cacheKey_inj p1 k1 p2 k2 :
  has_byte Ascii.zero p1 = false -> has_byte Ascii.zero p2 = false ->
  cacheKey p1 k1 = cacheKey p2 k2 -> p1 = p2 /\ k1 = k2.
Proof using Type. apply sep_inj. Qed.

Lemma delete_all_sub (ks : list string) (es : gmap string cacheEntry) : foldl (fun es k => delete k es) es ks ⊆ es.
Proof using Type.
  revert es. induction ks as [|k ks IH]; intros es; [done|]. cbn. etransitivity; [apply IH|apply delete_subseteq].
Qed.

Lemma evict_sub now es : evictLocked now order es ⊆ es.
Proof using Type. unfold evictLocked. destruct (_ <? _); [apply map_filter_subseteq|apply delete_all_sub]. Qed.

(** An eviction of a non-empty cache always makes room. *)
Lemma evict_room now es : es <> ∅ -> (size (evictLocked now order es) < size es)%nat.
Proof using enumerates.
  intros Hne. unfold evictLocked. destruct (Z.ltb_spec 0 (Z.of_nat (size es) -
    Z.of_nat (size (filter (fun ke => expired now (ce_expiresAt ke.2) = false) es)))); [lia|].
  set (target := if _ =? 0 then 1 else _). assert (1 <= target) as Ht.
  { unfold target. destruct (Z.eqb_spec (Z.of_nat (size es) / 10) 0); [done|].
    pose proof (Z.div_pos (Z.of_nat (size es)) 10). lia. }
  assert (exists n, Z.to_nat target = S n) as [n ->] by (exists (Z.to_nat (target - 1)); lia).
  destruct (order es) as [|k ks] eqn:Eo.
  { destruct Hne. apply map_to_list_empty_iff. pose proof (enumerates es) as Hp. rewrite Eo in Hp.
    apply Permutation_nil_l in Hp. by destruct (map_to_list es). }
  cbn [take foldl]. assert (is_Some (es !! k)) as [e He].
  { assert (k ∈ (map_to_list es).*1) as Hk by (rewrite <- enumerates, Eo; left).
    apply list_elem_of_fmap in Hk as ([k' e] & -> & Hk). apply elem_of_map_to_list in Hk. eauto. }
  apply Nat.le_lt_trans with (size (delete k es)); [apply map_subseteq_size, delete_all_sub|].
  rewrite map_size_delete_Some by eauto. assert (size es <> 0)%nat by (by apply map_size_ne_0_lookup; eauto). lia.
Qed.

Lemma agrees_sub c c' i : agrees c i -> entries c' ⊆ entries c -> agrees c' i.
Proof using Type. intros Ha Hs p k e Hp He. apply Ha; [done|]. by eapply lookup_weaken. Qed.

Lemma cache_do_spec o c i :
  has_byte Ascii.zero (op_plugin o) = false -> 0 < maxEntries c -> agrees c i -> Len c <= maxEntries c ->
  let '(r, c') := cache_do o c in
  let '(ri, i') := ideal_do o i in
  (r = None \/ r = ri) /\ agrees c' i' /\ Len c' <= maxEntries c' /\ maxEntries c' = maxEntries c.
Proof using enumerates.
  intros Hp Hm Ha Hl. unfold Len in *. destruct o as [now p k|now p k v ttl|p k]; cbn [cache_do ideal_do op_plugin] in *.
  - unfold Get. destruct (entries c !! cacheKey p k) as [e|] eqn:E.
    + rewrite (Ha p k e Hp E). destruct (expired now (ce_expiresAt e)); [|split_and!; auto].
      split_and!; [by left| |cbn|done].
      * eapply agrees_sub; [exact Ha|apply delete_subseteq].
      * pose proof (map_subseteq_size _ _ (delete_subseteq (entries c) (cacheKey p k))). lia.
    + split_and!; auto.
  - unfold Set_. set (es := if _ <=? _ then _ else _). set (e := mkCacheEntry v _).
    assert (es ⊆ entries c /\ Z.of_nat (size es) < maxEntries c) as [Hsub Hsz].
    { unfold es. destruct (Z.leb_spec (maxEntries c) (Z.of_nat (size (entries c)))); [|done].
      split; [apply evict_sub|]. pose proof (evict_room now (entries c)) as Hr.
      assert (entries c <> ∅) as Hne by (intros Heq; rewrite Heq, map_size_empty in *; lia).
      specialize (Hr Hne). lia. }
    split_and!; [by left| | |done]; cbn [entries maxEntries].
    + intros p' k' e' Hp' He'. cbn [entries] in He'. destruct (decide ((p', k') = (p, k))) as [[= -> ->]|Hne].
      * rewrite lookup_insert_eq in He'. injection He' as <-. apply lookup_insert_eq.
      * rewrite lookup_insert_ne in He'.
        2: { intros Heq. apply Hne. destruct (cacheKey_inj p k p' k'); congruence. }
        rewrite lookup_insert_ne by congruence. apply Ha; [done|]. by eapply lookup_weaken.
    + pose proof (map_size_insert (cacheKey p k) e es) as Hi. destruct (es !! cacheKey p k); unfold id in Hi; lia.
  - unfold Delete. split_and!; [by left| |cbn|done].
    + intros p' k' e' Hp' He'. cbn [entries] in He'. destruct (decide ((p', k') = (p, k))) as [[= -> ->]|Hne].
      * by rewrite lookup_delete_eq in He'.
      * rewrite lookup_delete_ne in He'.
        2: { intros Heq. apply Hne. destruct (cacheKey_inj p k p' k'); congruence. }
        rewrite lookup_delete_ne by congruence. by apply Ha.
    + pose proof (map_subseteq_size _ _ (delete_subseteq (entries c) (cacheKey p k))). lia.
Qed.

(** C38. The cache is a bounded approximation of a private store per plugin:
    over any sequence of operations, whatever order evictions visit the map in,
    a [Get] that finds something finds exactly what that plugin last stored
    under that key and has not yet expired, never another plugin's value, and
    the cache never holds more entries than its cap. *)
Theorem cache_refines ops maxE :
  Forall (fun o => has_byte Ascii.zero (op_plugin o) = false) ops ->
  let '(rs, c) := cache_run ops (NewMemoryCache maxE) ∅ in
  Forall (fun ri => ri.1 = None \/ ri.1 = ri.2) rs /\ Len c <= maxEntries (NewMemoryCache maxE).
Proof using enumerates.
  intros Hops.
  assert (Hgen : forall c i, 0 < maxEntries c -> agrees c i -> Len c <= maxEntries c ->
    let '(rs, c') := cache_run ops c i in
    Forall (fun ri => ri.1 = None \/ ri.1 = ri.2) rs /\ Len c' <= maxEntries c).
  { induction Hops as [|o ops Ho Hops IH]; intros c i Hm Ha Hl; cbn [cache_run]; [by split|].
    pose proof (cache_do_spec o c i Ho Hm Ha Hl) as Hs.
    destruct (cache_do o c) as [r c1]. destruct (ideal_do o i) as [ri i1].
    destruct Hs as (Hr & Ha1 & Hl1 & Hm1). specialize (IH c1 i1). rewrite Hm1 in *.
    specialize (IH Hm Ha1 Hl1). destruct (cache_run ops c1 i1) as [rs c2]. destruct IH as [Hrs Hc].
    split; [by constructor|done]. }
  assert (0 < maxEntries (NewMemoryCache maxE)) as Hm.
  { unfold NewMemoryCache. cbn. destruct (Z.leb_spec maxE 0); [|done]. unfold DefaultCacheEntries. lia. }
  apply Hgen; [done| |].
  - intros p k e _. cbn. by rewrite lookup_empty.
  - unfold Len. cbn [entries NewMemoryCache]. rewrite map_size_empty. lia.
Qed.
End cache.

Lemma cache_refines_witness :
  let ops := [OpSet 0 "a" "k" "1" 10; OpSet 0 "b" "k" "2" 0; OpGet 5 "a" "k"; OpGet 5 "b" "k"] in
  (cache_run (fun m => (map_to_list m).*1) ops (NewMemoryCache 1) ∅).1
  = [(None, None); (None, None); (None, Some "1"); (Some "2", Some "2")] /\
  let '(rs, c) := cache_run (fun m => (map_to_list m).*1) ops (NewMemoryCache 1) ∅ in
  Forall (fun ri => ri.1 = None \/ ri.1 = ri.2) rs /\ Len c <= 1.
Proof.
  cbv zeta. split; [vm_compute; reflexivity|].
  exact (cache_refines (fun m => (map_to_list m).*1) (fun m => Permutation_refl _)
           [OpSet 0 "a" "k" "1" 10; OpSet 0 "b" "k" "2" 0; OpGet 5 "a" "k"; OpGet 5 "b" "k"] 1
           ltac:(repeat constructor)).
Defined.

(** A value is there right after it was stored. *)
Lemma Get_after_Set order now p k v ttl c : (Get now p k (Set_ now order p k v ttl c)).1 = Some v.
Proof.
  unfold Get, Set_. cbn [entries]. rewrite lookup_insert_eq. cbn [ce_expiresAt ce_value].
  destruct (Z.ltb_spec 0 ttl); [|done]. cbn. destruct (Z.ltb_spec now (now + ttl)); [done|lia].
Qed.
