(* ===== verification/EventBus.v ===== *)
(** * core/event/bus.go: the in-process event broker

    Subscriptions by event name, in the order they were made, over a store of
    channels, since one channel may hold several subscriptions. *)

From S2P Require Import Prelude.

Record Event := mkEvent { ev_Name : string; ev_Data : string }.

Notation chan_id := nat.

(** A channel: its buffer's capacity and contents, the receivers blocked on it
    and what has been handed to them. *)
Record chan := mkChan { ch_cap : nat; ch_queue : list Event; ch_waiting : nat; ch_received : list Event }.

Record EventBus := mkEventBus {
  subscribers : gmap string (list chan_id);
  chans : gmap chan_id chan;
  dropped : list string  (** what [onDrop] was called with, oldest first *)
}.

Definition NewEventBus (store : gmap chan_id chan) : EventBus := mkEventBus ∅ store [].

Definition subs_of (name : string) (b : EventBus) : list chan_id := default [] (subscribers b !! name).

Definition Subscribe (name : string) (ch : chan_id) (b : EventBus) : EventBus :=
  mkEventBus (<[name := subs_of name b ++ [ch]]> (subscribers b)) (chans b) (dropped b).

(** The first subscription of [ch], if any, is removed. *)
Fixpoint remove_first (ch : chan_id) (subs : list chan_id) : list chan_id :=
  match subs with
  | [] => []
  | sub :: subs => if Nat.eqb sub ch then subs else sub :: remove_first ch subs
  end.

Definition Unsubscribe (name : string) (ch : chan_id) (b : EventBus) : EventBus :=
  let subs := remove_first ch (subs_of name b) in
  mkEventBus (match subs with [] => delete name (subscribers b) | _ => <[name := subs]> (subscribers b) end)
    (chans b) (dropped b).

(** A send in a [select] with a default: to a blocked receiver, into the
    buffer, or not at all. *)
Definition try_send (ev : Event) (c : chan) : option chan :=
  match ch_waiting c with
  | S n => Some (mkChan (ch_cap c) (ch_queue c) n (ch_received c ++ [ev]))
  | O => if Nat.ltb (length (ch_queue c)) (ch_cap c)
         then Some (mkChan (ch_cap c) (ch_queue c ++ [ev]) O (ch_received c)) else None
  end.

Definition deliver (ev : Event) (b : EventBus) (ch : chan_id) : EventBus :=
  match chans b !! ch ≫= try_send ev with
  | Some c => mkEventBus (subscribers b) (<[ch := c]> (chans b)) (dropped b)
  | None => mkEventBus (subscribers b) (chans b) (dropped b ++ [ev_Name ev])
  end.

Definition Publish (name data : string) (b : EventBus) : EventBus :=
  foldl (deliver (mkEvent name data)) b (subs_of name b).

Definition SubscriberCount (name : string) (b : EventBus) : nat := length (subs_of name b).

(** What has reached a channel, read or still in its buffer. *)
Definition delivered (ch : chan_id) (b : EventBus) : list Event :=
  match chans b !! ch with Some c => ch_received c ++ ch_queue c | None => [] end.

Lemma count_remove_first ch subs :
  length (remove_first ch subs) = length subs - (if decide (ch ∈ subs) then 1 else 0).
Proof.
  induction subs as [|sub subs IH]; [done|]. cbn [remove_first length].
  destruct (Nat.eqb_spec sub ch) as [->|Hne].
  - rewrite decide_True by (by left). lia.
  - cbn [length]. rewrite IH. destruct (decide (ch ∈ subs)) as [Hin|Hin].
    + rewrite decide_True by (by right). destruct subs; [by apply not_elem_of_nil in Hin|]. simpl. lia.
    + rewrite decide_False; [lia|]. rewrite elem_of_cons. naive_solver.
Qed.

(** Unsubscribing removes one subscription of the channel, no other. *)
Lemma Unsubscribe_spec name ch b name' :
  subs_of name' (Unsubscribe name ch b) =
  if decide (name' = name) then remove_first ch (subs_of name b) else subs_of name' b.
Proof.
  unfold Unsubscribe. case_decide as H.
  - subst. unfold subs_of at 1. cbn [subscribers]. destruct (remove_first ch (subs_of name b)) eqn:E.
    + by rewrite lookup_delete_eq.
    + by rewrite lookup_insert_eq.
  - unfold subs_of. cbn [subscribers].
    destruct (remove_first _ _); [by rewrite lookup_delete_ne|by rewrite lookup_insert_ne].
Qed.

Lemma deliver_subs ev b ch : subscribers (deliver ev b ch) = subscribers b.
Proof. unfold deliver. by destruct (_ ≫= _). Qed.

(** Publishing never blocks and accounts for every subscription: an event is
    delivered to as many subscriptions as are not reported dropped, and only to
    subscribers of its name. *)
Lemma Publish_accounts name data b :
  subscribers (Publish name data b) = subscribers b /\
  (forall ch, ch ∉ subs_of name b -> chans (Publish name data b) !! ch = chans b !! ch) /\
  exists k, dropped (Publish name data b) = dropped b ++ replicate k name /\ k <= SubscriberCount name b.
Proof.
  unfold Publish, SubscriberCount. generalize (subs_of name b). intros subs. revert b.
  induction subs as [|ch subs IH]; intros b; cbn [foldl].
  { split; [done|]. split; [done|]. exists 0. by rewrite app_nil_r. }
  destruct (IH (deliver (mkEvent name data) b ch)) as (H1 & H2 & k & H3 & H4). split; [by rewrite H1, deliver_subs|].
  unfold deliver in *. destruct (chans b !! ch ≫= try_send (mkEvent name data)) as [c|]; cbn [subscribers chans dropped] in *.
  - split.
    + intros ch' [Hne Hni]%not_elem_of_cons. rewrite H2 by done. by apply lookup_insert_ne.
    + exists k. split; [done|]. simpl. lia.
  - split.
    + intros ch' [Hne Hni]%not_elem_of_cons. by apply H2.
    + exists (S k). rewrite H3. cbn [ev_Name replicate]. rewrite <- app_assoc. split; [done|]. simpl. lia.
Qed.

(** A subscriber with room gets the event, once per subscription. *)
Lemma Publish_delivers name data b ch c :
  subs_of name b = [ch] -> chans b !! ch = Some c -> (ch_waiting c <> 0 \/ length (ch_queue c) < ch_cap c) ->
  delivered ch (Publish name data b) ≡ₚ delivered ch b ++ [mkEvent name data] /\ dropped (Publish name data b) = dropped b.
Proof.
  intros Hs Hc Hroom. unfold Publish. rewrite Hs. cbn [foldl]. unfold deliver, delivered. rewrite Hc. cbn.
  unfold try_send. destruct (ch_waiting c) as [|n].
  - destruct (Nat.ltb_spec (length (ch_queue c)) (ch_cap c)); [|naive_solver lia].
    cbn. rewrite lookup_insert_eq. cbn. split; [by rewrite app_assoc|done].
  - cbn. rewrite lookup_insert_eq. cbn. split; [|done]. rewrite <- !app_assoc. apply Permutation_app_head.
    apply Permutation_app_comm.
Qed.
