(* ===== verification/HostPipeline.v ===== *)
(** * The filter pipeline on the plugin host

    Concrete runs of the pipeline over the registry's own resolver: examples on
    which the pipeline's theorems apply, and the interaction of per-plugin
    admission with per-call replica choice. *)

From S2P Require Import Prelude GoStrings PathMatch Manifest Wire StableSort Chain Pipeline Breaker Instance Registry.

(** A plugin that answers CONTINUE on one replica and refuses on the other. *)
Definition demo_client (n : nat) (l : loc) (deadline : Z) (req : FilterRequest) : option FilterResponse :=
  if Nat.eqb l 2 then
    Some (mkFilterResponse ACTION_SHORT_CIRCUIT (Some (mkHttpResponse 403 ∅ "replica 2")) None)
  else Some (mkFilterResponse ACTION_CONTINUE None None).

Definition two_filters : Registration :=
  mkRegistration "waf" [1%nat; 2%nat]
    [demo_filter "first" "pre_route" 0; demo_filter "second" "pre_route" 1] false.

Definition demo_world : world := (InstallPlugin two_filters (NewRegistry 1 demo_heap)).2.

Definition demo_rc : RequestContext loc :=
  NewRequestContext "trace" "GET" "/api/x" "" "10.0.0.1" {["Accept" := ["*/*"]]} 1.

Definition demo_state : run_state world loc := mkRun demo_rc demo_world [].

Lemma admissions_released_witness :
  inst_inflight 1%nat (ReleaseAdmissions (OPS := host_ops demo_client)
    (rn_rc (Run (OPS := host_ops demo_client) (s_chain (w_current demo_world)) PHASE_PRE_ROUTE demo_state).2)
    (rn_w (Run (OPS := host_ops demo_client) (s_chain (w_current demo_world)) PHASE_PRE_ROUTE demo_state).2)).2
  = inst_inflight 1%nat demo_world.
Proof.
  apply (admissions_released (OPS := host_ops demo_client) (LAWS := host_laws demo_client)
           demo_state _ 1%nat).
  - reflexivity.
  - apply rtc_once. exists (s_chain (w_current demo_world)), PHASE_PRE_ROUTE. reflexivity.
Defined.

Definition first_filter : Filter :=
  mk_filter DefaultDefaults (mkPluginFilters "waf" [] false) (demo_filter "first" "pre_route" 0).

(** One fail-closed filter, whose only replica lets the request pass. *)
Definition one_filter : Registration :=
  mkRegistration "waf" [1%nat] [demo_filter "first" "pre_route" 0] false.

Definition one_world : world := (InstallPlugin one_filter (NewRegistry 1 demo_heap)).2.

Lemma Run_fail_closed_witness :
  exists s1 s2, run_filters (OPS := host_ops demo_client) PHASE_PRE_ROUTE [] (mkRun demo_rc one_world []) = (None, s1) /\
    run_filters (OPS := host_ops demo_client) PHASE_PRE_ROUTE [] s2 =
      (None, (Run (OPS := host_ops demo_client) (s_chain (w_current one_world)) PHASE_PRE_ROUTE
                (mkRun demo_rc one_world [])).2) /\
    coherent (rn_rc s1) /\
    ((FilterMatches first_filter (Method (rn_rc s1)) (Path (rn_rc s1)) = false /\ s2 = s1) \/
     (FilterMatches first_filter (Method (rn_rc s1)) (Path (rn_rc s1)) = true /\
      asked (OPS := host_ops demo_client) PHASE_PRE_ROUTE first_filter s1 None s2)).
Proof.
  apply (Run_fail_closed (OPS := host_ops demo_client) (s_chain (w_current one_world)) PHASE_PRE_ROUTE
           (mkRun demo_rc one_world []) _ [] first_filter []).
  - intros h. discriminate.
  - vm_compute. reflexivity.
  - vm_compute. reflexivity.
  - reflexivity.
  - vm_compute. reflexivity.
Defined.

(** Admission is kept per plugin key, but the replica is chosen per call: a
    request whose first filter was admitted on replica 1 is answered by replica
    2 on its second, with no in-flight count on replica 2 while it is. A drain
    of replica 2 at that moment reads zero and kills the process under the call,
    which [Begin] documents a drain would wait for. *)
Lemma admission_misses_replica :
  let r := Run (OPS := host_ops demo_client) (s_chain (w_current demo_world)) PHASE_PRE_ROUTE demo_state in
  r.1 = Some (mkHttpResponse 403 ∅ "replica 2") /\
  admissions (rn_rc r.2) = {["waf" := 1%nat]} /\
  inflight (inst_at (heap (rn_w r.2)) 1%nat) = 1%Z /\ inflight (inst_at (heap (rn_w r.2)) 2%nat) = 0%Z /\
  (Drain [(inflight (inst_at (heap (rn_w r.2)) 2%nat), WaitTick)] (inst_at (heap (rn_w r.2)) 2%nat)).1 = DrainClean.
Proof. vm_compute. repeat split. Qed.
