(* ===== verification/Gateway.v ===== *)
(** * core/gateway/plugin_handler.go: a request through the gateway

    The handler that wraps the whole gateway: it runs the phases of the filter
    pipeline around either Core's own routes or a plugin's backend. Core's own
    handlers, what plugins answer, session resolution and the random source are
    parameters; http.ResponseWriter is the record of what was written to it. *)

From Stdlib Require Import Ascii.
From S2P Require Import Prelude GoStrings Auth PathMatch Manifest Wire StableSort Chain Pipeline Breaker Instance Registry.

Definition PluginAPIPrefix := "/api/plugins/".
Definition DefaultBackendTimeout : Z := 30 * Second.
Definition DefaultMaxRequestBody : Z := 8 * 2 ^ 20.

(** ** Requests and response writers *)

Inductive Body := NoBody | ABody (data : string) | BrokenBody.

Record Request := mkRequest {
  rq_Method : string; rq_Path : string; rq_RawQuery : string; rq_Header : Header;
  rq_RemoteAddr : string; rq_Body : Body
}.

Record writer := mkWriter { wr_header : Header; wr_status : option Z; wr_body : string }.

Definition new_writer : writer := mkWriter ∅ None "".

(** The calls a handler makes on its ResponseWriter. *)
Inductive wop :=
| WSet (k v : string) | WAdd (k v : string) | WDel (k : string)
| WWriteHeader (status : Z) | WWrite (data : string).

Definition wr_apply (w : writer) (op : wop) : writer :=
  match op with
  | WSet k v => mkWriter (Header_Set k v (wr_header w)) (wr_status w) (wr_body w)
  | WAdd k v =>
      let c := CanonicalHeaderKey k in
      mkWriter (<[c := default [] (wr_header w !! c) ++ [v]]> (wr_header w)) (wr_status w) (wr_body w)
  | WDel k => mkWriter (Header_Del k (wr_header w)) (wr_status w) (wr_body w)
  | WWriteHeader status =>
      mkWriter (wr_header w) (match wr_status w with None => Some status | s => s end) (wr_body w)
  | WWrite data =>
      mkWriter (wr_header w) (match wr_status w with None => Some 200%Z | s => s end)
        (wr_body w +:+ data)
  end.

Definition wr_run (ops : list wop) (w : writer) : writer := foldl wr_apply w ops.

Definition newline : string := String (ascii_of_nat 10) "".

(** [http.Error] and [http.NotFound]. *)
Definition http_Error (msg : string) (code : Z) : list wop :=
  [WDel "Content-Length"; WSet "Content-Type" "text/plain; charset=utf-8";
   WSet "X-Content-Type-Options" "nosniff"; WWriteHeader code; WWrite (msg +:+ newline)].

Definition http_NotFound : list wop := http_Error "404 page not found" 404.

(** ** Identity of the request *)

Definition BearerToken (h : Header) : string :=
  let v := Header_Get h "Authorization" in
  if has_prefix v "Bearer " then trim_space (trim_prefix v "Bearer ") else "".

Definition valid_cookie_byte (a : ascii) : bool :=
  let n := nat_of_ascii a in
  Nat.leb 32 n && Nat.ltb n 127 && negb (Nat.eqb n 34) && negb (Nat.eqb n 59) && negb (Nat.eqb n 92).

Definition dquote : string := String (ascii_of_nat 34) "".

Definition cookie_value (raw : string) : option string :=
  let raw := match cut_prefix dquote raw with
             | Some r => match cut_suffix dquote r with Some v => v | None => raw end
             | None => raw
             end in
  if string_forall valid_cookie_byte raw then Some raw else None.

(** [r.Cookie]: the first valid cookie of that name in the Cookie headers. *)
Definition Cookie (h : Header) (name : string) : option string :=
  let parts := default [] (h !! "Cookie") ≫= split_byte ";"%char in
  head (omap (fun part =>
    let part := trim_space part in
    match cut_byte "="%char part with
    | Some (n, v) => if String.eqb (trim_space n) name then cookie_value v else None
    | None => if String.eqb part name then Some "" else None
    end) parts).

Definition SessionToken (h : Header) : string :=
  if negb (String.eqb (BearerToken h) "") then BearerToken h
  else default "" (Cookie h "moduless_token").

Definition traceIDFor (h : Header) (newTraceID : string) : string :=
  let fallback :=
    if negb (String.eqb (Header_Get h "X-Request-Id") "") then Header_Get h "X-Request-Id"
    else newTraceID in
  let tp := Header_Get h "traceparent" in
  if String.eqb tp "" then fallback
  else match split_byte "-"%char tp with
       | _ :: id :: _ :: _ =>
           if Nat.eqb (String.length id) 32 && negb (string_forall (Ascii.eqb "0"%char) id)
           then id else fallback
       | _ => fallback
       end.

(** [net.SplitHostPort], host part only. *)
Definition SplitHost (hp : string) : option string :=
  match cut_prefix "[" hp with
  | Some rest =>
      match cut_byte "]"%char rest with
      | None => None
      | Some (host, tail) =>
          match cut_prefix ":" tail with
          | Some port =>
              if has_byte ":" port || has_byte "[" rest || has_byte "]" tail then None else Some host
          | None => None
          end
      end
  | None =>
      match split_byte ":"%char hp with
      | [host; _] => if has_byte "[" hp || has_byte "]" hp then None else Some host
      | _ => None
      end
  end.

Definition clientIP (remoteAddr : string) : string := default remoteAddr (SplitHost remoteAddr).

(** ** Statuses and paths *)

Definition normalizeStatus (code : Z) : Z :=
  if (code =? 0)%Z then 200%Z
  else if (code <? 100)%Z || (599 <? code)%Z then 502%Z
  else code.

Definition cleanSubPath (sub : string) : string :=
  let cleaned := path_clean sub in
  if has_suffix sub "/" && negb (has_suffix cleaned "/") then cleaned +:+ "/" else cleaned.

Definition splitPluginPath (p : string) : option (string * string) :=
  let rest := trim_prefix p PluginAPIPrefix in
  if String.eqb rest p || String.eqb rest "" then None
  else match cut_byte "/"%char rest with
       | None => Some (rest, "/")
       | Some (key, sub) => Some (key, cleanSubPath (String "/" sub))
       end.

(** ** Errors of a backend call *)

Inductive backend_error := PluginUnavailable (key : string) (gone : bool) | CallError (msg : string).

Definition backend_error_string (e : backend_error) : string :=
  match e with
  | PluginUnavailable key true => "plugin " +:+ key +:+ " is not enabled"
  | PluginUnavailable key false => "plugin " +:+ key +:+ " is not accepting requests"
  | CallError msg => msg
  end.

Definition backend_status (e : backend_error) : Z :=
  match e with
  | PluginUnavailable _ gone => if gone then 404%Z else 503%Z
  | CallError _ => 502%Z
  end.

(** ** The handler *)

Section handler.
Context (client_filter : nat -> loc -> Z -> FilterRequest -> option FilterResponse).
Context (client_http : nat -> loc -> Z -> HttpRequest -> result string HttpResponse).
(** The rest of the gateway: what it writes, and what it does to the host. *)
Context (next : Request -> world -> list wop * world).
(** [None] when authentication is off. *)
Context (Auth : option (string -> option User)).
Context (BackendTimeout MaxBodyBytes : Z).

#[local] Instance ops : TargetOps world loc := host_ops client_filter.

Notation rstate := (run_state world loc).

Definition backendTimeout : Z := if (0 <? BackendTimeout)%Z then BackendTimeout else DefaultBackendTimeout.
Definition maxBody : Z := if (0 <? MaxBodyBytes)%Z then MaxBodyBytes else DefaultMaxRequestBody.

Definition with_rc (f : RequestContext loc -> RequestContext loc) (s : rstate) : rstate :=
  mkRun (f (rn_rc s)) (rn_w s) (rn_log s).

Definition set_status (status : Z) : rstate -> rstate :=
  with_rc (fun rc => set_Response status (ResponseHeader rc) (ResponseBody rc) rc).

Definition readBody (r : Request) : result (list wop) string :=
  match rq_Body r with
  | NoBody => Ok ""
  | ABody data => if (maxBody <? body_len data)%Z then Err (http_Error "request body too large" 413)
                  else Ok data
  | BrokenBody => Err (http_Error "request body too large" 413)
  end.

Definition add_headers (h : Header) : list wop :=
  map_to_list h ≫= fun kv => WAdd kv.1 <$> kv.2.

Definition writeResponse (resp : HttpResponse) (s : rstate) : list wop * rstate :=
  let status := normalizeStatus (StatusCode resp) in
  (add_headers (rs_Headers resp) ++ [WWriteHeader status; WWrite (rs_Body resp)],
   with_rc (set_Response status (FromProtoHeaders (map_to_list (rs_Headers resp))) (rs_Body resp)) s).

Definition writeFinal (s : rstate) : list wop :=
  let rc := rn_rc s in
  add_headers (ResponseHeader rc) ++
  [WWriteHeader (normalizeStatus (ResponseStatus rc)); WWrite (ResponseBody rc)].

Definition dispatch (inst : loc) (sub : string) (s : rstate) : result backend_error HttpResponse * rstate :=
  let rc := rn_rc s in
  let req := mkHttpRequest (TraceID rc) (Method rc) sub (Query rc) (ToProtoHeaders (rc_Header rc))
               (RequestBody rc) (rc_Identity rc) (ClientIP rc) in
  match client_http (w_calls (rn_w s)) inst backendTimeout req with
  | Err msg => (Err (CallError msg), mkRun rc (inst_RecordFailure inst (tick_call (rn_w s))) (rn_log s))
  | Ok resp => (Ok resp, mkRun rc (inst_RecordSuccess inst (tick_call (rn_w s))) (rn_log s))
  end.

Definition admit_instance (key : string) (inst : loc) (s : rstate) : bool * rstate :=
  let '(ok, rc, w) := Admit key inst (rn_rc s) (rn_w s) in (ok, mkRun rc w (rn_log s)).

(** The second attempt of [callBackend], against the live registry. *)
Definition callBackend_live (inst : option loc) (key sub : string) (s : rstate)
    : result backend_error HttpResponse * rstate :=
  let '(next, w) := Pick (w_current (rn_w s)) key (rn_w s) in
  let s := mkRun (rn_rc s) w (rn_log s) in
  match next with
  | None => (Err (PluginUnavailable key true), s)
  | Some l =>
      if decide (Some l = inst) then (Err (PluginUnavailable key false), s)
      else match admit_instance key l s with
           | (true, s) => dispatch l sub s
           | (false, s) => (Err (PluginUnavailable key false), s)
           end
  end.

Definition callBackend (snap : Snapshot) (key sub : string) (s : rstate)
    : result backend_error HttpResponse * rstate :=
  let '(inst, w) := Pick snap key (rn_w s) in
  let s := mkRun (rn_rc s) w (rn_log s) in
  match inst with
  | Some l =>
      match admit_instance key l s with
      | (true, s) => dispatch l sub s
      | (false, s) => callBackend_live inst key sub s
      end
  | None => callBackend_live inst key sub s
  end.

(** A stage either answers the request or passes it on. *)
Inductive stage := Answered (ops : list wop) (s : rstate) | Passed (s : rstate).

Definition run_phase (chain : Chain) (phase : Phase) (s : rstate) : stage :=
  match Run chain phase s with
  | (Some resp, s) => let '(o, s) := writeResponse resp s in Answered o s
  | (None, s) => Passed s
  end.

Definition and_then (st : stage) (k : rstate -> stage) : stage :=
  match st with Answered o s => Answered o s | Passed s => k s end.

Definition resolve_session (r : Request) (s : rstate) : rstate :=
  match Auth with
  | None => s
  | Some resolve =>
      match resolve (SessionToken (rq_Header r)) with
      | None => s
      | Some user =>
          with_rc (set_Identity (Some (mkIdentity (itoa (u_ID user)) (u_Username user) [u_Role user]))) s
      end
  end.

(** [servePlugin] up to the backend: session, authenticate, authorize, the
    refusal of anonymous callers, pre_handler. *)
Definition before_backend (r : Request) (chain : Chain) (s : rstate) : stage :=
  let s := resolve_session r s in
  and_then (run_phase chain PHASE_AUTHENTICATE s) (fun s =>
  and_then (run_phase chain PHASE_AUTHORIZE s) (fun s =>
  match Auth, rc_Identity (rn_rc s) with
  | Some _, None => Answered (http_Error "unauthenticated" 401) (set_status 401 s)
  | _, _ => run_phase chain PHASE_PRE_HANDLER s
  end)).

(** The rest of [servePlugin]: the backend call and the phases after it. *)
Definition backend_stage (snap : Snapshot) (chain : Chain) (s : rstate) : list wop * rstate :=
  match splitPluginPath (Path (rn_rc s)) with
  | None => (http_NotFound, s)
  | Some (key, sub) =>
      match callBackend snap key sub s with
      | (Err e, s) =>
          let s := set_status (backend_status e) s in
          match run_phase chain PHASE_ON_ERROR s with
          | Answered o s => (o, s)
          | Passed s => (http_Error (backend_error_string e) (backend_status e), s)
          end
      | (Ok resp, s) =>
          let s := with_rc (set_Response (StatusCode resp)
                     (FromProtoHeaders (map_to_list (rs_Headers resp))) (rs_Body resp)) s in
          let after := if (500 <=? ResponseStatus (rn_rc s))%Z then run_phase chain PHASE_ON_ERROR s
                       else Passed s in
          match and_then after (run_phase chain PHASE_POST_HANDLER) with
          | Answered o s => (o, s)
          | Passed s => (writeFinal s, s)
          end
      end
  end.

Definition servePlugin (r : Request) (snap : Snapshot) (chain : Chain) (s : rstate) : list wop * rstate :=
  match before_backend r chain s with
  | Answered o s => (o, s)
  | Passed s => backend_stage snap chain s
  end.

(** Handing over to the rest of the gateway. The recorder remembers the last
    status passed to WriteHeader, 200 if there was none. *)
Definition recorded_status (ops : list wop) : Z :=
  foldl (fun st op => match op with WWriteHeader s => s | _ => st end) 200%Z ops.
Definition recorded_body (ops : list wop) : string :=
  foldl (fun b op => match op with WWrite d => b +:+ d | _ => b end) "" ops.

Definition release (s : rstate) : rstate :=
  let '(rc, w) := ReleaseAdmissions (rn_rc s) (rn_w s) in mkRun rc w (rn_log s).

Definition serve_core (r : Request) (wr : writer) (chain : Chain) (s : rstate) : list wop * rstate :=
  let s := release s in
  let '(o, w) := next r (rn_w s) in
  let s := mkRun (rn_rc s) w (rn_log s) in
  if negb (HasPhase chain PHASE_POST_HANDLER) && negb (HasPhase chain PHASE_LOG) then (o, s)
  else
    (o, with_rc (set_Response (recorded_status o) (wr_header (wr_run o wr))
          (if anyNeedsResponseBody chain then recorded_body o else "")) s).

(** [serve] without its deferred calls. [newTraceID] is the fresh random id. *)
Definition serve_body (r : Request) (newTraceID : string) (w : world) : writer * rstate :=
  let snap := w_current w in
  let chain := s_chain snap in
  let traceID := traceIDFor (rq_Header r) newTraceID in
  let wr := wr_apply new_writer (WSet "X-Request-Id" traceID) in
  let s : rstate := mkRun (NewRequestContext traceID (rq_Method r) (rq_Path r) (rq_RawQuery r)
                   (clientIP (rq_RemoteAddr r)) (rq_Header r) (w_now w)) w [] in
  let isPluginRoute := has_prefix (rq_Path r) PluginAPIPrefix in
  let buffered := anyNeedsRequestBody chain || isPluginRoute in
  match (if buffered then readBody r else Ok "") with
  | Err o => (wr_run o wr, set_status 413 s)
  | Ok body =>
      let s := with_rc (set_RequestBody body) s in
      match run_phase chain PHASE_PRE_ROUTE s with
      | Answered o s => (wr_run o wr, s)
      | Passed s =>
          if isPluginRoute then
            let '(o, s) := servePlugin r snap chain s in (wr_run o wr, s)
          else if has_prefix (Path (rn_rc s)) PluginAPIPrefix then
            match (if buffered then Ok (RequestBody (rn_rc s)) else readBody r) with
            | Err o => (wr_run o wr, set_status 413 s)
            | Ok body =>
                let '(o, s) := servePlugin r snap chain (with_rc (set_RequestBody body) s) in
                (wr_run o wr, s)
            end
          else
            let '(o, s) := serve_core r wr chain s in (wr_run o wr, s)
      end
  end.

(** [serve]: what was written, the request copy handed to the log phase's
    goroutine, and the host after the request let go of everything. *)
Definition serve (r : Request) (newTraceID : string) (w : world) : writer * RequestContext loc * world :=
  let '(wr, s) := serve_body r newTraceID w in
  let async := ForAsync (rn_rc s) in
  (wr, async, rn_w (release s)).

(** The log phase, whenever its goroutine gets to run. *)
Definition logPhase (chain : Chain) (async : RequestContext loc) (w : world) : world :=
  (RunAsync chain PHASE_LOG async w).1.
End handler.

(** ** Statuses and paths *)

(** Whatever status a plugin answers, the one Core passes to [WriteHeader]
    is a real HTTP status, so the call cannot panic; a status already in the
    range is passed on unchanged, and an unset one becomes 200. *)
Lemma normalizeStatus_spec code :
  (100 <= normalizeStatus code <= 599)%Z /\
  (normalizeStatus code = code <-> (100 <= code <= 599)%Z) /\ normalizeStatus 0 = 200%Z /\
  (code <> 0%Z -> ~ (100 <= code <= 599)%Z -> normalizeStatus code = 502%Z).
Proof.
  unfold normalizeStatus. destruct (Z.eqb_spec code 0), (Z.ltb_spec code 100), (Z.ltb_spec 599 code); simpl; lia.
Qed.

Lemma normalizeStatus_idem code : normalizeStatus (normalizeStatus code) = normalizeStatus code.
Proof.
  unfold normalizeStatus. destruct (Z.eqb_spec code 0), (Z.ltb_spec code 100), (Z.ltb_spec 599 code); simpl;
    try done.
  destruct (Z.eqb_spec code 0), (Z.ltb_spec code 100), (Z.ltb_spec 599 code); simpl; try done; lia.
Qed.

Definition no_dots (sub : string) : Prop :=
  Forall (fun s => s <> ".." /\ s <> ".") (split_byte "/"%char sub).

Lemma path_clean_rooted s :
  has_prefix (path_clean (String "/" s)) "/" = true /\ no_dots (path_clean (String "/" s)).
Proof.
  unfold path_clean, no_dots. replace (has_prefix (String "/" s) "/") with true by done.
  set (segs := clean_segs true [] (split_byte "/" (String "/" s))).
  assert (Forall plain_seg segs) as Hp by (apply clean_segs_plain; constructor).
  assert (Forall (fun x => has_byte "/"%char x = false) segs) as Hb.
  { apply list.Forall_forall. intros x Hx. apply clean_segs_subset in Hx as [Hx|Hx].
    - by apply not_elem_of_nil in Hx.
    - by apply (proj1 (list.Forall_forall _ _) (split_byte_no_sep "/"%char (String "/" s))). }
  split; [done|]. change ("/" +:+ join "/" segs) with (String "/" (join "/" segs)).
  simpl. constructor; [done|]. destruct (decide (segs = [])) as [->|Hne]; [by repeat constructor|].
  rewrite split_join by done. eapply list.Forall_impl; [exact Hp|]. by intros x (_ & ? & ?).
Qed.

Lemma cleanSubPath_safe s :
  has_prefix (cleanSubPath (String "/" s)) "/" = true /\ no_dots (cleanSubPath (String "/" s)).
Proof.
  unfold cleanSubPath. pose proof (path_clean_rooted s) as [Hp Hd]. destruct (_ && _); [|done]. split.
  - apply has_prefix_iff in Hp as [r ->]. apply has_prefix_iff. by exists (r +:+ "/").
  - unfold no_dots in *. rewrite (split_byte_snoc "/"%char (path_clean (String "/" s))).
    apply Forall_app. split; [done|by repeat constructor].
Qed.

(** A plugin path splits into a key with no slash in it and a sub-path that
    is rooted and has no "." or ".." segment, however the request spelled it, so
    a backend that joins it onto a directory stays inside; and every path under
    the prefix except the bare prefix is routable. *)
Lemma splitPluginPath_spec p :
  match splitPluginPath p with
  | Some (key, sub) =>
      has_byte "/"%char key = false /\ has_prefix sub "/" = true /\ no_dots sub /\
      ((p = PluginAPIPrefix +:+ key /\ sub = "/") \/
       exists raw, p = PluginAPIPrefix +:+ key +:+ "/" +:+ raw /\ sub = cleanSubPath ("/" +:+ raw))
  | None => p = PluginAPIPrefix \/ has_prefix p PluginAPIPrefix = false
  end.
Proof.
  unfold splitPluginPath, trim_prefix. destruct (cut_prefix PluginAPIPrefix p) as [rest|] eqn:E.
  - apply cut_prefix_spec in E as ->. unfold default. cbn [from_option id].
    destruct (String.eqb_spec rest (PluginAPIPrefix +:+ rest)) as [He|_].
    { apply (f_equal String.length) in He. rewrite sapp_length in He. simpl in He. lia. }
    destruct (String.eqb_spec rest "") as [->|Hne]; simpl orb; cbv iota.
    { left. reflexivity. }
    destruct (cut_byte "/"%char rest) as [[key sub]|] eqn:Ec.
    + apply cut_byte_spec in Ec as [-> Hk]. split; [done|].
      destruct (cleanSubPath_safe sub) as [H1 H2]. split; [done|]. split; [done|]. right. by exists sub.
    + apply cut_byte_none in Ec. split; [done|]. split; [done|]. split; [by repeat constructor|]. by left.
  - unfold default. simpl from_option. rewrite String.eqb_refl. simpl. right.
    unfold has_prefix. by rewrite E.
Qed.

(** ** What a client is told is what the log phase is told *)

Lemma wr_run_app o1 o2 w : wr_run (o1 ++ o2) w = wr_run o2 (wr_run o1 w).
Proof. unfold wr_run. by rewrite foldl_app. Qed.

Lemma wr_run_add_headers h w : wr_status (wr_run (add_headers h) w) = wr_status w.
Proof.
  unfold add_headers. generalize (map_to_list h). intros l. revert w.
  induction l as [|[k vs] l IH]; intros w; [done|]. rewrite bind_cons, wr_run_app, IH. clear. cbn [fst snd].
  revert w. induction vs as [|v vs IH]; intros w; [done|]. rewrite fmap_cons. simpl. by rewrite IH.
Qed.

Lemma wr_run_answer h status data w :
  wr_status w = None ->
  wr_status (wr_run (add_headers h ++ [WWriteHeader status; WWrite data]) w) = Some status.
Proof. intros Hw. rewrite wr_run_app. simpl. by rewrite wr_run_add_headers, Hw. Qed.

Lemma wr_run_error msg code w : wr_status w = None -> wr_status (wr_run (http_Error msg code) w) = Some code.
Proof. intros Hw. simpl. by rewrite Hw. Qed.

Section handler_facts.
Context (client_filter : nat -> loc -> Z -> FilterRequest -> option FilterResponse).
Context (client_http : nat -> loc -> Z -> HttpRequest -> result string HttpResponse).
Context (next : Request -> world -> list wop * world).
Context (Auth : option (string -> option User)).
Context (BackendTimeout MaxBodyBytes : Z).

#[local] Instance ops' : TargetOps world loc := host_ops client_filter.
#[local] Instance laws' : TargetLaws world loc := host_laws client_filter.
Notation rstate := (run_state world loc).
Notation run_phase := (run_phase client_filter).

Lemma Run_status chain phase (s : rstate) :
  ResponseStatus (rn_rc (Run chain phase s).2) = ResponseStatus (rn_rc s).
Proof using.
  unfold Run. destruct (negb _); [done|]. apply run_filters_gated.
Qed.

(** The writer ends with the recorded status. *)
Definition told (w : writer) (o : list wop) (s : rstate) : Prop :=
  wr_status (wr_run o w) = Some (normalizeStatus (ResponseStatus (rn_rc s))).

Lemma run_phase_told w chain phase s :
  wr_status w = None ->
  match run_phase chain phase s with
  | Answered o s' => told w o s'
  | Passed s' => ResponseStatus (rn_rc s') = ResponseStatus (rn_rc s)
  end.
Proof using.
  intros Hw. unfold Gateway.run_phase. pose proof (Run_status chain phase s) as Hs.
  destruct (Run chain phase s) as [[resp|] s1]; simpl in *; [|done].
  unfold told. rewrite wr_run_answer by done. simpl. by rewrite normalizeStatus_idem.
Qed.

Lemma before_backend_told w r chain s :
  wr_status w = None ->
  match before_backend client_filter Auth r chain s with
  | Answered o s' => told w o s'
  | Passed s' => True
  end.
Proof using.
  intros Hw. unfold before_backend, and_then.
  pose proof (run_phase_told w chain PHASE_AUTHENTICATE (resolve_session Auth r s) Hw) as H1.
  destruct (run_phase chain PHASE_AUTHENTICATE _) as [o1 s1|s1]; [done|].
  pose proof (run_phase_told w chain PHASE_AUTHORIZE s1 Hw) as H2.
  destruct (run_phase chain PHASE_AUTHORIZE s1) as [o2 s2|s2]; [done|].
  pose proof (run_phase_told w chain PHASE_PRE_HANDLER s2 Hw) as H3.
  destruct Auth; [destruct (rc_Identity (rn_rc s2))|].
  - by destruct (run_phase chain PHASE_PRE_HANDLER s2).
  - unfold told. by rewrite wr_run_error.
  - by destruct (run_phase chain PHASE_PRE_HANDLER s2).
Qed.

(** On every way out of a plugin route, the status the client receives is
    the one left in the request for the log phase, normalised, with one
    exception: a path that names no plugin is answered 404 and leaves the
    recorded status untouched. *)
Lemma servePlugin_status w r snap chain s :
  wr_status w = None ->
  let o := (servePlugin client_filter client_http Auth BackendTimeout r snap chain s).1 in
  let s' := (servePlugin client_filter client_http Auth BackendTimeout r snap chain s).2 in
  told w o s' \/
  (splitPluginPath (Path (rn_rc s')) = None /\ wr_status (wr_run o w) = Some 404%Z).
Proof using.
  intros Hw. unfold servePlugin.
  pose proof (before_backend_told w r chain s Hw) as Hb.
  destruct (before_backend client_filter Auth r chain s) as [o1 s1|s1]; [by left|]. clear Hb.
  unfold backend_stage. destruct (splitPluginPath (Path (rn_rc s1))) as [[key sub]|] eqn:Ep.
  2: { right. simpl. by rewrite Hw. }
  left. destruct (callBackend _ _ _ snap key sub s1) as [[resp|e] s2].
  - set (s3 := with_rc _ s2).
    destruct (500 <=? ResponseStatus (rn_rc s3))%Z; simpl and_then.
    + pose proof (run_phase_told w chain PHASE_ON_ERROR s3 Hw) as H4.
      destruct (run_phase chain PHASE_ON_ERROR s3) as [o4 s4|s4]; [done|]. simpl.
      pose proof (run_phase_told w chain PHASE_POST_HANDLER s4 Hw) as H5.
      destruct (run_phase chain PHASE_POST_HANDLER s4) as [o5 s5|s5]; [done|].
      unfold told, writeFinal. cbn [fst snd]. by rewrite wr_run_answer.
    + pose proof (run_phase_told w chain PHASE_POST_HANDLER s3 Hw) as H5.
      destruct (run_phase chain PHASE_POST_HANDLER s3) as [o5 s5|s5]; [done|].
      unfold told, writeFinal. cbn [fst snd]. by rewrite wr_run_answer.
  - set (s3 := set_status _ s2).
    pose proof (run_phase_told w chain PHASE_ON_ERROR s3 Hw) as H4.
    destruct (run_phase chain PHASE_ON_ERROR s3) as [o4 s4|s4]; [done|].
    unfold told. cbn [fst snd]. rewrite wr_run_error by done. rewrite H4. simpl.
    destruct e as [k []|]; reflexivity.
Qed.

(** *** Authentication *)

Definition session_identity (r : Request) : option Identity :=
  resolve ← Auth; user ← resolve (SessionToken (rq_Header r));
  Some (mkIdentity (itoa (u_ID user)) (u_Username user) [u_Role user]).

(** The identities the filters of a phase set, from the state [start] the phase
    began in: a filter whose plugin holds the identity permission matched the
    request at its turn, was asked, and answered a mutation that sets it. *)
Definition granted (chain : Chain) (phase : Phase) (start : rstate) (id : Identity) : Prop :=
  exists l1 f l2 s1 resp rc w m,
    ChainFilters chain phase = l1 ++ f :: l2 /\ AllowIdentityMutation f = true /\
    run_filters phase l1 start = (None, s1) /\
    FilterMatches f (Method (rn_rc s1)) (Path (rn_rc s1)) = true /\
    answers phase f s1 resp rc w /\
    fr_Action resp = ACTION_MUTATE /\ Mutation resp = Some m /\ SetIdentity m = Some id.

(** The identities a request may act under on a plugin route it entered in
    the state [s]: the user its session belongs to, or one set in the
    authenticate phase or, once that let the request pass, in the authorize
    phase. *)
Definition entitled (r : Request) (chain : Chain) (s : rstate) (id : Identity) : Prop :=
  session_identity r = Some id \/
  granted chain PHASE_AUTHENTICATE (resolve_session Auth r s) id \/
  exists s1, run_phase chain PHASE_AUTHENTICATE (resolve_session Auth r s) = Passed s1 /\
    granted chain PHASE_AUTHORIZE s1 id.

Lemma applyMutation_identity m phase allow (rc : RequestContext loc) :
  rc_Identity (applyMutation m phase allow rc) =
  match m ≫= SetIdentity with
  | Some id => if allow then Some id else rc_Identity rc
  | None => rc_Identity rc
  end.
Proof using Type.
  destruct m as [m|]; [|done]. unfold applyMutation. rewrite set_values_same. simpl.
  by repeat case_match; simplify_eq/=.
Qed.

Lemma runOne_identity phase f s s' :
  runOne phase f s = (None, s') ->
  rc_Identity (rn_rc s') = rc_Identity (rn_rc s) \/
  exists id resp rc w m, rc_Identity (rn_rc s') = Some id /\ AllowIdentityMutation f = true /\
    identityMutationAllowed phase = true /\ answers phase f s resp rc w /\
    fr_Action resp = ACTION_MUTATE /\ Mutation resp = Some m /\ SetIdentity m = Some id.
Proof using Type.
  intros E. apply runOne_cases in E as [(st & msg & _ & _ & Hs & _)|(resp & rc & Han & Hd)].
  { left. symmetry. apply Hs. }
  assert (same_request (rn_rc s) rc) as Hs.
  { destruct Han as (t & q & rc0 & w1 & w2 & w3 & w4 & _ & _ & _ & _ & _ & _ & _ & Hs & _). exact Hs. }
  assert (rc_Identity rc = rc_Identity (rn_rc s)) as Hid by (symmetry; apply Hs).
  unfold decides in Hd. destruct (fr_Action resp) eqn:Ea; [|by left; destruct Hd as [_ ->]..|].
  { left. by destruct Hd as [_ ->]. }
  destruct Hd as [_ Hrc]. rewrite Hrc, applyMutation_identity, Hid.
  destruct (Mutation resp) as [m|] eqn:Em; simpl; [|by left].
  destruct (SetIdentity m) as [id|] eqn:Ei; [|by left].
  destruct (AllowIdentityMutation f && identityMutationAllowed phase) eqn:Eb; [|by left].
  apply andb_true_iff in Eb as [H1 H2]. right. exists id, resp, rc, (rn_w s'), m. done.
Qed.

Lemma run_filters_identity chain phase start l1 fs s1 s' :
  ChainFilters chain phase = l1 ++ fs ->
  run_filters phase l1 start = (None, s1) -> run_filters phase fs s1 = (None, s') ->
  rc_Identity (rn_rc s') = rc_Identity (rn_rc s1) \/
  exists id, rc_Identity (rn_rc s') = Some id /\ identityMutationAllowed phase = true /\
    granted chain phase start id.
Proof using Type.
  revert l1 s1. induction fs as [|f fs IH]; intros l1 s1 Hc H1 H2; simpl in H2.
  { left. by injection H2 as ->. }
  assert (ChainFilters chain phase = (l1 ++ [f]) ++ fs) as Hc' by by rewrite <- (assoc_L (++)).
  destruct (FilterMatches f _ _) eqn:Em; simpl in H2.
  - destruct (runOne phase f s1) as [[|] s2] eqn:E1; [done|].
    assert (run_filters phase (l1 ++ [f]) start = (None, s2)) as H1'.
    { rewrite run_filters_app, H1. simpl. by rewrite Em, E1. }
    destruct (IH _ _ Hc' H1' H2) as [Hi|Hi]; [|by right]. rewrite Hi.
    apply runOne_identity in E1 as [Ho|(id & resp & rc & w & m & Ho & Ha & Hp & Hrest)]; [by left|right].
    exists id. split; [done|]. split; [done|]. exists l1, f, fs, s1, resp, rc, w, m. done.
  - apply (IH (l1 ++ [f])); [done| |done]. rewrite run_filters_app, H1. simpl. by rewrite Em.
Qed.

Lemma run_phase_identity chain phase s s' :
  run_phase chain phase s = Passed s' ->
  rc_Identity (rn_rc s') = rc_Identity (rn_rc s) \/
  exists id, rc_Identity (rn_rc s') = Some id /\ identityMutationAllowed phase = true /\
    granted chain phase s id.
Proof using Type.
  unfold Gateway.run_phase, Run. destruct (negb _); [by intros [= <-]; left|].
  destruct (run_filters phase (ChainFilters chain phase) s) as [[resp|] s1] eqn:E; [done|].
  intros [= <-]. by apply (run_filters_identity chain phase s [] (ChainFilters chain phase) s).
Qed.

(** A request that gets as far as the backend call has an identity it is
    entitled to. *)
Lemma before_backend_identity resolve r chain s s' :
  Auth = Some resolve -> rc_Identity (rn_rc s) = None ->
  before_backend client_filter Auth r chain s = Passed s' ->
  exists id, rc_Identity (rn_rc s') = Some id /\ entitled r chain s id.
Proof using Type.
  intros HA H0. unfold before_backend, and_then, entitled.
  assert (rc_Identity (rn_rc (resolve_session Auth r s)) = session_identity r) as Hs.
  { unfold resolve_session, session_identity. rewrite HA. simpl. by destruct (resolve _). }
  destruct (run_phase chain PHASE_AUTHENTICATE _) as [o1 s1|s1] eqn:E1; [done|].
  destruct (run_phase chain PHASE_AUTHORIZE s1) as [o2 s2|s2] eqn:E2; [done|].
  intros H. rewrite HA in H. destruct (rc_Identity (rn_rc s2)) as [id|] eqn:Ei; [|done].
  apply run_phase_identity in H as [H|(i & _ & H & _)]; [|discriminate H].
  exists id. split; [by rewrite H|].
  apply run_phase_identity in E2 as [E2|(i & Hi & _ & Hg)]; [|right; right; exists s1; split; [done|congruence]].
  apply run_phase_identity in E1 as [E1|(i & Hi & _ & Hg)]; [left; congruence|right; left; congruence].
Qed.

(** *** What a backend can be asked *)

Section same_answers.
Context (http http' : nat -> loc -> Z -> HttpRequest -> result string HttpResponse) (id : Identity).
Hypothesis agree : forall n l d q, hr_Identity q = Some id -> http n l d q = http' n l d q.

Lemma dispatch_agree l sub s :
  rc_Identity (rn_rc s) = Some id ->
  dispatch http BackendTimeout l sub s = dispatch http' BackendTimeout l sub s.
Proof using agree. intros Hi. unfold dispatch. by rewrite agree. Qed.

Lemma admit_instance_identity key l s :
  rc_Identity (rn_rc (admit_instance client_filter key l s).2) = rc_Identity (rn_rc s).
Proof using Type.
  unfold admit_instance. destruct (Admit key l (rn_rc s) (rn_w s)) as [[ok rc] w] eqn:E.
  apply Admit_same in E as [Hs _]. symmetry. apply Hs.
Qed.

Lemma callBackend_live_agree inst key sub s :
  rc_Identity (rn_rc s) = Some id ->
  callBackend_live client_filter http BackendTimeout inst key sub s =
  callBackend_live client_filter http' BackendTimeout inst key sub s.
Proof using agree.
  intros Hi. unfold callBackend_live. destruct (Pick _ key (rn_w s)) as [[l|] w]; [|done].
  case_decide; [done|]. pose proof (admit_instance_identity key l (mkRun (rn_rc s) w (rn_log s))) as Ha.
  destruct (admit_instance client_filter key l _) as [[] s1]; [|done].
  apply dispatch_agree. by etransitivity; [apply Ha|].
Qed.

Lemma callBackend_agree snap key sub s :
  rc_Identity (rn_rc s) = Some id ->
  callBackend client_filter http BackendTimeout snap key sub s =
  callBackend client_filter http' BackendTimeout snap key sub s.
Proof using agree.
  intros Hi. unfold callBackend. destruct (Pick snap key (rn_w s)) as [[l|] w]; [|by apply callBackend_live_agree].
  pose proof (admit_instance_identity key l (mkRun (rn_rc s) w (rn_log s))) as Ha.
  assert (rc_Identity (rn_rc (admit_instance client_filter key l (mkRun (rn_rc s) w (rn_log s))).2) = Some id) as Hi1
    by by etransitivity; [apply Ha|].
  destruct (admit_instance client_filter key l _) as [[] s1];
    [by apply dispatch_agree|by apply callBackend_live_agree].
Qed.

Lemma backend_stage_agree snap chain s :
  rc_Identity (rn_rc s) = Some id ->
  backend_stage client_filter http BackendTimeout snap chain s =
  backend_stage client_filter http' BackendTimeout snap chain s.
Proof using agree.
  intros Hi. unfold backend_stage. destruct (splitPluginPath _) as [[key sub]|]; [|done].
  by rewrite callBackend_agree.
Qed.
End same_answers.

(** The states in which [serve] enters a plugin route: the request as it
    arrived, with its body or none, after the pre_route phase, and with the
    body read then if that phase rewrote the path onto a plugin route. *)
Definition routed (r : Request) (newTraceID : string) (w : world) (s : rstate) : Prop :=
  let rc0 := NewRequestContext (traceIDFor (rq_Header r) newTraceID) (rq_Method r) (rq_Path r)
               (rq_RawQuery r) (clientIP (rq_RemoteAddr r)) (rq_Header r) (w_now w) in
  exists body s1, (body = "" \/ readBody MaxBodyBytes r = Ok body) /\
    run_phase (s_chain (w_current w)) PHASE_PRE_ROUTE (mkRun (set_RequestBody body rc0) w []) = Passed s1 /\
    (s = s1 \/ exists body', (body' = RequestBody (rn_rc s1) \/ readBody MaxBodyBytes r = Ok body') /\
                 s = with_rc (set_RequestBody body') s1).

Lemma routed_anonymous r newTraceID w s : routed r newTraceID w s -> rc_Identity (rn_rc s) = None.
Proof using Type.
  intros (body & s1 & _ & H1 & Hs). apply run_phase_identity in H1 as [H1|(i & _ & H1 & _)]; [|discriminate H1].
  destruct Hs as [->|(body' & _ & ->)]; exact H1.
Qed.

Lemma servePlugin_agree resolve http http' r snap chain s :
  Auth = Some resolve -> rc_Identity (rn_rc s) = None ->
  (forall n l d q id, hr_Identity q = Some id -> entitled r chain s id -> http n l d q = http' n l d q) ->
  servePlugin client_filter http Auth BackendTimeout r snap chain s =
  servePlugin client_filter http' Auth BackendTimeout r snap chain s.
Proof using Type.
  intros HA H0 Hag. unfold servePlugin.
  destruct (before_backend client_filter Auth r chain s) as [|s1] eqn:E; [done|].
  apply (before_backend_identity resolve) in E as (id & Hi & He); [|done..].
  apply (backend_stage_agree _ _ id); [|done]. intros n l d q Hq. by apply (Hag _ _ _ _ id).
Qed.

(** C2. With authentication on, the only requests a plugin's backend gets are
    those that carry an identity, and one the request is entitled to: the user
    Core's own session lookup found, or an identity set, for this request, by
    a filter of the authenticate or authorize phase whose plugin holds the
    identity permission and was asked. Stated over the whole handler: two
    plugin hosts whose backends agree on the requests that carry such an
    identity, and answer anything at all to the others, serve every request
    alike, so no anonymous or otherwise attributed request is ever put to a
    backend. *)
Theorem backend_authenticated resolve http http' r newTraceID w :
  Auth = Some resolve ->
  (forall n l d q s id, routed r newTraceID w s -> hr_Identity q = Some id ->
     entitled r (s_chain (w_current w)) s id -> http n l d q = http' n l d q) ->
  serve client_filter http next Auth BackendTimeout MaxBodyBytes r newTraceID w =
  serve client_filter http' next Auth BackendTimeout MaxBodyBytes r newTraceID w.
Proof using Type.
  intros HA Hag. unfold serve.
  enough (serve_body client_filter http next Auth BackendTimeout MaxBodyBytes r newTraceID w =
          serve_body client_filter http' next Auth BackendTimeout MaxBodyBytes r newTraceID w) as -> by done.
  assert (forall s, routed r newTraceID w s ->
    servePlugin client_filter http Auth BackendTimeout r (w_current w) (s_chain (w_current w)) s =
    servePlugin client_filter http' Auth BackendTimeout r (w_current w) (s_chain (w_current w)) s) as Hsp.
  { intros s Hs. apply (servePlugin_agree resolve); [done|by eapply routed_anonymous|].
    intros n l d q id. by apply Hag. }
  unfold serve_body. set (buf := anyNeedsRequestBody _ || _).
  assert (forall body, (if buf then readBody MaxBodyBytes r else Ok "") = Ok body ->
    body = "" \/ readBody MaxBodyBytes r = Ok body) as Hb.
  { intros body. destruct buf; [by right|]. intros [= <-]. by left. }
  destruct (if buf then readBody MaxBodyBytes r else Ok "") as [body|] eqn:Eb; [|done]. specialize (Hb _ eq_refl).
  unfold routed in Hsp. destruct (run_phase _ PHASE_PRE_ROUTE _) as [|s1] eqn:E1; [done|].
  destruct (has_prefix (rq_Path r) PluginAPIPrefix).
  { by rewrite (Hsp s1) by (exists body, s1; auto). }
  destruct (has_prefix _ PluginAPIPrefix); [|done].
  destruct (if buf then _ else readBody MaxBodyBytes r) as [body'|] eqn:Eb'; [|done].
  assert (body' = RequestBody (rn_rc s1) \/ readBody MaxBodyBytes r = Ok body') as Hb'.
  { destruct buf; [|by right]. injection Eb' as <-. by left. }
  rewrite Hsp; [done|]. exists body, s1. eauto 10.
Qed.
End handler_facts.

(** ** A request gives back what it took *)

Section capacity.
Context (client_filter : nat -> loc -> Z -> FilterRequest -> option FilterResponse).
Context (client_http : nat -> loc -> Z -> HttpRequest -> result string HttpResponse).
Context (next : Request -> world -> list wop * world).
Context (Auth : option (string -> option User)).
Context (BackendTimeout MaxBodyBytes : Z).

#[local] Instance ops'' : TargetOps world loc := host_ops client_filter.
#[local] Instance laws'' : TargetLaws world loc := host_laws client_filter.
Notation rstate := (run_state world loc).

Definition bal (base : loc -> Z) (s : rstate) : Prop := balanced base (rn_rc s) (rn_w s).
Definition stage_bal (base : loc -> Z) (st : stage) : Prop :=
  match st with Answered _ s => bal base s | Passed s => bal base s end.

(** Core's own handlers reserve no plugin capacity. *)
Definition next_neutral : Prop := forall r w l, inst_inflight l (next r w).2 = inst_inflight l w.

Lemma bal_with_rc base f s :
  (forall rc, admissions (f rc) = admissions rc) -> bal base s -> bal base (with_rc f s).
Proof using.
  intros Hf Hb l. unfold with_rc. cbn [rn_rc rn_w]. rewrite (held_same (rn_rc s)) by apply Hf. apply Hb.
Qed.

Lemma bal_heap base s w : heap w = heap (rn_w s) -> bal base s -> bal base (mkRun (rn_rc s) w (rn_log s)).
Proof using.
  intros Hh Hb l. cbn [rn_rc rn_w]. rewrite <- (Hb l). unfold t_inflight. simpl.
  unfold inst_inflight. by rewrite Hh.
Qed.

Lemma bal_run_phase base chain phase s : bal base s -> stage_bal base (run_phase client_filter chain phase s).
Proof using.
  intros Hb. pose proof (Run_balanced base chain phase s Hb) as H. unfold run_phase.
  destruct (Run chain phase s) as [[resp|] s1]; [|exact H]. simpl. by apply bal_with_rc.
Qed.

Lemma bal_and_then base st k :
  stage_bal base st -> (forall s, bal base s -> stage_bal base (k s)) -> stage_bal base (and_then st k).
Proof using. destruct st; simpl; auto. Qed.

Lemma bal_before_backend base r chain s :
  bal base s -> stage_bal base (before_backend client_filter Auth r chain s).
Proof using.
  intros Hb. unfold before_backend. apply bal_and_then.
  - apply bal_run_phase. unfold resolve_session. destruct Auth as [resolve|]; [|done].
    destruct (resolve _); [|done]. by apply bal_with_rc.
  - intros s1 H1. apply bal_and_then; [by apply bal_run_phase|]. intros s2 H2.
    destruct Auth; [destruct (rc_Identity (rn_rc s2))|]; [by apply bal_run_phase| |by apply bal_run_phase].
    simpl. by apply bal_with_rc.
Qed.

Lemma bal_dispatch base l sub s : bal base s -> bal base (dispatch client_http BackendTimeout l sub s).2.
Proof using.
  intros Hb. assert (bal base (mkRun (rn_rc s) (tick_call (rn_w s)) (rn_log s))) as Ht by by apply bal_heap.
  unfold dispatch. destruct (client_http _ _ _ _); intros u; cbn [fst snd rn_rc rn_w].
  - etransitivity; [exact (@tl_success _ _ _ _ (host_laws client_filter) l (tick_call (rn_w s)) u)|apply Ht].
  - etransitivity; [exact (@tl_failure _ _ _ _ (host_laws client_filter) l (tick_call (rn_w s)) u)|apply Ht].
Qed.

Lemma bal_admit base key l s : bal base s -> bal base (admit_instance client_filter key l s).2.
Proof using.
  intros Hb. pose proof (Admit_balanced base key l _ _ Hb) as H. unfold admit_instance.
  destruct (Admit key l (rn_rc s) (rn_w s)) as [[ok rc] w]. exact H.
Qed.

Lemma bal_pick base snap key s :
  bal base s -> bal base (mkRun (rn_rc s) (Pick snap key (rn_w s)).2 (rn_log s)).
Proof using. intros Hb. apply bal_heap; [apply Pick_heap|done]. Qed.

Lemma bal_callBackend base snap key sub s :
  bal base s -> bal base (callBackend client_filter client_http BackendTimeout snap key sub s).2.
Proof using.
  intros Hb.
  assert (forall l s, bal base s ->
    bal base (callBackend_live client_filter client_http BackendTimeout l key sub s).2) as Hlive.
  { clear s Hb. intros inst s Hb. unfold callBackend_live.
    pose proof (bal_pick base (w_current (rn_w s)) key s Hb) as H1.
    destruct (Pick (w_current (rn_w s)) key (rn_w s)) as [[l|] w]; simpl in *; [|done].
    case_decide; [done|]. pose proof (bal_admit base key l _ H1) as H2.
    destruct (admit_instance _ key l _) as [[] s2]; [by apply bal_dispatch|done]. }
  unfold callBackend. pose proof (bal_pick base snap key s Hb) as H1.
  destruct (Pick snap key (rn_w s)) as [[l|] w]; simpl in *; [|by apply Hlive].
  pose proof (bal_admit base key l _ H1) as H2.
  destruct (admit_instance _ key l _) as [[] s2]; [by apply bal_dispatch|by apply Hlive].
Qed.

Lemma bal_servePlugin base r snap chain s :
  bal base s -> bal base (servePlugin client_filter client_http Auth BackendTimeout r snap chain s).2.
Proof using.
  intros Hb. unfold servePlugin. pose proof (bal_before_backend base r chain s Hb) as H1.
  destruct (before_backend client_filter Auth r chain s) as [o1 s1|s1]; [done|]. simpl in H1.
  unfold backend_stage. destruct (splitPluginPath _) as [[key sub]|]; [|done].
  pose proof (bal_callBackend base snap key sub s1 H1) as H2.
  destruct (callBackend _ _ _ snap key sub s1) as [[resp|e] s2]; simpl in H2.
  - match goal with |- context [and_then ?st ?k] => assert (stage_bal base (and_then st k)) as H3 end.
    { apply bal_and_then; [|by intros; apply bal_run_phase].
      case_match; [apply bal_run_phase|]; by apply bal_with_rc. }
    destruct (and_then _ _); exact H3.
  - pose proof (bal_run_phase base chain PHASE_ON_ERROR (set_status (backend_status e) s2)) as H3.
    destruct (run_phase _ _ _ _); apply H3; by apply bal_with_rc.
Qed.

Lemma release_rc s : admissions (rn_rc (release client_filter s)) = ∅.
Proof using. done. Qed.

Lemma bal_release base s : (forall l, in_int64 (base l)) -> bal base s -> bal base (release client_filter s).
Proof using.
  intros H0 Hb l. unfold release. rewrite (surjective_pairing (ReleaseAdmissions _ _)).
  cbn [rn_rc rn_w]. etransitivity; [exact (ReleaseAdmissions_balanced base _ _ Hb l)|].
  unfold held. simpl. rewrite map_to_list_empty. unfold count_target. simpl. f_equal. lia.
Qed.

Lemma bal_serve_core base r wr chain s :
  (forall l, in_int64 (base l)) -> next_neutral ->
  bal base s -> bal base (serve_core client_filter next r wr chain s).2.
Proof using.
  intros H0 Hn Hb. pose proof (bal_release base s H0 Hb) as H1. unfold serve_core.
  pose proof (Hn r (rn_w (release client_filter s))) as H2.
  destruct (next r (rn_w (release client_filter s))) as [o w]. cbn [fst snd] in H2.
  assert (bal base (mkRun (rn_rc (release client_filter s)) w (rn_log (release client_filter s)))) as H3.
  { intros l. etransitivity; [apply H2|apply H1]. }
  destruct (_ && _); [exact H3|]. by apply bal_with_rc.
Qed.

Lemma bal_serve_body base r id w :
  (forall l, base l = inst_inflight l w) -> next_neutral ->
  bal base (serve_body client_filter client_http next Auth BackendTimeout MaxBodyBytes r id w).2.
Proof using.
  intros Hw Hn. unfold serve_body.
  assert (forall l, in_int64 (base l)) as H0 by (intros l; rewrite Hw; apply int64_range).
  set (s := mkRun (NewRequestContext _ _ _ _ _ _ _) w []).
  assert (bal base s) as Hb.
  { intros l. unfold held. simpl. rewrite map_to_list_empty. unfold count_target. simpl.
    rewrite Z.add_0_r, (int64_id (base l)), Hw by done. done. }
  match goal with |- context [match ?x with Ok _ => _ | Err _ => _ end] => destruct x as [body|o] end;
    [|by apply bal_with_rc].
  assert (bal base (with_rc (set_RequestBody body) s)) as Hb1 by by apply bal_with_rc.
  pose proof (bal_run_phase base (s_chain (w_current w)) PHASE_PRE_ROUTE _ Hb1) as H2.
  destruct (run_phase _ _ _ _) as [o1 s1|s1]; [done|]. simpl in H2.
  destruct (has_prefix (rq_Path r) PluginAPIPrefix).
  - pose proof (bal_servePlugin base r (w_current w) (s_chain (w_current w)) s1 H2) as H3.
    by destruct (servePlugin _ _ _ _ _ _ _ _).
  - destruct (has_prefix (Path (rn_rc s1)) PluginAPIPrefix).
    + match goal with |- context [match ?x with Ok _ => _ | Err _ => _ end] => destruct x as [body2|o2] end;
        [|by apply bal_with_rc].
      pose proof (bal_servePlugin base r (w_current w) (s_chain (w_current w))
                    (with_rc (set_RequestBody body2) s1)) as H3.
      destruct (servePlugin _ _ _ _ _ _ _ _). apply H3. by apply bal_with_rc.
    + pose proof (bal_serve_core base r (wr_apply new_writer
          (WSet "X-Request-Id" (traceIDFor (rq_Header r) id))) (s_chain (w_current w)) s1 H0 Hn H2) as H3.
      by destruct (serve_core _ _ _ _ _ _).
Qed.

(** A request leaves no capacity reserved behind it: whatever path it takes
    through the gateway (refused, answered by a filter, served by Core, served
    by a backend or failed by one), once [serve] has returned the in-flight
    count of every instance is what it was before; and the log phase, running
    later on its own copy of the request, also gives back all it took. *)
Lemma serve_releases r id w l :
  next_neutral ->
  let res := serve client_filter client_http next Auth BackendTimeout MaxBodyBytes r id w in
  inst_inflight l res.2 = inst_inflight l w /\
  forall chain w', inst_inflight l (logPhase client_filter chain res.1.2 w') = inst_inflight l w'.
Proof using.
  intros Hn. unfold serve.
  pose proof (bal_serve_body (fun l => inst_inflight l w) r id w (fun _ => eq_refl) Hn) as Hb.
  destruct (serve_body _ _ _ _ _ _ r id w) as [wr s]. cbn [fst snd] in *. split.
  - unfold release. rewrite (surjective_pairing (ReleaseAdmissions _ _)). cbn [rn_w].
    etransitivity; [exact (ReleaseAdmissions_balanced _ _ _ Hb l)|]. apply int64_id, int64_range.
  - intros chain w'. unfold logPhase, RunAsync. destruct (negb _); [done|]. cbn [fst].
    assert (bal (fun l => inst_inflight l w') (mkRun (ForAsync (rn_rc s)) w' [])) as Hb'.
    { intros u. unfold held. simpl. rewrite map_to_list_empty. unfold count_target. simpl.
      rewrite Z.add_0_r. symmetry. apply int64_id, int64_range. }
    apply (Run_balanced _ chain PHASE_LOG) in Hb'.
    etransitivity; [exact (ReleaseAdmissions_balanced _ _ _ Hb' l)|]. apply int64_id, int64_range.
Qed.
End capacity.

(** ** Reaching the backend *)

Section backend.
Context (client_filter : nat -> loc -> Z -> FilterRequest -> option FilterResponse).
Context (client_http : nat -> loc -> Z -> HttpRequest -> result string HttpResponse).
Context (BackendTimeout : Z).
Notation rstate := (run_state world loc).

Lemma Pick_calls snap key w : w_calls (Pick snap key w).2 = w_calls w.
Proof using.
  unfold Pick. destruct (s_plugins snap !! key); [|done]. destruct (rsets w !! _); [|done].
  by destruct (pick (heap w) _).
Qed.

Lemma admit_spec key l s :
  let r := admit_instance client_filter key l s in
  w_calls (rn_w r.2) = w_calls (rn_w s) /\ (r.1 = true -> is_Some (admissions (rn_rc r.2) !! key)).
Proof using.
  unfold admit_instance, Admit. destruct (admissions (rn_rc s) !! key) as [l0|] eqn:E; [simpl; rewrite E; eauto|].
  simpl. unfold inst_Begin. destruct (BeginRequest _) as [[] i]; simpl; [|done].
  split; [done|]. intros _. rewrite lookup_insert_eq. eauto.
Qed.

Lemma dispatch_spec l sub s :
  let r := dispatch client_http BackendTimeout l sub s in
  w_calls (rn_w r.2) = S (w_calls (rn_w s)) /\ rn_rc r.2 = rn_rc s /\
  match r.1 with Err (PluginUnavailable _ _) => False | _ => True end.
Proof using. unfold dispatch. by destruct (client_http _ _ _ _). Qed.

(** What [callBackend] promises about a result and the state it leaves. *)
Definition backend_outcome (key : string) (s : rstate) (r : result backend_error HttpResponse * rstate) : Prop :=
  match r.1 with
  | Err (PluginUnavailable k _) => k = key /\ w_calls (rn_w r.2) = w_calls (rn_w s)
  | _ => w_calls (rn_w r.2) = S (w_calls (rn_w s)) /\ is_Some (admissions (rn_rc r.2) !! key)
  end.

Lemma admitted_dispatch key l sub s s1 :
  w_calls (rn_w s1) = w_calls (rn_w s) -> is_Some (admissions (rn_rc s1) !! key) ->
  backend_outcome key s (dispatch client_http BackendTimeout l sub s1).
Proof using.
  intros Hc Ha. pose proof (dispatch_spec l sub s1) as (H1 & H2 & H3). unfold backend_outcome.
  destruct (dispatch _ _ l sub s1) as [[resp|[k g|msg]] s2]; simpl in *; [|done|]; rewrite H1, H2, Hc; done.
Qed.

Lemma callBackend_live_outcome inst key sub s :
  backend_outcome key s (callBackend_live client_filter client_http BackendTimeout inst key sub s).
Proof using.
  unfold callBackend_live. pose proof (Pick_calls (w_current (rn_w s)) key (rn_w s)) as Hp.
  destruct (Pick (w_current (rn_w s)) key (rn_w s)) as [[l|] w]; simpl in Hp; [|done].
  case_decide; [done|]. pose proof (admit_spec key l (mkRun (rn_rc s) w (rn_log s))) as [H1 H2].
  destruct (admit_instance client_filter key l _) as [[] s2]; simpl in *; [|split; [done|by simpl; rewrite H1]].
  apply admitted_dispatch; [by rewrite H1|by apply H2].
Qed.

(** A plugin's backend is called at most once per request and never
    without a reservation: either [callBackend] reports that the plugin is
    unavailable and no plugin was called, or exactly one call was made and the
    request holds an admission under that plugin's key. *)
Lemma callBackend_spec snap key sub s :
  backend_outcome key s (callBackend client_filter client_http BackendTimeout snap key sub s).
Proof using.
  unfold callBackend. pose proof (Pick_calls snap key (rn_w s)) as Hp.
  assert (forall inst s1, w_calls (rn_w s1) = w_calls (rn_w s) ->
    backend_outcome key s (callBackend_live client_filter client_http BackendTimeout inst key sub s1)) as Hl.
  { intros inst s1 Hs1. pose proof (callBackend_live_outcome inst key sub s1) as H.
    unfold backend_outcome in *. by rewrite Hs1 in H. }
  destruct (Pick snap key (rn_w s)) as [[l|] w]; simpl in Hp; [|by apply Hl].
  pose proof (admit_spec key l (mkRun (rn_rc s) w (rn_log s))) as [H1 H2].
  destruct (admit_instance client_filter key l _) as [[] s2]; simpl in *.
  - apply admitted_dispatch; [by rewrite H1|by apply H2].
  - apply Hl. by rewrite H1.
Qed.

(** A plugin that is enabled but whose only process has crashed and is
    waiting to be restarted is answered 404 "is not enabled", the answer the
    code's own table reserves for a plugin that is not installed, and not the
    503 it promises for one between states. *)
Lemma crashed_plugin_not_found key sub s p l cur :
  let snap := w_current (rn_w s) in
  s_plugins snap !! key = Some p -> rsets (rn_w s) !! p = Some (mkReplicaSet [l] cur) ->
  i_state (inst_at (heap (rn_w s)) l) = StateFailed ->
  Has snap key = true /\
  (callBackend client_filter client_http BackendTimeout snap key sub s).1 = Err (PluginUnavailable key true) /\
  backend_status (PluginUnavailable key true) = 404%Z.
Proof using.
  intros snap Hp Hr Hf. split; [|split; [|done]].
  - unfold Has. apply bool_decide_eq_true. eauto.
  - assert (forall w, heap w = heap (rn_w s) -> rsets w = rsets (rn_w s) ->
      Pick snap key w = (None, set_rsets (<[p := mkReplicaSet [l] cur]> (rsets w)) w)) as HP.
    { intros w Hh Hrs. unfold Pick. rewrite Hp, Hrs, Hr. unfold pick. simpl instances.
      unfold servable_at, Servable. by rewrite Hh, Hf. }
    unfold callBackend. rewrite HP by done. unfold callBackend_live. cbn [rn_w rn_rc].
    change (w_current (set_rsets _ _)) with snap. rewrite HP; [done|done|].
    cbn [rsets set_rsets]. by rewrite insert_id.
Qed.
End backend.

(** ** Examples *)

Definition ex_filter (n : nat) (l : loc) (d : Z) (req : FilterRequest) : option FilterResponse :=
  Some (mkFilterResponse ACTION_CONTINUE None None).
Definition ex_http (n : nat) (l : loc) (d : Z) (req : HttpRequest) : result string HttpResponse :=
  Ok (mkHttpResponse 0 {["Content-Type" := ["text/plain"]]} ("hello " +:+ hr_Path req)).
Definition ex_next (r : Request) (w : world) : list wop * world := ([WWrite "core"], w).
Definition ex_auth : option (string -> option User) :=
  Some (fun t => if String.eqb t "s3cret" then Some (mkUser 7 "ada" "admin") else None).

Definition ex_world : world := (InstallPlugin demo_reg (NewRegistry 1 demo_heap)).2.
Definition ex_req : Request :=
  mkRequest "GET" "/api/plugins/waf/a/../b" "" {["Authorization" := ["Bearer s3cret"]]} "10.0.0.1:80" NoBody.
Definition ex_state : run_state world loc :=
  mkRun (NewRequestContext "t" "GET" "/api/plugins/waf/a/../b" "" "10.0.0.1" (rq_Header ex_req) 1) ex_world [].

(** Another plugin host: it answers the same to requests of the session's user,
    and anything to others. *)
Definition ex_http_open (n : nat) (l : loc) (d : Z) (req : HttpRequest) : result string HttpResponse :=
  match hr_Identity req with
  | Some (mkIdentity "7" "ada" ["admin"]) => ex_http n l d req
  | _ => Ok (mkHttpResponse 200 ∅ "anything")
  end.

Lemma ex_not_granted chain phase s id : ~ granted ex_filter chain phase s id.
Proof.
  intros (l1 & f & l2 & s1 & resp & rc & w & m & _ & _ & _ & _ & Han & Hact & _).
  destruct Han as (t & q & rc1 & w1 & w2 & w3 & w4 & _ & _ & _ & _ & Hf & _).
  simpl in Hf. unfold inst_Filter, ex_filter in Hf. injection Hf as <- _. discriminate Hact.
Qed.

Lemma backend_authenticated_witness :
  serve ex_filter ex_http ex_next ex_auth 0 0 ex_req "t" ex_world =
  serve ex_filter ex_http_open ex_next ex_auth 0 0 ex_req "t" ex_world.
Proof.
  apply (backend_authenticated ex_filter ex_next ex_auth 0 0
           (fun t => if String.eqb t "s3cret" then Some (mkUser 7 "ada" "admin") else None)); [reflexivity|].
  intros n l d q s id _ Hq [Hs|[Hg|(s1 & _ & Hg)]]; [|by apply ex_not_granted in Hg..].
  vm_compute in Hs. injection Hs as <-. unfold ex_http_open. rewrite Hq. reflexivity.
Defined.

(** A logged-in request is served by the backend; the same request without its
    token is refused, and what the backend would have said is not heard. *)
Lemma backend_authenticated_examples :
  (let r := (serve ex_filter ex_http_open ex_next ex_auth 0 0 ex_req "t" ex_world).1.1 in
   (wr_status r, wr_body r)) = (Some 200%Z, "hello /b") /\
  (let r := (serve ex_filter ex_http_open ex_next ex_auth 0 0
               (mkRequest "GET" "/api/plugins/waf/b" "" ∅ "10.0.0.1:80" NoBody) "t" ex_world).1.1 in
   wr_status r) = Some 401%Z.
Proof. vm_compute. split; reflexivity. Qed.

Definition crashed_world : world :=
  upd_inst 1%nat MarkFailed
    (InstallPlugin (mkRegistration "notes" [1%nat] [] false) (NewRegistry 1 demo_heap)).2.

(** A plugin route that names no plugin is answered 404 while the log phase is
    told 0. *)
Lemma unroutable_status_unrecorded :
  let s := with_rc (set_Path "/api/plugins/") (mkRun (rn_rc ex_state) ex_world []) in
  let r := servePlugin ex_filter ex_http None 0 ex_req (w_current ex_world) (s_chain (w_current ex_world)) s in
  wr_status (wr_run r.1 new_writer) = Some 404%Z /\ ResponseStatus (rn_rc r.2) = 0%Z.
Proof. vm_compute. split; reflexivity. Qed.
