(* ===== verification/UsersApi.v ===== *)
(** * core/gateway: the authentication and user-management endpoints

    auth_handler.go and users_handler.go over the store of Auth.v. What
    encoding/json makes of a request body, what bcrypt, the id sequence and the
    random source draw are arguments; an answer is its status and the value
    passed to [writeJSON]. *)

From Stdlib Require Import Ascii.
From S2P Require Import Prelude GoStrings Sql Auth Gateway.

Open Scope Z_scope.

Record loginRequest := mkLoginRequest { lr_Username : string; lr_Password : string }.
Record createUserRequest := mkCreateUserRequest {
  cu_Username : string; cu_Password : string; cu_Role : string
}.
(** A nil pointer is a field the body does not set. *)
Record updateUserRequest := mkUpdateUserRequest { up_Role : option string; up_Password : option string }.
Record changePasswordRequest := mkChangePasswordRequest { OldPassword : string; NewPassword : string }.

Inductive payload :=
| PError (msg : string) | PStatus (s : string) | PUsers (l : list UserRecord)
| PLogin (token : string) (u : User) | PUser (u : User) | PNothing.

Record reply := mkReply { rp_status : Z; rp_payload : payload }.

Definition error_reply (status : Z) (msg : string) : reply := mkReply status (PError msg).

Definition db_error_string (e : db_error) : string :=
  match e with
  | SqlFailed _ why => why
  | InvalidIdentifier what name => "invalid " +:+ what +:+ " " +:+ name
  | FieldRequired => "field is required"
  | ErrVersionConflict => "version conflict"
  | BadQuery why => why
  end.

Definition auth_error_string (e : auth_error) : string :=
  match e with
  | ErrInvalidCredentials => "invalid username or password"
  | ErrLastAdmin => "cannot remove the last administrator"
  | ErrUserMissing => "user not found"
  | Required what => what
  | HashFailed why => why
  | RandFailed => "rand failed"
  | CountAdminsFailed e => "count admins: " +:+ db_error_string e
  | SqlError e => db_error_string e
  end.

Definition statusForUserErr (e : auth_error) : Z :=
  match e with ErrLastAdmin => 409 | ErrUserMissing => 404 | _ => 400 end.

Definition UsersPath := "/api/system/users".
Definition MePasswordPath := "/api/system/users/me/password".

(** The conversion to [int32] keeps the low 32 bits. *)
Definition userIDFromPath (path : string) : option Z :=
  let rest := trim_prefix path "/api/system/users/" in
  let rest := match cut_byte "/"%char rest with Some (l, _) => l | None => rest end in
  int32 <$> atoi rest.

Section handlers.
Context (varchar : Z -> string -> bool).
Context (Generate : string -> string -> result string string).
Context (Compare : string -> string -> bool).
Context (decode_login : Body -> option loginRequest).
Context (decode_create : Body -> option createUserRequest).
Context (decode_update : Body -> option updateUserRequest).
Context (decode_change : Body -> option changePasswordRequest).
(** What is drawn while one request is served. *)
Context (now nextval : Z) (salt : string) (drawn : option (list Z)).

Notation handler := (Store -> reply * Store) (only parsing).

(** ** auth_handler.go *)

Definition AuthLogin (r : Request) : handler := fun s =>
  if negb (String.eqb (rq_Method r) "POST") then (error_reply 405 "method not allowed", s)
  else match decode_login (rq_Body r) with
  | None => (error_reply 400 "invalid request body", s)
  | Some req =>
      match Login Compare now drawn (lr_Username req) (lr_Password req) s with
      | (Err _, s) => (error_reply 401 "invalid username or password", s)
      | (Ok (token, user), s) => (mkReply 200 (PLogin token user), s)
      end
  end.

Definition AuthMe (r : Request) : handler := fun s =>
  match Resolve now (SessionToken (rq_Header r)) s with
  | (None, s) => (error_reply 401 "unauthenticated", s)
  | (Some user, s) => (mkReply 200 (PUser user), s)
  end.

Definition AuthLogout (r : Request) : handler := fun s =>
  (mkReply 204 PNothing, Logout (SessionToken (rq_Header r)) s).

(** ** users_handler.go *)

Definition users_list : handler := fun s =>
  match on_db ListUsers s with
  | (Err e, s) => (error_reply 500 (auth_error_string e), s)
  | (Ok l, s) => (mkReply 200 (PUsers l), s)
  end.

Definition users_create (r : Request) : handler := fun s =>
  match decode_create (rq_Body r) with
  | None => (error_reply 400 "invalid request body", s)
  | Some req =>
      match on_db (CreateUser varchar Generate nextval salt (cu_Username req) (cu_Password req) (cu_Role req)) s with
      | (Err e, s) => (error_reply 400 (auth_error_string e), s)
      | (Ok _, s) => (mkReply 201 (PStatus "created"), s)
      end
  end.

Definition update_password (id : Z) (password : option string) : handler := fun s =>
  match password with
  | None => (mkReply 200 (PStatus "updated"), s)
  | Some p =>
      match on_db (SetPassword varchar Generate salt id p) s with
      | (Err e, s) => (error_reply 400 (auth_error_string e), s)
      | (Ok _, s) => (mkReply 200 (PStatus "updated"), s)
      end
  end.

Definition users_update (r : Request) (caller : User) : handler := fun s =>
  match userIDFromPath (rq_Path r) with
  | None => (error_reply 400 "invalid user id", s)
  | Some id =>
      match decode_update (rq_Body r) with
      | None => (error_reply 400 "invalid request body", s)
      | Some req =>
          match up_Role req with
          | None => update_password id (up_Password req) s
          | Some role =>
              if (id =? u_ID caller) && negb (String.eqb role "admin") then
                (error_reply 400 "cannot change your own role", s)
              else match on_db (SetRole varchar id role) s with
                   | (Err e, s) => (error_reply (statusForUserErr e) (auth_error_string e), s)
                   | (Ok _, s) => update_password id (up_Password req) s
                   end
          end
      end
  end.

Definition users_remove (r : Request) (caller : User) : handler := fun s =>
  match userIDFromPath (rq_Path r) with
  | None => (error_reply 400 "invalid user id", s)
  | Some id =>
      if id =? u_ID caller then (error_reply 400 "cannot delete your own account", s)
      else match on_db (DeleteUser id) s with
           | (Err e, s) => (error_reply (statusForUserErr e) (auth_error_string e), s)
           | (Ok _, s) => (mkReply 200 (PStatus "deleted"), s)
           end
  end.

Definition changeOwnPassword (r : Request) : handler := fun s =>
  match Resolve now (SessionToken (rq_Header r)) s with
  | (None, s) => (error_reply 401 "unauthenticated", s)
  | (Some caller, s) =>
      match decode_change (rq_Body r) with
      | None => (error_reply 400 "invalid request body", s)
      | Some req =>
          match on_db (ChangePassword varchar Generate Compare salt (u_ID caller)
                         (OldPassword req) (NewPassword req)) s with
          | (Err e, s) => (error_reply 400 (auth_error_string e), s)
          | (Ok _, s) => (mkReply 200 (PStatus "updated"), s)
          end
      end
  end.

Definition users_dispatch (r : Request) (caller : User) : handler := fun s =>
  let path := rq_Path r in
  let meth := rq_Method r in
  if String.eqb path UsersPath && String.eqb meth "GET" then users_list s
  else if String.eqb path UsersPath && String.eqb meth "POST" then users_create r s
  else if has_prefix path "/api/system/users/" && String.eqb meth "PUT" then users_update r caller s
  else if has_prefix path "/api/system/users/" && String.eqb meth "DELETE" then users_remove r caller s
  else (error_reply 404 "not found", s).

Definition UsersServe (r : Request) : handler := fun s =>
  if String.eqb (rq_Path r) MePasswordPath then changeOwnPassword r s
  else match Resolve now (SessionToken (rq_Header r)) s with
       | (Some caller, s) =>
           if String.eqb (u_Role caller) "admin" then users_dispatch r caller s
           else (error_reply 403 "admin privileges required", s)
       | (None, s) => (error_reply 403 "admin privileges required", s)
       end.

(** ** Lemmas *)

Lemma Resolve_db tok s : st_db (Resolve now tok s).2 = st_db s.
Proof. unfold Resolve. by repeat case_match. Qed.

(** *** Every request is a history of calls of the store *)

Definition run_calls (s : Store) (cs : list call) : Store :=
  foldl (fun s c => apply_call varchar Generate Compare now c s) s cs.

(** [is_calls h s]: what the handler does to the store. *)
Definition is_calls (h : handler) (s : Store) : Prop := exists cs, (h s).2 = run_calls s cs.

Lemma is_calls_one (h : handler) s c :
  (h s).2 = apply_call varchar Generate Compare now c s -> is_calls h s.
Proof. intros H. by exists [c]. Qed.

Lemma is_calls_none (h : handler) s : (h s).2 = s -> is_calls h s.
Proof. intros H. by exists []. Qed.

Lemma run_calls_trans s cs s1 s2 cs' :
  s1 = run_calls s cs -> s2 = run_calls s1 cs' -> s2 = run_calls s (cs ++ cs').
Proof. intros -> ->. unfold run_calls. by rewrite foldl_app. Qed.

Lemma update_password_calls id p s : is_calls (update_password id p) s.
Proof.
  destruct p as [p|]; [|by apply is_calls_none].
  apply (is_calls_one _ _ (CSetPassword salt id p)). simpl. by destruct (on_db _ s) as [[|] ?].
Qed.

Lemma users_update_calls r caller s : is_calls (users_update r caller) s.
Proof.
  unfold is_calls, users_update.
  destruct (userIDFromPath (rq_Path r)) as [id|]; [|by exists []].
  destruct (decode_update (rq_Body r)) as [req|]; [|by exists []].
  destruct (up_Role req) as [role|]; [|apply update_password_calls].
  destruct (_ && _); [by exists []|].
  destruct (on_db (SetRole varchar id role) s) as [[u|e] s1] eqn:E.
  - destruct (update_password_calls id (up_Password req) s1) as [cs Hcs].
    exists (CSetRole id role :: cs). rewrite Hcs. simpl. by rewrite E.
  - exists [CSetRole id role]. simpl. by rewrite E.
Qed.

Lemma users_dispatch_calls r caller s : is_calls (users_dispatch r caller) s.
Proof.
  unfold is_calls, users_dispatch. repeat case_match; try by exists [].
  - exists [CList]. unfold users_list. simpl. by destruct (on_db _ s) as [[|] ?].
  - unfold users_create. destruct (decode_create (rq_Body r)) as [req|]; [|by exists []].
    exists [CCreate nextval salt (cu_Username req) (cu_Password req) (cu_Role req)]. simpl.
    by destruct (on_db _ s) as [[|] ?].
  - apply users_update_calls.
  - unfold users_remove. destruct (userIDFromPath (rq_Path r)) as [id|]; [|by exists []].
    case_match; [by exists []|]. exists [CDelete id]. simpl. by destruct (on_db _ s) as [[|] ?].
Qed.

Lemma UsersServe_calls r s : is_calls (UsersServe r) s.
Proof.
  unfold is_calls, UsersServe. case_match.
  - unfold changeOwnPassword. destruct (Resolve now _ s) as [[c|] s1] eqn:E;
      [|exists [CResolve (SessionToken (rq_Header r))]; simpl; by rewrite E].
    destruct (decode_change (rq_Body r)) as [req|];
      [|exists [CResolve (SessionToken (rq_Header r))]; simpl; by rewrite E].
    exists [CResolve (SessionToken (rq_Header r)); CChange salt (u_ID c) (OldPassword req) (NewPassword req)].
    simpl. rewrite E. simpl. by destruct (on_db _ s1) as [[|] ?].
  - destruct (Resolve now _ s) as [[c|] s1] eqn:E;
      [|exists [CResolve (SessionToken (rq_Header r))]; simpl; by rewrite E].
    case_match; [|exists [CResolve (SessionToken (rq_Header r))]; simpl; by rewrite E].
    destruct (users_dispatch_calls r c s1) as [cs Hcs].
    exists (CResolve (SessionToken (rq_Header r)) :: cs). rewrite Hcs. simpl. by rewrite E.
Qed.

(** C14. The table of users changes only under the eyes of an administrator's
    session, with one exception: any session may replace the password hash of
    the user it belongs to, and nothing else, by sending the current password
    of that user. Every other request leaves the table as it was. *)
Theorem users_authorized r s rep s' :
  UsersServe r s = (rep, s') ->
  store (st_db s') <> store (st_db s) ->
  exists caller, (Resolve now (SessionToken (rq_Header r)) s).1 = Some caller /\
    ((u_Role caller = "admin" /\ rq_Path r <> MePasswordPath) \/
     (rq_Path r = MePasswordPath /\
      exists req row h, decode_change (rq_Body r) = Some req /\
        store (st_db s) !! u_ID caller = Some row /\
        Compare (r_PasswordHash row) (OldPassword req) = true /\
        Generate salt (NewPassword req) = Ok h /\ NewPassword req <> "" /\
        store (st_db s') = <[u_ID caller := mkUserRow (r_Username row) h (r_Role row) (r_CreatedAt row)]>
                             (store (st_db s)))).
Proof.
  intros H Hne. pose proof (Resolve_db (SessionToken (rq_Header r)) s) as Hdb.
  unfold UsersServe in H. destruct (String.eqb_spec (rq_Path r) MePasswordPath) as [Hp|Hp].
  - unfold changeOwnPassword in H. destruct (Resolve _ _ s) as [[c|] s1]; simpl in Hdb; [|congruence].
    destruct (decode_change (rq_Body r)) as [req|]; [|congruence].
    destruct (on_db _ s1) as [x s2] eqn:E. assert (s' = s2) as -> by (destruct x; congruence).
    unfold on_db in E. destruct (ChangePassword _ _ _ _ _ _ _ (st_db s1)) as [y d] eqn:Ec.
    injection E as _ <-. apply ChangePassword_effect in Ec. rewrite Hdb in Ec.
    destruct Ec as [Ec|(row & h & ? & ? & ? & ? & ?)]; [done|].
    exists c. split; [done|]. right. split; [done|]. by exists req, row, h.
  - destruct (Resolve _ _ s) as [[c|] s1]; simpl in Hdb; [|congruence].
    exists c. split; [done|]. left. split; [|done].
    destruct (String.eqb_spec (u_Role c) "admin"); [done|congruence].
Qed.

(** *** An administrator cannot lock themselves out *)

Lemma on_db_keeps id {A} (m : prog users (result auth_error A)) s x s1 :
  on_db m s = (x, s1) -> within (keeps_row id) m -> keeps_row id (store (st_db s)) (store (st_db s1)).
Proof. intros E Hm. pose proof (on_db_within (keeps_row id) m s Hm) as H. by rewrite E in H. Qed.

Lemma SetPassword_keeps_row id id' p : within (keeps_row id) (SetPassword varchar Generate salt id' p).
Proof. apply SetPassword_within; [apply _|]. intros. apply UpdatePassword_keeps_row. Qed.

Lemma update_password_keeps_row id id' p s :
  keeps_row id (store (st_db s)) (store (st_db (update_password id' p s).2)).
Proof.
  destruct p as [p|]; [|by intros H]. simpl. destruct (on_db _ s) as [x s1] eqn:E.
  apply (on_db_keeps id) in E; [|apply SetPassword_keeps_row]. by destruct x.
Qed.

Lemma ensure_then_keeps_row id id' (m : prog users ()) :
  within (keeps_row id) m -> within (keeps_row id) (do? _ := ensureNotLastAdmin id' in query m).
Proof.
  intros Hm. apply (within_ok_or _); [|intros ?; by apply (within_wrapped _)].
  apply (reads_refl _), ensureNotLastAdmin_reads.
Qed.

Lemma SetRole_keeps_row id id' role :
  id' <> id \/ role = "admin" -> within (keeps_row id) (SetRole varchar id' role).
Proof.
  intros Hor. unfold SetRole. case_match; [apply (within_ret _)|]. case_match.
  - by apply ensure_then_keeps_row, UpdateRole_keeps_row.
  - apply (within_ok_or _); [apply (within_ret _)|]. intros ?.
    by apply (within_wrapped _), UpdateRole_keeps_row.
Qed.

Lemma users_dispatch_keeps_row r caller s :
  keeps_row (u_ID caller) (store (st_db s)) (store (st_db (users_dispatch r caller s).2)).
Proof.
  unfold users_dispatch. repeat case_match; try (by intros Ha).
  - unfold users_list. destruct (on_db _ s) as [x s1] eqn:E.
    apply (on_db_keeps (u_ID caller)) in E; [by destruct x|]. apply (reads_refl _), ListUsers_reads.
  - unfold users_create. destruct (decode_create (rq_Body r)) as [req|]; [|by intros Ha].
    destruct (on_db _ s) as [x s1] eqn:E. apply (on_db_keeps (u_ID caller)) in E; [by destruct x|].
    apply CreateUser_within; [apply _|]. intros. apply CreateUser_keeps_row.
  - unfold users_update. destruct (userIDFromPath (rq_Path r)) as [id|]; [|by intros Ha].
    destruct (decode_update (rq_Body r)) as [req|]; [|by intros Ha].
    destruct (up_Role req) as [role|]; [|apply update_password_keeps_row].
    destruct ((id =? u_ID caller) && negb (String.eqb role "admin")) eqn:Hg; [by intros Ha|].
    destruct (on_db _ s) as [x s1] eqn:E. apply (on_db_keeps (u_ID caller)) in E.
    + destruct x; [|done]. etransitivity; [done|apply update_password_keeps_row].
    + apply SetRole_keeps_row. apply andb_false_iff in Hg as [Hg|Hg]; [left; by apply Z.eqb_neq|right].
      by apply negb_false_iff, String.eqb_eq in Hg.
  - unfold users_remove. destruct (userIDFromPath (rq_Path r)) as [id|]; [|by intros Ha].
    destruct (Z.eqb_spec id (u_ID caller)) as [|Hne]; [by intros Ha|].
    destruct (on_db _ s) as [x s1] eqn:E. apply (on_db_keeps (u_ID caller)) in E; [by destruct x|].
    by apply ensure_then_keeps_row, DeleteUser_keeps_row.
Qed.

(** No request of an administrator to the user-management API removes that
    administrator or takes the role away from them. *)
Lemma no_self_lockout r s caller :
  (Resolve now (SessionToken (rq_Header r)) s).1 = Some caller ->
  admin_row (u_ID caller) (store (st_db s)) ->
  admin_row (u_ID caller) (store (st_db (UsersServe r s).2)).
Proof.
  intros Hr Ha. pose proof (Resolve_db (SessionToken (rq_Header r)) s) as Hdb.
  unfold UsersServe. case_match.
  - unfold changeOwnPassword. destruct (Resolve _ _ s) as [c s1]. simpl in *. subst c. rewrite <- Hdb in Ha.
    destruct (decode_change (rq_Body r)) as [req|]; [|done].
    destruct (on_db _ s1) as [x s2] eqn:E. apply (on_db_keeps (u_ID caller)) in E; [by destruct x; apply E|].
    apply ChangePassword_within; [apply _|]. intros. apply UpdatePassword_keeps_row.
  - destruct (Resolve _ _ s) as [c s1]. simpl in *. subst c. rewrite <- Hdb in Ha.
    case_match; [|done]. by apply users_dispatch_keeps_row.
Qed.
End handlers.

(** ** The API as a whole *)

Section api.
Context (varchar : Z -> string -> bool).
Context (Generate : string -> string -> result string string).
Context (Compare : string -> string -> bool).
Context (decode_create : Body -> option createUserRequest).
Context (decode_update : Body -> option updateUserRequest).
Context (decode_change : Body -> option changePasswordRequest).

(** A request with the time it is served at and everything drawn for it. *)
Record arrival := mkArrival {
  ar_req : Request; ar_now : Z; ar_nextval : Z; ar_salt : string; ar_faults : list bool
}.

Definition arrive (s : Store) (a : arrival) : Store :=
  (UsersServe varchar Generate Compare decode_create decode_update decode_change
    (ar_now a) (ar_nextval a) (ar_salt a) (ar_req a)
    (mkStore (sessions s) (mkSession (store (st_db s)) Pool (ar_faults a) (ar_now a)))).2.

(** However the requests interleave, as long as one is served after the other
    the installation keeps an administrator. *)
Theorem api_keeps_admin s l :
  has_admin (store (st_db s)) -> has_admin (store (st_db (foldl arrive s l))).
Proof.
  revert s. induction l as [|a l IH]; intros s H; [done|]. apply IH. unfold arrive.
  set (s1 := mkStore _ _). assert (has_admin (store (st_db s1))) as H1 by done. clearbody s1.
  destruct (UsersServe_calls varchar Generate Compare decode_create decode_update decode_change
    (ar_now a) (ar_nextval a) (ar_salt a) (ar_req a) s1) as [cs ->].
  clear H. revert s1 H1. induction cs as [|c cs IHc]; intros s1 H1; [done|].
  by apply IHc, apply_call_keeps.
Qed.
End api.

(** ** Concrete requests *)

Definition ex_decode_change (b : Body) : option changePasswordRequest :=
  match b with
  | ABody data => (fun '(old, new) => mkChangePasswordRequest old new) <$> cut_byte ":"%char data
  | _ => None
  end.
Definition ex_decode_update (b : Body) : option updateUserRequest :=
  match b with
  | ABody data => (fun '(role, pw) => mkUpdateUserRequest (Some role) (Some pw)) <$> cut_byte ":"%char data
  | _ => None
  end.
Definition ex_decode_create (b : Body) : option createUserRequest := None.

Definition ex_request (meth path token body : string) : Request :=
  mkRequest meth path "" {[ "Authorization" := ["Bearer " +:+ token] ]} "10.0.0.9:1234" (ABody body).

(** Ada, an administrator, and Eve, who is not, are logged in. *)
Definition ex_logged_in : Store :=
  mkStore {[ "t1" := mkSess (mkUser 1 "ada" "admin") 1000; "t3" := mkSess (mkUser 3 "eve" "user") 1000 ]}
    (mkSession ex_users Pool [] 0).

Definition ex_serve (r : Request) (s : Store) : reply * Store :=
  UsersServe ex_varchar ex_Generate ex_Compare ex_decode_create ex_decode_update ex_decode_change
    10 4 "salt" r s.

Lemma users_authorized_witness :
  let r := ex_request "POST" MePasswordPath "t3" "pw3:pw4" in
  exists rep s', ex_serve r ex_logged_in = (rep, s') /\
    store (st_db s') <> ex_users /\
    exists caller, (Resolve 10 (SessionToken (rq_Header r)) ex_logged_in).1 = Some caller.
Proof.
  intros r. destruct (ex_serve r ex_logged_in) as [rep s'] eqn:E. exists rep, s'.
  assert (store (st_db s') <> ex_users) as Hne.
  { intros H. assert (store (st_db (ex_serve r ex_logged_in).2) !! 3 = ex_users !! 3) as H3
      by (rewrite E; simpl; by rewrite H).
    revert H3. vm_compute. discriminate. }
  split; [reflexivity|]. split; [exact Hne|].
  destruct (users_authorized ex_varchar ex_Generate ex_Compare ex_decode_create ex_decode_update
    ex_decode_change 10 4 "salt" r ex_logged_in rep s' E Hne) as (caller & Hc & _).
  exists caller. exact Hc.
Defined.

(** A stranger's session is refused. *)
Example refused :
  rp_status (ex_serve (ex_request "DELETE" "/api/system/users/2" "t3" "") ex_logged_in).1 = 403.
Proof. vm_compute. reflexivity. Qed.

(** The id in the path is cut to 32 bits: user 4294967298 is user 2. *)
Example user_id_wraps :
  (userIDFromPath "/api/system/users/4294967298",
   rp_status (ex_serve (ex_request "DELETE" "/api/system/users/4294967298" "t1" "") ex_logged_in).1,
   store (st_db (ex_serve (ex_request "DELETE" "/api/system/users/4294967298" "t1" "") ex_logged_in).2) !! 2) =
  (Some 2, 200, None).
Proof. vm_compute. reflexivity. Qed.

(** A new role is kept although the request that brought it is answered with an
    error about the password that came along. *)
Example update_is_two_steps :
  let '(rep, s) := ex_serve (ex_request "PUT" "/api/system/users/2" "t1" "user:") ex_logged_in in
  (rp_status rep, r_Role <$> store (st_db s) !! 2) = (400, Some "user").
Proof. vm_compute. reflexivity. Qed.

(** A password for nobody is accepted: the statement matches no row. *)
Example password_of_nobody :
  rp_status (update_password ex_varchar ex_Generate "salt" 77 (Some "pw") ex_logged_in).1 = 200.
Proof. vm_compute. reflexivity. Qed.
