(* ===== verification/Admin.v ===== *)
(** * core/gateway/plugins_handler.go: the plugin administration API

    The dispatch of /api/system/plugins, the settings form with its masked
    secrets, and the dead-letter endpoints, over the three interfaces the
    handler is given. JSON decoding and query-string parsing are arguments. *)

From Stdlib Require Import Ascii.
From S2P Require Import Manifest Manager Queue.
From S2P Require Import Prelude GoStrings Auth Wire Gateway.

Open Scope Z_scope.

Definition PluginsAPIPrefix := "/api/system/plugins".
Definition SecretPlaceholder := "••••••••".

Inductive admin_payload :=
| AError (msg : string)
| APlugins (l : list Manager.Status)
| AConfig (key : string) (declared : list ConfigDecl) (values : gmap string string)
| ASaved (key : string) (values : gmap string string) (warning : option string)
| AMessages (l : list DeadMessage)
| ARetried (id_ : Z).

Definition admin_reply : Type := Z * admin_payload.

(** ** Settings *)

Definition decl_of (decls : list ConfigDecl) (k : string) : option ConfigDecl :=
  foldl (fun m d => <[c_key d := d]> m) (∅ : gmap string ConfigDecl) decls !! k.

Definition resolve_one (decls : list ConfigDecl) (stored : gmap string string)
    (out : gmap string string) (kv : string * string) : result string (gmap string string) :=
  match decl_of decls kv.1 with
  | None => Err (dquote +:+ kv.1 +:+ dquote +:+ " is not a setting this plugin declares")
  | Some d =>
      if c_secret d && String.eqb kv.2 SecretPlaceholder then
        Ok (match stored !! kv.1 with Some old => <[kv.1 := old]> out | None => out end)
      else Ok (<[kv.1 := kv.2]> out)
  end.

(** [submitted] in the order the range visits it. The key in the refusal is
    quoted as [%q] quotes a key of plain characters. *)
Definition resolveConfig (decls : list ConfigDecl) (stored : gmap string string)
    (submitted : list (string * string)) : result string (gmap string string) :=
  res_fold (resolve_one decls stored) ∅ submitted.

Definition mask_one (out : gmap string string) (d : ConfigDecl) : gmap string string :=
  if c_secret d && negb (String.eqb (default "" (out !! c_key d)) "")
  then <[c_key d := SecretPlaceholder]> out else out.

Definition maskSecrets (decls : list ConfigDecl) (values : gmap string string) : gmap string string :=
  foldl mask_one values decls.

(** [limit, _ := strconv.Atoi(s)]: zero for what is no number, the nearest
    [int] for one out of range. *)
Definition atoi_clamped (s : string) : Z :=
  let v := match s with
           | String "-" s' => Z.opp <$> digits s'
           | String "+" s' => digits s'
           | _ => digits s
           end in
  match v with Some x => Z.max (- 2 ^ 63) (Z.min (2 ^ 63 - 1) x) | None => 0 end.

Section handler.
Context {W : Type}.

Record PluginManager := mkPluginManager {
  pm_Scan : W -> W;
  pm_List : W -> list Manager.Status;
  pm_Enable : string -> W -> option string * W;
  pm_Disable : string -> W -> option string * W;
  pm_Upgrade : string -> W -> option string * W;
  pm_SetConfig : string -> gmap string string -> W -> option string * W
}.

Record ConfigStore := mkConfigStore {
  cs_Get : string -> W -> result string (gmap string string) * W;
  cs_Set : string -> gmap string string -> W -> result string () * W
}.

Record DeadLetterStore := mkDeadLetterStore {
  dl_Dead : string -> Z -> W -> result string (list DeadMessage) * W;
  dl_RetryDead : string -> Z -> W -> result string () * W
}.

Context (auth : option (string -> option User)) (mgr : PluginManager).
Context (config : option ConfigStore) (dead_letters : option DeadLetterStore).
(** The [values] of the body, and [r.URL.Query().Get]. *)
Context (decode_values : Body -> option (list (string * string))).
Context (query_get : string -> string -> string).

Notation handler := (W -> admin_reply * W) (only parsing).

Definition admin_error (status : Z) (msg : string) : admin_reply := (status, AError msg).

Definition declarations (key : string) (w : W) : option (list ConfigDecl) :=
  Manager.st_Config <$> List.find (fun s => String.eqb (Manager.st_Key s) key) (pm_List mgr w).

Definition saveConfig (key : string) (decls : list ConfigDecl) (stored : gmap string string) (cfg : ConfigStore)
    (submitted : list (string * string)) : handler := fun w =>
  match resolveConfig decls stored submitted with
  | Err e => (admin_error 400 e, w)
  | Ok values =>
      match cs_Set cfg key values w with
      | (Err e, w) => (admin_error 500 e, w)
      | (Ok _, w) =>
          let '(pushErr, w) := pm_SetConfig mgr key values w in
          ((200, ASaved key (maskSecrets decls values)
                   ((fun e => "saved, but not delivered to the running plugin: " +:+ e) <$> pushErr)), w)
      end
  end.

Definition serveConfig (r : Request) (key : string) : handler := fun w =>
  match declarations key w with
  | None => (admin_error 404 ("no such plugin: " +:+ key), w)
  | Some decls =>
      match config with
      | None => (admin_error 503 "plugin configuration needs a database; Core was started without DATABASE_URL", w)
      | Some cfg =>
          match cs_Get cfg key w with
          | (Err e, w) => (admin_error 500 e, w)
          | (Ok stored, w) =>
              if String.eqb (rq_Method r) "GET" then
                ((200, AConfig key decls (maskSecrets decls stored)), w)
              else if String.eqb (rq_Method r) "POST" || String.eqb (rq_Method r) "PUT" then
                match decode_values (rq_Body r) with
                | None => (admin_error 400 "invalid JSON", w)
                | Some submitted => saveConfig key decls stored cfg submitted w
                end
              else (admin_error 405 "method not allowed", w)
          end
      end
  end.

Definition serveDeadLetters (r : Request) (key : string) (rest : list string) : handler := fun w =>
  match dead_letters with
  | None => (admin_error 503 "the queue needs a database; Core is running without one", w)
  | Some dl =>
      match rest with
      | [] =>
          if String.eqb (rq_Method r) "GET" then
            match dl_Dead dl key (atoi_clamped (query_get (rq_RawQuery r) "limit")) w with
            | (Err e, w) => (admin_error 500 e, w)
            | (Ok l, w) => ((200, AMessages l), w)
            end
          else (admin_error 404 "not found", w)
      | [id_; action] =>
          if String.eqb action "retry" && String.eqb (rq_Method r) "POST" then
            match atoi id_ with
            | None => (admin_error 400 "message id must be a number", w)
            | Some n =>
                match dl_RetryDead dl key n w with
                | (Err e, w) => (admin_error 404 e, w)
                | (Ok _, w) => ((200, ARetried n), w)
                end
            end
          else (admin_error 404 "not found", w)
      | _ => (admin_error 404 "not found", w)
      end
  end.

Definition serveAction (r : Request) (key action : string) : handler := fun w =>
  if negb (String.eqb (rq_Method r) "POST") then (admin_error 404 "not found", w)
  else
    let run (op : string -> W -> option string * W) :=
      match op key w with
      | (Some e, w) => (admin_error 400 e, w)
      | (None, w) => ((200, APlugins (pm_List mgr w)), w)
      end in
    if String.eqb action "enable" then run (pm_Enable mgr)
    else if String.eqb action "disable" then run (pm_Disable mgr)
    else if String.eqb action "upgrade" then run (pm_Upgrade mgr)
    else (admin_error 404 "not found", w).

Definition admin_routes (r : Request) : handler := fun w =>
  let path := rq_Path r in
  if String.eqb path PluginsAPIPrefix && String.eqb (rq_Method r) "GET" then ((200, APlugins (pm_List mgr w)), w)
  else
    let rest := trim_prefix path (PluginsAPIPrefix +:+ "/") in
    if String.eqb rest "" || String.eqb rest path then (admin_error 404 "not found", w)
    else match split_byte "/"%char rest with
    | [] => (admin_error 404 "not found", w)
    | key :: segments =>
        if match segments with [] => String.eqb key "rescan" && String.eqb (rq_Method r) "POST" | _ => false end then
          let w := pm_Scan mgr w in ((200, APlugins (pm_List mgr w)), w)
        else match segments with
        | "dead" :: rest => serveDeadLetters r key rest w
        | [action] => if String.eqb action "config" then serveConfig r key w else serveAction r key action w
        | _ => (admin_error 404 "not found", w)
        end
    end.

Definition PluginsServe (r : Request) : handler := fun w =>
  match auth with
  | None => admin_routes r w
  | Some resolve =>
      match resolve (SessionToken (rq_Header r)) with
      | Some caller =>
          if String.eqb (u_Role caller) "admin" then admin_routes r w
          else (admin_error 403 "admin privileges required", w)
      | None => (admin_error 403 "admin privileges required", w)
      end
  end.

(** Nothing of this API is for anyone but an administrator. *)
Theorem plugins_admin_only resolve r w :
  auth = Some resolve ->
  (forall u, resolve (SessionToken (rq_Header r)) = Some u -> u_Role u <> "admin") ->
  PluginsServe r w = (admin_error 403 "admin privileges required", w).
Proof using Type.
  intros Ha Hu. unfold PluginsServe. rewrite Ha. destruct (resolve _) as [u|]; [|done].
  destruct (String.eqb_spec (u_Role u) "admin") as [E|]; [|done]. by destruct (Hu u eq_refl).
Qed.
End handler.

(** ** Masking and saving the form *)

Lemma decl_of_spec decls k :
  NoDup (c_key <$> decls) ->
  match decl_of decls k with
  | Some d => d ∈ decls /\ c_key d = k
  | None => forall d, d ∈ decls -> c_key d <> k
  end.
Proof.
  unfold decl_of. intros Hnd.
  assert (forall m : gmap string ConfigDecl, foldl (fun m d => <[c_key d := d]> m) m decls !! k =
    match list_find (fun d => c_key d = k) decls with Some (_, d) => Some d | None => m !! k end) as H.
  { induction decls as [|d decls IH]; intros m; [done|]. simpl in Hnd. apply list.NoDup_cons in Hnd as [Hd Hnd].
    simpl. rewrite IH by done. case_decide as E.
    - destruct (list_find _ decls) as [[i d']|] eqn:Ef.
      + apply list_find_Some in Ef as (Hi & E' & _). exfalso. apply Hd. rewrite E, <- E'.
        apply list_elem_of_fmap. exists d'. split; [done|]. by eapply list_elem_of_lookup_2.
      + simpl. rewrite <- E. by rewrite lookup_insert_eq.
    - destruct (list_find _ decls) as [[i d']|]; [done|]. simpl. by rewrite lookup_insert_ne. }
  rewrite H. destruct (list_find _ decls) as [[i d]|] eqn:Ef.
  - apply list_find_Some in Ef as (Hi & E & _). split; [by eapply list_elem_of_lookup_2|done].
  - rewrite lookup_empty. intros d Hd. apply list_find_None in Ef. rewrite list.Forall_forall in Ef. by apply Ef.
Qed.

(** Which stored values the console may see. *)
Definition is_secret (decls : list ConfigDecl) (k : string) : bool :=
  existsb (fun d => c_secret d && String.eqb (c_key d) k) decls.

Lemma maskSecrets_lookup decls values k :
  maskSecrets decls values !! k =
  (fun v => if is_secret decls k && negb (String.eqb v "") then SecretPlaceholder else v) <$> values !! k.
Proof.
  unfold maskSecrets, is_secret. revert values. induction decls as [|d decls IH]; intros values; simpl.
  - by destruct (values !! k).
  - rewrite IH. unfold mask_one. destruct (c_secret d) eqn:Hs; simpl; [|done].
    destruct (String.eqb_spec (c_key d) k) as [->|Hne]; simpl.
    + destruct (values !! k) as [v|] eqn:Hv; simpl; [|by rewrite Hv].
      destruct (String.eqb_spec v "") as [->|Hv0]; simpl.
      * rewrite Hv. simpl. by rewrite andb_false_r.
      * rewrite lookup_insert_eq. simpl. by rewrite andb_true_r; destruct (existsb _ decls).
    + case_match; [|done]. by rewrite lookup_insert_ne.
Qed.

(** What the settings endpoint answers does not depend on the secrets: two
    stores that differ only in the values of settings declared secret, each
    non-empty in both, give the same answer. *)
Theorem secrets_hidden decls v1 v2 :
  (forall k, is_secret decls k = false -> v1 !! k = v2 !! k) ->
  (forall k, is_secret decls k = true ->
     (v1 !! k = None /\ v2 !! k = None) \/
     (v1 !! k = Some "" /\ v2 !! k = Some "") \/
     (exists x y, v1 !! k = Some x /\ v2 !! k = Some y /\ x <> "" /\ y <> "")) ->
  maskSecrets decls v1 = maskSecrets decls v2.
Proof.
  intros Hpub Hsec. apply map_eq. intros k. rewrite !maskSecrets_lookup.
  destruct (is_secret decls k) eqn:E; [|by rewrite (Hpub k E)].
  destruct (Hsec k E) as [[-> ->]|[[-> ->]|(x & y & -> & -> & Hx & Hy)]]; [done..|]. simpl.
  by destruct (String.eqb_spec x ""), (String.eqb_spec y "").
Qed.

Lemma resolve_fold decls stored l out out' :
  NoDup l.*1 -> res_fold (resolve_one decls stored) out l = Ok out' ->
  forall k, out' !! k =
    match (list_to_map l : gmap string string) !! k with
    | None => out !! k
    | Some v => if match decl_of decls k with Some d => c_secret d | None => false end && String.eqb v SecretPlaceholder
                then match stored !! k with Some old => Some old | None => out !! k end
                else Some v
    end.
Proof.
  revert out. induction l as [|[x v] l IH]; intros out; simpl.
  - intros _ [= ->] k. by rewrite lookup_empty.
  - intros [Hx Hnd]%list.NoDup_cons H k. apply res_bind_ok in H as (out1 & H1 & H2).
    rewrite (IH out1 Hnd H2 k). unfold resolve_one in H1. simpl in H1.
    destruct (decl_of decls x) as [d|] eqn:Ed; [|done].
    destruct (decide (x = k)) as [->|Hne].
    + rewrite lookup_insert_eq, (not_elem_of_list_to_map_1 _ _ Hx), Ed.
      destruct (_ && _); injection H1 as <-; [|by rewrite lookup_insert_eq].
      destruct (stored !! k); [by rewrite lookup_insert_eq|done].
    + rewrite lookup_insert_ne by done.
      assert (out1 !! k = out !! k) as ->; [|done].
      destruct (_ && _); injection H1 as <-; [|by rewrite lookup_insert_ne].
      destruct (stored !! x); [by rewrite lookup_insert_ne|done].
Qed.

Lemma resolve_accepts decls stored l out :
  Forall (fun kv => decl_of decls kv.1 <> None) l -> exists out', res_fold (resolve_one decls stored) out l = Ok out'.
Proof.
  intros H. revert out. induction H as [|[x v] l Hx _ IH]; intros out; simpl; [by eexists|].
  unfold resolve_one at 1. simpl in *. destruct (decl_of decls x) as [d|]; [|done].
  destruct (_ && _); simpl; apply IH.
Qed.

(** Saving the form as it was shown changes nothing: whatever order the
    submitted values come in, resolving the masked settings against the stored
    ones gives back the stored ones, secrets included. *)
Theorem form_roundtrip decls stored l :
  NoDup (c_key <$> decls) -> (forall k v, stored !! k = Some v -> k ∈ c_key <$> decls) ->
  l ≡ₚ map_to_list (maskSecrets decls stored) ->
  resolveConfig decls stored l = Ok stored.
Proof.
  intros Hnd Hdecl Hl.
  assert (NoDup l.*1) as Hl1 by (rewrite Hl; apply NoDup_fst_map_to_list).
  assert ((list_to_map l : gmap string string) = maskSecrets decls stored) as Hmap.
  { rewrite (list_to_map_proper l (map_to_list (maskSecrets decls stored))) by done. apply list_to_map_to_list. }
  assert (Forall (fun kv => decl_of decls kv.1 <> None) l) as Hall.
  { apply list.Forall_forall. intros [k v] Hkv. rewrite Hl in Hkv. apply elem_of_map_to_list in Hkv.
    rewrite maskSecrets_lookup in Hkv. destruct (stored !! k) as [x|] eqn:Hx; [|done]. simpl.
    apply Hdecl in Hx. apply list_elem_of_fmap in Hx as (d & -> & Hd).
    pose proof (decl_of_spec decls (c_key d) Hnd) as Hs. destruct (decl_of decls (c_key d)); [done|].
    by destruct (Hs d Hd). }
  destruct (resolve_accepts decls stored l ∅ Hall) as [out Hout]. unfold resolveConfig. rewrite Hout. f_equal.
  apply map_eq. intros k. rewrite (resolve_fold _ _ _ _ _ Hl1 Hout k), Hmap, maskSecrets_lookup, lookup_empty.
  destruct (stored !! k) as [v|] eqn:Hv; [|done]. simpl.
  assert (is_secret decls k = match decl_of decls k with Some d => c_secret d | None => false end) as ->.
  { pose proof (decl_of_spec decls k Hnd) as Hs. apply eq_true_iff_eq. unfold is_secret. rewrite existsb_elem. split.
    - intros (d & Hd & [Hsec E]%andb_true_iff). apply String.eqb_eq in E.
      destruct (decl_of decls k) as [d'|]; [|by destruct (Hs d Hd)]. destruct Hs as [Hd' E'].
      assert (d' = d) as ->; [|done]. apply list_elem_of_lookup in Hd as [i Hi], Hd' as [j Hj].
      assert (i = j) as ->; [|congruence]. eapply (NoDup_lookup _ _ _ (c_key d) Hnd); rewrite list_lookup_fmap;
        [by rewrite Hi|rewrite Hj; simpl; congruence].
    - destruct (decl_of decls k) as [d|]; [|done]. intros Hsec. exists d. destruct Hs as [Hd <-].
      by rewrite Hsec, String.eqb_refl. }
  destruct (decl_of decls k) as [d|]; [|done]. destruct (c_secret d) eqn:Hc; simpl; [|done].
  destruct (String.eqb_spec v "") as [->|]; [done|]. by rewrite String.eqb_refl.
Qed.

(** ** Concrete settings *)

Definition ex_decls : list ConfigDecl :=
  [mkConfigDecl "limit" "" "" "int" "10" false false; mkConfigDecl "token" "" "" "" "" false true].
Definition ex_stored : gmap string string := {[ "limit" := "20"; "token" := "s3cret" ]}.

Lemma secrets_hidden_witness :
  maskSecrets ex_decls ex_stored = maskSecrets ex_decls (<["token" := "other"]> ex_stored) /\
  maskSecrets ex_decls ex_stored !! "token" = Some SecretPlaceholder.
Proof.
  split; [|vm_compute; reflexivity]. apply secrets_hidden.
  - intros k Hk. destruct (decide (k = "token")) as [->|Hne]; [discriminate Hk|].
    symmetry. by apply lookup_insert_ne.
  - intros k Hk. assert (k = "token") as ->.
    { unfold is_secret, ex_decls in Hk. simpl in Hk. destruct (String.eqb_spec "token" k); [done|discriminate Hk]. }
    right; right. exists "s3cret", "other". split_and!; try reflexivity; discriminate.
Defined.

Lemma form_roundtrip_witness :
  resolveConfig ex_decls ex_stored (map_to_list (maskSecrets ex_decls ex_stored)) = Ok ex_stored.
Proof.
  apply form_roundtrip; [| |reflexivity].
  - repeat constructor; set_solver.
  - intros k v Hk. unfold ex_stored in Hk. apply lookup_insert_Some in Hk as [[<- _]|[_ Hk]]; [set_solver|].
    apply lookup_singleton_Some in Hk as [<- _]. set_solver.
Defined.

(** A value whose declaration an upgrade has removed is stored, shown in clear
    whatever it was declared as, and makes the whole form unsavable. *)
Example undeclared_value_is_shown :
  maskSecrets [] ex_stored !! "token" = Some "s3cret" /\
  resolveConfig [] ex_stored [("token", "s3cret")] = Err (dquote +:+ "token" +:+ dquote +:+ " is not a setting this plugin declares").
Proof. split; reflexivity. Qed.
