(* ===== verification/Files.v ===== *)
(** * core/hostsvc/files.go and core/gateway/file_handler.go

    Files: the tables [system_files] and [file_download_tokens], the object
    store behind core/storage, what plugins do with files and what browsers do
    with them. The object store, the multipart parser, the UUIDs and the bytes
    the random source draws are arguments. *)

From Stdlib Require Import Ascii.
From S2P Require Import Prelude GoStrings Sql Auth Wire Gateway.

Open Scope Z_scope.

Record file := mkFile {
  f_Filename : string; f_Size : Z; f_MimeType : string; f_StorageKey : string;
  f_UploaderID : string; f_OwnerPluginKey : string
}.

Record token_row := mkTokenRow { tk_FileID : string; tk_UserID : string; tk_ExpiresAt : Z }.

(** The two tables by their primary keys. *)
Record tables := mkTables { files : gmap string file; tokens : gmap string token_row }.

Inductive file_error :=
| NotConfigured
| ErrFileNotFound (id : string)
| ErrFileTooLarge (limit : Z)
| ReadUpload (why : string)
| StoreObject (why : string)
| FileRand
| FileSql (doing : string) (e : db_error).

Record FileMeta := mkFileMeta {
  Found : bool; fm_FileID : string; fm_Filename : string; fm_Size : Z; fm_MimeType : string
}.

Definition no_file : FileMeta := mkFileMeta false "" "" 0 "".

Definition DefaultMaxUploadBytes : Z := 64 * 2 ^ 20.
(** [maxUploadBytes] of file_handler.go. *)
Definition BrowserUploadBytes : Z := 100 * 2 ^ 20.
Definition Minute : Z := 60 * 10 ^ 9.

Definition DownloadPath := "/api/system/files/download/".

(** An [io.Reader]: the bytes it delivers, and the error it ends with. *)
Record reader := mkReader { rd_data : string; rd_error : option string }.

(** [io.Copy] from [io.LimitReader(r, n)]: the error shows only if it comes
    before the limit. *)
Definition read_limited (r : reader) (n : Z) : result string string :=
  if n <=? Z.of_nat (String.length (rd_data r)) then Ok (String.substring 0 (Z.to_nat n) (rd_data r))
  else match rd_error r with None => Ok (rd_data r) | Some e => Err e end.

Section files.
Context {O : Type}.
(** core/storage. *)
Context (PutObject : string -> string -> string -> O -> result string O).
Context (GetObject : string -> O -> result string string).
Context (varchar : Z -> string -> bool).

(** The service: whether storage and database are configured, the ceiling, the
    URL prefix, and the state behind it. *)
Record Files := mkFiles {
  has_store : bool; has_db : bool; MaxUploadBytes : Z; PublicBaseURL : string
}.

Record state := mkState { objects : O; fdb : session tables }.

(** ** The queries *)

Definition q_GetFile (id : string) : prog tables (option file) :=
  exec "GetFile" (fun _ d => Ok (files d !! id, d)).

(** [None] is sql.ErrNoRows. *)
Definition q_GetFileOwner (id : string) : prog tables (option string) :=
  exec "GetFileOwner" (fun _ d => Ok (f_OwnerPluginKey <$> files d !! id, d)).

Definition q_InsertFile (id : string) (f : file) : prog tables () :=
  exec "InsertFile" (fun _ d =>
    reject? negb (varchar 100 id && varchar 255 (f_Filename f) && varchar 100 (f_MimeType f) &&
                  varchar 255 (f_StorageKey f) && varchar 100 (f_UploaderID f) &&
                  varchar 100 (f_OwnerPluginKey f)) with "value too long" ;;
    reject? bool_decide (is_Some (files d !! id)) with "duplicate key" ;;
    Ok ((), mkTables (<[id := f]> (files d)) (tokens d))).

Definition q_DeleteFile (id : string) : prog tables () :=
  exec "DELETE" (fun _ d => Ok ((), mkTables (delete id (files d)) (tokens d))).

Definition q_InsertDownloadToken (token : string) (t : token_row) : prog tables () :=
  exec "InsertDownloadToken" (fun _ d =>
    reject? negb (varchar 255 token && varchar 100 (tk_FileID t) && varchar 100 (tk_UserID t))
      with "value too long" ;;
    reject? bool_decide (is_Some (tokens d !! token)) with "duplicate key" ;;
    Ok ((), mkTables (files d) (<[token := t]> (tokens d)))).

(** [SELECT file_id ... WHERE token = $1 AND expires_at > NOW()] *)
Definition q_VerifyDownloadToken (token : string) : prog tables string :=
  exec "VerifyDownloadToken" (fun now d =>
    match tokens d !! token with
    | Some t => if now <? tk_ExpiresAt t then Ok (tk_FileID t, d) else Err "sql: no rows in result set"
    | None => Err "sql: no rows in result set"
    end).

(** ** files.go *)

Definition maxUpload (f : Files) : Z := if 0 <? MaxUploadBytes f then MaxUploadBytes f else DefaultMaxUploadBytes.

Definition on_tables {A} (m : prog tables (result file_error A)) (s : state) : result file_error A * state :=
  let '(r, d) := m (fdb s) in
  (match r with Ok r => r | Err e => Err (FileSql "" e) end, mkState (objects s) d).

Definition storage_key (pluginKey fileID : string) : string := "plugins/" +:+ pluginKey +:+ "/" +:+ fileID.

Definition Put (f : Files) (uuid pluginKey filename mimeType : string) (r : reader) (s : state)
    : result file_error (string * Z) * state :=
  if negb (has_store f && has_db f) then (Err NotConfigured, s)
  else
    let filename := if String.eqb filename "" then "untitled" else filename in
    let mimeType := if String.eqb mimeType "" then "application/octet-stream" else mimeType in
    match read_limited r (maxUpload f + 1) with
    | Err e => (Err (ReadUpload e), s)
    | Ok buf =>
        let size := Z.of_nat (String.length buf) in
        if maxUpload f <? size then (Err (ErrFileTooLarge (maxUpload f)), s)
        else
          let key := storage_key pluginKey uuid in
          match PutObject key buf mimeType (objects s) with
          | Err e => (Err (StoreObject e), s)
          | Ok o =>
              let '(r, s) := on_tables (wrapped (FileSql "record file")
                (q_InsertFile uuid (mkFile filename size mimeType key "" pluginKey))) (mkState o (fdb s)) in
              (match r with Ok _ => Ok (uuid, size) | Err e => Err e end, s)
          end
    end.

Definition checkOwnership (pluginKey fileID : string) : prog tables (result file_error ()) :=
  do? owner := wrapped (FileSql "look up file owner") (q_GetFileOwner fileID) in
  ret (match owner with
       | None => Err (ErrFileNotFound fileID)
       | Some owner =>
           if negb (String.eqb owner "") && negb (String.eqb owner pluginKey)
           then Err (ErrFileNotFound fileID) else Ok ()
       end).

Definition Delete (f : Files) (pluginKey fileID : string) : prog tables (result file_error ()) :=
  if negb (has_db f) then ret (Err NotConfigured)
  else
    do? _ := checkOwnership pluginKey fileID in
    do! row := try (q_GetFile fileID) in
    match row with
    | Ok (Some _) => wrapped (FileSql "delete file record") (q_DeleteFile fileID)
    | _ => ret (Err (ErrFileNotFound fileID))
    end.

(** The URL and the expiry. [now] is [time.Now()]. *)
Definition GenerateDownloadToken (f : Files) (now : Z) (drawn : option (list Z))
    (pluginKey fileID userID : string) (expiry : Z) : prog tables (result file_error (string * Z)) :=
  if negb (has_db f) then ret (Err NotConfigured)
  else
    do? _ := checkOwnership pluginKey fileID in
    let expiry := if expiry <=? 0 then 5 * Minute else expiry in
    match drawn with
    | None => ret (Err FileRand)
    | Some b =>
        let token := hex_encode b in
        let expiresAt := now + expiry in
        do? _ := wrapped (FileSql "issue download token")
                   (q_InsertDownloadToken token (mkTokenRow fileID userID expiresAt)) in
        ret (Ok (PublicBaseURL f +:+ DownloadPath +:+ fileID +:+ "/" +:+ token, expiresAt))
    end.

Definition Metadata (f : Files) (pluginKey fileID : string) : prog tables (result file_error FileMeta) :=
  if negb (has_db f) then ret (Err NotConfigured)
  else
    do! own := checkOwnership pluginKey fileID in
    match own with
    | Err _ => ret (Ok no_file)
    | Ok _ =>
        do! row := try (q_GetFile fileID) in
        ret (Ok (match row with
                 | Ok (Some r) => mkFileMeta true fileID (f_Filename r) (f_Size r) (f_MimeType r)
                 | _ => no_file
                 end))
    end.

(** ** file_handler.go *)

(** What [r.FormFile] finds: the file name, the size and content type of the
    part, and its bytes. *)
Record form_file := mkFormFile { ff_name : string; ff_size : Z; ff_type : string; ff_data : string }.

Context (FormFile : Request -> option form_file).

(** [None] when authentication is off. *)
Definition uploader (auth : option (string -> option User)) (r : Request) : string :=
  match auth with
  | None => "anonymous"
  | Some resolve =>
      match resolve (SessionToken (rq_Header r)) with
      | None => "anonymous"
      | Some u => itoa (u_ID u)
      end
  end.

Definition body_within (limit : Z) (b : Body) : bool :=
  match b with
  | ABody data => Z.of_nat (String.length data) <=? limit
  | NoBody => true
  | BrokenBody => false
  end.

Definition Upload (auth : option (string -> option User)) (uuid : string) (r : Request) (s : state)
    : list wop * state :=
  if negb (String.eqb (rq_Method r) "POST") then (http_Error "method not allowed" 405, s)
  else if negb (body_within BrowserUploadBytes (rq_Body r)) then (http_Error "invalid file" 400, s)
  else match FormFile r with
  | None => (http_Error "invalid file" 400, s)
  | Some ff =>
      let mime := if String.eqb (ff_type ff) "" then "application/octet-stream" else ff_type ff in
      match PutObject uuid (ff_data ff) mime (objects s) with
      | Err e => (http_Error ("storage upload failed: " +:+ e) 500, s)
      | Ok o =>
          let '(res, s) := on_tables (wrapped (FileSql "insert")
            (q_InsertFile uuid (mkFile (ff_name ff) (ff_size ff) mime uuid (uploader auth r) "")))
            (mkState o (fdb s)) in
          (match res with
           | Err _ => http_Error "database insert failed" 500
           | Ok _ => [WSet "Content-Type" "application/json";
                      WWrite ("{" +:+ dquote +:+ "file_id" +:+ dquote +:+ ":" +:+ dquote +:+ uuid +:+ dquote +:+ "}")]
           end, s)
      end
  end.

(** [io.Copy] of an empty stream writes nothing. *)
Definition stream (data : string) : list wop := if String.eqb data "" then [] else [WWrite data].

Definition sent (fm : file) (data : string) : list wop :=
  [WSet "Content-Type" (f_MimeType fm);
   WSet "Content-Disposition" ("attachment; filename=" +:+ dquote +:+ f_Filename fm +:+ dquote)] ++ stream data.

Definition Download (r : Request) (s : state) : list wop * state :=
  if negb (String.eqb (rq_RawQuery r) "") then
    (http_Error "query parameters are not allowed on download" 400, s)
  else match split_byte "/"%char (trim_prefix (rq_Path r) DownloadPath) with
  | [fileID; tempToken] =>
      if String.eqb fileID "" || String.eqb tempToken "" then (http_Error "invalid request path" 400, s)
      else
        let '(tok, d) := q_VerifyDownloadToken tempToken (fdb s) in
        let s := mkState (objects s) d in
        match tok with
        | Err _ => (http_Error "unauthorized or expired token" 401, s)
        | Ok tokenFileID =>
            if negb (String.eqb tokenFileID fileID) then (http_Error "unauthorized or expired token" 401, s)
            else
              let '(row, d) := q_GetFile fileID (fdb s) in
              let s := mkState (objects s) d in
              match row with
              | Ok (Some fm) =>
                  match GetObject (f_StorageKey fm) (objects s) with
                  | Err _ => (http_Error "failed to retrieve file" 500, s)
                  | Ok data => (sent fm data, s)
                  end
              | _ => (http_NotFound, s)
              end
        end
  | _ => (http_Error "invalid request path" 400, s)
  end.

(** ** Histories *)

(** What plugins and browsers do, each at its time and with the statements of
    it that fail. *)
Inductive action :=
| APut (f : Files) (uuid pluginKey filename mimeType : string) (r : reader)
| ADelete (f : Files) (pluginKey fileID : string)
| AToken (f : Files) (drawn : option (list Z)) (pluginKey fileID userID : string) (expiry : Z)
| AMetadata (f : Files) (pluginKey fileID : string)
| AUpload (auth : option (string -> option User)) (uuid : string) (r : Request)
| ADownload (r : Request).

Record moment := mkMoment { mo_now : Z; mo_faults : list bool; mo_action : action }.

Definition at_moment (m : moment) (s : state) : state :=
  mkState (objects s) (mkSession (store (fdb s)) Pool (mo_faults m) (mo_now m)).

Definition act (now : Z) (a : action) (s : state) : state :=
  match a with
  | APut f uuid k name mime r => (Put f uuid k name mime r s).2
  | ADelete f k id => (on_tables (Delete f k id) s).2
  | AToken f drawn k id user expiry =>
      (on_tables (GenerateDownloadToken f now drawn k id user expiry) s).2
  | AMetadata f k id => (on_tables (Metadata f k id) s).2
  | AUpload auth uuid r => (Upload auth uuid r s).2
  | ADownload r => (Download r s).2
  end.

Definition happen (s : state) (m : moment) : state := act (mo_now m) (mo_action m) (at_moment m s).
Definition unfold_history (s : state) (ms : list moment) : state := foldl happen s ms.

(** ** Lemmas *)

Lemma on_tables_eq {A} (m : prog tables (result file_error A)) s :
  objects (on_tables m s).2 = objects s /\ fdb (on_tables m s).2 = (m (fdb s)).2.
Proof. unfold on_tables. by destruct (m (fdb s)). Qed.

Lemma q_GetFile_reads id : within eq (q_GetFile id).
Proof. apply within_read. intros now d a d' E. by apply Ok_inj, pair_eq in E as [_ <-]. Qed.

Lemma q_GetFileOwner_reads id : within eq (q_GetFileOwner id).
Proof. apply within_read. intros now d a d' E. by apply Ok_inj, pair_eq in E as [_ <-]. Qed.

Lemma q_VerifyDownloadToken_reads tok : within eq (q_VerifyDownloadToken tok).
Proof. apply within_read. intros now d a d' E. repeat case_match; try done; by apply Ok_inj, pair_eq in E as [_ <-]. Qed.

Lemma checkOwnership_reads k id : within eq (checkOwnership k id).
Proof. unfold checkOwnership. within_steps. apply q_GetFileOwner_reads. Qed.

Lemma Metadata_reads f k id : within eq (Metadata f k id).
Proof.
  unfold Metadata. case_match; [apply (within_ret _)|].
  apply within_bind; [apply _|apply checkOwnership_reads|]. intros [u|e]; [|apply (within_ret _)].
  apply within_bind; [apply _|apply (within_try _), q_GetFile_reads|]. intros row. apply (within_ret _).
Qed.

Definition may_use (k : string) (f : file) : Prop := f_OwnerPluginKey f = "" \/ f_OwnerPluginKey f = k.

Lemma checkOwnership_ok k id s s1 :
  checkOwnership k id s = (Ok (Ok ()), s1) ->
  exists f, files (store s) !! id = Some f /\ may_use k f.
Proof.
  unfold checkOwnership. rewrite ok_or_ok. intros (owner & s2 & Ho & H). rewrite wrapped_ok in Ho.
  apply exec_ok in Ho as (Ho & _). apply Ok_inj, pair_eq in Ho as [<- _].
  destruct (files (store s) !! id) as [f|]; [|done]. simpl in H. exists f. split; [done|].
  destruct (String.eqb_spec (f_OwnerPluginKey f) ""); [by left|].
  destruct (String.eqb_spec (f_OwnerPluginKey f) k); [by right|done].
Qed.

(** *** Files of other plugins *)

Definition foreign (k : string) (f : file) : Prop := ~ may_use k f.

Definition hide (id : string) (s : session tables) : session tables :=
  mkSession (mkTables (delete id (files (store s))) (tokens (store s))) (ex s) (faults s) (clock s).

Lemma checkOwnership_foreign k id s f :
  files (store s) !! id = Some f -> foreign k f ->
  exists e, (checkOwnership k id s).1 = Ok (Err e) /\ (checkOwnership k id (hide id s)).1 = Ok (Err e).
Proof using Type.
  intros Hf Hk.
  assert (negb (String.eqb (f_OwnerPluginKey f) "") && negb (String.eqb (f_OwnerPluginKey f) k) = true) as Hg.
  { unfold foreign, may_use in Hk. destruct (String.eqb_spec (f_OwnerPluginKey f) ""); [by destruct Hk; left|].
    destruct (String.eqb_spec (f_OwnerPluginKey f) k); [by destruct Hk; right|done]. }
  unfold checkOwnership, ok_or, wrapped, q_GetFileOwner, exec, bind, try, ret, hide. simpl.
  rewrite Hf, lookup_delete_eq.
  destruct (faults s) as [|[] fs]; [|by eexists|];
    (destruct (ex s) as [|[]]; simpl; rewrite ?Hg; by eexists).
Qed.

Lemma ok_or_refused {A B} (m : prog tables (result file_error A)) (k : A -> prog tables (result file_error B)) s e :
  (m s).1 = Ok (Err e) -> ok_or m k s = (Ok (Err e), (m s).2).
Proof. unfold ok_or, bind, ret. by destruct (m s) as [[[a|x]|x] s1]; intros [= ->]. Qed.

(** A file another plugin wrote cannot be told from a file that does not
    exist: asking to delete it, to describe it or to share it gets the answer
    it would get if the row were missing, and leaves the tables as they were. *)
Lemma foreign_file_invisible f now drawn k id user expiry s r :
  files (store s) !! id = Some r -> foreign k r ->
  ((Delete f k id s).1 = (Delete f k id (hide id s)).1 /\
   store (Delete f k id s).2 = store s) /\
  ((Metadata f k id s).1 = (Metadata f k id (hide id s)).1 /\
   store (Metadata f k id s).2 = store s) /\
  ((GenerateDownloadToken f now drawn k id user expiry s).1 =
     (GenerateDownloadToken f now drawn k id user expiry (hide id s)).1 /\
   store (GenerateDownloadToken f now drawn k id user expiry s).2 = store s).
Proof using Type.
  intros Hr Hk. destruct (checkOwnership_foreign k id s r Hr Hk) as (e & E1 & E2).
  assert (store (checkOwnership k id s).2 = store s) as Hs.
  { destruct (checkOwnership k id s) as [x s1] eqn:E. symmetry. by apply (checkOwnership_reads _ _ _ _ _ E). }
  unfold Delete, Metadata, GenerateDownloadToken. destruct (has_db f); simpl; [|done].
  rewrite !(ok_or_refused _ _ s e E1), !(ok_or_refused _ _ (hide id s) e E2). unfold bind.
  destruct (checkOwnership k id s) as [x s1], (checkOwnership k id (hide id s)) as [y s2].
  simpl in *. subst x y. done.
Qed.

(** *** Uploads *)

Lemma length_substring0 n s : (n <= String.length s)%nat -> String.length (String.substring 0 n s) = n.
Proof.
  revert n. induction s as [|a s IH]; intros [|n] Hn; simpl in *; try done; [lia|].
  rewrite IH; [done|lia].
Qed.

Lemma read_limited_short r n buf :
  read_limited r n = Ok buf -> Z.of_nat (String.length buf) < n -> buf = rd_data r /\ rd_error r = None.
Proof.
  unfold read_limited. case_match; [|by destruct (rd_error r); intros [= <-]].
  intros [= <-] Hl. zbool. rewrite length_substring0 in Hl; lia.
Qed.

Lemma read_limited_long r n :
  0 <= n <= Z.of_nat (String.length (rd_data r)) ->
  exists buf, read_limited r n = Ok buf /\ Z.of_nat (String.length buf) = n.
Proof.
  intros Hn. unfold read_limited. destruct (Z.leb_spec n (Z.of_nat (String.length (rd_data r)))); [|lia].
  eexists. split; [done|]. rewrite length_substring0; lia.
Qed.

Lemma maxUpload_pos f : 0 < maxUpload f.
Proof. unfold maxUpload, DefaultMaxUploadBytes. case_match; zbool; lia. Qed.

Lemma q_InsertFile_ok id f s s' :
  q_InsertFile id f s = (Ok (), s') ->
  files (store s) !! id = None /\ store s' = mkTables (<[id := f]> (files (store s))) (tokens (store s)).
Proof.
  intros H. apply exec_ok in H as (H & _). peel_all H. apply Ok_inj, pair_eq in H as [_ <-].
  split; [|done]. apply bool_decide_eq_false, eq_None_not_Some in Hg0. done.
Qed.

Lemma Put_spec f uuid k name mime r s :
  match Put f uuid k name mime r s with
  | (Ok (id, n), s') =>
      id = uuid /\ rd_error r = None /\ n = Z.of_nat (String.length (rd_data r)) /\ n <= maxUpload f /\
      exists name' mime', files (store (fdb s)) !! id = None /\
        PutObject (storage_key k id) (rd_data r) mime' (objects s) = Ok (objects s') /\
        store (fdb s') = mkTables (<[id := mkFile name' n mime' (storage_key k id) "" k]> (files (store (fdb s))))
                           (tokens (store (fdb s)))
  | (Err _, s') => store (fdb s') = store (fdb s)
  end.
Proof.
  pose proof (maxUpload_pos f) as Hmax. unfold Put.
  destruct (has_store f && has_db f); simpl; [|done].
  destruct (read_limited r (maxUpload f + 1)) as [buf|e] eqn:Hr; [|done].
  destruct (Z.ltb_spec (maxUpload f) (Z.of_nat (String.length buf))) as [|Hle]; [done|].
  apply read_limited_short in Hr as [-> Herr]; [|lia].
  destruct (PutObject _ _ _ _) as [o|e] eqn:Hp; [|done]. simpl.
  unfold on_tables, wrapped, bind, try, ret. simpl.
  destruct (q_InsertFile uuid _ (fdb s)) as [[u|e] d] eqn:E; simpl.
  - destruct u. apply q_InsertFile_ok in E as [Hnone Hd]. split_and!; try done. by eexists _, _.
  - by apply exec_err in E as (-> & _).
Qed.

(** An upload a plugin makes is recorded whole or not at all: on success
    the object written is every byte the plugin sent, the ceiling holds, and
    the new row says so and carries the plugin's own key; an upload above the
    ceiling is refused with nothing written. *)
Lemma Put_bounded f uuid k name mime r s :
  match Put f uuid k name mime r s with
  | (Ok (id, n), s') =>
      id = uuid /\ rd_error r = None /\ n = Z.of_nat (String.length (rd_data r)) /\ n <= maxUpload f /\
      exists name' mime', files (store (fdb s)) !! id = None /\
        PutObject (storage_key k id) (rd_data r) mime' (objects s) = Ok (objects s') /\
        store (fdb s') = mkTables (<[id := mkFile name' n mime' (storage_key k id) "" k]> (files (store (fdb s))))
                           (tokens (store (fdb s)))
  | (Err _, s') => store (fdb s') = store (fdb s)
  end /\
  (has_store f = true -> has_db f = true -> maxUpload f < Z.of_nat (String.length (rd_data r)) ->
   Put f uuid k name mime r s = (Err (ErrFileTooLarge (maxUpload f)), s)).
Proof.
  split; [apply Put_spec|]. intros Hs Hd Hbig. unfold Put. rewrite Hs, Hd. simpl.
  pose proof (maxUpload_pos f) as Hmax.
  destruct (read_limited_long r (maxUpload f + 1)) as (buf & -> & Hl); [lia|].
  destruct (Z.ltb_spec (maxUpload f) (Z.of_nat (String.length buf))); [done|lia].
Qed.
(** *** Downloads *)

Definition keeps_tokens (d d' : tables) : Prop := tokens d' = tokens d.

#[local] Instance keeps_tokens_preorder : PreOrder keeps_tokens.
Proof. split; [by intros d|]. intros a b c Hab Hbc. unfold keeps_tokens in *. congruence. Qed.

Lemma InsertFile_keeps_tokens id f : within keeps_tokens (q_InsertFile id f).
Proof.
  apply within_exec; [apply _|]. intros now d a d' H. peel_all H. by apply Ok_inj, pair_eq in H as [_ <-].
Qed.

Lemma Delete_keeps_tokens f k id : within keeps_tokens (Delete f k id).
Proof.
  unfold Delete. case_match; [apply (within_ret _)|].
  apply (within_ok_or _); [apply (reads_refl _), checkOwnership_reads|]. intros _.
  apply within_bind; [apply _|apply (within_try _), (reads_refl _), q_GetFile_reads|].
  intros [[row|]|e]; try apply (within_ret _). apply (within_wrapped _), within_exec; [apply _|].
  intros now d a d' E. by apply Ok_inj, pair_eq in E as [_ <-].
Qed.

Lemma on_tables_within (R : tables -> tables -> Prop) {A} (m : prog tables (result file_error A)) s :
  within R m -> R (store (fdb s)) (store (fdb (on_tables m s).2)).
Proof. intros Hm. unfold on_tables. destruct (m (fdb s)) as [r d] eqn:E. by apply Hm in E. Qed.

Lemma insert_keeps_tokens e id f s :
  keeps_tokens (store (fdb s)) (store (fdb (on_tables (wrapped e (q_InsertFile id f)) s).2)).
Proof. apply on_tables_within. apply (within_wrapped _), InsertFile_keeps_tokens. Qed.

Lemma Put_keeps_tokens f uuid k name mime r s :
  keeps_tokens (store (fdb s)) (store (fdb (Put f uuid k name mime r s).2)).
Proof.
  unfold Put. case_match; [done|]. destruct (read_limited _ _) as [buf|e]; [|done]. case_match; [done|].
  destruct (PutObject _ _ _ _) as [o|e]; [|done].
  match goal with |- context [on_tables ?m ?s1] =>
    pose proof (insert_keeps_tokens (FileSql "record file") uuid
      (mkFile (if String.eqb name "" then "untitled" else name) (Z.of_nat (String.length buf))
        (if String.eqb mime "" then "application/octet-stream" else mime) (storage_key k uuid) "" k) s1) as Hins;
    destruct (on_tables m s1) as [x s2]
  end.
  by destruct x.
Qed.

Lemma Upload_keeps_tokens auth uuid r s :
  keeps_tokens (store (fdb s)) (store (fdb (Upload auth uuid r s).2)).
Proof.
  unfold Upload. repeat (case_match; [done|]). destruct (FormFile r) as [ff|]; [|done].
  destruct (PutObject _ _ _ _) as [o|e]; [|done].
  match goal with |- context [on_tables ?m ?s1] =>
    pose proof (insert_keeps_tokens (FileSql "insert") uuid
      (mkFile (ff_name ff) (ff_size ff) (if String.eqb (ff_type ff) "" then "application/octet-stream" else ff_type ff)
        uuid (uploader auth r) "") s1) as Hins;
    destruct (on_tables m s1) as [x s2]
  end.
  by destruct x.
Qed.

Definition is_error (ops : list wop) : Prop := exists msg code, 400 <= code /\ ops = http_Error msg code.

(** The download the token in the path was made out for. *)
Definition granted (r : Request) (s : state) (id tok : string) (t : token_row) (fm : file) (data : string) : Prop :=
  rq_RawQuery r = "" /\ split_byte "/"%char (trim_prefix (rq_Path r) DownloadPath) = [id; tok] /\
  tokens (store (fdb s)) !! tok = Some t /\ tk_FileID t = id /\ clock (fdb s) < tk_ExpiresAt t /\
  files (store (fdb s)) !! id = Some fm /\ GetObject (f_StorageKey fm) (objects s) = Ok data.

Lemma is_error_http msg code : 400 <= code -> is_error (http_Error msg code).
Proof. by exists msg, code. Qed.

(** The answer [H] gives is an error, and nothing was written. *)
Ltac refused H :=
  apply pair_eq in H as [<- <-]; split; [simpl; congruence|left; by apply is_error_http].

(** How a download answers: with an error, or with the file the token in the
    path was made out for. It changes neither table. *)
Lemma Download_cases r s ops s' :
  Download r s = (ops, s') ->
  store (fdb s') = store (fdb s) /\
  (is_error ops \/ exists id tok t fm data, granted r s id tok t fm data /\ ops = sent fm data).
Proof.
  unfold Download. intros H.
  destruct (String.eqb_spec (rq_RawQuery r) "") as [Hq|_]; simpl in H;
    [|refused H].
  destruct (split_byte _ _) as [|id [|tok [|]]] eqn:Hs;
    try refused H.
  destruct (_ || _); [refused H|].
  destruct (q_VerifyDownloadToken tok (fdb s)) as [vt d] eqn:Ev.
  pose proof (q_VerifyDownloadToken_reads tok _ _ _ Ev) as Hd.
  destruct vt as [tid|e]; [|refused H].
  destruct (String.eqb_spec tid id) as [->|_]; simpl in H;
    [|refused H].
  destruct (q_GetFile id d) as [row d2] eqn:Ef. pose proof (q_GetFile_reads id _ _ _ Ef) as Hd2.
  destruct row as [[fm|]|e];
    try refused H.
  destruct (GetObject (f_StorageKey fm) (objects s)) as [data|e] eqn:Eo; apply pair_eq in H as [<- <-];
    (split; [simpl; congruence|]); [right|left; by apply is_error_http].
  apply exec_ok in Ev as (Ev & _ & _). apply exec_ok in Ef as (Ef & _). apply Ok_inj, pair_eq in Ef as [Ef _].
  destruct (tokens (store (fdb s)) !! tok) as [t|] eqn:Ht; [|done].
  destruct (Z.ltb_spec (clock (fdb s)) (tk_ExpiresAt t)); [|done].
  apply Ok_inj, pair_eq in Ev as [Htid _].
  exists id, tok, t, fm, data. split; [|done]. unfold granted. split_and!; try done. by rewrite Hd.
Qed.

(** A token in the table was just issued, or was there before. *)
Definition issued (s : state) (m : moment) (tok : string) (t : token_row) : Prop :=
  exists f drawn k user expiry r, mo_action m = AToken f (Some drawn) k (tk_FileID t) user expiry /\
    tok = hex_encode drawn /\
    tk_ExpiresAt t = mo_now m + (if expiry <=? 0 then 5 * Minute else expiry) /\
    files (store (fdb s)) !! tk_FileID t = Some r /\ may_use k r.

Lemma GenerateDownloadToken_tokens f now drawn k id user expiry s r s' :
  GenerateDownloadToken f now drawn k id user expiry s = (r, s') ->
  store s' = store s \/
  exists b fl, drawn = Some b /\ files (store s) !! id = Some fl /\ may_use k fl /\
    store s' = mkTables (files (store s)) (<[hex_encode b :=
      mkTokenRow id user (now + (if expiry <=? 0 then 5 * Minute else expiry))]> (tokens (store s))).
Proof.
  unfold GenerateDownloadToken. destruct (has_db f); simpl; [|intros [= _ <-]; by left].
  intros [([] & s1 & Hc & H)|(r0 & H)]%ok_or_inv;
    [|left; symmetry; by apply (checkOwnership_reads _ _ _ _ _ H)].
  pose proof (checkOwnership_reads _ _ _ _ _ Hc) as Hs. apply checkOwnership_ok in Hc as (fl & Hfl & Huse).
  destruct drawn as [b|]; [|injection H as _ <-; by left].
  apply ok_or_inv in H as [(u & s2 & H & H2)|(r0 & H)].
  - injection H2 as _ <-. rewrite wrapped_ok in H. apply exec_ok in H as (H & _). peel_all H.
    apply Ok_inj, pair_eq in H as [_ <-]. right. exists b, fl. rewrite Hs. by rewrite <- Hs at 1.
  - unfold wrapped, bind, try, ret in H. destruct (q_InsertDownloadToken _ _ s1) as [x s2] eqn:E.
    injection H as _ <-. destruct x as [u|e]; [|left; apply exec_err in E as (-> & _); done].
    apply exec_ok in E as (E & _). peel_all E. apply Ok_inj, pair_eq in E as [_ <-].
    right. exists b, fl. rewrite Hs. by rewrite <- Hs at 1.
Qed.

Lemma happen_token s m tok t :
  tokens (store (fdb (happen s m))) !! tok = Some t ->
  issued s m tok t \/ tokens (store (fdb s)) !! tok = Some t.
Proof.
  unfold happen. intros H. assert (store (fdb (at_moment m s)) = store (fdb s)) as Hat by done.
  destruct (mo_action m) as [f uuid k name mime r|f k id|f drawn k id user expiry|f k id|auth uuid r|r] eqn:Ea;
    simpl in H.
  - right. by rewrite Put_keeps_tokens in H.
  - right. pose proof (on_tables_within keeps_tokens (Delete f k id) (at_moment m s) (Delete_keeps_tokens f k id)) as E.
    by rewrite E in H.
  - pose proof (on_tables_eq (GenerateDownloadToken f (mo_now m) drawn k id user expiry) (at_moment m s)) as [_ E].
    rewrite E in H.
    destruct (GenerateDownloadToken f (mo_now m) drawn k id user expiry (fdb (at_moment m s))) as [x d] eqn:Eg.
    apply GenerateDownloadToken_tokens in Eg. simpl in H. rewrite Hat in Eg.
    destruct Eg as [Eg|(b & fl & -> & Hfl & Huse & Eg)]; rewrite Eg in H; [by right|].
    simpl in H. apply lookup_insert_Some in H as [[<- <-]|[_ H]]; [left|by right].
    by exists f, b, k, user, expiry, fl.
  - right. pose proof (on_tables_within keeps_tokens (Metadata f k id) (at_moment m s)) as E.
    rewrite E in H; [done|]. apply (reads_refl _), Metadata_reads.
  - right. by rewrite Upload_keeps_tokens in H.
  - right. revert H. destruct (Download r (at_moment m s)) as [ops s'] eqn:E.
    apply Download_cases in E as [E _]. simpl. by rewrite E.
Qed.

Lemma token_from s0 ms tok t :
  tokens (store (fdb s0)) = ∅ ->
  tokens (store (fdb (unfold_history s0 ms))) !! tok = Some t ->
  exists ms1 m ms2, ms = ms1 ++ m :: ms2 /\ issued (unfold_history s0 ms1) m tok t.
Proof.
  intros H0. induction ms as [|m ms IH] using rev_ind.
  - unfold unfold_history. simpl. by rewrite H0, lookup_empty.
  - unfold unfold_history at 1. rewrite foldl_app. simpl. fold (unfold_history s0 ms).
    intros [H|H]%happen_token; [by exists ms, m, []|].
    apply IH in H as (ms1 & m1 & ms2 & -> & H). exists ms1, m1, (ms2 ++ [m]). by rewrite <- app_assoc.
Qed.

(** A browser is sent the bytes of a file only under a path that names the
    file and a token, issued for this very file at the request of a plugin
    that could use the file at that moment (it wrote it, or no plugin did), and
    before the expiry set then. Every other download is answered with an
    error. *)
Lemma download_origin s0 ms r now fs ops s' :
  tokens (store (fdb s0)) = ∅ ->
  let s := at_moment (mkMoment now fs (ADownload r)) (unfold_history s0 ms) in
  Download r s = (ops, s') ->
  is_error ops \/
  exists id tok t fm data ms1 m ms2,
    granted r s id tok t fm data /\ ops = sent fm data /\
    ms = ms1 ++ m :: ms2 /\ issued (unfold_history s0 ms1) m tok t /\ now < tk_ExpiresAt t.
Proof.
  intros H0 s [_ [?|(id & tok & t & fm & data & Hg & Hsent)]]%Download_cases; [by left|right].
  pose proof Hg as (_ & _ & Ht & _ & Hclk & _).
  destruct (token_from s0 ms tok t H0 Ht) as (ms1 & m & ms2 & Hms & Hissued).
  by exists id, tok, t, fm, data, ms1, m, ms2.
Qed.
(** *** From a plugin's upload to a browser's download *)

(** What was put under a key is what the store returns for it. *)
Context (Get_Put : forall key data mime o o', PutObject key data mime o = Ok o' -> GetObject key o' = Ok data).

Definition later (t : Z) (s : state) : state :=
  mkState (objects s) (mkSession (store (fdb s)) Pool [] t).

Lemma split_download id tok :
  has_byte "/"%char id = false -> has_byte "/"%char tok = false ->
  split_byte "/"%char (trim_prefix (DownloadPath +:+ id +:+ "/" +:+ tok) DownloadPath) = [id; tok].
Proof.
  intros Hid Htok. rewrite trim_prefix_app. change ("/" +:+ tok) with (String "/"%char tok).
  by rewrite split_byte_app, split_byte_single.
Qed.

Lemma GenerateDownloadToken_ok f now b k id user expiry s url exp s' :
  GenerateDownloadToken f now (Some b) k id user expiry s = (Ok (Ok (url, exp)), s') ->
  url = PublicBaseURL f +:+ DownloadPath +:+ id +:+ "/" +:+ hex_encode b /\
  store s' = mkTables (files (store s)) (<[hex_encode b := mkTokenRow id user exp]> (tokens (store s))).
Proof.
  unfold GenerateDownloadToken. destruct (has_db f); simpl; [|done]. rewrite ok_or_ok.
  intros ([] & s1 & Hc & H). pose proof (checkOwnership_reads _ _ _ _ _ Hc) as Hs.
  rewrite ok_or_ok in H. destruct H as ([] & s2 & Hi & H). rewrite wrapped_ok in Hi.
  unfold ret in H. apply pair_eq in H as [H <-]. do 2 apply Ok_inj in H. apply pair_eq in H as [<- <-].
  split; [done|]. apply exec_ok in Hi as (Hi & _). peel_all Hi. apply Ok_inj, pair_eq in Hi as [_ <-].
  by rewrite Hs.
Qed.

(** C20. What a plugin uploads is what a browser downloads: the URL answered for
    a file just uploaded serves, until it expires, every byte that was sent to
    [Put]. *)
Theorem file_roundtrip f uuid k k' name mime rd s id n s1 now b user expiry url exp s2 rq t :
  PublicBaseURL f = "" -> has_byte "/"%char uuid = false -> uuid <> "" ->
  Forall (fun x => 0 <= x < 256) b -> b <> [] ->
  Put f uuid k name mime rd s = (Ok (id, n), s1) ->
  on_tables (GenerateDownloadToken f now (Some b) k' id user expiry) s1 = (Ok (url, exp), s2) ->
  rq_Path rq = url -> rq_RawQuery rq = "" -> t < exp ->
  exists fm, (Download rq (later t s2)).1 = sent fm (rd_data rd) /\ f_Size fm = n /\ f_OwnerPluginKey fm = k.
Proof.
  intros Hbase Huuid Hne Hb Hbne HPut Hgen Hpath Hq Ht.
  pose proof (Put_spec f uuid k name mime rd s) as Hput. rewrite HPut in Hput. simpl in Hput.
  destruct Hput as (-> & _ & _ & _ & name' & mime' & _ & Hobj & Hs1).
  unfold on_tables in Hgen. destruct (GenerateDownloadToken _ _ _ _ _ _ _ (fdb s1)) as [x d] eqn:E.
  apply pair_eq in Hgen as [Hx <-]. destruct x as [x|]; [|done]. subst x.
  apply GenerateDownloadToken_ok in E as [Hurl Hd]. rewrite Hs1 in Hd. simpl in Hd.
  assert (url = DownloadPath +:+ uuid +:+ "/" +:+ hex_encode b) as Hu by (by rewrite Hurl, Hbase).
  unfold Download. rewrite Hq, Hpath, Hu, String.eqb_refl. unfold negb at 1.
  rewrite (split_download uuid (hex_encode b) Huuid (hex_encode_no_slash b Hb)).
  destruct (String.eqb_spec uuid "") as [|_]; [done|].
  destruct (String.eqb_spec (hex_encode b) "") as [Hx|_]; [by apply hex_encode_ne in Hx|]. simpl.
  unfold q_VerifyDownloadToken, q_GetFile, exec. simpl. rewrite Hd. simpl. rewrite lookup_insert_eq. simpl.
  destruct (Z.ltb_spec t exp); [|lia]. simpl. rewrite String.eqb_refl, lookup_insert_eq. simpl.
  rewrite (Get_Put _ _ _ _ _ Hobj). by eexists.
Qed.
End files.

(** ** A concrete object store *)

Definition ex_Put (key data mime : string) (o : gmap string string) : result string (gmap string string) :=
  Ok (<[key := data]> o).
Definition ex_Get (key : string) (o : gmap string string) : result string string :=
  match o !! key with Some d => Ok d | None => Err "NoSuchKey" end.

Lemma ex_Get_Put key data mime o o' : ex_Put key data mime o = Ok o' -> ex_Get key o' = Ok data.
Proof. intros [= <-]. unfold ex_Get. by rewrite lookup_insert_eq. Qed.

Definition ex_form (r : Request) : option form_file := None.

Definition ex_files : Files := mkFiles true true 1000 "".
Definition ex_empty : state (O := gmap string string) :=
  mkState ∅ (mkSession (mkTables ∅ ∅) Pool [] 100).

Definition ex_file_history : list moment :=
  [mkMoment 100 [] (APut ex_files "u-1" "reports" "r.csv" "text/csv" (mkReader "a,b" None));
   mkMoment 110 [] (AToken ex_files (Some [10; 255]) "other" "u-1" "7" 60);
   mkMoment 120 [] (AToken ex_files (Some [10; 254]) "reports" "u-1" "7" 60)].

Definition ex_state : state := unfold_history ex_Put ex_Get ex_varchar ex_form ex_empty ex_file_history.

Definition ex_download (token : string) : Request :=
  mkRequest "GET" (DownloadPath +:+ "u-1/" +:+ token) "" ∅ "10.0.0.9:1234" NoBody.

(** The other plugin got no token; the one the owner got works, and works
    again: verifying a token does not use it up. *)

Definition ex_stored : state (O := gmap string string) :=
  (Put ex_Put ex_varchar ex_files "u-3" "reports" "r" "" (mkReader "hello" None) ex_empty).2.
Definition ex_shared : state (O := gmap string string) :=
  (on_tables (GenerateDownloadToken ex_varchar ex_files 5 (Some [1; 2]) "reports" "u-3" "7" 0) ex_stored).2.
Definition ex_browser : Request := mkRequest "GET" (DownloadPath +:+ "u-3/0102") "" ∅ "" NoBody.

Lemma file_roundtrip_witness :
  exists fm, (Download ex_Get ex_browser (later 6 ex_shared)).1 = sent fm "hello".
Proof.
  assert (Put ex_Put ex_varchar ex_files "u-3" "reports" "r" "" (mkReader "hello" None) ex_empty =
    (Ok ("u-3", 5), ex_stored)) as H1 by (vm_compute; reflexivity).
  assert (on_tables (GenerateDownloadToken ex_varchar ex_files 5 (Some [1; 2]) "reports" "u-3" "7" 0) ex_stored =
    (Ok (DownloadPath +:+ "u-3/0102", 5 + 5 * Minute), ex_shared)) as H2 by (vm_compute; reflexivity).
  assert (Forall (fun x => 0 <= x < 256) [1; 2]) as Hb by (repeat constructor; lia).
  destruct (file_roundtrip ex_Put ex_Get ex_varchar ex_Get_Put ex_files "u-3" "reports" "reports" "r" ""
    (mkReader "hello" None) ex_empty "u-3" 5 ex_stored 5 [1; 2] "7" 0 _ _ ex_shared ex_browser 6
    eq_refl eq_refl ltac:(discriminate) Hb ltac:(discriminate) H1 H2 eq_refl eq_refl ltac:(vm_compute; reflexivity))
    as (fm & H & _).
  exists fm. exact H.
Defined.

(** A token is documented to be good for one download. *)
Example token_used_twice :
  let s := at_moment (mkMoment 130 [] (ADownload (ex_download "0afe"))) ex_state in
  let '(ops1, s) := Download ex_Get (ex_download "0afe") s in
  let '(ops2, _) := Download ex_Get (ex_download "0afe") s in
  wr_body (wr_run ops1 new_writer) = "a,b" /\ wr_body (wr_run ops2 new_writer) = "a,b".
Proof. vm_compute. done. Qed.
