(* ===== verification/Storage.v ===== *)
(** * core/storage/rustfs.go and core/db/postgres.go: what Core opens at its start

    The object-store client as the requests it makes of the S3 SDK, and the
    database's pool with the migrations Core runs on it. The SDK, the driver and
    golang-migrate are parameters; what is relied on of them is a hypothesis of
    the lemmas. *)

From S2P Require Import Prelude GoStrings.

Open Scope Z_scope.

(** ** The object store *)

Section rustfs.
(** [config.LoadDefaultConfig] of a region and a pair of static keys. *)
Context {C O : Type} (LoadDefaultConfig : string -> string * string -> result string C).

Record s3_client := mkS3Client { s3_config : C; BaseEndpoint : string; UsePathStyle : bool }.

Record RustFSClient := mkRustFSClient { rf_client : s3_client; rf_bucket : string }.

Definition NewRustFSClient (endpoint bucket accessKey secretKey : string) : result string RustFSClient :=
  match LoadDefaultConfig "us-east-1" (accessKey, secretKey) with
  | Err e => Err ("load s3 config: " +:+ e)
  | Ok cfg => Ok (mkRustFSClient (mkS3Client cfg endpoint true) bucket)
  end.

Record PutObjectInput := mkPutObjectInput {
  in_Bucket : string; in_Key : string; in_Body : string; in_ContentLength : option Z; in_ContentType : option string
}.

(** The SDK's calls on a store. *)
Context (s3_Put : s3_client -> PutObjectInput -> O -> result string O)
  (s3_Get : s3_client -> string -> string -> O -> result string string).

Definition PutObject (c : RustFSClient) (key body : string) (size : Z) (mime : string) (o : O) : result string O :=
  let input := mkPutObjectInput (rf_bucket c) key body (if 0 <? size then Some size else None)
                 (if String.eqb mime "" then None else Some mime) in
  match s3_Put (rf_client c) input o with Err e => Err ("put object " +:+ key +:+ ": " +:+ e) | Ok o => Ok o end.

Definition GetObject (c : RustFSClient) (key : string) (o : O) : result string string :=
  match s3_Get (rf_client c) (rf_bucket c) key o with
  | Err e => Err ("get object " +:+ key +:+ ": " +:+ e)
  | Ok body => Ok body
  end.

(** S3 serves an object under the bucket and key it was put under. *)
Hypothesis s3_Get_Put : forall c input o o',
  s3_Put c input o = Ok o' -> s3_Get c (in_Bucket input) (in_Key input) o' = Ok (in_Body input).

(** What Files.v asks of its store. *)
Lemma GetObject_PutObject c key body size mime o o' :
  PutObject c key body size mime o = Ok o' -> GetObject c key o' = Ok body.
Proof using s3_Get_Put.
  unfold PutObject, GetObject. destruct (s3_Put _ _ _) as [o1|] eqn:E; [|done]. intros [= <-].
  apply s3_Get_Put in E. cbn in E. by rewrite E.
Qed.
End rustfs.

(** ** The database *)

Definition MaxOpenConns : Z := 25.
Definition MaxIdleConns : Z := 10.
Definition ConnMaxLifetime : Z := 30 * 60 * 10 ^ 9.

(** A [sql.DB]: its limits, none as it is opened, where 0 is no limit. *)
Record pool := mkPool { po_url : string; po_MaxOpen : Z; po_MaxIdle : option Z; po_Lifetime : Z }.

(** What golang-migrate answers: an error, one of which says there was nothing to do. *)
Inductive migrate_error := ErrNoChange | MigrateFailed (e : string).

Section postgres.
(** A database, and opening, reaching and migrating it. *)
Context {D : Type} (sql_Open : string -> result string ()) (Ping : string -> D -> result string ())
  (iofs_New : result string ()) (WithInstance : D -> result string () * D) (NewWithInstance : result string ())
  (Up Down : D -> option migrate_error * D) (Steps : Z -> D -> option migrate_error * D).

(** The migrator both functions build first. *)
Definition migrator (d : D) : result string () * D :=
  match iofs_New with
  | Err e => (Err ("load embedded migrations: " +:+ e), d)
  | Ok _ =>
      match WithInstance d with
      | (Err e, d) => (Err ("init migrate driver: " +:+ e), d)
      | (Ok _, d) =>
          match NewWithInstance with Err e => (Err ("init migrator: " +:+ e), d) | Ok _ => (Ok (), d) end
      end
  end.

Definition migrated (what : string) (r : option migrate_error * D) : result string () * D :=
  match r with
  | (Some (MigrateFailed e), d) => (Err (what +:+ ": " +:+ e), d)
  | (_, d) => (Ok (), d)
  end.

Definition RunMigrations (d : D) : result string () * D :=
  match migrator d with (Err e, d) => (Err e, d) | (Ok _, d) => migrated "run migrations" (Up d) end.

Definition RollBackMigrations (steps : Z) (d : D) : result string () * D :=
  match migrator d with
  | (Err e, d) => (Err e, d)
  | (Ok _, d) =>
      if 0 <? steps then migrated ("roll back " +:+ itoa steps +:+ " migration(s)") (Steps (- steps) d)
      else migrated "roll back migrations" (Down d)
  end.

Definition InitDB (connStr : string) (d : D) : result string pool * D :=
  match sql_Open connStr with
  | Err e => (Err ("open postgres: " +:+ e), d)
  | Ok _ =>
      let conn := mkPool connStr MaxOpenConns (Some MaxIdleConns) ConnMaxLifetime in
      match Ping connStr d with
      | Err e => (Err ("ping postgres: " +:+ e), d)
      | Ok _ => match RunMigrations d with (Err e, d) => (Err e, d) | (Ok _, d) => (Ok conn, d) end
      end
  end.

(** *** What Core starts with *)

(** The version golang-migrate keeps in the database, and that of the last
    migration; a call that succeeds, or has nothing to do, leaves the database
    at the version it is named for, and preparing the driver moves none. *)
Context (version : D -> Z) (latest : Z).
Hypothesis WithInstance_version : forall d r d', WithInstance d = (r, d') -> version d' = version d.
Hypothesis Up_version : forall d e d', Up d = (e, d') ->
  match e with None => version d' = latest | Some ErrNoChange => d' = d /\ version d = latest | _ => True end.
Hypothesis Down_version : forall d e d', Down d = (e, d') ->
  match e with None => version d' = 0 | Some ErrNoChange => d' = d /\ version d = 0 | _ => True end.

Lemma migrator_version d r d' : migrator d = (r, d') -> version d' = version d.
Proof using WithInstance_version.
  unfold migrator. destruct iofs_New; [|by intros [= _ <-]]. destruct (WithInstance d) as [[[]|e] d1] eqn:E;
    apply WithInstance_version in E; [destruct NewWithInstance|]; by intros [= _ <-].
Qed.

(** Core goes on only with a bounded pool on a database that has every migration. *)
Lemma InitDB_ready url d p d' :
  InitDB url d = (Ok p, d') ->
  version d' = latest /\ po_url p = url /\ po_MaxOpen p = 25 /\ po_MaxIdle p = Some 10.
Proof using Up_version.
  unfold InitDB. destruct (sql_Open url); [|done]. destruct (Ping url d); [|done].
  unfold RunMigrations. destruct (migrator d) as [[[]|e] d1]; [|done].
  destruct (Up d1) as [e d2] eqn:E. apply Up_version in E. unfold migrated.
  destruct e as [[|e]|]; [|done|]; intros [= <- <-]; [destruct E as [-> E]|]; split_and!; done.
Qed.

(** Rolling back without a number of steps, or with one that is not positive, takes
    back all of them. *)
Lemma RollBack_all steps d d' :
  steps <= 0 -> RollBackMigrations steps d = (Ok (), d') -> version d' = 0.
Proof using Down_version.
  unfold RollBackMigrations. intros Hs. destruct (migrator d) as [[[]|e] d1]; [|done].
  destruct (Z.ltb_spec 0 steps); [lia|]. destruct (Down d1) as [e d2] eqn:E. apply Down_version in E.
  unfold migrated. destruct e as [[|e]|]; [|done|]; intros [= <-]; [by destruct E as [-> E]|done].
Qed.
End postgres.
