(* ===== verification/HostServer.v ===== *)
(** * core/hostsvc: the calls a plugin makes back into Core

    server.go and the rpc_*.go files: the permission check, the delegation to
    a backend under the key the server was built with, and the classification
    of failures into gRPC codes. The backends are the interfaces of
    backends.go: records of functions on an abstract host state [W], each
    optional. gRPC itself is not modelled; a streaming call takes what its
    stream delivers as an argument. *)

From S2P Require Import Prelude GoStrings Sql TxRegistry Wire Egress Files.

Open Scope Z_scope.

(** ** Permissions and statuses *)

Definition PermDB := "db".
Definition PermDBTx := "db:tx".
Definition PermQueue := "queue".
Definition PermCache := "cache".
Definition PermLock := "lock".
Definition PermEvents := "events".
Definition PermFilesRead := "files:read".
Definition PermFilesWrite := "files:write".
Definition PermHTTPEgress := "http:egress".

Inductive code :=
| PermissionDenied | Unavailable | InvalidArgument | Aborted | ResourceExhausted
| FailedPrecondition | NotFound | DeadlineExceeded | Internal | Unknown.

#[export] Instance code_eq_dec : EqDecision code.
Proof. solve_decision. Defined.

Record status := mkStatus { st_code : code; st_msg : string }.

(** Granted permissions, as a set. *)
Definition permSet := gset string.
Definition newPermSet (perms : list string) : permSet := list_to_set perms.
Definition perm_has (s : permSet) (p : string) : bool := bool_decide (p ∈ s).

(** ** Errors of the backends *)

Inductive data_error := DataDb (e : db_error) | DataTx (e : tx_error).

Definition dataErr (e : data_error) : status :=
  match e with
  | DataDb ErrVersionConflict => mkStatus Aborted "version conflict: the document changed since you read it"
  | DataTx (ErrTooManyTx _ _ _) => mkStatus ResourceExhausted "too many open transactions"
  | DataTx ErrUnknownTx =>
      mkStatus FailedPrecondition
        "unknown or expired transaction; transactions are rolled back once their timeout passes"
  | _ => mkStatus Internal "data"
  end.

Definition fileErr (e : file_error) : status :=
  match e with
  | ErrFileNotFound id => mkStatus NotFound ("file not found: " +:+ id)
  | ErrFileTooLarge _ => mkStatus InvalidArgument "file exceeds the upload limit"
  | _ => mkStatus Internal "file"
  end.

(** [EgressDeadline]: an error that wraps [context.DeadlineExceeded]. *)
Inductive egress_failure := EgressFailure (e : egress_error) | EgressDeadline.

Definition egressErr (e : egress_failure) : status :=
  match e with
  | EgressFailure ErrEgressNotAllowed => mkStatus PermissionDenied "egress not allowed"
  | EgressFailure ErrEgressRateLimited => mkStatus ResourceExhausted "egress rate limited"
  | EgressFailure ErrEgressBadRequest => mkStatus InvalidArgument "bad egress request"
  | EgressDeadline => mkStatus DeadlineExceeded "deadline exceeded"
  | EgressFailure _ => mkStatus Unavailable "egress failed"
  end.

(** ** Values that cross the interfaces *)

Inductive operator := OP_UNSPECIFIED | OP_EQ | OP_NE | OP_GT | OP_GTE | OP_LT | OP_LTE | OP_LIKE | OP_IN
| OP_BETWEEN | OP_IS_NULL | OP_IS_NOT_NULL | OP_other (n : Z).

Definition operatorName (op : operator) : string :=
  match op with
  | OP_NE => "!=" | OP_GT => ">" | OP_GTE => ">=" | OP_LT => "<" | OP_LTE => "<="
  | OP_LIKE => "LIKE" | OP_IN => "IN" | OP_BETWEEN => "BETWEEN"
  | OP_IS_NULL => "IS NULL" | OP_IS_NOT_NULL => "IS NOT NULL"
  | _ => "="
  end.

Inductive agg_enum := AGG_UNSPECIFIED | AGG_COUNT | AGG_SUM | AGG_AVG | AGG_MIN | AGG_MAX | AGG_other (n : Z).

Definition aggregateFuncName (fn : agg_enum) : string :=
  match fn with
  | AGG_SUM => "SUM" | AGG_AVG => "AVG" | AGG_MIN => "MIN" | AGG_MAX => "MAX"
  | _ => "COUNT"
  end.

Record Filter := mkFilter { hf_Field : string; hf_Op : string; hf_Values : list string }.
Record Sort := mkSort { so_Field : string; so_Descending : bool }.
Record QueryOptions := mkQueryOptions {
  qo_Filters : list Filter; qo_Sort : list Sort; qo_Limit : Z; qo_Cursor : string
}.
Record QueryResult := mkQueryResult {
  qr_Documents : list string; qr_IDs : list string; qr_NextCursor : string; qr_HasMore : bool
}.
Record AggregateOptions := mkAggregateOptions {
  ao_Filters : list Filter; ao_Func : string; ao_Field : string; ao_GroupBy : list string
}.
Record WriteOp := mkWriteOp { wo_Delete : bool; wo_Collection : string; wo_DocID : string; wo_Data : string }.
Record EnqueueOptions := mkEnqueueOptions {
  eo_Delay : Z; eo_DedupKey : string; eo_Priority : Z; eo_MaxAttempts : Z; eo_TraceID : string
}.
Record Lease := mkLease { le_ID : string; le_ExpiresAt : Z }.
Record Event := mkEvent { ev_Name : string; ev_Data : string; ev_SourcePluginKey : string; ev_TraceID : string }.
Record LogRecord := mkLogRecord {
  lg_Level : string; lg_Message : string; lg_Fields : gmap string string; lg_TraceID : string; lg_Timestamp : Z
}.

(** Messages of host.proto. *)
Record pb_filter := mkPbFilter { pf_field : string; pf_op : operator; pf_values : list string }.
Record pb_put := mkPbPut { pp_collection : string; pp_doc_id : string; pp_data : string;
  pp_tx_id : string; pp_expected_version : Z }.
Record pb_doc := mkPbDoc { pd_collection : string; pd_doc_id : string; pd_tx_id : string }.
Inductive pb_op := OpPut (p : pb_put) | OpDelete (d : pb_doc) | OpNone.
Inductive log_level := LOG_DEBUG | LOG_INFO | LOG_WARN | LOG_ERROR | LOG_other (n : Z).
Inductive metric_kind := METRIC_COUNTER | METRIC_GAUGE | METRIC_HISTOGRAM | METRIC_other (n : Z).
Record pb_log := mkPbLog { pl_level : log_level; pl_message : string; pl_fields : gmap string string;
  pl_trace_id : string; pl_nanos : Z }.
(** The chunks of an upload, and whether the stream ended well. *)
Record pb_chunk := mkPbChunk { pc_filename : string; pc_mime : string; pc_data : string }.

Definition filtersFrom (fs : list pb_filter) : list Filter :=
  (fun f => mkFilter (pf_field f) (operatorName (pf_op f)) (pf_values f)) <$> fs.

Definition logLevelName (l : log_level) : string :=
  match l with LOG_DEBUG => "debug" | LOG_WARN => "warn" | LOG_ERROR => "error" | _ => "info" end.
Definition metricKindName (k : metric_kind) : string :=
  match k with METRIC_GAUGE => "gauge" | METRIC_HISTOGRAM => "histogram" | _ => "counter" end.

(** The trace id in the call's metadata, or else the one in the message. *)
Definition traceFrom (md : list string) (fallback : string) : string :=
  match md with v :: _ => if String.eqb v "" then fallback else v | [] => fallback end.

Definition second : Z := 10 ^ 9.
Definition millisecond : Z := 10 ^ 6.

Definition newDeliveryTraceID (messageID attempt : Z) : string :=
  "q-" +:+ itoa messageID +:+ "-" +:+ itoa attempt.

Section server.
(** The host's state, and float64. *)
Context {W F : Type}.

(** ** backends.go *)

Record DataBackend := mkDataBackend {
  data_Put : string -> string -> string -> string -> string -> Z -> W -> result data_error Z * W;
  data_Get : string -> string -> string -> string -> W -> result data_error (option (string * Z)) * W;
  data_Delete : string -> string -> string -> string -> W -> result data_error bool * W;
  data_Find : string -> string -> list Filter -> Z -> Z -> string -> W -> result data_error (list string) * W;
  data_Query : string -> string -> QueryOptions -> string -> W -> result data_error QueryResult * W;
  data_Aggregate : string -> string -> AggregateOptions -> string -> W ->
    result data_error (list (gmap string string * F)) * W;
  data_BatchWrite : string -> list WriteOp -> string -> W -> result data_error Z * W;
  data_BeginTx : string -> Z -> W -> result data_error string * W;
  data_CommitTx : string -> string -> W -> result data_error () * W;
  data_RollbackTx : string -> string -> W -> result data_error () * W
}.

(** The connection a plugin instance's server keeps: the messages in flight,
    and the host behind it. [Consume] works on both, through the callbacks the
    server passes. *)
Record conn := mkConn { inflight : Z; world : W }.

Record QueueBackend := mkQueueBackend {
  queue_Enqueue : string -> string -> string -> EnqueueOptions -> W -> result string (Z * bool) * W;
  queue_Consume : string -> string -> Z -> Z -> conn -> result string () * conn;
  queue_Ack : string -> Z -> W -> result string () * W;
  queue_Nack : string -> Z -> string -> Z -> W -> result string () * W
}.

Record CacheBackend := mkCacheBackend {
  cache_Get : string -> string -> W -> option string * W;
  cache_Set : string -> string -> string -> Z -> W -> W;
  cache_Delete : string -> string -> W -> W
}.

Record LockBackend := mkLockBackend {
  lock_Acquire : string -> string -> Z -> Z -> W -> result string (option Lease) * W;
  lock_Renew : string -> string -> string -> Z -> W -> option Lease * W;
  lock_Release : string -> string -> string -> W -> W
}.

Record FileBackend := mkFileBackend {
  file_Put : string -> string -> string -> string -> W -> result file_error (string * Z) * W;
  file_Delete : string -> string -> W -> result file_error () * W;
  file_Token : string -> string -> string -> Z -> W -> result file_error (string * Z) * W;
  file_Metadata : string -> string -> W -> result file_error FileMeta * W
}.

Record EventBackend := mkEventBackend {
  event_Publish : string -> Event -> W -> result string () * W;
  event_Subscribe : string -> string -> W -> result string () * W
}.

Record ObsBackend := mkObsBackend {
  obs_Log : string -> LogRecord -> W -> W;
  obs_RecordMetric : string -> string -> string -> F -> gmap string string -> W -> W
}.

Record Deps := mkDeps {
  d_Data : option DataBackend; d_Queue : option QueueBackend; d_Cache : option CacheBackend;
  d_Locks : option LockBackend; d_Config : option (string -> W -> result string (gmap string string) * W);
  d_Files : option FileBackend; d_Events : option EventBackend;
  d_Egress : option (string -> EgressRequest -> W -> result egress_failure EgressResponse * W);
  d_Obs : option ObsBackend
}.

(** ** The server *)

Context (key : string) (perms : permSet) (deps : Deps).
(** The trace metadata of the call, and [time.Now()]. *)
Context (md : list string) (now : Z).

Definition rpc (A : Type) : Type := conn -> result status A * conn.

Definition rpc_ret {A} (a : A) : rpc A := fun c => (Ok a, c).
Definition rpc_fail {A} (e : status) : rpc A := fun c => (Err e, c).
(** [if err := r; err != nil { return nil, err }] *)
Definition guard {A B} (r : result status A) (k : A -> rpc B) : rpc B :=
  match r with Ok a => k a | Err e => rpc_fail e end.
(** A backend call, the classification of its failure, and the answer made of
    its result. *)
Definition call {E A B} (op : W -> result E A * W) (err : E -> status) (k : A -> B) : rpc B := fun c =>
  let '(r, w) := op (world c) in
  (match r with Ok a => Ok (k a) | Err e => Err (err e) end, mkConn (inflight c) w).
(** A backend call that cannot fail. *)
Definition call_ {A B} (op : W -> A * W) (k : A -> B) : rpc B := fun c =>
  let '(a, w) := op (world c) in (Ok (k a), mkConn (inflight c) w).

Definition require (perm : string) : result status () :=
  if perm_has perms perm then Ok ()
  else Err (mkStatus PermissionDenied ("plugin " +:+ key +:+ " is not granted " +:+ perm)).

Definition unavailable (what : string) : status :=
  mkStatus Unavailable (what +:+ " is not configured on this Core instance").

Definition available {A} (what : string) (d : option A) : result status A :=
  match d with Some a => Ok a | None => Err (unavailable what) end.

Definition required (what v : string) : result status () :=
  if String.eqb v "" then Err (mkStatus InvalidArgument (what +:+ " is required")) else Ok ().

Notation "'let!' x ':=' r 'in' k" := (guard r (fun x => k))
  (at level 10, x pattern, r at level 100, k at level 200).

Definition requireTx (txID : string) : result status () :=
  if String.eqb txID "" then Ok () else require PermDBTx.

Definition dataBackend : result status DataBackend := available "the document store" (d_Data deps).

(** The three checks every data call with a transaction id begins with. *)
Definition with_data {A} (txID : string) (k : DataBackend -> rpc A) : rpc A :=
  let! _ := require PermDB in
  let! _ := requireTx txID in
  let! data := dataBackend in
  k data.

(** ** rpc_data.go *)

Definition Put (r : pb_put) : rpc Z :=
  with_data (pp_tx_id r) (fun data =>
    call (data_Put data key (pp_collection r) (pp_doc_id r) (pp_data r) (pp_tx_id r) (pp_expected_version r))
      dataErr id).

Definition Get (r : pb_doc) : rpc (option (string * Z)) :=
  with_data (pd_tx_id r) (fun data =>
    call (data_Get data key (pd_collection r) (pd_doc_id r) (pd_tx_id r)) dataErr id).

Definition Delete (r : pb_doc) : rpc bool :=
  with_data (pd_tx_id r) (fun data =>
    call (data_Delete data key (pd_collection r) (pd_doc_id r) (pd_tx_id r)) dataErr id).

Definition Find (collection : string) (filters : list pb_filter) (limit offset : Z) (txID : string)
    : rpc (list string) :=
  with_data txID (fun data =>
    call (data_Find data key collection (filtersFrom filters) limit offset txID) dataErr id).

Definition Query (collection : string) (filters : list pb_filter) (sorts : list Sort) (limit : Z)
    (cursor txID : string) : rpc QueryResult :=
  with_data txID (fun data =>
    call (data_Query data key collection (mkQueryOptions (filtersFrom filters) sorts limit cursor) txID)
      (fun _ => mkStatus InvalidArgument "query") id).

Definition Aggregate (collection : string) (filters : list pb_filter) (func : agg_enum) (field : string)
    (groupBy : list string) (txID : string) : rpc (list (gmap string string * F)) :=
  with_data txID (fun data =>
    call (data_Aggregate data key collection
            (mkAggregateOptions (filtersFrom filters) (aggregateFuncName func) field groupBy) txID)
      (fun _ => mkStatus InvalidArgument "aggregate") id).

(** The version a put of the batch expects is not passed on. *)
Fixpoint batch_ops (ops : list pb_op) : result status (list WriteOp) :=
  match ops with
  | [] => Ok []
  | op :: ops =>
      let? w := match op with
                | OpPut p => Ok (mkWriteOp false (pp_collection p) (pp_doc_id p) (pp_data p))
                | OpDelete d => Ok (mkWriteOp true (pd_collection d) (pd_doc_id d) "")
                | OpNone => Err (mkStatus InvalidArgument "batch op has no put or delete")
                end in
      let? ws := batch_ops ops in
      Ok (w :: ws)
  end.

Definition BatchWrite (ops : list pb_op) (txID : string) : rpc Z :=
  with_data txID (fun data =>
    let! ws := batch_ops ops in
    call (data_BatchWrite data key ws txID) dataErr int32).

Definition BeginTx (timeout_seconds : Z) : rpc string :=
  let! _ := require PermDBTx in
  let! data := dataBackend in
  call (data_BeginTx data key (timeout_seconds * second)) dataErr id.

Definition CommitTx (txID : string) : rpc () :=
  let! _ := require PermDBTx in
  let! data := dataBackend in
  call (data_CommitTx data key txID) dataErr id.

Definition RollbackTx (txID : string) : rpc () :=
  let! _ := require PermDBTx in
  let! data := dataBackend in
  call (data_RollbackTx data key txID) dataErr id.

(** ** rpc_queue.go *)

Definition with_queue {A} (k : QueueBackend -> rpc A) : rpc A :=
  let! _ := require PermQueue in
  let! q := available "the durable queue" (d_Queue deps) in
  k q.

Definition queueErr (doing : string) (e : string) : status := mkStatus Internal (doing +:+ ": " +:+ e).

Definition Enqueue (topic payload : string) (delay_seconds : Z) (dedup_key : string)
    (priority max_attempts : Z) (trace_id : string) : rpc (Z * bool) :=
  with_queue (fun q =>
    let! _ := required "topic" topic in
    call (queue_Enqueue q key topic payload (mkEnqueueOptions (delay_seconds * second) dedup_key priority
            max_attempts (traceFrom md trace_id)))
      (queueErr "enqueue") id).

(** The backend's error ends the stream as it is, and gRPC calls it unknown. *)
Definition Consume (topic : string) (prefetch visibility_seconds : Z) : rpc () :=
  with_queue (fun q =>
    let! _ := required "topic" topic in
    fun c =>
      let '(r, c) := queue_Consume q key topic prefetch (visibility_seconds * second) c in
      (match r with Ok u => Ok u | Err e => Err (mkStatus Unknown e) end, c)).

Definition leftFlight (n : Z) : Z := if 0 <? n then n - 1 else n.

Definition leaving (m : rpc ()) : rpc () := fun c =>
  match m c with
  | (Ok u, c) => (Ok u, mkConn (leftFlight (inflight c)) (world c))
  | r => r
  end.

Definition Ack (id_ : Z) : rpc () :=
  with_queue (fun q => leaving (call (queue_Ack q key id_) (queueErr "ack") id)).

Definition Nack (id_ : Z) (error : string) (retry_after_seconds : Z) : rpc () :=
  with_queue (fun q => leaving (call (queue_Nack q key id_ error (retry_after_seconds * second)) (queueErr "nack") id)).

(** ** rpc_runtime.go *)

Definition with_cache {A} (k : CacheBackend -> rpc A) : rpc A :=
  let! _ := require PermCache in
  let! c := available "the cache" (d_Cache deps) in
  k c.

Definition CacheGet (k : string) : rpc (option string) :=
  with_cache (fun c => call_ (cache_Get c key k) id).
Definition CacheSet (k value : string) (ttl_seconds : Z) : rpc () :=
  with_cache (fun c => call_ (fun w => ((), cache_Set c key k value (ttl_seconds * second) w)) id).
Definition CacheDelete (k : string) : rpc () :=
  with_cache (fun c => call_ (fun w => ((), cache_Delete c key k w)) id).

Definition with_locks {A} (k : LockBackend -> rpc A) : rpc A :=
  let! _ := require PermLock in
  let! l := available "locking" (d_Locks deps) in
  k l.

(** [None] is [Acquired: false]. *)
Definition lease_reply (l : option Lease) : option (string * Z) :=
  (fun l => (le_ID l, le_ExpiresAt l / second)) <$> l.

Definition AcquireLock (name : string) (ttl_seconds wait_seconds : Z) : rpc (option (string * Z)) :=
  with_locks (fun l =>
    let! _ := required "lock name" name in
    call (lock_Acquire l key name (ttl_seconds * second) (wait_seconds * second))
      (fun e => mkStatus Aborted ("acquire lock: " +:+ e)) lease_reply).
Definition RenewLock (name lease_id : string) (ttl_seconds : Z) : rpc (option (string * Z)) :=
  with_locks (fun l => call_ (lock_Renew l key name lease_id (ttl_seconds * second)) lease_reply).
Definition ReleaseLock (name lease_id : string) : rpc () :=
  with_locks (fun l => call_ (fun w => ((), lock_Release l key name lease_id w)) id).

Definition GetConfig : rpc (gmap string string) :=
  match d_Config deps with
  | None => rpc_ret ∅
  | Some get => call (get key) (fun e => mkStatus Internal ("read config: " +:+ e)) id
  end.

Definition with_events {A} (k : EventBackend -> rpc A) : rpc A :=
  let! _ := require PermEvents in
  let! e := available "the event bus" (d_Events deps) in
  k e.

Definition Publish (name data trace_id : string) : rpc () :=
  with_events (fun e =>
    let! _ := required "event name" name in
    call (event_Publish e key (mkEvent name data key (traceFrom md trace_id)))
      (fun e => mkStatus Internal ("publish: " +:+ e)) id).

Definition Subscribe (name : string) : rpc () :=
  with_events (fun e =>
    let! _ := required "event name" name in
    call (event_Subscribe e key name) (fun e => mkStatus Unknown e) id).

Definition log_record (r : pb_log) : LogRecord :=
  mkLogRecord (logLevelName (pl_level r)) (pl_message r) (pl_fields r) (pl_trace_id r)
    (if pl_nanos r =? 0 then now else pl_nanos r).

(** The records the stream delivers before it ends. *)
Definition Log (records : list pb_log) : rpc () :=
  match d_Obs deps with
  | None => rpc_ret ()
  | Some obs => call_ (fun w => ((), foldl (fun w r => obs_Log obs key (log_record r) w) w records)) id
  end.

Definition RecordMetric (name : string) (kind : metric_kind) (value : F) (labels : gmap string string) : rpc () :=
  match d_Obs deps with
  | None => rpc_ret ()
  | Some obs => call_ (fun w => ((), obs_RecordMetric obs key name (metricKindName kind) value labels w)) id
  end.

Definition Fetch (r : EgressRequest) : rpc (Z * Header * string) :=
  let! _ := require PermHTTPEgress in
  let! fetch := available "outbound HTTP" (d_Egress deps) in
  call (fetch key r) egressErr (fun resp => (int32 (es_StatusCode resp), es_Headers resp, es_Body resp)).

(** ** rpc_files.go *)

Definition with_files {A} (perm : string) (k : FileBackend -> rpc A) : rpc A :=
  let! _ := require perm in
  let! f := available "file storage" (d_Files deps) in
  k f.

(** [ended]: the error the stream breaks with, if it does not end in EOF. *)
Definition PutFile (chunks : list pb_chunk) (ended : option string) : rpc (string * Z) :=
  with_files PermFilesWrite (fun f =>
    match chunks with
    | [] => rpc_fail (mkStatus InvalidArgument "no file content received")
    | first :: rest =>
        match ended with
        | Some e => rpc_fail (mkStatus Aborted ("receive file: " +:+ e))
        | None =>
            call (file_Put f key (pc_filename first) (pc_mime first)
                    (foldl (fun buf c => buf +:+ pc_data c) (pc_data first) rest))
              fileErr id
        end
    end).

Definition DeleteFile (id_ : string) : rpc () :=
  with_files PermFilesWrite (fun f => call (file_Delete f key id_) fileErr id).
Definition GenerateDownloadToken (id_ user : string) (expiry_seconds : Z) : rpc (string * Z) :=
  with_files PermFilesRead (fun f =>
    call (file_Token f key id_ user (expiry_seconds * second)) fileErr (fun '(url, at_) => (url, at_ / second))).
Definition GetFileMetadata (id_ : string) : rpc FileMeta :=
  with_files PermFilesRead (fun f => call (file_Metadata f key id_) fileErr id).

(** ** The service as a whole *)

Inductive rpc_call :=
| RPut (r : pb_put) | RGet (r : pb_doc) | RDelete (r : pb_doc)
| RFind (collection : string) (filters : list pb_filter) (limit offset : Z) (txID : string)
| RQuery (collection : string) (filters : list pb_filter) (sorts : list Sort) (limit : Z) (cursor txID : string)
| RAggregate (collection : string) (filters : list pb_filter) (func : agg_enum) (field : string)
    (groupBy : list string) (txID : string)
| RBatchWrite (ops : list pb_op) (txID : string)
| RBeginTx (timeout_seconds : Z) | RCommitTx (txID : string) | RRollbackTx (txID : string)
| REnqueue (topic payload : string) (delay_seconds : Z) (dedup_key : string) (priority max_attempts : Z)
    (trace_id : string)
| RConsume (topic : string) (prefetch visibility_seconds : Z)
| RAck (id_ : Z) | RNack (id_ : Z) (error : string) (retry_after_seconds : Z)
| RCacheGet (k : string) | RCacheSet (k value : string) (ttl_seconds : Z) | RCacheDelete (k : string)
| RAcquireLock (name : string) (ttl_seconds wait_seconds : Z)
| RRenewLock (name lease_id : string) (ttl_seconds : Z) | RReleaseLock (name lease_id : string)
| RGetConfig
| RPutFile (chunks : list pb_chunk) (ended : option string) | RDeleteFile (id_ : string)
| RGenerateDownloadToken (id_ user : string) (expiry_seconds : Z) | RGetFileMetadata (id_ : string)
| RFetch (r : EgressRequest)
| RPublish (name data trace_id : string) | RSubscribe (name : string)
| RLog (records : list pb_log)
| RRecordMetric (name : string) (kind : metric_kind) (value : F) (labels : gmap string string).

(** The outcome without the answer's contents. *)
Definition outcome {A} (m : rpc A) : rpc () := fun c =>
  match m c with (Ok _, c) => (Ok (), c) | (Err e, c) => (Err e, c) end.

Definition serve (q : rpc_call) : rpc () :=
  match q with
  | RPut r => outcome (Put r)
  | RGet r => outcome (Get r)
  | RDelete r => outcome (Delete r)
  | RFind co fs l o tx => outcome (Find co fs l o tx)
  | RQuery co fs ss l cu tx => outcome (Query co fs ss l cu tx)
  | RAggregate co fs fn fi gb tx => outcome (Aggregate co fs fn fi gb tx)
  | RBatchWrite ops tx => outcome (BatchWrite ops tx)
  | RBeginTx t => outcome (BeginTx t)
  | RCommitTx tx => outcome (CommitTx tx)
  | RRollbackTx tx => outcome (RollbackTx tx)
  | REnqueue to pa d k pr ma tr => outcome (Enqueue to pa d k pr ma tr)
  | RConsume to p v => outcome (Consume to p v)
  | RAck i => outcome (Ack i)
  | RNack i e r => outcome (Nack i e r)
  | RCacheGet k => outcome (CacheGet k)
  | RCacheSet k v t => outcome (CacheSet k v t)
  | RCacheDelete k => outcome (CacheDelete k)
  | RAcquireLock n t w => outcome (AcquireLock n t w)
  | RRenewLock n l t => outcome (RenewLock n l t)
  | RReleaseLock n l => outcome (ReleaseLock n l)
  | RGetConfig => outcome GetConfig
  | RPutFile cs e => outcome (PutFile cs e)
  | RDeleteFile i => outcome (DeleteFile i)
  | RGenerateDownloadToken i u e => outcome (GenerateDownloadToken i u e)
  | RGetFileMetadata i => outcome (GetFileMetadata i)
  | RFetch r => outcome (Fetch r)
  | RPublish n d tr => outcome (Publish n d tr)
  | RSubscribe n => outcome (Subscribe n)
  | RLog rs => outcome (Log rs)
  | RRecordMetric n k v l => outcome (RecordMetric n k v l)
  end.

(** ** The gate *)

(** What the manifest of a plugin that makes the call has to declare. *)
Definition needs_tx (txID : string) : list string := if String.eqb txID "" then [] else [PermDBTx].

Definition permissions_of (q : rpc_call) : list string :=
  match q with
  | RPut r => PermDB :: needs_tx (pp_tx_id r)
  | RGet r | RDelete r => PermDB :: needs_tx (pd_tx_id r)
  | RFind _ _ _ _ tx | RQuery _ _ _ _ _ tx | RAggregate _ _ _ _ _ tx | RBatchWrite _ tx => PermDB :: needs_tx tx
  | RBeginTx _ | RCommitTx _ | RRollbackTx _ => [PermDBTx]
  | REnqueue _ _ _ _ _ _ _ | RConsume _ _ _ | RAck _ | RNack _ _ _ => [PermQueue]
  | RCacheGet _ | RCacheSet _ _ _ | RCacheDelete _ => [PermCache]
  | RAcquireLock _ _ _ | RRenewLock _ _ _ | RReleaseLock _ _ => [PermLock]
  | RPutFile _ _ | RDeleteFile _ => [PermFilesWrite]
  | RGenerateDownloadToken _ _ _ | RGetFileMetadata _ => [PermFilesRead]
  | RFetch _ => [PermHTTPEgress]
  | RPublish _ _ _ | RSubscribe _ => [PermEvents]
  | RGetConfig | RLog _ | RRecordMetric _ _ _ _ => []
  end.

Definition denied {A} (m : rpc A) : Prop := forall c, exists msg, m c = (Err (mkStatus PermissionDenied msg), c).

(** Whatever the outcome, it is not a missing permission. *)
Definition not_denied {A} (m : rpc A) : Prop := forall c e, (m c).1 = Err e -> st_code e <> PermissionDenied.

Lemma denied_outcome {A} (m : rpc A) : denied m -> denied (outcome m).
Proof. intros H c. destruct (H c) as [msg E]. exists msg. unfold outcome. by rewrite E. Qed.

Lemma not_denied_outcome {A} (m : rpc A) : not_denied m -> not_denied (outcome m).
Proof. intros H c e. specialize (H c). unfold outcome. destruct (m c) as [[a|x] c']; [done|]. simpl. intros [= <-]. by apply H. Qed.

Lemma require_denied {A} p (k : () -> rpc A) : p ∉ perms -> denied (guard (require p) k).
Proof. intros Hp c. unfold require, perm_has. rewrite bool_decide_false by done. by eexists. Qed.

Lemma require_granted {A} p (k : () -> rpc A) : p ∈ perms -> guard (require p) k = k ().
Proof. intros Hp. unfold require, perm_has. by rewrite bool_decide_true. Qed.

Lemma guard_not_denied {A B} (r : result status A) (k : A -> rpc B) :
  (forall e, r = Err e -> st_code e <> PermissionDenied) -> (forall a, not_denied (k a)) -> not_denied (guard r k).
Proof. intros Hr Hk. destruct r as [a|e]; [apply Hk|]. intros c x [= <-]. by apply Hr. Qed.

Lemma available_not_denied {A} what (d : option A) e :
  available what d = Err e -> st_code e <> PermissionDenied.
Proof. destruct d; [done|]. by intros [= <-]. Qed.

Lemma required_not_denied what v e : required what v = Err e -> st_code e <> PermissionDenied.
Proof. unfold required. case_match; [by intros [= <-]|done]. Qed.

Lemma batch_ops_not_denied ops e : batch_ops ops = Err e -> st_code e <> PermissionDenied.
Proof.
  induction ops as [|op ops IH]; simpl; [done|]. destruct op; simpl; [..|by intros [= <-]];
    destruct (batch_ops ops); simpl; try done; intros [= <-]; by apply IH.
Qed.

Lemma call_not_denied {E A B} (op : W -> result E A * W) (err : E -> status) (k : A -> B) :
  (forall e, st_code (err e) <> PermissionDenied) -> not_denied (call op err k).
Proof.
  intros He c e. unfold call. destruct (op (world c)) as [[a|x] w]; [done|]. simpl. intros [= <-]. apply He.
Qed.

Lemma call__not_denied {A B} (op : W -> A * W) (k : A -> B) : not_denied (call_ op k).
Proof. intros c e. unfold call_. by destruct (op (world c)). Qed.

Lemma leaving_not_denied (m : rpc ()) : not_denied m -> not_denied (leaving m).
Proof.
  intros H c e. specialize (H c e). unfold leaving. destruct (m c) as [[u|x] c']; [done|]. simpl in *. apply H.
Qed.

Lemma dataErr_not_denied e : st_code (dataErr e) <> PermissionDenied.
Proof. by destruct e as [[]|[]]. Qed.
Lemma fileErr_not_denied e : st_code (fileErr e) <> PermissionDenied.
Proof. by destruct e. Qed.

Lemma with_data_denied {A} txID (k : DataBackend -> rpc A) :
  Exists (fun p => p ∉ perms) (PermDB :: needs_tx txID) -> denied (with_data txID k).
Proof.
  intros H. unfold with_data. destruct (decide (PermDB ∈ perms)) as [Hdb|Hdb]; [|by apply require_denied].
  rewrite require_granted by done. apply List.Exists_cons in H as [H|H]; [done|].
  unfold requireTx, needs_tx in *. destruct (String.eqb txID ""); [by apply List.Exists_nil in H|].
  apply List.Exists_cons in H as [H|H]; [by apply require_denied|by apply List.Exists_nil in H].
Qed.

Lemma with_data_not_denied {A} txID (k : DataBackend -> rpc A) :
  Forall (.∈ perms) (PermDB :: needs_tx txID) -> (forall d, not_denied (k d)) -> not_denied (with_data txID k).
Proof.
  intros [Hdb H]%list.Forall_cons Hk. unfold with_data. rewrite require_granted by done.
  assert (requireTx txID = Ok ()) as ->.
  { unfold requireTx, needs_tx in *. destruct (String.eqb txID ""); [done|].
    apply list.Forall_cons in H as [H _]. unfold require, perm_has. by rewrite bool_decide_true. }
  apply guard_not_denied; [done|]. intros _. apply guard_not_denied; [apply available_not_denied|done].
Qed.

Lemma single_denied {A} p (k : () -> rpc A) :
  Exists (fun p => p ∉ perms) [p] -> denied (guard (require p) k).
Proof. intros [H|H]%List.Exists_cons; [by apply require_denied|by apply List.Exists_nil in H]. Qed.

Lemma single_not_denied {A B} p what (d : option A) (k : A -> rpc B) :
  Forall (.∈ perms) [p] -> (forall a, not_denied (k a)) ->
  not_denied (guard (require p) (fun _ => guard (available what d) k)).
Proof.
  intros [H _]%list.Forall_cons Hk. rewrite require_granted by done.
  apply guard_not_denied; [apply available_not_denied|done].
Qed.

(** C10. Each of the thirty calls is gated on the permissions its row of the
    table asks for, and on nothing else: a plugin that lacks one of them is
    refused with PermissionDenied, before anything happens and whatever is
    configured; a plugin that has them all never sees that code, except from
    [Fetch], where the allow list of the manifest is part of the grant. *)
Theorem gate_exact q :
  (Exists (fun p => p ∉ perms) (permissions_of q) -> denied (serve q)) /\
  (Forall (.∈ perms) (permissions_of q) -> (forall r, q <> RFetch r) -> not_denied (serve q)).
Proof.
  split.
  - intros H. destruct q; simpl in *; try (by apply List.Exists_nil in H); apply denied_outcome;
      first [by apply with_data_denied | by apply single_denied].
  - intros H Hf. destruct q; simpl in *; apply not_denied_outcome;
      try (by destruct (Hf r));
      try (apply with_data_not_denied; [done|]; intros d);
      try (apply single_not_denied; [done|]; intros b);
      try (apply guard_not_denied; [apply required_not_denied|]; intros _);
      try (apply leaving_not_denied);
      try (apply call__not_denied);
      try (apply call_not_denied; first [apply dataErr_not_denied | apply fileErr_not_denied | by intros e]).
    + apply guard_not_denied; [apply batch_ops_not_denied|]. intros ws. apply call_not_denied, dataErr_not_denied.
    + intros c e. unfold Consume. destruct (queue_Consume _ _ _ _ _ _) as [[u|x] c']; [done|]. by intros [= <-].
    + unfold GetConfig. destruct (d_Config deps); [|done]. by apply call_not_denied.
    + intros c e. destruct chunks as [|first rest]; [by intros [= <-]|].
      destruct ended; [by intros [= <-]|]. apply call_not_denied, fileErr_not_denied.
    + unfold Log. destruct (d_Obs deps); [apply call__not_denied|done].
    + unfold RecordMetric. destruct (d_Obs deps); [apply call__not_denied|done].
Qed.

(** ** Confinement *)

(** What the host promises about a plugin: every operation of a backend, called
    under the plugin's key, moves the host only along [R]. *)
Definition along {A} (R : W -> W -> Prop) (op : W -> A * W) : Prop := forall w, R w (op w).2.

Class Confines (R : W -> W -> Prop) : Prop := {
  conf_data d : d_Data deps = Some d ->
    (forall a b c e f, along R (data_Put d key a b c e f)) /\ (forall a b c, along R (data_Get d key a b c)) /\
    (forall a b c, along R (data_Delete d key a b c)) /\ (forall a b c e f, along R (data_Find d key a b c e f)) /\
    (forall a b c, along R (data_Query d key a b c)) /\ (forall a b c, along R (data_Aggregate d key a b c)) /\
    (forall a b, along R (data_BatchWrite d key a b)) /\ (forall a, along R (data_BeginTx d key a)) /\
    (forall a, along R (data_CommitTx d key a)) /\ (forall a, along R (data_RollbackTx d key a));
  conf_queue q : d_Queue deps = Some q ->
    (forall a b c, along R (queue_Enqueue q key a b c)) /\
    (forall a b c cn, R (world cn) (world (queue_Consume q key a b c cn).2)) /\
    (forall a, along R (queue_Ack q key a)) /\ (forall a b c, along R (queue_Nack q key a b c));
  conf_cache c : d_Cache deps = Some c ->
    (forall a, along R (cache_Get c key a)) /\ (forall a b t w, R w (cache_Set c key a b t w)) /\
    (forall a w, R w (cache_Delete c key a w));
  conf_locks l : d_Locks deps = Some l ->
    (forall a b c, along R (lock_Acquire l key a b c)) /\ (forall a b c, along R (lock_Renew l key a b c)) /\
    (forall a b w, R w (lock_Release l key a b w));
  conf_config g : d_Config deps = Some g -> along R (g key);
  conf_files f : d_Files deps = Some f ->
    (forall a b c, along R (file_Put f key a b c)) /\ (forall a, along R (file_Delete f key a)) /\
    (forall a b c, along R (file_Token f key a b c)) /\ (forall a, along R (file_Metadata f key a));
  conf_events e : d_Events deps = Some e ->
    (forall ev, ev_SourcePluginKey ev = key -> along R (event_Publish e key ev)) /\
    (forall n, along R (event_Subscribe e key n));
  conf_egress f : d_Egress deps = Some f -> forall r, along R (f key r);
  conf_obs o : d_Obs deps = Some o ->
    (forall r w, R w (obs_Log o key r w)) /\ (forall a b c d w, R w (obs_RecordMetric o key a b c d w))
}.

Section confined.
Context (R : W -> W -> Prop) `{!PreOrder R} `{!Confines R}.

Definition moves {A} (m : rpc A) : Prop := forall c, R (world c) (world (m c).2).

Lemma moves_outcome {A} (m : rpc A) : moves m -> moves (outcome m).
Proof using Type. intros H c. specialize (H c). unfold outcome. by destruct (m c) as [[a|e] c']. Qed.

Lemma moves_fail {A} e : moves (rpc_fail (A := A) e).
Proof using Type*. intros c. simpl. reflexivity. Qed.

Lemma moves_guard {A B} (r : result status A) (k : A -> rpc B) :
  (forall a, r = Ok a -> moves (k a)) -> moves (guard r k).
Proof using Type*. intros H. destruct r as [a|e]; [by apply H|apply moves_fail]. Qed.

Lemma moves_call {E A B} (op : W -> result E A * W) (err : E -> status) (k : A -> B) :
  along R op -> moves (call op err k).
Proof using Type. intros H c. specialize (H (world c)). unfold call. by destruct (op (world c)). Qed.

Lemma moves_call_ {A B} (op : W -> A * W) (k : A -> B) : along R op -> moves (call_ op k).
Proof using Type. intros H c. specialize (H (world c)). unfold call_. by destruct (op (world c)). Qed.

Lemma moves_leaving (m : rpc ()) : moves m -> moves (leaving m).
Proof using Type. intros H c. specialize (H c). unfold leaving. by destruct (m c) as [[u|e] c']. Qed.

Lemma available_ok {A} what (d : option A) a : available what d = Ok a -> d = Some a.
Proof using Type. destruct d; [by intros [= ->]|done]. Qed.

Lemma moves_available {A B} p what (d : option A) (k : A -> rpc B) :
  (forall a, d = Some a -> moves (k a)) -> moves (guard (require p) (fun _ => guard (available what d) k)).
Proof using Type*.
  intros H. apply moves_guard. intros _ _. apply moves_guard. intros a Ha%available_ok. by apply H.
Qed.

Lemma moves_data {A} txID (k : DataBackend -> rpc A) :
  (forall d, d_Data deps = Some d -> moves (k d)) -> moves (with_data txID k).
Proof using Type*.
  intros H. unfold with_data. do 2 (apply moves_guard; intros _ _). apply moves_guard.
  intros d Hd%available_ok. by apply H.
Qed.

Lemma along_logs o : d_Obs deps = Some o ->
  forall rs w, R w (foldl (fun w r => obs_Log o key (log_record r) w) w rs).
Proof using Type*.
  intros Ho rs. induction rs as [|r rs IH]; intros w; simpl; [reflexivity|].
  destruct (conf_obs o Ho) as [Hlog _]. etransitivity; [apply Hlog|apply IH].
Qed.

(** Whatever a plugin sends, its server acts on the host only through
    backend operations called under the key the server was built with: if each
    of these keeps to what plugin [key] may do, so does every call. *)
Lemma server_confined q c : R (world c) (world (serve q c).2).
Proof using Type*.
  revert c. change (moves (serve q)). destruct q; simpl; apply moves_outcome;
    try (apply moves_data; intros d Hd; pose proof (conf_data d Hd));
    try (apply moves_available; intros b Hb; first
      [ pose proof (conf_data b Hb) | pose proof (conf_queue b Hb) | pose proof (conf_cache b Hb)
      | pose proof (conf_locks b Hb) | pose proof (conf_files b Hb) | pose proof (conf_events b Hb)
      | pose proof (conf_egress b Hb) ]);
    try (apply moves_guard; intros ? _);
    try (apply moves_leaving);
    try (apply moves_call; intros w; simpl; naive_solver);
    try (apply moves_call_; intros w; simpl; naive_solver).
  - intros c. destruct H as (_ & H & _). specialize (H topic prefetch (visibility_seconds * second) c).
    by destruct (queue_Consume _ _ _ _ _ c) as [[u|e] c'].
  - unfold GetConfig. destruct (d_Config deps) as [g|] eqn:Hg; [|intros c; simpl; reflexivity].
    by apply moves_call, conf_config.
  - destruct chunks as [|first rest]; [apply moves_fail|]. destruct ended; [apply moves_fail|].
    apply moves_call. by apply H.
  - unfold Log. destruct (d_Obs deps) as [o|] eqn:Ho; [|intros c; simpl; reflexivity].
    apply moves_call_. intros w. by apply along_logs.
  - unfold RecordMetric. destruct (d_Obs deps) as [o|] eqn:Ho; [|intros c; simpl; reflexivity].
    apply moves_call_. intros w. destruct (conf_obs o Ho) as [_ Hm]. apply Hm.
Qed.
End confined.
End server.

(** ** A plugin granted the cache and nothing else *)

Definition ex_cache : CacheBackend (W := gmap (string * string) string) :=
  mkCacheBackend (fun k x w => (w !! (k, x), w)) (fun k x v _ w => <[(k, x) := v]> w) (fun k x w => delete (k, x) w).

Definition ex_deps : Deps (W := gmap (string * string) string) (F := Z) :=
  mkDeps None None (Some ex_cache) None None None None None None.

Lemma gate_exact_witness :
  let plugin := serve "shop" (newPermSet [PermCache]) ex_deps [] 0 in
  denied (plugin (RGet (mkPbDoc "orders" "1" ""))) /\ not_denied (plugin (RCacheSet "a" "1" 0)) /\
  plugin (RCacheSet "a" "1" 0) (mkConn 0 ∅) = (Ok (), mkConn 0 {[ ("shop", "a") := "1" ]}).
Proof.
  intros plugin. split_and!; [| |reflexivity].
  - apply (gate_exact "shop" (newPermSet [PermCache]) ex_deps [] 0 (RGet (mkPbDoc "orders" "1" ""))).
    apply List.Exists_cons. left. unfold newPermSet. simpl. set_solver.
  - apply (gate_exact "shop" (newPermSet [PermCache]) ex_deps [] 0 (RCacheSet "a" "1" 0)).
    + apply list.Forall_singleton. unfold newPermSet. simpl. set_solver.
    + discriminate.
Defined.
