(* ===== verification/HostData.v ===== *)
(** * core/hostsvc/data.go: the document store behind the host calls

    CMDSData: each operation resolves the transaction id it is given to a
    connection and runs the store's operation there. The database server is a
    parameter: it runs a program on the pool or on an open transaction, begins
    and ends transactions, and answers a SELECT given as text and arguments. *)

From S2P Require Import Prelude GoStrings Sql TxRegistry Documents SqlText Query Wire Egress Files HostServer.

Open Scope Z_scope.

Section data.
Context {S F : Type} (zero : F).
(** What Documents and Query leave to the server and to encoding/json. *)
Context (ident : string -> string) (jsonb : string -> option string)
  (field_text : string -> string -> option string) (varchar : Z -> string -> bool).
Context (parse_object : string -> option (list (string * json))) (marshal_value : json -> string)
  (cursor_json : list string -> string -> string) (cursor_unjson : string -> option (list string * string)).

(** [None] is the pool. *)
Notation on := (option Z).

Record server := mkServer {
  run : forall A, on -> prog database A -> S -> result db_error A * S;
  select_rows : on -> string -> list arg -> S -> result string (list (string * string)) * S;
  select_docs : on -> string -> list arg -> S -> result string (list string) * S;
  select_agg : on -> string -> list arg -> S -> result string (list (list (option string) * option F)) * S;
  begin_tx : S -> result string Z * S;
  end_tx : bool -> Z -> S -> option string * S
}.

Context (pg : server).

Record CMDSData := mkCMDSData { dh_server : S; dh_txs : TxRegistry }.

(** The clock, and the id [randomTxID] draws. *)
Context (now : Z) (id : string).

Definition rolled_back (hs : list Z) (s : S) : S := foldl (fun s h => (end_tx pg false h s).2) s hs.

Definition execFor (pluginKey txID : string) (w : CMDSData) : result data_error on * CMDSData :=
  if String.eqb txID "" then (Ok None, w)
  else
    let '(r, expired, reg) := Lookup now pluginKey txID (dh_txs w) in
    (match r with Ok h => Ok (Some h) | Err e => Err (DataTx e) end,
     mkCMDSData (rolled_back expired (dh_server w)) reg).

(** [ex, err := d.execFor(...)] and the store's operation on what it gives. *)
Definition on_executor {A} (pluginKey txID : string) (op : on -> S -> result db_error A * S) (w : CMDSData)
    : result data_error A * CMDSData :=
  match execFor pluginKey txID w with
  | (Err e, w) => (Err e, w)
  | (Ok h, w) =>
      let '(r, s) := op h (dh_server w) in
      (match r with Ok a => Ok a | Err e => Err (DataDb e) end, mkCMDSData s (dh_txs w))
  end.

(** A statement given as text, with the state it leaves. *)
Definition selecting {A B} (select : string -> list arg -> S -> result string A * S)
    (op : (string -> list arg -> result string A) -> result db_error B)
    (built : result db_error (string * list arg)) (s : S) : result db_error B * S :=
  (op (fun q args => (select q args s).1),
   match built with Ok (q, args) => (select q args s).2 | Err _ => s end).

Definition predicates (fs : list HostServer.Filter) : list Predicate :=
  (fun f => mkPredicate (hf_Field f) (hf_Op f) (hf_Values f)) <$> fs.

Definition data_Put_ (k co doc txt txID : string) (expected : Z) : CMDSData -> result data_error Z * CMDSData :=
  on_executor k txID (fun h => run pg _ h (PutVersioned ident jsonb field_text varchar k co doc txt expected)).

Definition data_Get_ (k co doc txID : string) : CMDSData -> result data_error (option (string * Z)) * CMDSData :=
  on_executor k txID (fun h => run pg _ h (GetVersioned ident k co doc)).

Definition data_Delete_ (k co doc txID : string) : CMDSData -> result data_error bool * CMDSData :=
  on_executor k txID (fun h => run pg _ h (DeleteIn ident k co doc)).

Definition legacy (fs : list HostServer.Filter) : list Query.Filter :=
  (fun f => Query.mkFilter (hf_Field f) (hf_Op f) (default "" (hf_Values f !! 0%nat))) <$> fs.

Definition data_Find_ (k co : string) (fs : list HostServer.Filter) (limit offset : Z) (txID : string)
    : CMDSData -> result data_error (list string) * CMDSData :=
  on_executor k txID (fun h =>
    selecting (select_docs pg h) (fun select => Query.Find select k co (legacy fs) limit offset)
      (build_find k co (legacy fs) limit offset)).

Definition query_opts (o : HostServer.QueryOptions) : Query.QueryOptions :=
  Query.mkQueryOptions (predicates (qo_Filters o))
    ((fun s => mkSortField (so_Field s) (so_Descending s)) <$> qo_Sort o) (qo_Limit o) (qo_Cursor o).

Definition data_Query_ (k co : string) (o : HostServer.QueryOptions) (txID : string)
    : CMDSData -> result data_error HostServer.QueryResult * CMDSData :=
  on_executor k txID (fun h =>
    selecting (select_rows pg h)
      (fun select =>
         let? r := Query_ parse_object marshal_value cursor_json cursor_unjson select k co (query_opts o) in
         Ok (HostServer.mkQueryResult (Query.Documents r) (IDs r) (NextCursor r) (HasMore r)))
      (build_query cursor_unjson k co (query_opts o))).

Definition agg_opts (o : HostServer.AggregateOptions) : Query.AggregateOptions :=
  Query.mkAggregateOptions (predicates (ao_Filters o)) (ao_Func o) (ao_Field o) (ao_GroupBy o).

Definition data_Aggregate_ (k co : string) (o : HostServer.AggregateOptions) (txID : string)
    : CMDSData -> result data_error (list (gmap string string * F)) * CMDSData :=
  on_executor k txID (fun h =>
    selecting (select_agg pg h) (fun select => Query.Aggregate zero select k co (agg_opts o))
      (build_aggregate k co (agg_opts o))).

Definition batch_of (ops : list WriteOp) : list BatchOp :=
  (fun o => mkBatchOp (wo_Delete o) (wo_Collection o) (wo_DocID o) (wo_Data o)) <$> ops.

Definition data_BatchWrite_ (k : string) (ops : list WriteOp) (txID : string)
    : CMDSData -> result data_error Z * CMDSData :=
  on_executor k txID (fun h s =>
    let '(r, s) := run pg _ h (Documents.BatchWrite ident jsonb field_text varchar k (batch_of ops)) s in
    (match r with Ok (n, None) => Ok n | Ok (_, Some e) => Err e | Err e => Err e end, s)).

Definition data_BeginTx_ (k : string) (timeout : Z) (w : CMDSData) : result data_error string * CMDSData :=
  let '(handle, s) := match reserve k (dh_txs w) with
                      | Ok _ => begin_tx pg (dh_server w)
                      | Err _ => (Err "", dh_server w)
                      end in
  let '(r, reg) := Begin handle id now k timeout (dh_txs w) in
  (match r with Ok txID => Ok txID | Err e => Err (DataTx e) end, mkCMDSData s reg).

Definition finish (commit : bool) (k txID : string) (w : CMDSData) : result data_error () * CMDSData :=
  let ending h := (end_tx pg commit h (dh_server w)).1 in
  let '(r, reg) := (if commit then Commit else Rollback) ending k txID (dh_txs w) in
  (match r with Ok u => Ok u | Err e => Err (DataTx e) end,
   mkCMDSData (match (take k txID (dh_txs w)).1 with
               | Ok t => (end_tx pg commit (tx t) (dh_server w)).2
               | Err _ => dh_server w
               end) reg).

Definition data_backend : DataBackend (W := CMDSData) (F := F) :=
  mkDataBackend data_Put_ data_Get_ data_Delete_ data_Find_ data_Query_ data_Aggregate_ data_BatchWrite_
    data_BeginTx_ (finish true) (finish false).

(** ** Transactions of others *)

(** The transaction a call names. *)
Definition tx_of (q : rpc_call (F := F)) : option string :=
  match q with
  | RPut r => Some (pp_tx_id r)
  | RGet r | RDelete r => Some (pd_tx_id r)
  | RFind _ _ _ _ tx | RQuery _ _ _ _ _ tx | RAggregate _ _ _ _ _ tx | RBatchWrite _ tx => Some tx
  | RCommitTx tx | RRollbackTx tx => Some tx
  | _ => None
  end.

(** The calls whose failures are told apart; the rest answer InvalidArgument
    for them all, or for a malformed batch before the transaction is looked up. *)
Definition classified (q : rpc_call (F := F)) : bool :=
  match q with RQuery _ _ _ _ _ _ | RAggregate _ _ _ _ _ _ | RBatchWrite _ _ => false | _ => true end.

Definition not_open (k txID : string) (w : CMDSData) : Prop :=
  forall t, txs (dh_txs w) !! txID = Some t -> pluginKey t <> k.

Lemma execFor_foreign k txID w : txID <> "" -> not_open k txID w -> execFor k txID w = (Err (DataTx ErrUnknownTx), w).
Proof using Type.
  intros Ht Hn. unfold execFor, Lookup. destruct (String.eqb_spec txID ""); [done|].
  unfold not_open in Hn. destruct w as [s reg]. simpl in *. destruct (txs reg !! txID) as [t|] eqn:E; [|done].
  by rewrite bool_decide_true by (by apply Hn).
Qed.

Lemma on_executor_foreign {A} k txID (op : on -> S -> result db_error A * S) w :
  txID <> "" -> not_open k txID w -> on_executor k txID op w = (Err (DataTx ErrUnknownTx), w).
Proof using Type. intros Ht Hn. unfold on_executor. by rewrite execFor_foreign. Qed.

Lemma finish_foreign commit k txID w : not_open k txID w -> finish commit k txID w = (Err (DataTx ErrUnknownTx), w).
Proof using Type.
  intros Hn. assert (take k txID (dh_txs w) = (Err ErrUnknownTx, dh_txs w)) as Ht.
  { unfold take. destruct (txs (dh_txs w) !! txID) as [t|] eqn:E; [|done].
    rewrite bool_decide_true by (by apply Hn). done. }
  unfold finish, Commit, Rollback. destruct commit; rewrite !Ht; by destruct w.
Qed.

(** ** Through the host services *)

Context (key : string) (perms : permSet) (md : list string) (deps : Deps (W := CMDSData) (F := F)).

(** [m] fails and changes nothing, with the failure [e] if [P] holds. *)
Definition refuses {A} (m : rpc (W := CMDSData) A) (c : conn) (P : Prop) (e : status) : Prop :=
  exists x, m c = (Err x, c) /\ (P -> x = e).

Lemma call_refuses {A B} (m : CMDSData -> result data_error A * CMDSData) err (k : A -> B) c x (P : Prop) e :
  m (world c) = (Err x, world c) -> (P -> err x = e) -> refuses (call m err k) c P e.
Proof using Type. intros H He. exists (err x). unfold call. rewrite H. by destruct c. Qed.

Lemma require_refuses {A} p (k : () -> rpc A) c (P : Prop) e :
  refuses (k ()) c P e -> refuses (guard (require key perms p) k) c (p ∈ perms /\ P) e.
Proof using Type.
  intros (x & Hx & He). unfold guard, require, perm_has. destruct (bool_decide (p ∈ perms)) eqn:E.
  - exists x. split; [done|]. intros [_ ?]. by apply He.
  - eexists. split; [reflexivity|]. intros [? _]. by apply bool_decide_eq_false in E.
Qed.

Lemma refuses_mono {A} (m : rpc A) c (P Q : Prop) e : (Q -> P) -> refuses m c P e -> refuses m c Q e.
Proof using Type. intros H (x & Hx & He). exists x. auto. Qed.

Lemma with_data_refuses {A} tx (k : DataBackend -> rpc A) c (P : Prop) e :
  d_Data deps = Some data_backend -> refuses (k data_backend) c P e ->
  refuses (with_data key perms deps tx k) c (Forall (.∈ perms) (PermDB :: needs_tx tx) /\ P) e.
Proof using Type.
  intros Hd Hk. unfold with_data.
  apply (refuses_mono _ _ (PermDB ∈ perms /\ (Forall (.∈ perms) (needs_tx tx) /\ P))).
  { intros [[H1 H2]%list.Forall_cons HP]. done. }
  apply require_refuses. unfold requireTx, needs_tx. destruct (String.eqb tx "").
  - apply (refuses_mono _ _ P); [by intros [_ ?]|]. unfold guard, dataBackend, available. by rewrite Hd.
  - apply (refuses_mono _ _ (PermDBTx ∈ perms /\ P)).
    { by intros [[H _]%list.Forall_cons ?]. }
    apply require_refuses. unfold guard, dataBackend, available. by rewrite Hd.
Qed.

Lemma outcome_refuses {A} (m : rpc A) c P e : refuses m c P e -> refuses (outcome m) c P e.
Proof using Type. intros (x & Hx & He). exists x. unfold outcome. by rewrite Hx. Qed.

Lemma tx_refuses (m : DataBackend -> CMDSData -> result data_error () * CMDSData) (c : conn) :
  d_Data deps = Some data_backend -> m data_backend (world c) = (Err (DataTx ErrUnknownTx), world c) ->
  refuses (guard (require key perms PermDBTx)
             (fun _ => guard (dataBackend deps) (fun d => call (m d) dataErr (fun u => u)))) c
    (Forall (.∈ perms) [PermDBTx] /\ true = true) (dataErr (DataTx ErrUnknownTx)).
Proof using Type.
  intros Hd Hm. apply (refuses_mono _ _ (PermDBTx ∈ perms /\ true = true)); [by intros [[H _]%list.Forall_cons ?]|].
  apply require_refuses. unfold guard, dataBackend, available. rewrite Hd. by eapply call_refuses.
Qed.

(** C12. A plugin cannot act in a transaction that is not its own. Whatever
    call names a transaction id the plugin has not open, one of another
    plugin's or one nobody has, that call fails and changes nothing: no
    statement reaches the server and the registry stays as it was. If the
    permissions are there the failure says that the transaction is unknown,
    from every call that tells its failures apart. *)
Theorem foreign_transaction_refused q txID c :
  d_Data deps = Some data_backend ->
  tx_of q = Some txID -> (txID <> "" \/ q = RCommitTx txID \/ q = RRollbackTx txID) ->
  not_open key txID (world c) ->
  exists e, serve key perms deps md now q c = (Err e, c) /\
    (Forall (.∈ perms) (permissions_of q) /\ classified q = true -> e = dataErr (DataTx ErrUnknownTx)).
Proof using Type.
  intros Hd Hq Ht Hn.
  assert (forall A (op : on -> S -> result db_error A * S), txID <> "" ->
    on_executor key txID op (world c) = (Err (DataTx ErrUnknownTx), world c)) as Hop
    by (intros; by apply on_executor_foreign).
  destruct q; simpl in Hq; try discriminate; injection Hq as Hq; apply outcome_refuses; simpl; subst;
    try (assert (Hne : txID <> "") by naive_solver; clear Ht);
    try (assert (Hne : pp_tx_id r <> "") by naive_solver; clear Ht);
    try (assert (Hne : pd_tx_id r <> "") by naive_solver; clear Ht).
  1-7: unfold Put, Get, Delete, Find, Query, Aggregate, BatchWrite; apply with_data_refuses; [done|].
  1-6: eapply call_refuses; [by apply on_executor_foreign|done].
  - unfold guard. destruct (batch_ops ops); [|by eexists].
    eapply call_refuses; [by apply on_executor_foreign|done].
  - apply (tx_refuses (fun d => data_CommitTx d key txID) c Hd). by apply finish_foreign.
  - apply (tx_refuses (fun d => data_RollbackTx d key txID) c Hd). by apply finish_foreign.
Qed.
End data.

(** ** A server that runs every program on the spot *)

Definition ex_pg : server (S := session database) (F := Z) :=
  mkServer (fun A _ m s => m s) (fun _ _ _ s => (Err "unavailable", s)) (fun _ _ _ s => (Err "unavailable", s))
    (fun _ _ _ s => (Err "unavailable", s)) (fun s => (Ok 1, s)) (fun _ _ s => (None, s)).

Definition ex_data : DataBackend (W := CMDSData) (F := Z) :=
  data_backend 0 pg_ident pg_jsonb pg_field pg_varchar toy_parse toy_marshal (fun _ _ => "") (fun _ => None)
    ex_pg 10 "t2".

Definition ex_data_deps : Deps := mkDeps (Some ex_data) None None None None None None None None.

(** A transaction of "mail" and one of "shop". *)
Definition ex_open : conn :=
  mkConn 0 (mkCMDSData Documents.shop
    (mkTxRegistry {[ "t1" := mkOpenTx 1 "mail" 100; "t3" := mkOpenTx 2 "shop" 100 ]} 8 {[ "mail" := 1; "shop" := 1 ]})).

Lemma foreign_transaction_refused_witness :
  let put := RPut (mkPbPut "items" "1" "{}" "t1" 0) in
  (exists e, serve "shop" (newPermSet [PermDB; PermDBTx]) ex_data_deps [] 10 put ex_open = (Err e, ex_open) /\
     st_code e = FailedPrecondition) /\
  st_code (dataErr (DataTx ErrUnknownTx)) = FailedPrecondition.
Proof.
  intros put. split; [|reflexivity].
  destruct (foreign_transaction_refused 0 pg_ident pg_jsonb pg_field pg_varchar toy_parse toy_marshal (fun _ _ => "")
              (fun _ => None) ex_pg 10 "t2" "shop" (newPermSet [PermDB; PermDBTx]) [] ex_data_deps put "t1" ex_open)
    as (e & He & Hcode).
  - reflexivity.
  - reflexivity.
  - by left.
  - intros t Ht. assert (t = mkOpenTx 1 "mail" 100) as -> by (vm_compute in Ht; congruence). discriminate.
  - exists e. split; [exact He|]. rewrite Hcode; [reflexivity|]. split; [|reflexivity].
    unfold newPermSet. simpl. repeat constructor; set_solver.
Defined.

(** In its own transaction the same plugin writes. *)
Example own_transaction_works :
  (serve "shop" (newPermSet [PermDB; PermDBTx]) ex_data_deps [] 10 (RPut (mkPbPut "items" "1" "{}" "t3" 0)) ex_open).1 =
    Ok ().
Proof. vm_compute. reflexivity. Qed.
