(* ===== verification/HostQueue.v ===== *)
(** * core/hostsvc/queue.go: the queue as a plugin's consumer sees it

    PGQueue over the table of Queue.v: the backlog limit, and [Consume], the
    loop that waits for room, claims a batch and streams it, together with the
    count of messages in flight the server of rpc_queue.go keeps for it. A turn
    of the loop takes what the outside does in it as an argument. *)

From S2P Require Import Prelude GoStrings Sql StableSort Queue HostServer.

Open Scope Z_scope.

(** ** The backlog limit *)

Record PGQueue := mkPGQueue { MaxDepth : Z; depth : gmap string Z; dead : gmap string Z }.

Definition DefaultMaxQueueDepth : Z := 100000.

Definition Depth (p : PGQueue) (pluginKey : string) : Z := default 0 (depth p !! pluginKey).
Definition DeadCount (p : PGQueue) (pluginKey : string) : Z := default 0 (dead p !! pluginKey).
Definition maxDepth (p : PGQueue) : Z := if 0 <? MaxDepth p then MaxDepth p else DefaultMaxQueueDepth.

Inductive queue_error := BacklogFull (depth limit : Z) | QueueDb (e : db_error).

Definition checkDepth (p : PGQueue) (pluginKey : string) : result queue_error () :=
  let limit := maxDepth p in
  if limit <=? 0 then Ok ()
  else if limit <=? Depth p pluginKey then Err (BacklogFull (Depth p pluginKey) limit) else Ok ().

Section adapter.
Context (varchar : Z -> string -> bool).

Definition PGEnqueue (p : PGQueue) (now : Z) (pluginKey topic payload : string)
    (opts : HostServer.EnqueueOptions) : prog queue (result queue_error (Z * bool)) :=
  match checkDepth p pluginKey with
  | Err e => ret (Err e)
  | Ok _ =>
      wrapped QueueDb (Queue.Enqueue varchar now pluginKey topic payload
        (Queue.mkEnqueueOptions (eo_Delay opts) (eo_DedupKey opts) (eo_Priority opts)
           (eo_MaxAttempts opts) (eo_TraceID opts)))
  end.

(** One pass of the maintenance loop: a measurement that fails keeps the
    previous one, and housekeeping goes on. *)
Definition maintain (now retention : Z) (p : PGQueue) (s : session queue) : PGQueue * session queue :=
  let '(d, s) := PendingDepth s in
  let p := match d with Ok d => mkPGQueue (MaxDepth p) d (dead p) | Err _ => p end in
  let '(d, s) := DeadDepth s in
  let p := match d with Ok d => mkPGQueue (MaxDepth p) (depth p) d | Err _ => p end in
  let '(_, s) := Queue.ReapExpired now s in
  let '(_, s) := PurgeDone now (if retention <=? 0 then 24 * 3600 * second else retention) s in
  (p, s).
End adapter.

(** ** Consuming *)

(** The queue, and what was sent on the stream. *)
Record hub := mkHub { hb_queue : session queue; hb_sent : list (Message * string) }.

(** One look of [awaitRoom] at the count: how many messages left flight since
    the look before, the time, and whether the context ends before the next. *)
Record poll := mkPoll { po_acks : nat; po_now : Z; po_cancelled : bool }.

Inductive await_result := AwaitRoom | AwaitDeadline | AwaitCancelled | AwaitBlocked.

Definition leave (n : nat) (inflight : Z) : Z := Nat.iter n leftFlight inflight.

Fixpoint await_loop (prefetch deadline : Z) (polls : list poll) (n : Z) : await_result * Z :=
  match polls with
  | [] => (AwaitBlocked, n)
  | po :: polls =>
      let n := leave (po_acks po) n in
      if n <? prefetch then (AwaitRoom, n)
      else if deadline <? po_now po then (AwaitDeadline, n)
      else if po_cancelled po then (AwaitCancelled, n)
      else await_loop prefetch deadline polls n
  end.

Definition default_visibility (v : Z) : Z := if v <=? 0 then 30 * second else v.
Definition default_prefetch (p : Z) : Z := if p <=? 0 then 1 else p.

Definition awaitRoom (prefetch visibility start : Z) (polls : list poll) (n : Z) : await_result * Z :=
  await_loop (default_prefetch prefetch) (start + default_visibility visibility) polls n.

(** A turn of the loop: whether the context is done at its top or while an
    empty topic is waited on, what [awaitRoom] sees, the clocks, the rows
    another consumer has locked, the statements that fail, and which sends
    succeed. *)
Record turn := mkTurn {
  tn_done : bool; tn_polls : list poll; tn_now : Z; tn_clock : Z; tn_skip : Z -> bool;
  tn_faults : list bool; tn_sends : list bool; tn_idle_done : bool
}.

(** How a turn ends: the loop goes on, returns, or still waits for room. *)
Inductive progress := Again | Ended (r : result string ()) | Blocked.

Definition db_why (e : db_error) : string := match e with SqlFailed _ w => w | _ => "" end.

Definition on_queue {A} (m : prog queue A) (c : conn (W := hub)) : result db_error A * conn :=
  let '(r, s) := m (hb_queue (world c)) in (r, mkConn (inflight c) (mkHub s (hb_sent (world c)))).

(** [deliver]: [stream.Send], then the count goes up. *)
Definition deliver (ok : bool) (m : Message) (c : conn (W := hub)) : bool * conn :=
  if ok then
    (true, mkConn (inflight c + 1)
       (mkHub (hb_queue (world c)) (hb_sent (world c) ++ [(m, newDeliveryTraceID (ID m) (Attempt m))])))
  else (false, c).

Fixpoint deliver_all (msgs : list Message) (sends : list bool) (c : conn) : bool * conn :=
  match msgs with
  | [] => (true, c)
  | m :: msgs =>
      match deliver (match sends with ok :: _ => ok | [] => true end) m c with
      | (true, c) => deliver_all msgs (tail sends) c
      | (false, c) => (false, c)
      end
  end.

(** The stream broke: every message of the batch is handed back, errors
    ignored. *)
Definition release_all (now : Z) (pluginKey : string) (msgs : list Message) (c : conn) : conn :=
  foldl (fun c m => (on_queue (Queue.Nack now pluginKey (ID m) "consumer disconnected" 0) c).2) c msgs.

Definition consume_turn (pluginKey topic : string) (prefetch visibility : Z) (t : turn) (c : conn)
    : progress * conn :=
  if tn_done t then (Ended (Ok ()), c)
  else
    let '(room, n) := awaitRoom prefetch visibility (tn_now t) (tn_polls t) (inflight c) in
    let c := mkConn n (mkHub (mkSession (store (hb_queue (world c))) Pool (tn_faults t) (tn_clock t))
                        (hb_sent (world c))) in
    match room with
    | AwaitBlocked => (Blocked, c)
    | AwaitCancelled => (Ended (Ok ()), c)
    | AwaitRoom | AwaitDeadline =>
        match on_queue (Claim (tn_now t) (tn_skip t) pluginKey topic (default_prefetch prefetch)
                          (default_visibility visibility)) c with
        | (Err e, c) => (Ended (Err (db_why e)), c)
        | (Ok [], c) => (if tn_idle_done t then Ended (Ok ()) else Again, c)
        | (Ok msgs, c) =>
            match deliver_all msgs (tn_sends t) c with
            | (true, c) => (Again, c)
            | (false, c) => (Ended (Err "stream"), release_all (tn_now t) pluginKey msgs c)
            end
        end
    end.

Fixpoint PGConsume (pluginKey topic : string) (prefetch visibility : Z) (turns : list turn) (c : conn)
    : option (result string ()) * conn :=
  match turns with
  | [] => (None, c)
  | t :: turns =>
      match consume_turn pluginKey topic prefetch visibility t c with
      | (Again, c) => PGConsume pluginKey topic prefetch visibility turns c
      | (Ended r, c) => (Some r, c)
      | (Blocked, c) => (None, c)
      end
  end.

(** ** How much a consumer holds *)

Lemma leftFlight_bounds n : 0 <= n -> 0 <= leftFlight n <= n.
Proof. unfold leftFlight. case_match; zbool; lia. Qed.

Lemma leave_bounds k n : 0 <= n -> 0 <= leave k n <= n.
Proof.
  intros Hn. unfold leave. induction k as [|k IH]; simpl; [lia|].
  pose proof (leftFlight_bounds (Nat.iter k leftFlight n)). lia.
Qed.

Lemma await_loop_bounds p d polls n : 0 <= n -> 0 <= (await_loop p d polls n).2 <= n.
Proof.
  revert n. induction polls as [|po polls IH]; intros n Hn; simpl; [lia|].
  pose proof (leave_bounds (po_acks po) n Hn). repeat case_match; simpl; try lia.
  pose proof (IH (leave (po_acks po) n)). lia.
Qed.

(** If the wait is not cut off by the visibility timeout, the claim that
    follows finds fewer than [prefetch] in flight. *)
Lemma await_loop_room p d polls n :
  Forall (fun po => po_now po <= d) polls ->
  match await_loop p d polls n with
  | (AwaitRoom, n') => n' < p
  | (AwaitDeadline, _) => False
  | _ => True
  end.
Proof.
  intros H. revert n. induction H as [|po polls Hpo _ IH]; intros n; simpl; [done|].
  destruct (Z.ltb_spec (leave (po_acks po) n) p); [done|].
  destruct (Z.ltb_spec d (po_now po)); [lia|]. destruct (po_cancelled po); [done|]. apply IH.
Qed.

Lemma default_prefetch_pos p : 0 < default_prefetch p.
Proof. unfold default_prefetch. case_match; zbool; lia. Qed.

Lemma Claim_length now skip k t limit vis s ms s' :
  0 < limit -> Claim now skip k t limit vis s = (Ok ms, s') -> Z.of_nat (length ms) <= limit.
Proof.
  intros Hl H. unfold Claim in H. apply exec_ok in H as (H & _). apply Ok_inj, pair_eq in H as [<- _].
  rewrite length_fmap. unfold claim_set. rewrite length_take. destruct (Z.leb_spec limit 0); lia.
Qed.

Lemma deliver_all_inflight ms sends c ok c' :
  deliver_all ms sends c = (ok, c') ->
  inflight c <= inflight c' <= inflight c + Z.of_nat (length ms) /\
  hb_queue (world c') = hb_queue (world c) /\
  exists sent, sent `prefix_of` ms /\ (ok = true -> sent = ms) /\ (ok = false -> sent <> ms) /\
    hb_sent (world c') = hb_sent (world c) ++ ((fun m => (m, newDeliveryTraceID (ID m) (Attempt m))) <$> sent).
Proof.
  revert sends c. induction ms as [|m ms IH]; intros sends c; simpl.
  - intros [= <- <-]. split; [lia|]. split; [done|]. exists []. split_and!; try done. by rewrite app_nil_r.
  - destruct (deliver _ m c) as [[] c1] eqn:E; unfold deliver in E; case_match; simplify_eq/=.
    + intros (Hn & Hq & sent & Hpre & Ht & Hf & Hs)%IH. simpl in *. split; [lia|]. split; [done|].
      exists (m :: sent). split_and!; [by apply prefix_cons|intros Hok; by rewrite Ht| |].
      * intros Hok [= Heq]. by apply Hf.
      * rewrite Hs. simpl. by rewrite <- app_assoc.
    + intros [= <- <-]. split; [lia|]. split; [done|]. exists []. split_and!; try done; [apply prefix_nil|].
      by rewrite app_nil_r.
Qed.

Lemma release_all_inflight now k ms c : inflight (release_all now k ms c) = inflight c.
Proof.
  unfold release_all. revert c. induction ms as [|m ms IH]; intros c; simpl; [done|]. rewrite IH.
  unfold on_queue. by destruct (Queue.Nack _ _ _ _ _ _).
Qed.

(** What happens to one consumer's count: turns of its loop, and messages the
    plugin has finished with. *)
Inductive consumer_event := ETurn (t : turn) | EFinished.

Definition on_time (visibility : Z) (e : consumer_event) : Prop :=
  match e with
  | ETurn t => Forall (fun po => po_now po <= tn_now t + default_visibility visibility) (tn_polls t)
  | EFinished => True
  end.

Definition consumer_step (k topic : string) (prefetch visibility : Z) (c : conn) (e : consumer_event) : conn :=
  match e with
  | ETurn t => (consume_turn k topic prefetch visibility t c).2
  | EFinished => mkConn (leftFlight (inflight c)) (world c)
  end.

Lemma consume_turn_inflight k topic p v t c :
  0 <= inflight c <= 2 * default_prefetch p - 1 -> on_time v (ETurn t) ->
  0 <= inflight (consume_turn k topic p v t c).2 <= 2 * default_prefetch p - 1.
Proof.
  intros Hc Ht. simpl in Ht. pose proof (default_prefetch_pos p) as Hp. unfold consume_turn.
  destruct (tn_done t); [done|]. unfold awaitRoom.
  pose proof (await_loop_bounds (default_prefetch p) (tn_now t + default_visibility v) (tn_polls t) (inflight c)) as Hb.
  pose proof (await_loop_room (default_prefetch p) _ _ (inflight c) Ht) as Hroom.
  destruct (await_loop _ _ _ _) as [room n]. simpl in Hb. specialize (Hb ltac:(lia)).
  destruct room; simpl; try lia.
  unfold on_queue. simpl. destruct (Claim _ _ _ _ _ _ _) as [[ms|e] s] eqn:E; simpl; [|lia].
  apply Claim_length in E; [|done]. destruct ms as [|m ms]; [simpl; lia|].
  destruct (deliver_all (m :: ms) (tn_sends t) _) as [ok c'] eqn:Ed.
  apply deliver_all_inflight in Ed as (Hd & _). cbn [inflight] in Hd.
  destruct ok; cbn [snd]; rewrite ?release_all_inflight; lia.
Qed.

(** A consumer that asked for a prefetch of [p] never has more than
    [2p - 1] unfinished messages, over any history of claims, deliveries and
    acknowledgements in which no wait for room runs into the visibility
    timeout. The bound is not [p]: the wait lets a full batch in as soon as one
    place is free ([batch_over_prefetch]). *)
Lemma in_hand_bound k topic p v es c :
  0 <= inflight c <= 2 * default_prefetch p - 1 -> Forall (on_time v) es ->
  0 <= inflight (foldl (consumer_step k topic p v) c es) <= 2 * default_prefetch p - 1.
Proof.
  intros Hc Hes. revert c Hc. induction Hes as [|e es He _ IH]; intros c Hc; simpl; [done|].
  apply IH. destruct e; simpl; [by apply consume_turn_inflight|].
  pose proof (leftFlight_bounds (inflight c)). lia.
Qed.

(** ** A broken stream *)

(** What handing the messages [ids] back does to a row. *)
Definition handed_back (now : Z) (k : string) (server_now : Z) (ids : list Z) (m : msg) : msg :=
  if bool_decide (m_id m ∈ ids) && String.eqb (owner_key m) k && bool_decide (m_status m = Processing)
  then set_nacked now "consumer disconnected" server_now m else m.

Lemma handed_back_cons now k snow i ids m :
  handed_back now k snow ids (if held_by k i m then set_nacked now "consumer disconnected" snow m else m) =
  handed_back now k snow (i :: ids) m.
Proof.
  unfold handed_back, held_by. destruct (Z.eqb_spec (m_id m) i) as [->|Hne]; simpl.
  - rewrite (bool_decide_true (i ∈ i :: ids)) by left. simpl.
    destruct (String.eqb_spec (owner_key m) k), (bool_decide (m_status m = Processing)) eqn:Hp; simpl;
      rewrite ?andb_false_r; try done.
    + rewrite (bool_decide_false (requeue_status m = Processing)); [by rewrite andb_false_r|].
      unfold requeue_status. by case_match.
    + rewrite Hp. by rewrite andb_false_r.
    + destruct (String.eqb_spec (owner_key m) k); [done|]. by rewrite andb_false_r.
    + by rewrite Hp, andb_false_r.
  - assert (bool_decide (m_id m ∈ i :: ids) = bool_decide (m_id m ∈ ids)) as ->; [|done].
    apply bool_decide_ext. rewrite elem_of_cons. naive_solver.
Qed.

Lemma Nack_run now k i s :
  faults s = [] -> ex s = Pool ->
  exists r, Queue.Nack now k i "consumer disconnected" 0 s =
    (Ok r, mkSession (update (held_by k i) (set_nacked now "consumer disconnected" (clock s)) (store s))
             Pool [] (clock s)).
Proof.
  intros Hf Hx. unfold Queue.Nack, bind, exec, ret, stmt_update. rewrite Hf, Hx. simpl. rewrite Z.add_0_r.
  by eexists.
Qed.

Lemma release_all_sent now k ms c : hb_sent (world (release_all now k ms c)) = hb_sent (world c).
Proof.
  unfold release_all. revert c. induction ms as [|m ms IH]; intros c; simpl; [done|]. rewrite IH.
  unfold on_queue. by destruct (Queue.Nack _ _ _ _ _ _).
Qed.

Lemma release_all_rows now k ms c :
  faults (hb_queue (world c)) = [] -> ex (hb_queue (world c)) = Pool ->
  msgs (store (hb_queue (world (release_all now k ms c)))) =
    handed_back now k (clock (hb_queue (world c))) (ID <$> ms) <$> msgs (store (hb_queue (world c))).
Proof.
  unfold release_all. revert c. induction ms as [|m ms IH]; intros c Hf Hx; simpl.
  - symmetry. erewrite map_fmap_ext; [apply map_fmap_id|]. intros i x _. unfold handed_back.
    by rewrite bool_decide_false by apply not_elem_of_nil.
  - unfold on_queue at 2. destruct (Nack_run now k (ID m) (hb_queue (world c)) Hf Hx) as [r ->]. simpl.
    rewrite IH by done. simpl. rewrite <- map_fmap_compose. apply map_fmap_ext. intros i x _. simpl.
    apply handed_back_cons.
Qed.

Lemma on_queue_world {A} (m : prog queue A) c :
  (on_queue m c).2 = mkConn (inflight c) (mkHub (m (hb_queue (world c))).2 (hb_sent (world c))).
Proof. unfold on_queue. by destruct (m (hb_queue (world c))). Qed.

Lemma Claim_no_faults now skip k topic p v s :
  faults s = [] -> ex s = Pool ->
  exists ms s', Claim now skip k topic p v s = (Ok ms, s') /\
    faults s' = [] /\ ex s' = Pool /\ clock s' = clock s.
Proof. intros Hf Hx. unfold Claim, exec, stmt_claim. rewrite Hf, Hx. by do 2 eexists. Qed.

(** A turn that ends with the stream's error. *)
Lemma consume_turn_broken k topic p v t c c' :
  tn_faults t = [] -> consume_turn k topic p v t c = (Ended (Err "stream"), c') ->
  let s0 := mkSession (store (hb_queue (world c))) Pool [] (tn_clock t) in
  exists n ms s c2,
    Claim (tn_now t) (tn_skip t) k topic (default_prefetch p) (default_visibility v) s0 = (Ok ms, s) /\
    faults s = [] /\ ex s = Pool /\ clock s = tn_clock t /\
    deliver_all ms (tn_sends t) (mkConn n (mkHub s (hb_sent (world c)))) = (false, c2) /\
    c' = release_all (tn_now t) k ms c2.
Proof.
  intros Hfs H s0. unfold consume_turn in H. destruct (tn_done t); [done|].
  destruct (awaitRoom p v (tn_now t) (tn_polls t) (inflight c)) as [room n]. rewrite Hfs in H.
  destruct (Claim_no_faults (tn_now t) (tn_skip t) k topic (default_prefetch p) (default_visibility v) s0
    eq_refl eq_refl) as (ms & s & E & Hf & Hx & Hclk).
  assert (match ms with
    | [] => (if tn_idle_done t then Ended (Ok ()) else Again, mkConn n (mkHub s (hb_sent (world c))))
    | _ => match deliver_all ms (tn_sends t) (mkConn n (mkHub s (hb_sent (world c)))) with
           | (true, c) => (Again, c)
           | (false, c) => (Ended (Err "stream"), release_all (tn_now t) k ms c)
           end
    end = (Ended (Err "stream"), c')) as H1.
  { destruct room; try done; unfold on_queue in H; cbn [world hb_queue inflight hb_sent] in H;
      fold s0 in H; rewrite E in H; by destruct ms. }
  exists n, ms, s. destruct ms as [|m ms]; [by destruct (tn_idle_done t)|].
  destruct (deliver_all (m :: ms) _ _) as [ok c2] eqn:Ed. destruct ok; [done|]. exists c2.
  apply pair_eq in H1 as [_ <-]. done.
Qed.

(** When the stream to a consumer breaks, no message of the batch in hand
    stays leased: those already sent and those never sent are all back in the
    queue, or parked as dead if this delivery was their last attempt, and no
    other message is touched. *)
Lemma broken_stream k topic p v t c c' :
  queue_ok (store (hb_queue (world c))) -> tn_faults t = [] ->
  consume_turn k topic p v t c = (Ended (Err "stream"), c') ->
  exists batch : list msg, exists sent : list Message,
    sent `prefix_of` ((fun m => to_message (lease (tn_now t + default_visibility v) (tn_clock t) m)) <$> batch) /\
    (length sent < length batch)%nat /\
    hb_sent (world c') = hb_sent (world c) ++ ((fun m => (m, newDeliveryTraceID (ID m) (Attempt m))) <$> sent) /\
    (forall m, m ∈ batch -> m_status m = Pending /\ msgs (store (hb_queue (world c))) !! m_id m = Some m /\
       exists m', msgs (store (hb_queue (world c'))) !! m_id m = Some m' /\
         attempts m' = attempts m + 1 /\
         m_status m' = (if max_attempts m <=? attempts m + 1 then Dead else Pending)) /\
    (forall i m, msgs (store (hb_queue (world c))) !! i = Some m -> m ∉ batch ->
       msgs (store (hb_queue (world c'))) !! i = Some m).
Proof.
  intros Hok Hfs H. apply consume_turn_broken in H as (n & ms & s & c2 & E & Hf & Hx & Hclk & Ed & ->); [|done].
  apply Claim_spec in E; [|done]. cbn [clock store] in E.
  apply deliver_all_inflight in Ed as (_ & Hq & sent & Hpre & _ & Hne & Hsent). cbn [world hb_queue hb_sent] in Hq, Hsent.
  destruct E as (batch & Hms & _ & _ & Hin & Hout & _).
  assert ((if default_visibility v <=? 0 then 30 * 1000000000 else default_visibility v) = default_visibility v)
    as Hv by (unfold default_visibility, second; repeat case_match; zbool; lia).
  rewrite Hv in Hms, Hin.
  assert (ID <$> ms = m_id <$> batch) as Hids by (rewrite Hms, <- list_fmap_compose; by apply list_fmap_ext).
  exists batch, sent. split_and!.
  - by rewrite <- Hms.
  - apply prefix_length in Hpre as Hle. rewrite Hms, length_fmap in Hle.
    destruct (decide (length sent = length batch)) as [Heq|]; [|lia]. exfalso. apply (Hne eq_refl).
    apply prefix_length_eq; [done|]. rewrite Hms, length_fmap. lia.
  - rewrite <- Hsent. apply release_all_sent.
  - intros m Hm. destruct (Hin m Hm) as (Hc & Hrow & Hrow'). apply (claimable_spec any_text) in Hc as (Hown & _ & Hst & _).
    split_and!; [done|done|]. rewrite release_all_rows by congruence. rewrite Hq, lookup_fmap, Hrow'. simpl.
    eexists. split; [done|]. unfold handed_back. simpl. rewrite Hids, Hown, String.eqb_refl.
    rewrite bool_decide_true by (apply list_elem_of_fmap; by exists m). done.
  - intros i m Hi Hm. rewrite release_all_rows by congruence. rewrite Hq, lookup_fmap, (Hout i m Hi Hm). simpl.
    f_equal. unfold handed_back. rewrite Hids, bool_decide_false; [done|].
    intros (m' & E & Hm')%list_elem_of_fmap. destruct (Hin m' Hm') as (_ & Hrow & _).
    destruct (ok_row _ Hok i m Hi) as [Hid _]. apply Hm. assert (m = m') as -> by congruence. done.
Qed.

(** ** Concrete consumers *)

Definition ex_msg (i attempts_max : Z) : msg :=
  mkMsg i "shop" "mail" "hello" Pending 0 0 attempts_max 0 None None None "" 0.

Definition ex_queue (n attempts_max : Z) : queue :=
  mkQueue (list_to_map ((fun i => (i, ex_msg i attempts_max)) <$> seqZ 1 n)) n.

Definition ex_hub (n attempts_max : Z) : conn (W := hub) :=
  mkConn 0 (mkHub (mkSession (ex_queue n attempts_max) Pool [] 0) []).

Definition ex_turn (acks : nat) (sends : list bool) : turn :=
  mkTurn false [mkPoll acks 10 false] 10 10 (fun _ => false) [] sends false.

(** A consumer that asked for ten holds nineteen. *)
Example batch_over_prefetch :
  inflight (foldl (consumer_step "shop" "mail" 10 30) (ex_hub 30 3)
    [ETurn (ex_turn 0 []); EFinished; ETurn (ex_turn 0 [])]) = 19.
Proof. vm_compute. reflexivity. Qed.

Lemma ex_queue_ok : queue_ok (ex_queue 3 1).
Proof.
  assert (forall i m, msgs (ex_queue 3 1) !! i = Some m -> 1 <= i <= 3 /\ m = ex_msg i 1) as H.
  { intros i m. unfold ex_queue. cbn [msgs]. intros Hi%elem_of_list_to_map_2.
    apply list_elem_of_fmap in Hi as (j & E & Hj). apply elem_of_seqZ in Hj. injection E as -> ->. split; [lia|done]. }
  split.
  - intros i m [Hi ->]%H. split; [done|]. split; [simpl; lia|].
    split; [simpl; lia|]. split; [simpl; lia|]. simpl. split; [done|lia].
  - intros i j m m' [_ ->]%H [_ ->]%H Hc. done.
Qed.

(** The first of three messages is sent, the second send fails. With one
    attempt allowed, all three end up dead, two of them never delivered. *)

Example undelivered_message_is_dead :
  let c := (consume_turn "shop" "mail" 5 30 (ex_turn 0 [true; false]) (ex_hub 3 1)).2 in
  (length (hb_sent (world c)), m_status <$> msgs (store (hb_queue (world c))) !! 3) = (1%nat, Some Dead).
Proof. vm_compute. reflexivity. Qed.

(** The count is one per server, not per stream: a consumer of one topic holds
    back the consumers of every other. *)
Example topics_share_the_count :
  let c := (consume_turn "shop" "mail" 3 30 (ex_turn 0 []) (ex_hub 3 1)).2 in
  (consume_turn "shop" "other" 1 30 (ex_turn 0 []) c).1 = Blocked.
Proof. vm_compute. reflexivity. Qed.
