(* ===== verification/HostEvents.v ===== *)
(** * core/hostsvc/adapters.go: events and logs

    BusEvents over the bus of EventBus.v: the topics plugins publish under and
    subscribe to, the ceiling on open streams, and the life of a stream. And
    LogObservability: which records reach Core's log and as what line. *)

From Stdlib Require Import Ascii.
From S2P Require Import Prelude GoStrings EventBus HostServer.

Open Scope Z_scope.

Record BusEvents := mkBusEvents {
  be_bus : EventBus; SubscriberBuffer : Z; MaxSubscriptionsPerPlugin : Z; subs : gmap string Z
}.

Definition DefaultMaxSubscriptionsPerPlugin : Z := 64.

Definition NewBusEvents (bus : EventBus) : BusEvents := mkBusEvents bus 64 0 ∅.

Definition Subscriptions (b : BusEvents) (k : string) : Z := default 0 (subs b !! k).

Definition with_subs (f : gmap string Z -> gmap string Z) (b : BusEvents) : BusEvents :=
  mkBusEvents (be_bus b) (SubscriberBuffer b) (MaxSubscriptionsPerPlugin b) (f (subs b)).
Definition with_bus (f : EventBus -> EventBus) (b : BusEvents) : BusEvents :=
  mkBusEvents (f (be_bus b)) (SubscriberBuffer b) (MaxSubscriptionsPerPlugin b) (subs b).

Definition addSubscription (k : string) (b : BusEvents) : Z * BusEvents :=
  let n := Subscriptions b k + 1 in (n, with_subs (fun m => <[k := n]> m) b).

Definition removeSubscription (k : string) (b : BusEvents) : BusEvents :=
  let n := Subscriptions b k in
  let n := if 0 <? n then n - 1 else n in
  with_subs (fun m => if n =? 0 then delete k m else <[k := n]> m) b.

Definition maxPerPlugin (b : BusEvents) : Z :=
  if 0 <? MaxSubscriptionsPerPlugin b then MaxSubscriptionsPerPlugin b else DefaultMaxSubscriptionsPerPlugin.

Definition eventTopic (sourcePluginKey name : string) : string := sourcePluginKey +:+ ":" +:+ name.

Definition be_Publish (k : string) (ev : HostServer.Event) (b : BusEvents) : BusEvents :=
  with_bus (EventBus.Publish (eventTopic k (ev_Name ev)) (ev_Data ev)) b.

(** The publisher and the name a subscription asks for. *)
Definition subscription_of (k eventName : string) : string * string :=
  match cut_byte ":"%char eventName with Some (publisher, rest) => (publisher, rest) | None => (k, eventName) end.

Definition topic_of (k eventName : string) : string :=
  let '(source, name) := subscription_of k eventName in eventTopic source name.

(** [Subscribe] up to its loop: [ch] is the channel [make] gives. *)
Definition open_stream (k eventName : string) (ch : chan_id) (b : BusEvents) : result string () * BusEvents :=
  let limit := maxPerPlugin b in
  let '(n, b1) := addSubscription k b in
  if (0 <? limit) && (limit <? n) then (Err "too many subscriptions", removeSubscription k b1)
  else
    let size := if SubscriberBuffer b <=? 0 then 64 else SubscriberBuffer b in
    (Ok (), with_bus (fun bus =>
       EventBus.Subscribe (topic_of k eventName) ch
         (mkEventBus (subscribers bus) (<[ch := mkChan (Z.to_nat size) [] 0 []]> (chans bus)) (dropped bus))) b1).

(** One turn of the loop: an event taken from the channel, as it is sent. *)
Definition next_event (k eventName : string) (ch : chan_id) (b : BusEvents) : option HostServer.Event * BusEvents :=
  let '(source, name) := subscription_of k eventName in
  match chans (be_bus b) !! ch with
  | Some (mkChan cap (ev :: q) w r) =>
      (Some (HostServer.mkEvent name (EventBus.ev_Data ev) source ""),
       with_bus (fun bus => mkEventBus (subscribers bus) (<[ch := mkChan cap q w (r ++ [ev])]> (chans bus))
                              (dropped bus)) b)
  | _ => (None, b)
  end.

(** The two deferred calls. *)
Definition close_stream (k eventName : string) (ch : chan_id) (b : BusEvents) : BusEvents :=
  removeSubscription k (with_bus (EventBus.Unsubscribe (topic_of k eventName) ch) b).

(** ** The ceiling on streams *)

(** The bus with the streams that are open. *)
Record streams := mkStreams { st_events : BusEvents; st_open : list (string * string * chan_id) }.

Inductive stream_step : streams -> streams -> Prop :=
| StepOpen s k name ch b :
    open_stream k name ch (st_events s) = (Ok (), b) ->
    stream_step s (mkStreams b (st_open s ++ [(k, name, ch)]))
| StepRefused s k name ch e b :
    open_stream k name ch (st_events s) = (Err e, b) -> stream_step s (mkStreams b (st_open s))
| StepEvent s k name ch ev b :
    next_event k name ch (st_events s) = (Some ev, b) -> stream_step s (mkStreams b (st_open s))
| StepPublish s k ev : stream_step s (mkStreams (be_Publish k ev (st_events s)) (st_open s))
| StepClose s i k name ch :
    st_open s !! i = Some (k, name, ch) ->
    stream_step s (mkStreams (close_stream k name ch (st_events s)) (delete i (st_open s))).

Definition open_of (k : string) (l : list (string * string * chan_id)) : Z := count (fun x => x.1.1 = k) l.

(** The counter of a plugin is exact, and no stale zero is kept. *)
Definition streams_ok (max : Z) (s : streams) : Prop :=
  maxPerPlugin (st_events s) = max /\
  (forall k, Subscriptions (st_events s) k = open_of k (st_open s) /\ open_of k (st_open s) <= max) /\
  (forall k n, subs (st_events s) !! k = Some n -> 0 < n).

Lemma count_delete {A} (P : A -> Prop) `{forall a, Decision (P a)} l i x :
  l !! i = Some x -> count P (delete i l) = count P l - (if decide (P x) then 1 else 0).
Proof.
  intros Hi. rewrite <- (take_drop_middle l i x Hi) at 2. rewrite delete_take_drop, !count_app, count_cons. lia.
Qed.

Lemma maxPerPlugin_pos b : 0 < maxPerPlugin b.
Proof. unfold maxPerPlugin, DefaultMaxSubscriptionsPerPlugin. case_match; zbool; lia. Qed.

Lemma Subscriptions_insert b k n k' :
  Subscriptions (with_subs (fun m => <[k := n]> m) b) k' = if decide (k' = k) then n else Subscriptions b k'.
Proof.
  unfold Subscriptions, with_subs. simpl. case_decide as E; [subst; by rewrite lookup_insert_eq|].
  by rewrite lookup_insert_ne.
Qed.

Lemma removeSubscription_spec b k k' :
  0 < Subscriptions b k ->
  Subscriptions (removeSubscription k b) k' = Subscriptions b k' - (if decide (k' = k) then 1 else 0).
Proof.
  intros Hpos. unfold removeSubscription. destruct (Z.ltb_spec 0 (Subscriptions b k)); [|lia].
  destruct (Z.eqb_spec (Subscriptions b k - 1) 0).
  - unfold Subscriptions, with_subs in *. simpl. case_decide as E; [subst k'|].
    + rewrite lookup_delete_eq. simpl. lia.
    + rewrite lookup_delete_ne by done. lia.
  - rewrite Subscriptions_insert. case_decide; subst; lia.
Qed.

Lemma removeSubscription_pos b k :
  0 < Subscriptions b k -> (forall j n, subs b !! j = Some n -> 0 < n) ->
  forall j n, subs (removeSubscription k b) !! j = Some n -> 0 < n.
Proof.
  intros Hpos H j n. unfold removeSubscription. destruct (Z.ltb_spec 0 (Subscriptions b k)); [|lia].
  destruct (Z.eqb_spec (Subscriptions b k - 1) 0); simpl.
  - intros [_ Hj]%lookup_delete_Some. by eapply H.
  - intros [[<- <-]|[_ Hj]]%lookup_insert_Some; [lia|by eapply H].
Qed.

Lemma open_of_nonneg k l : 0 <= open_of k l.
Proof. apply count_nonneg. Qed.

Lemma open_stream_spec k name ch b r b' :
  open_stream k name ch b = (r, b') ->
  maxPerPlugin b' = maxPerPlugin b /\
  match r with
  | Ok _ => Subscriptions b k < maxPerPlugin b /\ subs b' = <[k := Subscriptions b k + 1]> (subs b)
  | Err _ => exists b1, maxPerPlugin b <= Subscriptions b k /\ subs b1 = <[k := Subscriptions b k + 1]> (subs b) /\
      b' = removeSubscription k b1
  end.
Proof.
  unfold open_stream, addSubscription. pose proof (maxPerPlugin_pos b).
  destruct (Z.ltb_spec 0 (maxPerPlugin b)); [|lia]. simpl.
  destruct (Z.ltb_spec (maxPerPlugin b) (Subscriptions b k + 1)); intros [= <- <-]; split; try done.
  - eexists. split; [lia|]. split; [|done]. done.
  - split; [lia|done].
Qed.

Lemma stream_step_ok max s s' : streams_ok max s -> stream_step s s' -> streams_ok max s'.
Proof.
  intros (Hmax & Hn & Hpos) Hs. destruct Hs as [s k name ch b Ho|s k name ch e b Ho|s k name ch ev b Ho|s k ev|s i k name ch Hi];
    simpl in *.
  - apply open_stream_spec in Ho as (Hm & Hlt & Hsub). split_and!; simpl; [congruence| |].
    + intros k'. destruct (Hn k') as [Hk' Hle]. unfold Subscriptions in *. rewrite Hsub.
      unfold open_of. rewrite count_app, count_cons, count_nil. simpl. destruct (decide (k = k')) as [->|Hne].
      * rewrite lookup_insert_eq. simpl. unfold open_of in *. lia.
      * rewrite lookup_insert_ne by done. unfold open_of in *. lia.
    + intros k' n. rewrite Hsub. intros [[<- <-]|[_ Hk]]%lookup_insert_Some; [|by eapply Hpos].
      destruct (Hn k) as [-> _]. pose proof (open_of_nonneg k (st_open s)). lia.
  - apply open_stream_spec in Ho as (Hm & b1 & _ & Hsub & ->).
    assert (forall k', Subscriptions b1 k' = Subscriptions (st_events s) k' + (if decide (k' = k) then 1 else 0)) as H1.
    { intros k'. unfold Subscriptions. rewrite Hsub. case_decide as E; [subst; by rewrite lookup_insert_eq|].
      rewrite lookup_insert_ne by done. lia. }
    assert (0 < Subscriptions b1 k) as Hk.
    { rewrite H1, decide_True by done. destruct (Hn k) as [-> _]. pose proof (open_of_nonneg k (st_open s)). lia. }
    split_and!; simpl; [congruence| |].
    + intros k'. rewrite removeSubscription_spec, H1 by done. destruct (Hn k') as [-> ?]. lia.
    + apply removeSubscription_pos; [done|]. intros j n. rewrite Hsub.
      intros [[<- <-]|[_ Hj]]%lookup_insert_Some; [|by eapply Hpos].
      destruct (Hn k) as [-> _]. pose proof (open_of_nonneg k (st_open s)). lia.
  - unfold next_event in Ho. destruct (subscription_of k name). repeat case_match; simplify_eq. done.
  - done.
  - assert (0 < Subscriptions (st_events s) k) as Hk.
    { destruct (Hn k) as [-> _]. pose proof (count_pos (fun x : string * string * chan_id => x.1.1 = k) (st_open s) (k, name, ch)
        (list_elem_of_lookup_2 _ _ _ Hi) eq_refl). unfold open_of. lia. }
    unfold close_stream. set (b1 := with_bus _ _).
    assert (forall k', Subscriptions b1 k' = Subscriptions (st_events s) k') as H1 by done.
    split_and!; simpl; [done| |].
    + intros k'. rewrite removeSubscription_spec by (by rewrite H1). rewrite H1. destruct (Hn k') as [-> Hle].
      unfold open_of. rewrite (count_delete _ _ _ _ Hi). simpl. unfold open_of in Hle.
      destruct (decide (k' = k)), (decide (k = k')); subst; try done; lia.
    + apply (removeSubscription_pos b1); [by rewrite H1|exact Hpos].
Qed.

(** Whatever plugins open, publish and close, in any order: the counter of each
    plugin is exactly its open streams and never above the ceiling. *)
Theorem streams_bounded bus s :
  rtc stream_step (mkStreams (NewBusEvents bus) []) s ->
  forall k, open_of k (st_open s) <= DefaultMaxSubscriptionsPerPlugin /\
    Subscriptions (st_events s) k = open_of k (st_open s).
Proof.
  intros H k. assert (streams_ok DefaultMaxSubscriptionsPerPlugin s) as (_ & Hn & _).
  { eapply (rtc_invariant stream_step); [|exact H|].
    - intros. by eapply stream_step_ok.
    - split_and!; [done| |].
      + intros k'. unfold Subscriptions, open_of. simpl. by rewrite lookup_empty.
      + intros k' n Hk. simpl in Hk. by rewrite lookup_empty in Hk. }
  destruct (Hn k). done.
Qed.

(** ** Who is heard *)

Lemma eventTopic_inj p n p' n' :
  has_byte ":"%char p = false -> has_byte ":"%char p' = false ->
  eventTopic p n = eventTopic p' n' -> p = p' /\ n = n'.
Proof.
  intros Hp Hp' H. by apply (sep_inj ":"%char).
Qed.

(** As long as plugin keys have no colon in them, a stream hears exactly the
    events of the plugin and the name it asked for, and what it delivers says
    so. *)
Theorem heard_exactly k eventName p n :
  has_byte ":"%char k = false -> has_byte ":"%char p = false ->
  topic_of k eventName = eventTopic p n <-> subscription_of k eventName = (p, n).
Proof.
  intros Hk Hp. unfold topic_of. destruct (subscription_of k eventName) as [source name] eqn:E.
  assert (has_byte ":"%char source = false) as Hs.
  { unfold subscription_of in E. destruct (cut_byte ":"%char eventName) as [[l r]|] eqn:Ec; simplify_eq; [|done].
    by apply cut_byte_spec in Ec as [_ ?]. }
  split; [|by intros [= -> ->]]. intros H. by destruct (eventTopic_inj source name p n Hs Hp H) as [-> ->].
Qed.

(** A key may contain a colon (the manifest forbids slashes, backslashes,
    dots and spaces only, see [Manifest.Validate]); such a plugin speaks as another. *)
Example colon_in_key :
  topic_of "billing" "shop:paid" = eventTopic "shop" "paid" /\
  topic_of "billing" "shop:eu:paid" = eventTopic "shop:eu" "paid" /\
  subscription_of "billing" "shop:eu:paid" = ("shop", "eu:paid").
Proof. done. Qed.

(** A plugin does not hear its own events if their name has a colon. *)
Example own_event_with_colon : topic_of "shop" "order:paid" <> eventTopic "shop" "order:paid".
Proof. discriminate. Qed.

(** The trace id of an event does not reach the subscriber. *)
Example trace_id_is_dropped :
  let b := (open_stream "shop" "paid" 1%nat (NewBusEvents (NewEventBus ∅))).2 in
  let b := be_Publish "shop" (HostServer.mkEvent "paid" "x" "shop" "trace-1") b in
  (next_event "shop" "paid" 1%nat b).1 = Some (HostServer.mkEvent "paid" "x" "shop" "").
Proof. vm_compute. reflexivity. Qed.

(** ** LogObservability *)

Definition levelRank (level : string) : Z :=
  if String.eqb level "info" then 1 else if String.eqb level "warn" then 2
  else if String.eqb level "error" then 3 else 0.

Definition NewLogObservability (minLevel : string) : string := if String.eqb minLevel "" then "info" else minLevel.

(** The line printed, if any; [order] is how the range visits the fields. *)
Definition log_line (order : gmap string string -> list (string * string)) (minLevel k : string)
    (rec : LogRecord) : option string :=
  if levelRank (lg_Level rec) <? levelRank minLevel then None
  else Some ("[plugin:" +:+ k +:+ "] " +:+ to_upper (lg_Level rec) +:+ " " +:+ lg_Message rec +:+
    (if String.eqb (lg_TraceID rec) "" then "" else " trace=" +:+ lg_TraceID rec) +:+
    foldr (fun kv s => " " +:+ kv.1 +:+ "=" +:+ kv.2 +:+ s) "" (order (lg_Fields rec))).

(** Metrics are logged at the level of debug. *)
Definition metric_logged (minLevel : string) : bool := negb (levelRank "debug" <? levelRank minLevel).
