(* ===== verification/HostConfig.v ===== *)
(** * core/hostsvc/config.go: settings in the database

    The table [plugin_config] by plugin key and setting, and DBConfig's two
    operations as the statements they send. *)

From S2P Require Import Prelude GoStrings Sql.

Open Scope Z_scope.

Notation config_table := (gmap (string * string) string).

Section config.
Context (varchar : Z -> string -> bool).

Definition rows_of (k : string) (d : config_table) : gmap string string :=
  list_to_map ((fun kv => (kv.1.2, kv.2)) <$> filter (fun kv => kv.1.1 = k) (map_to_list d)).

Definition cfg_select (k : string) (now : Z) (d : config_table) : result string (gmap string string * config_table) :=
  Ok (rows_of k d, d).

Definition cfg_delete (k : string) (now : Z) (d : config_table) : result string (() * config_table) :=
  Ok ((), filter (fun kv => kv.1.1 <> k) d).

Definition cfg_insert (k setting value : string) (now : Z) (d : config_table) : result string (() * config_table) :=
  reject? negb (varchar 100 k && varchar 200 setting) with "value too long" ;;
  reject? bool_decide (is_Some (d !! (k, setting))) with "duplicate key" ;;
  Ok ((), <[(k, setting) := value]> d).

Definition DBGet (k : string) : prog config_table (gmap string string) := exec "read config" (cfg_select k).

(** [order] is how the range visits the map. *)
Definition DBSet (order : gmap string string -> list (string * string)) (k : string)
    (values : gmap string string) : prog config_table () :=
  own_tx (
    do! _ := exec "clear config" (cfg_delete k) in
    each (fun kv => exec "write config" (cfg_insert k kv.1 kv.2)) (order values)).

(** ** Lemmas *)

Lemma rows_of_lookup k d s : rows_of k d !! s = d !! (k, s).
Proof.
  unfold rows_of. apply option_eq. intros v. rewrite <- elem_of_list_to_map.
  - rewrite list_elem_of_fmap. split.
    + intros ([[k' s'] v'] & E & [Hk H]%list_elem_of_filter). simpl in *. simplify_eq.
      by apply elem_of_map_to_list.
    + intros H. exists ((k, s), v). split; [done|]. apply list_elem_of_filter. split; [done|].
      by apply elem_of_map_to_list.
  - rewrite <- list_fmap_compose. apply NoDup_fmap_2_strong.
    + intros [[k1 s1] v1] [[k2 s2] v2] [H1 E1]%list_elem_of_filter [H2 E2]%list_elem_of_filter E.
      simpl in *. simplify_eq. apply elem_of_map_to_list in E1, E2. congruence.
    + apply list.NoDup_filter, NoDup_map_to_list.
Qed.

Lemma inserts_ok k l s s' :
  each (fun kv => exec "write config" (cfg_insert k kv.1 kv.2)) l s = (Ok (), s') ->
  NoDup l.*1 /\ (forall x, x ∈ l.*1 -> store s !! (k, x) = None) /\
  forall j x, store s' !! (j, x) =
    if decide (j = k) then match (list_to_map l : gmap string string) !! x with Some v => Some v | None => store s !! (j, x) end
    else store s !! (j, x).
Proof.
  revert s. induction l as [|[x v] l IH]; intros s; simpl.
  - intros [= <-]. split; [constructor|]. split; [by intros x ?%not_elem_of_nil|].
    intros j y. rewrite lookup_empty. by case_decide.
  - rewrite bind_ok. intros ([] & s1 & H1 & H2). apply exec_ok in H1 as (H1 & _). simpl in H1. unfold cfg_insert in H1. peel_all H1.
    apply Ok_inj, pair_eq in H1 as [_ H1]. apply IH in H2 as (Hnd & Hfree & Hrow). rewrite <- H1 in Hfree, Hrow.
    apply bool_decide_eq_false, eq_None_not_Some in Hg0.
    assert (x ∉ l.*1) as Hx.
    { intros Hx. apply Hfree in Hx. by rewrite lookup_insert_eq in Hx. }
    split_and!.
    + by constructor.
    + intros y [->|Hy]%elem_of_cons; [done|]. apply Hfree in Hy as Hn.
      destruct (decide (x = y)) as [->|Hne]; [done|]. rewrite lookup_insert_ne in Hn; [done|congruence].
    + intros j y. rewrite Hrow. case_decide as E; [subst j|].
      * destruct (decide (x = y)) as [->|Hne].
        -- rewrite lookup_insert_eq. rewrite (not_elem_of_list_to_map_1 _ _ Hx). by rewrite lookup_insert_eq.
        -- rewrite (lookup_insert_ne (list_to_map l)) by done. by rewrite lookup_insert_ne by congruence.
      * by rewrite lookup_insert_ne by congruence.
Qed.

(** Saving a plugin's settings replaces them as a whole or not at all: on
    success reading them back gives exactly the map that was saved and every
    other plugin's settings are what they were; on failure nothing changed. *)
Theorem config_roundtrip order k values s r s' :
  order values ≡ₚ map_to_list values ->
  DBSet order k values s = (r, s') ->
  match r with
  | Ok _ => rows_of k (store s') = values /\ (forall j, j <> k -> rows_of j (store s') = rows_of j (store s))
  | Err _ => store s' = store s
  end.
Proof.
  intros Ho H. apply own_tx_atomic in H. destruct r as [[]|e]; [|done].
  destruct H as (s1 & H & ->). rewrite bind_ok in H. destruct H as ([] & s2 & Hd & Hi).
  apply exec_ok in Hd as (Hd & _). unfold cfg_delete in Hd. simpl in Hd. apply Ok_inj, pair_eq in Hd as [_ Hd].
  apply inserts_ok in Hi as (Hnd & _ & Hrow).
  assert (forall j x, store s2 !! (j, x) = if decide (j = k) then None else store s !! (j, x)) as H2.
  { intros j x. rewrite <- Hd. case_decide as E; [subst j|].
    - apply map_lookup_filter_None. right. intros v _ Hne. by apply Hne.
    - destruct (store s !! (j, x)) as [v|] eqn:Ev.
      + by apply map_lookup_filter_Some.
      + apply map_lookup_filter_None. by left. }
  split.
  - apply map_eq. intros x. rewrite rows_of_lookup, Hrow, decide_True, H2, decide_True by done.
    assert ((list_to_map (order values) : gmap string string) = values) as ->.
    { rewrite (list_to_map_proper (order values) (map_to_list values)) by done. apply list_to_map_to_list. }
    by destruct (values !! x).
  - intros j Hj. apply map_eq. intros x. by rewrite !rows_of_lookup, Hrow, decide_False, H2, decide_False by done.
Qed.
End config.

Lemma config_roundtrip_witness :
  let values := {[ "limit" := "20"; "token" := "s3cret" ]} in
  let table := {[ ("shop", "limit") := "10"; ("mail", "from") := "a@b" ]} in
  exists s', DBSet (fun _ _ => true) map_to_list "shop" values (mkSession table Pool [] 0) = (Ok (), s') /\
    rows_of "shop" (store s') = values.
Proof.
  intros values table. destruct (DBSet (fun _ _ => true) map_to_list "shop" values (mkSession table Pool [] 0))
    as [r s'] eqn:E. exists s'.
  assert (r = Ok ()) as Hr.
  { assert ((DBSet (fun _ _ => true) map_to_list "shop" values (mkSession table Pool [] 0)).1 = Ok ()) as H
      by (vm_compute; reflexivity). by rewrite E in H. }
  rewrite Hr in E |- *. split; [reflexivity|].
  apply (config_roundtrip (fun _ _ => true) map_to_list "shop" values _ _ _ (Permutation_refl _) E).
Defined.
