(* ===== verification/HostWorld.v ===== *)
(** * The host behind the services: isolation between plugins

    The backends core/main.go gives every plugin's server, put together over
    one host state: cache, locks, queue, files, event streams, outbound HTTP
    and the log, with the document store as a parameter. Then the promise the
    host makes about a plugin, that whatever it calls what belongs to others
    stays as it is, and its proof for the server of HostServer.v. *)

From Stdlib Require Import Ascii.
From S2P Require Import Prelude GoStrings Sql Auth Wire Egress HostMemory EventBus Files Queue.
From S2P Require Import HostServer HostQueue HostEvents.

Open Scope Z_scope.

Section host.
Context {D O F : Type}.

Record host := mkHost {
  h_cache : MemoryCache; h_locks : MemoryLocks; h_hub : hub; h_files : Files.state (O := O);
  h_rates : Egress.counts; h_effects : list effect; h_events : BusEvents; h_log : list string; h_data : D
}.

Definition set_cache x w := mkHost x (h_locks w) (h_hub w) (h_files w) (h_rates w) (h_effects w) (h_events w) (h_log w) (h_data w).
Definition set_locks x w := mkHost (h_cache w) x (h_hub w) (h_files w) (h_rates w) (h_effects w) (h_events w) (h_log w) (h_data w).
Definition set_hub x w := mkHost (h_cache w) (h_locks w) x (h_files w) (h_rates w) (h_effects w) (h_events w) (h_log w) (h_data w).
Definition set_files x w := mkHost (h_cache w) (h_locks w) (h_hub w) x (h_rates w) (h_effects w) (h_events w) (h_log w) (h_data w).
Definition set_rates c l w := mkHost (h_cache w) (h_locks w) (h_hub w) (h_files w) c l (h_events w) (h_log w) (h_data w).
Definition set_events x w := mkHost (h_cache w) (h_locks w) (h_hub w) (h_files w) (h_rates w) (h_effects w) x (h_log w) (h_data w).
Definition set_log x w := mkHost (h_cache w) (h_locks w) (h_hub w) (h_files w) (h_rates w) (h_effects w) (h_events w) x (h_data w).
Definition set_data x w := mkHost (h_cache w) (h_locks w) (h_hub w) (h_files w) (h_rates w) (h_effects w) (h_events w) (h_log w) x.

(** ** What a call meets *)

(** Clock, statements that fail, random draws, the visiting order of maps, the
    rounds of a lock attempt (nobody else acts in them), the turns of a
    consumer, the channel a subscription makes and how much it hears. *)
Record moment := mkMoment {
  m_now : Z; m_faults : list bool; m_uuid : string; m_drawn : option (list Z);
  m_order : gmap string cacheEntry -> list string; m_fields : gmap string string -> list (string * string);
  m_rounds : list acquire_round; m_turns : list turn; m_chan : chan_id; m_heard : nat
}.

(** Everything outside the program: the object store, the server's column
    checks, and what Fetch needs. *)
Context (PutObject : string -> string -> string -> O -> result string O).
Context (varchar : Z -> string -> bool).
Context (url_Parse : string -> option URL) (valid_request : string -> string -> bool)
  (client_Do : OutRequest -> result string ClientResponse) (is_deadline : string -> bool).
(** Configuration of the host. *)
Context (fs : Files) (pq : PGQueue) (egress : HTTPEgress) (minLevel : string)
  (config_of : string -> gmap string string).
Context (data : option (DataBackend (W := D) (F := F))).
Context (t : moment).

(** ** The backends on the host *)

Definition lifted {A} (m : D -> A * D) : host -> A * host := fun w =>
  let '(a, d) := m (h_data w) in (a, set_data d w).

Definition data_on_host (b : DataBackend (W := D) (F := F)) : DataBackend (W := host) (F := F) :=
  mkDataBackend
    (fun k a b1 c e f => lifted (data_Put b k a b1 c e f)) (fun k a b1 c => lifted (data_Get b k a b1 c))
    (fun k a b1 c => lifted (data_Delete b k a b1 c)) (fun k a b1 c e f => lifted (data_Find b k a b1 c e f))
    (fun k a b1 c => lifted (data_Query b k a b1 c)) (fun k a b1 c => lifted (data_Aggregate b k a b1 c))
    (fun k a b1 => lifted (data_BatchWrite b k a b1)) (fun k a => lifted (data_BeginTx b k a))
    (fun k a => lifted (data_CommitTx b k a)) (fun k a => lifted (data_RollbackTx b k a)).

Definition session_now {T} (s : session T) : session T := mkSession (store s) Pool (m_faults t) (m_now t).

Definition queue_why (e : queue_error) : string :=
  match e with BacklogFull _ _ => "backlog full" | QueueDb e => db_why e end.

Definition queue_op {A} (m : prog queue (result queue_error A)) : host -> result string A * host := fun w =>
  let '(r, s) := m (session_now (hb_queue (h_hub w))) in
  (match r with Ok (Ok a) => Ok a | Ok (Err e) => Err (queue_why e) | Err e => Err (db_why e) end,
   set_hub (mkHub s (hb_sent (h_hub w))) w).

Definition consume_on_host (k topic : string) (prefetch visibility : Z) (c : conn (W := host))
    : result string () * conn (W := host) :=
  let '(r, c1) := PGConsume k topic prefetch visibility (m_turns t) (mkConn (inflight c) (h_hub (world c))) in
  (default (Ok ()) r, mkConn (inflight c1) (set_hub (world c1) (world c))).

Definition queue_on_host : QueueBackend (W := host) :=
  mkQueueBackend
    (fun k topic payload opts => queue_op (PGEnqueue varchar pq (m_now t) k topic payload opts))
    consume_on_host
    (fun k id => queue_op (wrapped QueueDb (Queue.Ack k id)))
    (fun k id err retry => queue_op (do? _ := wrapped QueueDb (Queue.Nack (m_now t) k id err retry) in ret (Ok ()))).

Definition cache_on_host : CacheBackend (W := host) :=
  mkCacheBackend
    (fun k key w => let '(v, c) := HostMemory.Get (m_now t) k key (h_cache w) in (v, set_cache c w))
    (fun k key v ttl w => set_cache (HostMemory.Set_ (m_now t) (m_order t) k key v ttl (h_cache w)) w)
    (fun k key w => set_cache (HostMemory.Delete k key (h_cache w)) w).

Definition as_lease (l : HostMemory.Lease) : HostServer.Lease :=
  HostServer.mkLease (HostMemory.le_ID l) (HostMemory.le_ExpiresAt l).

(** A wait longer than the rounds given ends as a cancelled one does. *)
Definition acquired (r : acquire_result) : result string (option HostServer.Lease) :=
  match r with
  | Acquired l => Ok (Some (as_lease l))
  | NotAcquired => Ok None
  | AcquireCancelled | AcquireWaiting => Err "context canceled"
  end.

Definition locks_on_host : LockBackend (W := host) :=
  mkLockBackend
    (fun k n ttl wait w =>
       let '(r, l) := Acquire (m_now t) k n ttl wait (m_rounds t) (h_locks w) in (acquired r, set_locks l w))
    (fun k n lease ttl w =>
       let '(r, l) := Renew (m_now t) k n lease ttl (h_locks w) in (as_lease <$> r, set_locks l w))
    (fun k n lease w => set_locks (Release k n lease (h_locks w)) w).

Definition files_now (w : host) : Files.state := mkState (objects (h_files w)) (session_now (fdb (h_files w))).

Definition files_op {A} (m : prog tables (result file_error A)) : host -> result file_error A * host := fun w =>
  let '(r, s) := on_tables m (files_now w) in (r, set_files s w).

Definition files_on_host : FileBackend (W := host) :=
  mkFileBackend
    (fun k name mime bytes w =>
       let '(r, s) := Files.Put PutObject varchar fs (m_uuid t) k name mime (mkReader bytes None) (files_now w) in
       (r, set_files s w))
    (fun k id => files_op (Files.Delete fs k id))
    (fun k id user expiry => files_op (Files.GenerateDownloadToken varchar fs (m_now t) (m_drawn t) k id user expiry))
    (fun k id => files_op (Files.Metadata fs k id)).

(** The stream until it breaks or is closed. *)
Definition subscribe_on_host (k name : string) (w : host) : result string () * host :=
  let '(r, b) := open_stream k name (m_chan t) (h_events w) in
  match r with
  | Err e => (Err e, set_events b w)
  | Ok _ =>
      let b := Nat.iter (m_heard t) (fun b => (next_event k name (m_chan t) b).2) b in
      (Ok (), set_events (close_stream k name (m_chan t) b) w)
  end.

Definition events_on_host : EventBackend (W := host) :=
  mkEventBackend (fun k ev w => (Ok (), set_events (be_Publish k ev (h_events w)) w)) subscribe_on_host.

Definition fetch_on_host (k : string) (req : EgressRequest) (w : host) : result egress_failure EgressResponse * host :=
  let '(r, es, c) := Egress.Fetch url_Parse valid_request client_Do egress (m_now t) k req (h_rates w) in
  (match r with
   | Ok a => Ok a
   | Err (TransportError s) => Err (if is_deadline s then EgressDeadline else EgressFailure (TransportError s))
   | Err e => Err (EgressFailure e)
   end, set_rates c (h_effects w ++ es) w).

Definition obs_on_host : ObsBackend (W := host) (F := F) :=
  mkObsBackend
    (fun k rec w => match log_line (m_fields t) minLevel k rec with
                    | Some line => set_log (h_log w ++ [line]) w
                    | None => w
                    end)
    (fun k name kind value labels w =>
       if metric_logged minLevel then set_log (h_log w ++ ["[plugin:" +:+ k +:+ "] metric " +:+ name]) w else w).

Definition host_deps : Deps (W := host) (F := F) :=
  mkDeps (data_on_host <$> data) (Some queue_on_host) (Some cache_on_host) (Some locks_on_host)
    (Some (fun k w => (Ok (config_of k), w))) (Some files_on_host) (Some events_on_host) (Some fetch_on_host)
    (Some obs_on_host).

(** ** What is left of a plugin's *)

(** Of a plugin's entries a full cache may lose some. *)
Definition cache_apart (j : string) (c c' : MemoryCache) : Prop :=
  forall x, entries c' !! cacheKey j x = entries c !! cacheKey j x \/ entries c' !! cacheKey j x = None.

(** Its leases go only after they lapsed, by a sweep of the table. *)
Definition locks_apart (j : string) (now : Z) (l l' : MemoryLocks) : Prop :=
  forall n, held l' !! lockKey j n = held l !! lockKey j n \/
    (held l' !! lockKey j n = None /\
     exists st, held l !! lockKey j n = Some st /\ ls_expiresAt st <= now).

Definition rows_apart (j : string) (q q' : queue) : Prop :=
  queue_ok q -> queue_ok q' /\
  forall i m, owner_key m = j -> msgs q !! i = Some m <-> msgs q' !! i = Some m.

Definition files_apart (j : string) (d d' : tables) : Prop :=
  forall i f, f_OwnerPluginKey f = j -> files d !! i = Some f <-> files d' !! i = Some f.

Definition rates_apart (j : string) (c c' : Egress.counts) : Prop := c' !! j = c !! j.

Definition subs_apart (j : string) (b b' : BusEvents) : Prop := Subscriptions b' j = Subscriptions b j.

#[export] Instance cache_apart_preorder j : PreOrder (cache_apart j).
Proof.
  split; [intros c x; by left|]. intros a b c Hab Hbc x.
  destruct (Hab x) as [E|E], (Hbc x) as [E'|E']; rewrite E'; auto.
Qed.

#[export] Instance locks_apart_preorder j now : PreOrder (locks_apart j now).
Proof.
  split; [intros c n; by left|]. intros a b c Hab Hbc n.
  destruct (Hab n) as [E|(E & st & Hst)], (Hbc n) as [E'|(E' & st' & Hst')]; rewrite E'; auto;
    rewrite ?E in Hst'; right; eauto.
Qed.

#[export] Instance rows_apart_preorder j : PreOrder (rows_apart j).
Proof.
  split; [by intros q Hq|]. intros a b c Hab Hbc Ha. destruct (Hab Ha) as [Hb Hab'].
  destruct (Hbc Hb) as [Hc Hbc']. split; [done|]. intros i m Hm. rewrite (Hab' i m Hm). by apply Hbc'.
Qed.

#[export] Instance files_apart_preorder j : PreOrder (files_apart j).
Proof. split; [by intros d i f|]. intros a b c Hab Hbc i f Hf. rewrite (Hab i f Hf). by apply Hbc. Qed.

#[export] Instance rates_apart_preorder j : PreOrder (rates_apart j).
Proof. split; [by intros c|]. intros a b c Hab Hbc. unfold rates_apart in *. by rewrite Hbc. Qed.

#[export] Instance subs_apart_preorder j : PreOrder (subs_apart j).
Proof. split; [by intros c|]. intros a b c Hab Hbc. unfold subs_apart in *. by rewrite Hbc. Qed.

Definition hub_apart (j : string) (h h' : hub) : Prop := rows_apart j (store (hb_queue h)) (store (hb_queue h')).

#[export] Instance hub_apart_preorder j : PreOrder (hub_apart j).
Proof.
  split; [by intros h|]. intros a b c Hab Hbc. unfold hub_apart in *. by etransitivity.
Qed.

(** Two different plugins; keys of plugins are not empty and, as file names
    are, free of NUL bytes. *)
Class Apart (j k : string) : Prop := {
  apart_ne : j <> k; apart_some : j <> "";
  apart_j : has_byte Ascii.zero j = false; apart_k : has_byte Ascii.zero k = false
}.

Section apart.
Context (j k : string) `{!Apart j k}.

(** *** Cache, locks *)

Lemma foreign_cacheKey x y : cacheKey k x <> cacheKey j y.
Proof using Apart0. destruct Apart0 as [Hj _ H1 H2]. intros E. by destruct (cacheKey_inj _ _ _ _ H2 H1 E) as [-> _]. Qed.

Lemma foreign_lockKey x y : lockKey k x <> lockKey j y.
Proof using Apart0. destruct Apart0 as [Hj _ H1 H2]. intros E. apply (sep_inj Ascii.zero) in E as [-> _]; done. Qed.

Lemma sub_apart c c' : entries c' ⊆ entries c -> cache_apart j c c'.
Proof using Apart0.
  intros H x. destruct (entries c' !! cacheKey j x) as [e|] eqn:E; [|by right].
  left. symmetry. by eapply lookup_weaken.
Qed.

Lemma Get_apart now x c : cache_apart j c (HostMemory.Get now k x c).2.
Proof using Apart0.
  unfold HostMemory.Get. destruct (entries c !! _); [|done]. case_match; [|done].
  apply sub_apart. simpl. apply delete_subseteq.
Qed.

Lemma Set_apart now order x v ttl c : cache_apart j c (Set_ now order k x v ttl c).
Proof using Apart0.
  unfold Set_. match goal with |- context [<[_ := _]> ?m] => set (es := m) end.
  transitivity (mkMemoryCache es (maxEntries c)).
  - apply sub_apart. simpl. unfold es. case_match; [apply evict_sub|done].
  - intros y. left. simpl. by rewrite lookup_insert_ne by (by apply foreign_cacheKey).
Qed.

Lemma Delete_apart x c : cache_apart j c (HostMemory.Delete k x c).
Proof using Apart0. apply sub_apart. simpl. apply delete_subseteq. Qed.

Lemma sweep_apart now T l : now <= T -> locks_apart j T l (sweepExpiredLocked now l).
Proof using Apart0.
  intros Hle n. unfold sweepExpiredLocked. case_match; [by left|]. simpl.
  destruct (held l !! lockKey j n) as [st|] eqn:E.
  - destruct (Z.ltb_spec now (ls_expiresAt st)) as [Hlt|Hge].
    + left. apply map_lookup_filter_Some. split; [done|]. simpl. by rewrite (proj2 (Z.ltb_lt _ _) Hlt).
    + right. split; [|exists st; split; [done|lia]]. apply map_lookup_filter_None. right. intros st' E'.
      rewrite E in E'. injection E' as <-. simpl. destruct (Z.ltb_spec now (ls_expiresAt st)); [lia|done].
  - left. apply map_lookup_filter_None. by left.
Qed.

Lemma own_lock_apart T n l (m : option lockState) :
  locks_apart j T l (mkMemoryLocks (partial_alter (fun _ : option lockState => m) (lockKey k n) (held l)) (MaxHeld l) (lastSweep l)).
Proof using Apart0.
  intros y. left. simpl. by rewrite lookup_partial_alter_ne by (by apply foreign_lockKey).
Qed.

Lemma tryAcquire_apart T id now n ttl l : now <= T -> locks_apart j T l (tryAcquire id now k n ttl l).2.
Proof using Apart0.
  intros Hle. transitivity (sweepExpiredLocked now l); [by apply sweep_apart|].
  destruct (tryAcquire_spec id now k n ttl l) as [[-> _]|[-> _]]; [done|]. apply own_lock_apart.
Qed.

Lemma acquire_loop_apart T n ttl wait deadline rounds l :
  Forall (fun r => ar_others r = (fun l => l) /\ ar_now r <= T) rounds ->
  locks_apart j T l (acquire_loop k n ttl wait deadline rounds l).2.
Proof using Apart0.
  intros H. revert l. induction H as [|r rounds [Ho Hn] _ IH]; intros l; simpl; [done|]. rewrite Ho.
  pose proof (tryAcquire_apart T (ar_id r) (ar_now r) n ttl l Hn) as Ht.
  destruct (tryAcquire _ _ _ _ _ _) as [[lease|] l1]; [done|]. repeat case_match; try done. by transitivity l1.
Qed.

Lemma Renew_apart T n id ttl now l : locks_apart j T l (Renew now k n id ttl l).2.
Proof using Apart0.
  destruct (Renew_spec now k n id ttl l) as [->|(st & _ & _ & _ & ->)]; [done|]. apply own_lock_apart.
Qed.

Lemma Release_apart T n id l : locks_apart j T l (Release k n id l).
Proof using Apart0. unfold Release. destruct (held l !! _); [|done]. case_match; [|done]. apply own_lock_apart. Qed.

(** *** Queue *)

(** The operations are one statement each. *)
Lemma statement_apart {A B} doing (stmt : Z -> queue -> result string (A * queue)) (f : A -> B) :
  (forall now q a q', stmt now q = Ok (a, q') -> queue_ok q ->
     forall i m, owner_key m = j -> msgs q !! i = Some m <-> msgs q' !! i = Some m) ->
  within keeps_ok (do! a := exec doing stmt in ret (f a)) ->
  within (rows_apart j) (do! a := exec doing stmt in ret (f a)).
Proof using Apart0.
  intros Hs Hok s r s' E Hq. split; [by eapply Hok|]. intros i m Hm.
  apply bind_inv in E as [(a & s1 & E & E')|(e & E & _)].
  - injection E' as <- <-. apply exec_ok in E as (E & _). by eapply Hs.
  - apply exec_err in E as (-> & _). done.
Qed.

Lemma held_apart {B} id doing f (g : list msg -> B) :
  (forall now m, owner_key (f now m) = owner_key m) ->
  within keeps_ok (do! rows := exec doing (stmt_update (held_by k id) f) in ret (g rows)) ->
  within (rows_apart j) (do! rows := exec doing (stmt_update (held_by k id) f) in ret (g rows)).
Proof using Apart0.
  intros Hf. apply statement_apart. intros now q a q' [= <- <-] _ i m Hm. rewrite lookup_update.
  destruct (msgs q !! i) as [m0|]; simpl; [|done]. destruct (held_by k id m0) eqn:E; [|done].
  apply (held_by_spec any_text) in E as (_ & Ho & _). pose proof apart_ne.
  split; [intros [= <-]; congruence|]. intros [= <-]. rewrite Hf in Hm. congruence.
Qed.

Lemma Ack_apart id : within (rows_apart j) (Queue.Ack k id).
Proof using Apart0. apply held_apart; [done|apply (Ack_keeps_ok any_text)]. Qed.

Lemma Nack_apart now id reason retry : within (rows_apart j) (Queue.Nack now k id reason retry).
Proof using Apart0. apply held_apart; [done|apply (Nack_keeps_ok any_text)]. Qed.

Lemma Claim_apart now skip topic limit vis : within (rows_apart j) (Claim now skip k topic limit vis).
Proof using Apart0.
  intros s r s' E Hq. split; [by eapply (Claim_keeps_ok any_text)|]. intros i m Hm. unfold Claim in E. destruct r as [a|e].
  - apply exec_ok in E as (E & _). injection E as _ <-. rewrite lookup_update.
    destruct (msgs (store s) !! i) as [m0|] eqn:E0; simpl; [|done].
    case_match eqn:Ec; [|done]. apply bool_decide_eq_true, claim_set_id in Ec; [|done|by exists i].
    apply claim_set_elem in Ec as [Hc _]. apply (claimable_spec any_text) in Hc as (Ho & _).
    pose proof apart_ne. split; intros [= <-]; simpl in Hm; congruence.
  - apply exec_err in E as (-> & _). done.
Qed.

Lemma Enqueue_apart now topic payload opts : within (rows_apart j) (Queue.Enqueue varchar now k topic payload opts).
Proof using Apart0.
  pose proof (Enqueue_keeps_ok varchar now k topic payload opts) as Hok. revert Hok. unfold Queue.Enqueue.
  destruct (String.eqb topic ""); [intros _; apply (within_fail _)|]. apply statement_apart.
  intros snow q a q' E [Hr _] i m Hm. unfold stmt_insert in E. peel E. peel E.
  destruct (existsb _ _); injection E as <- <-; simpl; [done|].
  destruct (decide (i = id_seq q + 1)) as [->|Hne]; [|by rewrite lookup_insert_ne].
  rewrite lookup_insert_eq. pose proof apart_ne. split; [|intros [= <-]; simpl in Hm; congruence].
  intros Hi. apply Hr in Hi as (_ & ? & _). lia.
Qed.

Lemma PGEnqueue_apart now topic payload opts : within (rows_apart j) (PGEnqueue varchar pq now k topic payload opts).
Proof using Apart0.
  unfold PGEnqueue. case_match; [|apply (within_ret _)]. apply (within_wrapped _), Enqueue_apart.
Qed.

Lemma on_queue_apart {A} (m : prog queue A) c :
  within (rows_apart j) m -> hub_apart j (world c) (world (on_queue m c).2).
Proof using Apart0. intros Hm. unfold on_queue, hub_apart. destruct (m _) as [r s] eqn:E. by apply Hm in E. Qed.

Lemma deliver_all_queue ms sends c : hb_queue (world (deliver_all ms sends c).2) = hb_queue (world c).
Proof using Apart0.
  revert sends c. induction ms as [|m ms IH]; intros sends c; simpl; [done|].
  unfold deliver. destruct (match sends with [] => true | ok :: _ => ok end); [|done]. by rewrite IH.
Qed.

Lemma release_all_apart now ms c : hub_apart j (world c) (world (release_all now k ms c)).
Proof using Apart0.
  unfold release_all. revert c. induction ms as [|m ms IH]; intros c; simpl; [done|].
  etransitivity; [|apply IH].
  apply (on_queue_apart), Nack_apart.
Qed.

Lemma consume_turn_apart topic p v tn c : hub_apart j (world c) (world (consume_turn k topic p v tn c).2).
Proof using Apart0.
  unfold consume_turn. destruct (tn_done tn); [done|].
  destruct (awaitRoom _ _ _ _ _) as [room n]. set (c1 := mkConn _ _).
  assert (hub_apart j (world c) (world c1)) as H1 by done.
  assert (forall m : prog queue (list Message), within (rows_apart j) m ->
    hub_apart j (world c) (world (on_queue m c1).2)) as Hq.
  { intros m Hm. unfold hub_apart in *. etransitivity; [exact H1|]. by apply on_queue_apart. }
  destruct room; try done;
    specialize (Hq _ (Claim_apart (tn_now tn) (tn_skip tn) topic (default_prefetch p) (default_visibility v)));
    destruct (on_queue _ c1) as [[[|m ms]|e] c2]; cbn -[deliver_all release_all] in Hq |- *;
    try (by case_match); try done;
    pose proof (deliver_all_queue (m :: ms) (tn_sends tn) c2) as Hd;
    destruct (deliver_all (m :: ms) (tn_sends tn) c2) as [[] c3]; cbn -[release_all] in Hd |- *;
    unfold hub_apart in *; rewrite <- Hd in Hq; try exact Hq;
    etransitivity; try exact Hq; apply (release_all_apart).
Qed.

Lemma PGConsume_apart topic p v turns c : hub_apart j (world c) (world (PGConsume k topic p v turns c).2).
Proof using Apart0.
  revert c. induction turns as [|tn turns IH]; intros c; simpl; [unfold hub_apart; done|].
  pose proof (consume_turn_apart topic p v tn c) as H1.
  destruct (consume_turn k topic p v tn c) as [[|r|] c1]; try done.
  unfold hub_apart in *. etransitivity; [exact H1|apply IH].
Qed.

(** *** Files *)

Definition only_gone (id : string) (d d' : tables) : Prop :=
  forall i, files d' !! i = files d !! i \/ (i = id /\ files d' !! i = None).

#[export] Instance only_gone_preorder id : PreOrder (only_gone id).
Proof.
  split; [intros d i; by left|]. intros a b c Hab Hbc i.
  destruct (Hbc i) as [->|?]; [apply Hab|by right].
Qed.

Lemma InsertFile_apart id f : f_OwnerPluginKey f = k -> within (files_apart j) (q_InsertFile varchar id f).
Proof using Apart0.
  intros Hf. apply within_exec; [apply _|]. intros now d a d' E. peel E. peel E.
  apply Ok_inj, pair_eq in E as [_ <-]. apply bool_decide_eq_false, eq_None_not_Some in Hg0. intros i g Hforeign.
  simpl. destruct (decide (i = id)) as [->|Hne]; [|by rewrite lookup_insert_ne].
  rewrite lookup_insert_eq, Hg0. pose proof apart_ne. split; [done|]. intros [= <-]. congruence.
Qed.

Lemma Put_apart uuid name mime r s :
  files_apart j (store (fdb s)) (store (fdb (Files.Put PutObject varchar fs uuid k name mime r s).2)).
Proof using Apart0.
  unfold Files.Put. case_match; [done|]. destruct (read_limited _ _) as [buf|e]; [|done]. case_match; [done|].
  destruct (PutObject _ _ _ _) as [o|e]; [|done].
  match goal with |- context [on_tables ?m ?s1] =>
    assert (files_apart j (store (fdb s1)) (store (fdb (on_tables m s1).2))) as H1
      by (apply on_tables_within, (within_wrapped _), InsertFile_apart; reflexivity);
    by destruct (on_tables m s1)
  end.
Qed.

Lemma Delete_file_apart id : within (files_apart j) (Files.Delete fs k id).
Proof using Apart0.
  unfold Files.Delete. case_match; [apply (within_ret _)|]. intros s r s' E.
  apply ok_or_inv in E as [([] & s1 & Ho & E)|(r0 & E)].
  - pose proof (checkOwnership_reads _ _ _ _ _ Ho) as Hs. apply checkOwnership_ok in Ho as (f & Hf & Huse).
    assert (only_gone id (store s1) (store s')) as Hgone.
    { eapply (within_bind (only_gone id)); [| |exact E].
      - apply (within_try _), (reads_refl _), q_GetFile_reads.
      - intros [[row|]|e]; try apply (within_ret _). apply (within_wrapped _), within_exec; [apply _|].
        intros now d a d' E'. apply Ok_inj, pair_eq in E' as [_ <-]. intros i. simpl.
        destruct (decide (i = id)) as [->|]; [|by rewrite lookup_delete_ne; [left|]].
        right. by rewrite lookup_delete_eq. }
    rewrite Hs. rewrite Hs in Hf. intros i g Hg. destruct (Hgone i) as [->|[-> ->]]; [done|].
    rewrite Hf. split; [|done]. intros [= <-]. pose proof apart_ne. pose proof apart_some.
    destruct Huse; congruence.
  - apply checkOwnership_reads in E as ->. done.
Qed.

Lemma Token_apart now drawn id user expiry :
  within (files_apart j) (Files.GenerateDownloadToken varchar fs now drawn k id user expiry).
Proof using Apart0.
  unfold Files.GenerateDownloadToken. case_match; [apply (within_ret _)|].
  apply (within_ok_or _); [apply (reads_refl _), checkOwnership_reads|]. intros _.
  case_match; [|apply (within_ret _)]. apply (within_ok_or _); [|intros _; apply (within_ret _)].
  apply (within_wrapped _), within_exec; [apply _|]. intros sn d a d' E. peel E. peel E.
  by apply Ok_inj, pair_eq in E as [_ <-].
Qed.

(** *** Outbound HTTP and streams *)

Lemma Fetch_apart now req c : rates_apart j c (Egress.Fetch url_Parse valid_request client_Do egress now k req c).2.
Proof using Apart0.
  assert (rates_apart j c (allowRate egress now k c).2) as Ha.
  { pose proof apart_ne. unfold rates_apart, allowRate.
    repeat case_match; simpl; try done; by apply lookup_insert_ne. }
  unfold Egress.Fetch. destruct (parseTarget _ _) as [target|e]; [|done]. case_match; [done|].
  destruct (allowRate _ _ _ _) as [ok c1]. by repeat case_match.
Qed.

Lemma add_sub_apart b : subs_apart j b (addSubscription k b).2.
Proof using Apart0. pose proof apart_ne. unfold subs_apart, addSubscription. cbn [snd]. by rewrite Subscriptions_insert, decide_False. Qed.

Lemma remove_sub_apart b : subs_apart j b (removeSubscription k b).
Proof using Apart0.
  pose proof apart_ne. unfold subs_apart, removeSubscription, Subscriptions, with_subs. simpl. case_match.
  - by rewrite lookup_delete_ne.
  - by rewrite lookup_insert_ne.
Qed.

Lemma bus_apart f b b' : subs_apart j b b' -> subs_apart j b (with_bus f b').
Proof using Apart0. done. Qed.

Lemma open_stream_apart name ch b : subs_apart j b (open_stream k name ch b).2.
Proof using Apart0.
  unfold open_stream. pose proof (add_sub_apart b) as Ha. destruct (addSubscription k b) as [n b1].
  case_match; simpl; [|by apply bus_apart]. etransitivity; [exact Ha|apply remove_sub_apart].
Qed.

Lemma heard_apart name ch n b : subs_apart j b (Nat.iter n (fun b => (next_event k name ch b).2) b).
Proof using Apart0.
  induction n as [|n IH]; simpl; [done|]. etransitivity; [exact IH|]. unfold next_event.
  destruct (subscription_of k name). by repeat case_match.
Qed.

Lemma subscribe_apart name w : subs_apart j (h_events w) (h_events (subscribe_on_host k name w).2).
Proof using Apart0.
  unfold subscribe_on_host. pose proof (open_stream_apart name (m_chan t) (h_events w)) as Ho.
  destruct (open_stream _ _ _ _) as [[u|e] b]; simpl; [|done]. etransitivity; [exact Ho|].
  etransitivity; [apply (heard_apart name (m_chan t) (m_heard t))|]. unfold close_stream.
  etransitivity; [|apply remove_sub_apart]. by apply bus_apart.
Qed.

End apart.

(** ** The promise, and that it is kept *)

(** [T] bounds the clock readings, [RD] is what the document store promises. *)
Definition leaves_alone (RD : D -> D -> Prop) (j : string) (T : Z) (w w' : host) : Prop :=
  cache_apart j (h_cache w) (h_cache w') /\ locks_apart j T (h_locks w) (h_locks w') /\
  hub_apart j (h_hub w) (h_hub w') /\
  files_apart j (store (fdb (h_files w))) (store (fdb (h_files w'))) /\
  rates_apart j (h_rates w) (h_rates w') /\ subs_apart j (h_events w) (h_events w') /\
  RD (h_data w) (h_data w').

#[export] Instance leaves_alone_preorder RD j T : PreOrder RD -> PreOrder (leaves_alone RD j T).
Proof.
  intros HRD. split.
  - intros w. split_and!; reflexivity.
  - intros a b c (H1 & H2 & H3 & H4 & H5 & H6 & H7) (G1 & G2 & G3 & G4 & G5 & G6 & G7).
    split_and!; (etransitivity; [eassumption|done]).
Qed.

Definition only_data : Deps (W := D) (F := F) := mkDeps data None None None None None None None None.

Definition alone (T : Z) : Prop := Forall (fun r => ar_others r = (fun l => l) /\ ar_now r <= T) (m_rounds t).

Section kept.
Context (j k : string) `{!Apart j k} (T : Z) (RD : D -> D -> Prop) `{!PreOrder RD} `{!Confines k only_data RD}.
Context (Halone : alone T).

Notation R := (leaves_alone RD j T).

(** One component moves, the others stay. *)
Ltac component := split_and!; simpl; try reflexivity.

Lemma lifted_moves {A} (m : D -> A * D) : along RD m -> along R (lifted m).
Proof using PreOrder0.
  intros Hm w. specialize (Hm (h_data w)). unfold lifted. destruct (m (h_data w)) as [a d]. by component.
Qed.

Lemma queue_op_moves {A} (m : prog queue (result queue_error A)) : within (rows_apart j) m -> along R (queue_op m).
Proof using PreOrder0.
  intros Hm w. unfold queue_op. destruct (m _) as [r s] eqn:E. apply Hm in E. by component.
Qed.

Lemma files_op_moves {A} (m : prog tables (result file_error A)) : within (files_apart j) m -> along R (files_op m).
Proof using PreOrder0.
  intros Hm w. unfold files_op.
  pose proof (on_tables_within (files_apart j) m (files_now w) Hm) as H.
  destruct (on_tables m (files_now w)) as [r s]. component. exact H.
Qed.

#[export] Instance host_confines : Confines k host_deps R.
Proof using All.
  split; simpl.
  - intros d Hd. destruct data as [b|] eqn:Eb; [|done]. simpl in Hd. injection Hd as <-.
    assert (d_Data only_data = Some b) as Hb by (simpl; exact Eb).
    destruct (conf_data k only_data b Hb) as (H1 & H2 & H3 & H4 & H5 & H6 & H7 & H8 & H9 & H10).
    split_and!; simpl; intros; by apply lifted_moves.
  - intros q [= <-]. simpl. split_and!.
    + intros. apply queue_op_moves, (PGEnqueue_apart j k).
    + intros topic p v cn. unfold consume_on_host.
      pose proof (PGConsume_apart j k topic p v (m_turns t) (mkConn (inflight cn) (h_hub (world cn)))) as H.
      destruct (PGConsume _ _ _ _ _ _) as [r c1]. by component.
    + intros. apply queue_op_moves, (within_wrapped _), (Ack_apart j k).
    + intros. apply queue_op_moves, (within_ok_or _); [|intros; apply (within_ret _)].
      apply (within_wrapped _), (Nack_apart j k).
  - intros c [= <-]. simpl. split_and!.
    + intros x w. pose proof (Get_apart j k (m_now t) x (h_cache w)) as H.
      destruct (HostMemory.Get _ _ _ _). by component.
    + intros x v ttl w. component. apply (Set_apart j k).
    + intros x w. component. apply (Delete_apart j k).
  - intros l [= <-]. simpl. split_and!.
    + intros n ttl wait w.
      pose proof (acquire_loop_apart j k T n (lease_ttl ttl) wait (m_now t + wait) (m_rounds t) (h_locks w) Halone) as H.
      unfold Acquire. destruct (acquire_loop _ _ _ _ _ _ _). by component.
    + intros n lease ttl w. pose proof (Renew_apart j k T n lease ttl (m_now t) (h_locks w)) as H.
      destruct (Renew _ _ _ _ _ _). by component.
    + intros n lease w. component. apply (Release_apart j k).
  - intros g [= <-] w. simpl. reflexivity.
  - intros f [= <-]. simpl. split_and!.
    + intros name mime bytes w. pose proof (Put_apart j k (m_uuid t) name mime (mkReader bytes None) (files_now w)) as H.
      destruct (Files.Put _ _ _ _ _ _ _ _ _). component. exact H.
    + intros. apply files_op_moves, (Delete_file_apart j k).
    + intros. apply files_op_moves, (Token_apart j k).
    + intros. apply files_op_moves, (reads_refl _), Metadata_reads.
  - intros e [= <-]. simpl. split.
    + intros ev Hev w. by component.
    + intros n w. pose proof (subscribe_apart j k n w) as H. unfold subscribe_on_host in *.
      destruct (open_stream _ _ _ _) as [[u|e] b]; by component.
  - intros f [= <-] r w. unfold fetch_on_host. pose proof (Fetch_apart j k (m_now t) r (h_rates w)) as H.
    destruct (Egress.Fetch _ _ _ _ _ _ _ _) as [[x es] c]. by component.
  - intros o [= <-]. simpl. split.
    + intros r w. case_match; [by component|reflexivity].
    + intros a b c d w. case_match; [by component|reflexivity].
Qed.
End kept.
End host.

(** ** Any calls of any other plugins *)

Section history.
Context {D O F : Type}.
Context (PutObject : string -> string -> string -> O -> result string O).
Context (varchar : Z -> string -> bool).
Context (url_Parse : string -> option URL) (valid_request : string -> string -> bool)
  (client_Do : OutRequest -> result string ClientResponse) (is_deadline : string -> bool).
Context (fs : Files) (pq : PGQueue) (egress : HTTPEgress) (minLevel : string)
  (config_of : string -> gmap string string).
Context (data : option (DataBackend (W := D) (F := F))).

(** A call: the plugin, what it was granted, the count its server keeps, the
    trace metadata, what the call meets and what it asks for. *)
Record visit := mkVisit {
  v_key : string; v_perms : list string; v_inflight : Z; v_md : list string; v_moment : moment;
  v_call : rpc_call (F := F)
}.

Definition deps_at (t : moment) : Deps (W := host (D := D) (O := O)) (F := F) :=
  host_deps PutObject varchar url_Parse valid_request client_Do is_deadline fs pq egress minLevel config_of data t.

Definition visited (w : host) (v : visit) : host :=
  world (HostServer.serve (v_key v) (newPermSet (v_perms v)) (deps_at (v_moment v)) (v_md v) (m_now (v_moment v))
           (v_call v) (mkConn (v_inflight v) w)).2.

Context (j : string) (T : Z) (RD : D -> D -> Prop) `{!PreOrder RD}.

(** A call of another plugin, in which nobody else acts and which the document
    store keeps apart from [j]. *)
Definition foreign_visit (v : visit) : Prop :=
  Apart j (v_key v) /\ alone (v_moment v) T /\ Confines (v_key v) (only_data data) RD.

(** C11. Plugins are isolated from each other. Whatever calls other plugins
    make, in any number and order, with any permissions, answers and failures:
    the messages and files of plugin [j] are exactly what they were, and so
    are its rate window and its count of open streams; its cache entries keep
    their values unless they were evicted, its locks stay held unless they had
    lapsed, and its documents keep what the document store promises. *)
Theorem plugin_isolated vs w :
  Forall foreign_visit vs -> queue_ok (store (hb_queue (h_hub w))) ->
  let w' := foldl visited w vs in
  (forall x, entries (h_cache w') !! cacheKey j x = entries (h_cache w) !! cacheKey j x \/
             entries (h_cache w') !! cacheKey j x = None) /\
  (forall n, held (h_locks w') !! lockKey j n = held (h_locks w) !! lockKey j n \/
     exists st, held (h_locks w) !! lockKey j n = Some st /\ ls_expiresAt st <= T) /\
  (forall i m, owner_key m = j ->
     msgs (store (hb_queue (h_hub w))) !! i = Some m <-> msgs (store (hb_queue (h_hub w'))) !! i = Some m) /\
  (forall i f, f_OwnerPluginKey f = j ->
     files (store (fdb (h_files w))) !! i = Some f <-> files (store (fdb (h_files w'))) !! i = Some f) /\
  h_rates w' !! j = h_rates w !! j /\
  Subscriptions (h_events w') j = Subscriptions (h_events w) j /\
  RD (h_data w) (h_data w').
Proof using PreOrder0.
  intros Hvs Hq w'.
  assert (leaves_alone RD j T w w') as (H1 & H2 & H3 & H4 & H5 & H6 & H7).
  { subst w'. clear Hq. revert w. induction Hvs as [|v vs (Ha & Hal & Hd) _ IH]; intros w; simpl; [reflexivity|].
    transitivity (visited w v); [|apply IH].
    assert (Confines (v_key v) (deps_at (v_moment v)) (leaves_alone RD j T)) by (by apply host_confines).
    apply (server_confined (v_key v) (newPermSet (v_perms v)) (deps_at (v_moment v)) (v_md v)
             (m_now (v_moment v)) (leaves_alone RD j T) (v_call v) (mkConn (v_inflight v) w)). }
  split_and!; try done.
  - intros n. destruct (H2 n) as [?|(_ & ?)]; [by left|by right].
  - by apply H3.
Qed.
End history.

(** ** Two plugins *)

Definition ex_host : host (D := ()) (O := ()) :=
  mkHost (mkMemoryCache {[ cacheKey "shop" "a" := mkCacheEntry "1" None ]} 10)
    (mkMemoryLocks {[ lockKey "shop" "l" := mkLockState "id" 50 ]} 10 0)
    (mkHub (mkSession one_job Pool [] 0) [])
    (mkState () (mkSession (Files.mkTables {[ "f1" := mkFile "a.txt" 1 "text/plain" "plugins/shop/f1" "" "shop" ]} ∅) Pool [] 0))
    ∅ [] (NewBusEvents (NewEventBus ∅)) [] ().

Definition ex_moment (now : Z) : moment :=
  mkMoment now [] "u1" None (fun m => (map_to_list m).*1) map_to_list
    [mkRound (fun l => l) now now "id2" false] [] 7%nat 0%nat.

Definition ex_visit (now : Z) (q : rpc_call (F := Z)) : visit :=
  mkVisit "mail" [PermCache; PermLock; PermQueue; PermFilesWrite] 0 [] (ex_moment now) q.

(** "mail" writes and asks for the names "shop" uses, and tries to acknowledge
    and delete what is of "shop". *)
Definition ex_visits : list visit :=
  [ex_visit 10 (RCacheSet "a" "2" 0); ex_visit 11 (RAcquireLock "l" 5 0); ex_visit 12 (RAck 1);
   ex_visit 13 (RDeleteFile "f1")].

Definition ex_world_files : Files := mkFiles true true 0 "".

Lemma plugin_isolated_witness :
  let w' := foldl (visited (fun _ _ _ o => Ok o) any_text (fun _ => None) (fun _ _ => false) (fun _ => Err "")
                     (fun _ => false) ex_world_files (mkPGQueue 0 ∅ ∅) (NewHTTPEgress (fun _ => [])) "info" (fun _ => ∅) None)
              ex_host ex_visits in
  (entries (h_cache w') !! cacheKey "shop" "a" = Some (mkCacheEntry "1" None) /\
   entries (h_cache w') !! cacheKey "mail" "a" = Some (mkCacheEntry "2" None)) /\
  (forall i m, owner_key m = "shop" -> msgs one_job !! i = Some m <-> msgs (store (hb_queue (h_hub w'))) !! i = Some m) /\
  (forall i f, f_OwnerPluginKey f = "shop" ->
     files (store (fdb (h_files ex_host))) !! i = Some f <-> files (store (fdb (h_files w'))) !! i = Some f).
Proof.
  intros w'. split; [split; vm_compute; reflexivity|].
  destruct (plugin_isolated (fun _ _ _ o => Ok o) any_text (fun _ => None) (fun _ _ => false) (fun _ => Err "")
              (fun _ => false) ex_world_files (mkPGQueue 0 ∅ ∅) (NewHTTPEgress (fun _ => [])) "info" (fun _ => ∅) None
              "shop" 20 eq ex_visits ex_host) as (_ & _ & Hq & Hf & _).
  - repeat constructor; try done.
  - exact one_job_ok.
  - split; [exact Hq|exact Hf].
Defined.
