(* ===== verification/Frontdoor.v ===== *)
(** * The outside of the gateway

    router.go with the routes core/main.go registers on it, the console's
    static files (plugin_assets.go, host.go), the console's event stream
    (ui_events.go) and the audit log (core/middleware/audit.go). The file
    system, MIME types and session resolution are arguments. *)

From Stdlib Require Import Ascii.
From stdpp Require Import pretty.
From S2P Require Import Prelude GoStrings Sql Auth PathMatch Manifest Wire StableSort Chain Pipeline Breaker Instance Registry Gateway.
From S2P Require EventBus Admin Menu.

(** ** Routing *)

Inductive core_route :=
| RouteLogin | RouteMe | RouteLogout | RouteUsers | RouteUpload | RouteDownload
| RouteAssets | RoutePlugins | RouteUIEvents | RouteHealthz | RouteApps.

#[export] Instance core_route_eq_dec : EqDecision core_route.
Proof. solve_decision. Defined.

Definition under (root p : string) : bool := String.eqb p root || has_prefix p (root +:+ "/").

Definition UIEventsPath := "/api/system/ui/events".

(** [RegisterSystemRoute], in the order main makes the calls: what needs the
    database, and the rest. *)
Definition db_routes (has_storage : bool) : list (core_route * (string -> bool)) :=
  [(RouteLogin, fun p => String.eqb p "/api/system/auth/login");
   (RouteMe, fun p => String.eqb p "/api/system/auth/me");
   (RouteLogout, fun p => String.eqb p "/api/system/auth/logout");
   (RouteUsers, under "/api/system/users")] ++
  (if has_storage then
     [(RouteUpload, fun p => String.eqb p "/api/system/files/upload");
      (RouteDownload, fun p => has_prefix p "/api/system/files/download/")] else []).

Definition plugin_routes : list (core_route * (string -> bool)) :=
  [(RouteAssets, fun p => has_prefix p Menu.PluginAssetPrefix);
   (RoutePlugins, under Admin.PluginsAPIPrefix);
   (RouteUIEvents, fun p => String.eqb p UIEventsPath);
   (RouteHealthz, fun p => String.eqb p "/healthz");
   (RouteApps, fun p => String.eqb p "/api/system/ui/apps")].

Definition core_routes (has_db has_storage : bool) : list (core_route * (string -> bool)) :=
  (if has_db then db_routes has_storage else []) ++ plugin_routes.

Inductive destination := ToRoute (r : core_route) | ToHost | NotFound.

(** [GatewayHandler.ServeHTTP]: [host] is whether the console is set. *)
Definition ServeHTTP (routes : list (core_route * (string -> bool))) (host : bool) (path : string) : destination :=
  match list_find (fun rt => rt.2 path = true) routes with
  | Some (_, rt) => ToRoute rt.1
  | None => if has_prefix path "/api/" then NotFound else if host then ToHost else NotFound
  end.

Definition healthz : list wop :=
  [WSet "Content-Type" "application/json"; WWriteHeader 200;
   WWrite ("{" +:+ dquote +:+ "status" +:+ dquote +:+ ":" +:+ dquote +:+ "ok" +:+ dquote +:+ "}")].

(** ** Static files *)

(** [filepath.Join] of a directory and a path. *)
Definition path_join (dir p : string) : string :=
  if String.eqb dir "" then (if String.eqb p "" then "" else path_clean p)
  else if String.eqb p "" then path_clean dir else path_clean (dir +:+ "/" +:+ p).

(** [filepath.Ext]: from the last dot of the last segment. *)
Fixpoint ext_of (s : string) : string :=
  match s with
  | EmptyString => ""
  | String a s' =>
      if has_byte "."%char s' || has_byte "/"%char s' then ext_of s'
      else if Ascii.eqb a "."%char then s else ""
  end.

Section files.
Context (ReadFile : string -> option string) (TypeByExtension : string -> string).
Context (FrontendDir_of : string -> option string).

(** The cleaned path below the plugin's directory, and the file
    [PluginAssetHandler] tries to read. *)
Definition asset_path (path : string) : option (string * string) :=
  let rest := trim_prefix path Menu.PluginAssetPrefix in
  let '(key, sub) := match cut_byte "/"%char rest with Some ks => ks | None => (rest, "") end in
  if String.eqb key "" then None
  else match FrontendDir_of key with
  | None => None
  | Some dir =>
      if String.eqb dir "" then None
      else
        let sub := if String.eqb sub "" then "index.html" else sub in
        let clean := path_clean ("/" +:+ sub) in
        Some (clean, path_join dir clean)
  end.

Definition PluginAssetHandler (path : string) : list wop :=
  match asset_path path with
  | None => http_NotFound
  | Some (clean, full) =>
      match ReadFile full with
      | None => http_NotFound
      | Some data =>
          let ct := TypeByExtension (ext_of clean) in
          (if String.eqb ct "" then [] else [WSet "Content-Type" ct]) ++ [WWrite data]
      end
  end.

(** [os.Stat]: whether it is a directory. *)
Context (stat : string -> option bool) (dir : string).

Inductive host_answer := Placeholder | HostNotFound | HostFile (p : string) | HostIndex.

Definition hostHandler (path : string) : host_answer :=
  match stat (path_join dir "index.html") with
  | None => Placeholder
  | Some _ =>
      let clean := path_clean ("/" +:+ trim_prefix path "/") in
      let target := path_join dir clean in
      let root := path_clean dir in
      if negb (String.eqb target root) && negb (has_prefix target (root +:+ "/")) then HostNotFound
      else match stat target with
           | Some false => HostFile target
           | _ => HostIndex
           end
  end.
End files.

(** ** The console's event stream *)

(** The open consoles, each with its buffered channel. *)
Notation UIEvents := (gmap nat EventBus.chan).

Definition ui_open (id : nat) (b : UIEvents) : UIEvents := <[id := EventBus.mkChan 8 [] 0 []]> b.
Definition ui_close (id : nat) (b : UIEvents) : UIEvents := delete id b.

Definition ui_Publish (event : string) (b : UIEvents) : UIEvents :=
  (fun c => default c (EventBus.try_send (EventBus.mkEvent event "") c)) <$> b.

Definition ui_Subscribers (b : UIEvents) : Z := Z.of_nat (size b).

Definition ui_headers : list wop :=
  [WSet "Content-Type" "text/event-stream"; WSet "Cache-Control" "no-cache"; WSet "Connection" "keep-alive";
   WSet "X-Accel-Buffering" "no"].

Definition ui_unsupported : list wop := WDel "Content-Type" :: http_Error "streaming unsupported" 500.

(** What the loop's [select] picks, and whether the flush after it succeeds; or
    what is published meanwhile. *)
Inductive ui_turn := UIEvent (flushed : bool) | UITick (flushed : bool) | UIDone | UIPublished (ev : string).

(** The stream's writes, the bus after it, and whether it has ended. *)
Fixpoint ui_loop (id : nat) (turns : list ui_turn) (b : UIEvents) : list string * UIEvents * bool :=
  match turns with
  | [] => ([], b, false)
  | UIDone :: _ => ([], ui_close id b, true)
  | UIPublished ev :: turns => ui_loop id turns (ui_Publish ev b)
  | UITick ok :: turns =>
      if ok then let '(o, b, e) := ui_loop id turns b in ((": keepalive" +:+ newline +:+ newline) :: o, b, e)
      else ([": keepalive" +:+ newline +:+ newline], ui_close id b, true)
  | UIEvent ok :: turns =>
      match b !! id with
      | Some (EventBus.mkChan cap (ev :: q) w r) =>
          let frame := "event: " +:+ EventBus.ev_Name ev +:+ newline +:+ "data: {}" +:+ newline +:+ newline in
          let b := <[id := EventBus.mkChan cap q w (r ++ [ev])]> b in
          if ok then let '(o, b, e) := ui_loop id turns b in (frame :: o, b, e)
          else ([frame], ui_close id b, true)
      | _ => ui_loop id turns b
      end
  end.

(** ** The audit log *)

Record audit_row := mkAuditRow {
  au_UserID : string; au_Action : string; au_ExtensionKey : string; au_HttpPath : string;
  au_ClientIp : string; au_TraceID : string
}.

Definition audit_clientIP (r : Request) : string :=
  let fwd := Header_Get (rq_Header r) "X-Forwarded-For" in
  if negb (String.eqb fwd "") then
    match cut_byte ","%char fwd with Some (first, _) => trim_space first | None => trim_space fwd end
  else Gateway.clientIP (rq_RemoteAddr r).

Definition is_write (m : string) : bool := bool_decide (m ∈ ["POST"; "PUT"; "DELETE"; "PATCH"]).

(** The entry [AuditLogger] makes of a request, once it has been answered with
    the headers [h]. *)
Definition audit_entry (prefix : string) (identify : option (Request -> string)) (r : Request) (h : Header)
    : option audit_row :=
  if negb (has_prefix (rq_Path r) prefix) then None
  else match cut_byte "/"%char (trim_prefix (rq_Path r) prefix) with
  | None => None
  | Some (extKey, _) =>
      if negb (is_write (rq_Method r)) then None
      else
        let userID := match identify with
                      | Some f => if String.eqb (f r) "" then "anonymous" else f r
                      | None => "anonymous"
                      end in
        Some (mkAuditRow userID (rq_Method r +:+ " operation on " +:+ rq_Path r) extKey (rq_Path r)
                (audit_clientIP r) (Header_Get h "X-Request-Id"))
  end.

(** The identity main hands to the middleware. *)
Definition Identify (auth : option (string -> option User)) (r : Request) : string :=
  match auth with
  | None => ""
  | Some resolve =>
      match resolve (SessionToken (rq_Header r)) with
      | None => ""
      | Some user => itoa (u_ID user)
      end
  end.

Section audit_table.
Context (varchar : Z -> string -> bool).

Definition audit_fits (a : audit_row) : bool :=
  varchar 100 (au_UserID a) && varchar 255 (au_Action a) && varchar 100 (au_ExtensionKey a) &&
  varchar 255 (au_HttpPath a) && varchar 50 (au_ClientIp a) && varchar 64 (au_TraceID a).

(** The table, oldest entry first. *)
Definition InsertAuditLog (a : audit_row) : prog (list audit_row) () :=
  exec "audit" (fun _ d => if audit_fits a then Ok ((), d ++ [a]) else Err "value too long").

(** A request and its entry; a failed insert is logged and forgotten. *)
Definition audited (prefix : string) (identify : option (Request -> string)) (r : Request) (wr : writer)
    (s : session (list audit_row)) : session (list audit_row) :=
  match audit_entry prefix identify r (wr_header wr) with
  | None => s
  | Some a => (InsertAuditLog a s).2
  end.
End audit_table.

(** ** Routing *)

Lemma prefix_compat p a b :
  has_prefix p a = true -> has_prefix p b = true -> has_prefix a b = true \/ has_prefix b a = true.
Proof.
  rewrite !has_prefix_iff. intros [ra ->] [rb H]. revert b ra rb H. induction a as [|x a IH]; intros b ra rb H.
  - right. by exists b.
  - destruct b as [|y b]; [left; by exists (String x a)|]. simpl in H. injection H as -> H.
    destruct (IH b ra rb H) as [[r ->]|[r ->]]; [left|right]; by exists r.
Qed.

Lemma under_prefix root p : under root p = true -> has_prefix p root = true.
Proof.
  unfold under. intros [H|H]%orb_true_iff.
  - apply String.eqb_eq in H as ->. apply has_prefix_iff. exists "". by rewrite sapp_nil_r.
  - apply has_prefix_iff in H as [r ->]. apply has_prefix_iff. exists ("/" +:+ r). by rewrite sapp_assoc.
Qed.

(** What every path of a route begins with. *)
Definition root_of (r : core_route) : string :=
  match r with
  | RouteLogin => "/api/system/auth/login" | RouteMe => "/api/system/auth/me"
  | RouteLogout => "/api/system/auth/logout" | RouteUsers => "/api/system/users"
  | RouteUpload => "/api/system/files/upload" | RouteDownload => "/api/system/files/download/"
  | RouteAssets => "/plugins/" | RoutePlugins => "/api/system/plugins"
  | RouteUIEvents => "/api/system/ui/events" | RouteHealthz => "/healthz" | RouteApps => "/api/system/ui/apps"
  end.

Lemma root_of_inj r1 r2 : has_prefix (root_of r1) (root_of r2) = true -> r1 = r2.
Proof. destruct r1, r2; try done; by vm_compute. Qed.

Lemma route_root db st r m p : (r, m) ∈ core_routes db st -> m p = true -> has_prefix p (root_of r) = true.
Proof.
  assert (forall s, String.eqb p s = true -> has_prefix p s = true) as Heq.
  { intros s ->%String.eqb_eq. apply has_prefix_iff. exists "". by rewrite sapp_nil_r. }
  unfold core_routes, db_routes, plugin_routes. intros H Hm.
  destruct db, st; simpl in H;
    repeat (apply elem_of_cons in H as [[= -> ->]|H]; [first [by apply Heq|by apply under_prefix|exact Hm]|]);
    by apply not_elem_of_nil in H.
Qed.

(** No path is claimed by two routes. *)
Lemma routes_disjoint db st p r1 m1 r2 m2 :
  (r1, m1) ∈ core_routes db st -> (r2, m2) ∈ core_routes db st -> m1 p = true -> m2 p = true -> r1 = r2.
Proof.
  intros H1 H2 E1%(route_root _ _ _ _ _ H1) E2%(route_root _ _ _ _ _ H2).
  destruct (prefix_compat p _ _ E1 E2) as [H|H]; [by apply root_of_inj|symmetry; by apply root_of_inj].
Qed.

Lemma route_test db st r m1 m2 : (r, m1) ∈ core_routes db st -> (r, m2) ∈ core_routes db st -> m1 = m2.
Proof.
  assert (NoDup (core_routes db st).*1) as Hnd by (eapply bool_decide_unpack; destruct db, st; vm_compute; exact I).
  intros [i Hi]%list_elem_of_lookup [j Hj]%list_elem_of_lookup. assert (i = j) as <-; [|congruence].
  apply (NoDup_lookup _ i j r Hnd); by rewrite list_lookup_fmap, ?Hi, ?Hj.
Qed.

(** Routing does not depend on the order of registration: a path goes to a
    route exactly when that route's own test takes it, under every
    configuration, and whatever is under /api/ is a route or 404, never the
    console. *)
Theorem routing_exact db st host p :
  (forall r m, (r, m) ∈ core_routes db st -> (m p = true <-> ServeHTTP (core_routes db st) host p = ToRoute r)) /\
  (forall r, ServeHTTP (core_routes db st) host p = ToRoute r -> exists m, (r, m) ∈ core_routes db st) /\
  (has_prefix p "/api/" = true -> ServeHTTP (core_routes db st) host p <> ToHost).
Proof.
  unfold ServeHTTP. destruct (list_find _ (core_routes db st)) as [[i [r0 m0]]|] eqn:E.
  - apply list_find_Some in E as (Hi%list_elem_of_lookup_2 & Hm & _). simpl in Hm. split_and!; [|by intros r [= <-]; exists m0|done].
    intros r m Hr. split.
    + intros H. by rewrite (routes_disjoint db st p r m r0 m0).
    + intros [= <-]. by rewrite (route_test db st r0 m m0).
  - assert (forall r m, (r, m) ∈ core_routes db st -> m p <> true) as Hno.
    { intros r m Hr. apply list_find_None in E. rewrite list.Forall_forall in E. by apply (E (r, m)). }
    split_and!.
    + intros r m Hr. split; [intros H; by destruct (Hno r m Hr)|]. by repeat case_match.
    + intros r. by repeat case_match.
    + intros ->. done.
Qed.

(** ** Static files *)

Lemma clean_segs_app rooted stack a b :
  clean_segs rooted stack (a ++ b) = clean_segs rooted (rev (clean_segs rooted stack a)) b.
Proof.
  revert stack. induction a as [|s a IH]; intros stack; simpl; [by rewrite rev_involutive|].
  repeat case_match; apply IH.
Qed.

(** A rooted path cleans to its plain segments. *)
Lemma path_clean_segs s :
  exists segs, path_clean ("/" +:+ s) = "/" +:+ join "/" segs /\ Forall plain_seg segs /\
    Forall (fun x => has_byte "/"%char x = false) segs.
Proof.
  exists (clean_segs true [] (split_byte "/"%char ("/" +:+ s))). split; [done|]. split.
  - apply clean_segs_plain. constructor.
  - apply list.Forall_forall. intros x [Hx|Hx]%clean_segs_subset; [by apply not_elem_of_nil in Hx|].
    by apply (proj1 (list.Forall_forall _ _) (split_byte_no_sep "/"%char ("/" +:+ s))).
Qed.

(** A path [rel] steps down from a clean directory, which may be the root or
    the working directory. *)
Definition inside (dir : string) (rel : list string) : string :=
  match rel with
  | [] => dir
  | _ => if String.eqb dir "/" then "/" +:+ join "/" rel
         else if String.eqb dir "." then join "/" rel
         else dir +:+ "/" +:+ join "/" rel
  end.

(** Within a directory, however it is written: some names below it, none of
    them empty, ".", ".." or with a slash in it. *)
Definition within (dir full : string) : Prop :=
  exists rel, Forall plain_seg rel /\ Forall (fun x => has_byte "/"%char x = false) rel /\
    full = inside (path_clean dir) rel.

Lemma clean_segs_names rooted stack segs :
  Forall (fun s => s <> "" /\ s <> ".") stack ->
  Forall (fun s => s <> "" /\ s <> ".") (clean_segs rooted stack segs).
Proof.
  revert stack. induction segs as [|s segs IH]; intros stack Hs; simpl; [by apply Forall_rev|].
  destruct (String.eqb_spec s ""), (String.eqb_spec s "."); simpl; try by apply IH.
  destruct (String.eqb_spec s ".."); [|apply IH; by constructor].
  destruct stack as [|x stack]; [destruct rooted; apply IH; by repeat constructor|].
  destruct (String.eqb x ".."); apply IH; [by constructor|by inversion Hs].
Qed.

Lemma join_ne segs : Forall (fun s => s <> "" /\ s <> ".") segs -> segs <> [] -> join "/" segs <> "".
Proof.
  destruct segs as [|x [|y l]]; [done|..]; intros H _; apply list.Forall_cons in H as [[Hx _] _]; [exact Hx|].
  rewrite join_cons by done. by destruct x.
Qed.

(** A clean relative path that has a segment is neither "." nor "/". *)
Lemma join_named segs :
  Forall (fun s => s <> "" /\ s <> ".") segs -> Forall (fun x => has_byte "/"%char x = false) segs ->
  segs <> [] -> join "/" segs <> "." /\ join "/" segs <> "/".
Proof.
  intros Hn Hb Hne. split; intros E; apply (f_equal (split_byte "/"%char)) in E;
    rewrite (split_join "/"%char segs) in E by done; rewrite E in Hn.
  - by apply list.Forall_cons in Hn as [[_ ?] _].
  - by apply list.Forall_cons in Hn as [[? _] _].
Qed.

Lemma join_within dir s : dir <> "" -> within dir (path_join dir (path_clean ("/" +:+ s))).
Proof.
  intros Hne. destruct (path_clean_segs s) as (segs & -> & Hp & Hb). exists segs. split; [done|]. split; [done|].
  unfold path_join. destruct (String.eqb_spec dir ""); [done|]. simpl String.eqb. cbv iota.
  set (ds := clean_segs (has_prefix dir "/") [] (split_byte "/"%char dir)).
  assert (clean_segs (has_prefix dir "/") [] (split_byte "/"%char (dir +:+ "/" +:+ "/" +:+ join "/" segs)) = ds ++ segs) as Hs.
  { change (dir +:+ "/" +:+ "/" +:+ join "/" segs) with (dir +:+ String "/" (String "/" (join "/" segs))).
    rewrite split_byte_glue, clean_segs_app. fold ds. simpl split_byte.
    destruct segs as [|x segs]; [simpl; by rewrite rev_involutive, app_nil_r|].
    rewrite split_join by done. simpl clean_segs.
    change (clean_segs (has_prefix dir "/") (rev ds) (x :: segs) = ds ++ x :: segs).
    by rewrite clean_segs_id, rev_involutive. }
  assert (has_prefix (dir +:+ "/" +:+ "/" +:+ join "/" segs) "/" = has_prefix dir "/") as Hr.
  { destruct dir as [|a d]; [done|]. unfold has_prefix. simpl. by destruct (Ascii.eqb _ _). }
  assert (Forall (fun s => s <> "" /\ s <> ".") ds) as Hdn by (apply clean_segs_names; constructor).
  assert (Forall (fun x => has_byte "/"%char x = false) ds) as Hdb.
  { apply list.Forall_forall. intros x [Hx|Hx]%clean_segs_subset; [by apply not_elem_of_nil in Hx|].
    by apply (proj1 (list.Forall_forall _ _) (split_byte_no_sep "/"%char dir)). }
  assert (segs <> [] -> join "/" segs <> "") as Hsn.
  { apply join_ne. eapply list.Forall_impl; [exact Hp|]. by intros x (? & ? & _). }
  unfold path_clean. rewrite Hr, Hs. fold ds. clearbody ds.
  destruct (decide (segs = [])) as [->|Hsegs]; [by rewrite app_nil_r|].
  specialize (Hsn Hsegs). assert (forall d, inside d segs = if String.eqb d "/" then "/" +:+ join "/" segs
    else if String.eqb d "." then join "/" segs else d +:+ "/" +:+ join "/" segs) as -> by by destruct segs.
  destruct (decide (ds = [])) as [->|Hds].
  { simpl. destruct (has_prefix dir "/"); [done|]. by destruct (String.eqb_spec (join "/" segs) ""). }
  pose proof (join_ne ds Hdn Hds) as Hj. destruct (join_named ds Hdn Hdb Hds) as [Hj1 Hj2].
  rewrite join_app by done. destruct (has_prefix dir "/").
  - destruct (String.eqb_spec ("/" +:+ join "/" ds) "/") as [E|_]; [|by rewrite sapp_assoc].
    destruct (join "/" ds); [done|discriminate E].
  - destruct (String.eqb_spec (join "/" ds +:+ "/" +:+ join "/" segs) ""); [by destruct (join "/" ds)|].
    destruct (String.eqb_spec (join "/" ds) ""); [done|].
    destruct (String.eqb_spec (join "/" ds) "/"); [done|]. by destruct (String.eqb_spec (join "/" ds) ".").
Qed.

(** The root test of [hostHandler] takes everything within a directory that
    has a name. *)
Lemma within_root dir full :
  within dir full -> path_clean dir <> "/" -> path_clean dir <> "." ->
  negb (String.eqb full (path_clean dir)) && negb (has_prefix full (path_clean dir +:+ "/")) = false.
Proof.
  intros ([|x rel] & _ & _ & ->) H1 H2; simpl inside; [by rewrite String.eqb_refl|].
  destruct (String.eqb_spec (path_clean dir) "/"); [done|].
  destruct (String.eqb_spec (path_clean dir) "."); [done|].
  rewrite (proj2 (has_prefix_iff _ _)); [by rewrite andb_false_r|].
  exists (join "/" (x :: rel)). by rewrite <- (sapp_assoc (path_clean dir)).
Qed.

(** C17. Files served to browsers stay in their directory: whatever path is
    asked for, the file of a plugin's frontend that is read is the frontend
    directory of the plugin the path names or lies below it; the same holds for
    the file the console's own handler serves, however its directory is
    written; and its explicit check against leaving the directory never fires
    for a directory other than the root or the working directory itself. *)
Theorem static_confined FrontendDir_of stat dir path :
  (forall rest clean full,
     path = Menu.PluginAssetPrefix +:+ rest -> asset_path FrontendDir_of path = Some (clean, full) ->
     exists key d, has_byte "/"%char key = false /\ (rest = key \/ exists sub, rest = key +:+ "/" +:+ sub) /\
       FrontendDir_of key = Some d /\ within d full) /\
  (forall full, hostHandler stat dir path = HostFile full -> within dir full /\ stat full = Some false) /\
  (path_clean dir <> "/" -> path_clean dir <> "." -> hostHandler stat dir path <> HostNotFound).
Proof.
  split_and!.
  - intros rest clean full -> H. unfold asset_path in H. rewrite trim_prefix_app in H.
    destruct (match cut_byte "/" rest with Some ks => ks | None => (rest, "") end) as [key sub] eqn:Ek.
    destruct (String.eqb key ""); [done|]. destruct (FrontendDir_of key) as [d|] eqn:Ed; [|done].
    destruct (String.eqb_spec d ""); [done|]. injection H as <- <-.
    exists key, d. destruct (cut_byte "/" rest) as [[key' sub']|] eqn:Ec; injection Ek as -> ->.
    + apply cut_byte_spec in Ec as [-> Hk]. split_and!; [done|right; by exists sub|done|by apply join_within].
    + apply cut_byte_none in Ec. split_and!; [done|by left|done|by apply join_within].
  - intros full. unfold hostHandler. destruct (stat (path_join dir "index.html")); [|done].
    destruct (_ && _) eqn:Eg; [done|]. destruct (stat (path_join dir _)) as [[]|] eqn:Es; try done.
    intros [= <-]. split; [|done]. destruct (decide (dir = "")) as [->|Hne]; [|by apply join_within].
    destruct (path_clean_segs (trim_prefix path "/")) as (segs & E & _). rewrite E in Eg. discriminate Eg.
  - intros H1 H2. unfold hostHandler. destruct (stat (path_join dir "index.html")); [|done].
    assert (dir <> "") as Hne by (intros ->; by apply H2).
    rewrite (within_root dir); [|by apply join_within|done..].
    by destruct (stat (path_join dir _)) as [[]|].
Qed.

(** ** Signals to the console *)

(** A signal is never lost to a console: whoever is connected has one to read
    after a publication, even when the new one found no room. *)
Lemma ui_signalled ev b id c :
  b !! id = Some c -> (0 < EventBus.ch_cap c)%nat ->
  exists c', ui_Publish ev b !! id = Some c' /\
    (EventBus.ch_queue c' <> [] \/ (EventBus.ch_waiting c' < EventBus.ch_waiting c)%nat).
Proof.
  intros Hc Hcap. unfold ui_Publish. rewrite lookup_fmap, Hc. simpl. eexists. split; [reflexivity|].
  destruct c as [cap q w r]. unfold EventBus.try_send. simpl in *. destruct w as [|w]; simpl; [|right; lia].
  left. destruct (Nat.ltb_spec (length q) cap); simpl; [by destruct q|]. destruct q; [simpl in *; lia|done].
Qed.

(** ** The audit log *)

Lemma pretty_N_go_len x s : (String.length s <= String.length (pretty_N_go x s))%nat.
Proof.
  revert s. induction (N.lt_wf_0 x) as [x _ IH]; intros s.
  destruct (decide (x = 0%N)) as [->|Hx]; [by rewrite pretty_N_go_0|].
  rewrite pretty_N_go_step by lia.
  assert (x `div` 10 < x)%N as Hlt by (apply N.div_lt; lia).
  pose proof (IH _ Hlt (String (pretty_N_char (x `mod` 10)) s)) as H. simpl in H. lia.
Qed.

Lemma pretty_N_ne (n : N) : pretty n <> "".
Proof.
  unfold pretty, pretty_N. destruct (decide (n = 0%N)); [done|]. rewrite pretty_N_go_step by lia.
  intros E. apply (f_equal String.length) in E.
  pose proof (pretty_N_go_len (n `div` 10) (String (pretty_N_char (n `mod` 10)) "")). simpl in *. lia.
Qed.

Lemma itoa_ne z : itoa z <> "".
Proof. unfold itoa. destruct z as [|p|p]; [done|exact (pretty_N_ne (N.pos p))|done]. Qed.

(** Writes that leave the request id at the head of its header. *)
Definition quiet (op : wop) : Prop :=
  match op with
  | WSet k _ | WDel k => CanonicalHeaderKey k <> CanonicalHeaderKey "X-Request-Id"
  | _ => True
  end.

Definition traced (t : string) (w : writer) : Prop :=
  exists vs, wr_header w !! CanonicalHeaderKey "X-Request-Id" = Some (t :: vs).

Lemma traced_run t ops w : Forall quiet ops -> traced t w -> traced t (wr_run ops w).
Proof.
  intros H. unfold wr_run. revert w. induction H as [|op ops Hop _ IH]; intros w [vs Hw]; simpl; [by exists vs|].
  apply IH. unfold traced. destruct op as [k v|k v|k|st|d]; simpl in *.
  - unfold Header_Set. rewrite lookup_insert_ne by done. by exists vs.
  - destruct (decide (CanonicalHeaderKey k = CanonicalHeaderKey "X-Request-Id")) as [->|Hne].
    + rewrite lookup_insert_eq, Hw. simpl. by exists (vs ++ [v]).
    + rewrite lookup_insert_ne by done. by exists vs.
  - unfold Header_Del. rewrite lookup_delete_ne by done. by exists vs.
  - by exists vs.
  - by exists vs.
Qed.

Lemma traced_get t w : traced t w -> Header_Get (wr_header w) "X-Request-Id" = t.
Proof. intros [vs H]. unfold Header_Get. by rewrite H. Qed.

Lemma quiet_error msg code : Forall quiet (http_Error msg code).
Proof. repeat constructor; by vm_compute. Qed.

Lemma quiet_answer h code body : Forall quiet (add_headers h ++ [WWriteHeader code; WWrite body]).
Proof.
  apply list.Forall_app. split; [|by repeat constructor]. unfold add_headers. apply list.Forall_forall.
  intros op (kv & Hop & _)%list_elem_of_bind. apply list_elem_of_fmap in Hop as (v & -> & _). done.
Qed.

Section audit_facts.
Context (client_filter : nat -> loc -> Z -> FilterRequest -> option FilterResponse).
Context (client_http : nat -> loc -> Z -> HttpRequest -> result string HttpResponse).
Context (next : Request -> world -> list wop * world).
Context (auth : option (string -> option User)) (BackendTimeout MaxBodyBytes : Z).

Lemma run_phase_quiet chain phase s o s' :
  run_phase client_filter chain phase s = Answered o s' -> Forall quiet o.
Proof using Type.
  unfold run_phase. destruct (Run _ _ _) as [[resp|] s1]; [|done]. intros [= <- <-]. apply quiet_answer.
Qed.

Lemma before_backend_quiet r chain s o s' :
  before_backend client_filter auth r chain s = Answered o s' -> Forall quiet o.
Proof using Type.
  unfold before_backend, and_then.
  destruct (run_phase _ chain PHASE_AUTHENTICATE _) as [o1 s1|s1] eqn:E1;
    [intros [= <- <-]; by eapply run_phase_quiet|].
  destruct (run_phase _ chain PHASE_AUTHORIZE s1) as [o2 s2|s2] eqn:E2;
    [intros [= <- <-]; by eapply run_phase_quiet|].
  destruct auth; [destruct (rc_Identity _)|]; try apply run_phase_quiet.
  intros [= <- <-]. apply quiet_error.
Qed.

Lemma servePlugin_quiet r snap chain s :
  Forall quiet (servePlugin client_filter client_http auth BackendTimeout r snap chain s).1.
Proof using Type.
  unfold servePlugin. destruct (before_backend _ _ _ _ _) as [o s1|s1] eqn:E; [by eapply before_backend_quiet|].
  unfold backend_stage. destruct (splitPluginPath _) as [[key sub]|]; [|apply quiet_error].
  destruct (callBackend _ _ _ _ _ _ _) as [[resp|e] s2].
  - set (s3 := with_rc _ s2). unfold and_then.
    assert (Forall quiet (match run_phase client_filter chain PHASE_POST_HANDLER s3 with
      | Answered o s => (o, s) | Passed s => (writeFinal s, s) end).1) as Hpost.
    { destruct (run_phase _ _ _ s3) as [o4 s4|s4] eqn:E4; simpl; [by eapply run_phase_quiet|apply quiet_answer]. }
    destruct (500 <=? _)%Z; [|exact Hpost].
    destruct (run_phase _ chain PHASE_ON_ERROR s3) as [o4 s4|s4] eqn:E4; simpl; [by eapply run_phase_quiet|].
    destruct (run_phase _ chain PHASE_POST_HANDLER s4) as [o5 s5|s5] eqn:E5; simpl;
      [by eapply run_phase_quiet|apply quiet_answer].
  - destruct (run_phase _ chain PHASE_ON_ERROR _) as [o4 s4|s4] eqn:E4; simpl;
      [by eapply run_phase_quiet|apply quiet_error].
Qed.

(** The trace of a plugin route is still at the head of X-Request-Id when the
    response is done, whatever plugins put into its headers. *)
Lemma serve_traced r id w :
  has_prefix (rq_Path r) PluginAPIPrefix = true ->
  traced (traceIDFor (rq_Header r) id)
    (Gateway.serve client_filter client_http next auth BackendTimeout MaxBodyBytes r id w).1.1.
Proof using Type.
  intros Hp. unfold Gateway.serve. destruct (serve_body _ _ _ _ _ _ _ _ _) as [wr s] eqn:E. cbn [fst].
  unfold serve_body in E. rewrite Hp in E.
  set (w0 := wr_apply new_writer (WSet "X-Request-Id" (traceIDFor (rq_Header r) id))) in E.
  assert (traced (traceIDFor (rq_Header r) id) w0) as H0.
  { exists []. unfold w0. simpl. unfold Header_Set. by rewrite lookup_insert_eq. }
  revert E. rewrite orb_true_r. destruct (readBody MaxBodyBytes r) as [body|o] eqn:Er.
  - destruct (run_phase _ _ PHASE_PRE_ROUTE _) as [o s1|s1] eqn:E1.
    + intros [= <- <-]. apply traced_run; [by eapply run_phase_quiet|done].
    + pose proof (servePlugin_quiet r (w_current w) (s_chain (w_current w)) s1) as Hq.
      destruct (servePlugin _ _ _ _ _ _ _ s1) as [o s2]. intros [= <- <-]. by apply traced_run.
  - intros [= <- <-]. apply traced_run; [|done]. unfold readBody in Er.
    destruct (rq_Body r); simplify_eq; [|apply quiet_error].
    case_match; simplify_eq; apply quiet_error.
Qed.

Context (varchar : Z -> string -> bool).

(** *** What the log should say

    Written from the request alone. Who: the user the session of the request
    belongs to, never one the request names. *)
Inductive user_of (r : Request) : string -> Prop :=
| of_session resolve u :
    auth = Some resolve -> resolve (SessionToken (rq_Header r)) = Some u -> user_of r (itoa (u_ID u))
| of_nobody : (resolve ← auth; resolve (SessionToken (rq_Header r))) = None -> user_of r "anonymous".

(** From where: the first address of X-Forwarded-For, else the connection's,
    without its port. *)
Inductive client_of (r : Request) : string -> Prop :=
| forwarded first others :
    Header_Get (rq_Header r) "X-Forwarded-For" <> "" ->
    split_byte ","%char (Header_Get (rq_Header r) "X-Forwarded-For") = first :: others ->
    client_of r (trim_space first)
| connected host :
    Header_Get (rq_Header r) "X-Forwarded-For" = "" -> SplitHost (rq_RemoteAddr r) = Some host -> client_of r host
| unsplit :
    Header_Get (rq_Header r) "X-Forwarded-For" = "" -> SplitHost (rq_RemoteAddr r) = None ->
    client_of r (rq_RemoteAddr r).

(** What: a write to a path below a plugin's key. *)
Definition entry_of (r : Request) (id : string) (a : audit_row) : Prop :=
  exists key rest user ip,
    rq_Method r ∈ ["POST"; "PUT"; "DELETE"; "PATCH"] /\
    rq_Path r = "/api/plugins/" +:+ key +:+ "/" +:+ rest /\ has_byte "/"%char key = false /\
    user_of r user /\ client_of r ip /\
    a = mkAuditRow user (rq_Method r +:+ " operation on " +:+ rq_Path r) key (rq_Path r) ip
          (traceIDFor (rq_Header r) id).

(** The widths of the table's columns. *)
Definition columns_hold (a : audit_row) : Prop :=
  Forall (fun c => varchar c.1 c.2 = true)
    [(100, au_UserID a); (255, au_Action a); (100, au_ExtensionKey a); (255, au_HttpPath a);
     (50, au_ClientIp a); (64, au_TraceID a)]%Z.

Lemma audit_fits_columns a : audit_fits varchar a = true <-> columns_hold a.
Proof using Type.
  unfold audit_fits, columns_hold. rewrite !andb_true_iff, !list.Forall_cons. simpl. intuition.
Qed.

Lemma user_of_iff r user :
  user_of r user <-> user = (if String.eqb (Identify auth r) "" then "anonymous" else Identify auth r).
Proof using Type.
  unfold Identify. split.
  - intros [resolve u -> Hu|Hn]; [rewrite Hu, (proj2 (String.eqb_neq _ _) (itoa_ne _)); done|].
    destruct auth as [resolve|]; [|done]. simpl in Hn. by rewrite Hn.
  - intros ->. destruct auth as [resolve|] eqn:Ea; [|by apply of_nobody; rewrite Ea].
    destruct (resolve (SessionToken (rq_Header r))) as [u|] eqn:Er; [|by apply of_nobody; rewrite Ea].
    rewrite (proj2 (String.eqb_neq _ _) (itoa_ne _)). by eapply of_session.
Qed.

Lemma client_of_iff r ip : client_of r ip <-> ip = audit_clientIP r.
Proof using Type.
  unfold audit_clientIP, Gateway.clientIP. set (fwd := Header_Get (rq_Header r) "X-Forwarded-For").
  assert (Hcut : forall first others, split_byte ","%char fwd = first :: others ->
    trim_space first = match cut_byte ","%char fwd with Some (f, _) => trim_space f | None => trim_space fwd end).
  { intros first others E. destruct (cut_byte ","%char fwd) as [[l rt]|] eqn:Ec.
    - apply cut_byte_spec in Ec as [Ec Hl]. rewrite Ec, split_byte_app in E by done. by injection E as ->.
    - apply cut_byte_none in Ec. rewrite split_byte_single in E by done. by injection E as ->. }
  split.
  - intros [first others Hf E|host Hf E|Hf E]; fold fwd in Hf; try fold fwd in E.
    + destruct (String.eqb_spec fwd ""); [done|]. simpl. by eapply Hcut.
    + rewrite Hf. simpl. by rewrite E.
    + rewrite Hf. simpl. by rewrite E.
  - intros ->. destruct (String.eqb_spec fwd "") as [Hf|Hf]; simpl.
    + destruct (SplitHost (rq_RemoteAddr r)) eqn:E; [by apply connected|by apply unsplit].
    + pose proof (split_byte_ne ","%char fwd) as Hne. destruct (split_byte ","%char fwd) as [|first others] eqn:E; [done|].
      rewrite <- (Hcut _ _ eq_refl). by eapply forwarded.
Qed.

(** C16. The audit log records exactly the writes to plugins. A request is
    recorded if and only if its method is POST, PUT, DELETE or PATCH and its
    path goes on below a plugin's key on the plugin API, the insert is not lost
    to the database and the entry fits the table's columns; then one entry is
    added, whatever plugins answered: the session's user or anonymous, the
    plugin, the path, the address forwarded or connected from, and the trace
    the request was served under. *)
Theorem audit_exact r id w s :
  ex s = Pool ->
  let wr := (Gateway.serve client_filter client_http next auth BackendTimeout MaxBodyBytes r id w).1.1 in
  let s' := audited varchar PluginAPIPrefix (Some (Identify auth)) r wr s in
  (forall a, entry_of r id a ->
     (columns_hold a -> default false (head (faults s)) = false -> store s' = store s ++ [a]) /\
     (~ columns_hold a \/ default false (head (faults s)) = true -> store s' = store s)) /\
  ((forall a, ~ entry_of r id a) -> store s' = store s).
Proof using Type.
  intros Hex wr s'. split.
  - intros a (key & rest & user & ip & Hm & Hpath & Hk & Hu%user_of_iff & Hip%client_of_iff & Ha).
    assert (has_prefix (rq_Path r) PluginAPIPrefix = true) as Hp by (apply has_prefix_iff; by eexists).
    pose proof (traced_get _ _ (serve_traced r id w Hp)) as Ht. fold wr in Ht.
    assert (audit_entry PluginAPIPrefix (Some (Identify auth)) r (wr_header wr) = Some a) as He.
    { unfold audit_entry. rewrite Hp. simpl negb. cbv iota.
      change (rq_Path r = PluginAPIPrefix +:+ key +:+ "/" +:+ rest) in Hpath.
      rewrite Hpath at 1. rewrite trim_prefix_app, (proj2 (cut_byte_spec "/"%char _ key rest)) by done.
      unfold is_write. rewrite bool_decide_true by done. simpl negb. cbv iota. by rewrite Ht, <- Hu, <- Hip, Ha. }
    unfold s', audited. rewrite He. unfold InsertAuditLog, exec. rewrite <- audit_fits_columns.
    destruct (faults s) as [|[] fs]; simpl; [|split; done|]; rewrite ?Hex;
      (destruct (audit_fits varchar a); simpl; [split; [done|intros [[]|]; done]|split; done]).
  - intros Hno. unfold s', audited.
    destruct (audit_entry _ _ r (wr_header wr)) as [a|] eqn:He; [exfalso|done]. unfold audit_entry in He.
    destruct (has_prefix (rq_Path r) PluginAPIPrefix) eqn:Hp; simpl in He; [|done].
    apply has_prefix_iff in Hp as [p Hp]. rewrite Hp, trim_prefix_app in He at 1.
    destruct (cut_byte "/"%char p) as [[key rest]|] eqn:Ec; [|done]. apply cut_byte_spec in Ec as [-> Hk].
    destruct (is_write (rq_Method r)) eqn:Hw; [|done]. unfold is_write in Hw. apply bool_decide_eq_true in Hw.
    eapply Hno. exists key, rest. do 2 eexists. do 3 (split; [done|]).
    split; [by apply user_of_iff|]. split; [by apply client_of_iff|]. reflexivity.
Qed.
End audit_facts.

(** ** What is not recorded *)

Definition pg_text (n : Z) (s : string) : bool := (Z.of_nat (String.length s) <=? n)%Z.

Definition ex_post (path : string) (h : Header) : Request :=
  mkRequest "POST" path "" (<["Authorization" := ["Bearer s3cret"]]> h) "10.0.0.1:80" NoBody.

Definition ex_audit (r : Request) : list audit_row :=
  store (audited pg_text PluginAPIPrefix (Some (Identify ex_auth)) r
    (Gateway.serve ex_filter ex_http ex_next ex_auth 0 0 r "t1" ex_world).1.1 (mkSession [] Pool [] 0)).

Definition ex_row : audit_row :=
  mkAuditRow "7" "POST operation on /api/plugins/waf/rules" "waf" "/api/plugins/waf/rules" "10.0.0.1" "t1".

Lemma audit_exact_witness : ex_audit (ex_post "/api/plugins/waf/rules" ∅) = [ex_row].
Proof.
  destruct (audit_exact ex_filter ex_http ex_next ex_auth 0 0 pg_text (ex_post "/api/plugins/waf/rules" ∅) "t1" ex_world
    (mkSession [] Pool [] 0) eq_refl) as [H _].
  apply (H ex_row).
  - exists "waf", "rules", "7", "10.0.0.1". split; [by left|]. do 2 (split; [reflexivity|]).
    split; [|split; [by apply connected|reflexivity]].
    by apply (of_session ex_auth _ (fun t => if String.eqb t "s3cret" then Some (mkUser 7 "ada" "admin") else None) (mkUser 7 "ada" "admin")).
  - repeat constructor.
  - reflexivity.
Defined.

Fixpoint repeat_string (n : nat) (s : string) : string :=
  match n with O => "" | S n => s +:+ repeat_string n s end.

(** A client that picks a long request id, or a long X-Forwarded-For, writes
    without being recorded: the insert fails and the failure is only logged. *)
Example long_headers_evade :
  ex_audit (ex_post "/api/plugins/waf/rules" {["X-Request-Id" := [repeat_string 65 "x"]]}) = [] /\
  ex_audit (ex_post "/api/plugins/waf/rules" {["X-Forwarded-For" := [repeat_string 51 "1"]]}) = [].
Proof. split; vm_compute; reflexivity. Qed.

(** A path without a slash after the key reaches the plugin, as "/", and is not
    recorded either. *)
Example bare_key_evades :
  splitPluginPath "/api/plugins/waf" = Some ("waf", "/") /\ ex_audit (ex_post "/api/plugins/waf" ∅) = [].
Proof. split; vm_compute; reflexivity. Qed.

(** ** A file of a frontend *)

Definition ex_frontends (key : string) : option string :=
  if String.eqb key "shop" then Some "plugins/shop/frontend" else None.

Definition ex_stat (p : string) : option bool :=
  if bool_decide (p ∈ ["core/frontend/dist/index.html"; "core/frontend/dist/app.js"; "index.html"; "app.js"])
  then Some false else None.

Lemma static_confined_witness :
  asset_path ex_frontends "/plugins/shop/../../etc/passwd" =
    Some ("/etc/passwd", "plugins/shop/frontend/etc/passwd") /\
  (exists key d, has_byte "/"%char key = false /\ ex_frontends key = Some d /\
    within d "plugins/shop/frontend/etc/passwd") /\
  hostHandler ex_stat "./core/frontend/dist" "/x/../app.js" = HostFile "core/frontend/dist/app.js" /\
  within "./core/frontend/dist" "core/frontend/dist/app.js" /\
  hostHandler ex_stat "./core/frontend/dist" "/x/../app.js" <> HostNotFound.
Proof.
  split; [reflexivity|].
  destruct (static_confined ex_frontends ex_stat "./core/frontend/dist" "/plugins/shop/../../etc/passwd") as (H & _).
  destruct (static_confined ex_frontends ex_stat "./core/frontend/dist" "/x/../app.js") as (_ & H1 & H2).
  split; [|split; [vm_compute; reflexivity|split]].
  - destruct (H "shop/../../etc/passwd" "/etc/passwd" "plugins/shop/frontend/etc/passwd" eq_refl eq_refl)
      as (key & d & Hk & _ & Hd & Hw). by exists key, d.
  - apply H1. vm_compute. reflexivity.
  - apply H2; vm_compute; discriminate.
Defined.

(** A console directory written as the working directory answers 404 for every
    file in it: no clean relative path begins with its prefix. *)
Example host_dir_dot :
  hostHandler ex_stat "." "/app.js" = HostNotFound /\ hostHandler ex_stat "./core/frontend/dist" "/app.js" = HostFile "core/frontend/dist/app.js".
Proof. split; vm_compute; reflexivity. Qed.
