(* ===== verification/Consoles.v ===== *)
(** * What an open console shows

    The registry's OnChange callback, the event stream of ui_events.go and the
    app list of apps_handler.go put together with the goroutines of Supervision.v:
    a change is published, the callback main registers signals every open
    stream, and the console asks for the list again. The console's side is that
    of frontend/src: it asks once before it opens the stream and then after
    every signal, each time in one step, which may fail: then it keeps what it had.

    The theorem says that a console that has asked since its stream was registered
    is never out of date without a signal on its way. The examples say what
    escapes that: a change made before the stream is registered, and [Enable],
    which records the plugin as enabled only after it has published it. *)

From S2P Require Import Prelude GoStrings Manifest Wire StableSort Chain Pipeline Breaker Instance Registry Manager Supervision.
From S2P Require EventBus Menu Frontdoor.

Open Scope Z_scope.

(** ** The app list *)

Definition menu_status (st : Status) : Menu.PluginStatus :=
  Menu.mkPluginStatus (st_Key st) (st_DisplayName st) (st_Enabled st) (st_Ready st).

Definition ui_package (pkg : Package) : Menu.UIPackage :=
  Menu.mkUIPackage (FrontendDir pkg) (Menus (p_Manifest pkg)).

(** [GatewayHandler.AppsHandler] over the manager: what it answers a role. *)
Definition apps_answer (QueueDepth QueueDead : string -> Z) (role : string) (m : manager)
    : list Menu.AppInfo * list Menu.MenuNode :=
  Menu.apps_response (menu_status <$> List QueueDepth QueueDead m) (fun k => ui_package <$> packages m !! k) role.

(** ** The consoles *)

Record console := mkConsole {
  c_stream : bool;            (** its stream is registered *)
  c_asked : bool;             (** a signal came: it is to ask again *)
  c_seen : manager;           (** what the last answer was computed from *)
  c_since : bool              (** whether it asked since the stream was registered, and was answered *)
}.

Record state := mkState {
  core : sys;
  bus : gmap nat EventBus.chan;
  consoles : gmap nat console;
  unnotified : bool           (** a snapshot is stored, the callback not run yet *)
}.

(** [publishLocked] stores a snapshot under the next version. *)
Definition published (s s' : sys) : bool := negb (w_version (mw (mgr s)) =? w_version (mw (mgr s'))).

(** The callback main passes to [OnChange]. *)
Definition onChange (b : gmap nat EventBus.chan) : gmap nat EventBus.chan :=
  Frontdoor.ui_Publish "registry.changed" b.

Definition ask (c : console) (m : manager) : console := mkConsole (c_stream c) false m (c_stream c).

Section steps.
Context (handshake : nat -> Package -> Z -> bool) (P : pc -> Prop).

Inductive cstep : state -> state -> Prop :=
| cs_core s core' :
    step handshake P (core s) core' ->
    cstep s (mkState core' (bus s) (consoles s) (unnotified s || published (core s) core'))
| cs_notify s :
    unnotified s = true -> cstep s (mkState (core s) (onChange (bus s)) (consoles s) false)
| cs_load s id :
    consoles s !! id = None ->
    cstep s (mkState (core s) (bus s) (<[id := mkConsole false false (mgr (core s)) false]> (consoles s)) (unnotified s))
| cs_open s id c :
    consoles s !! id = Some c -> c_stream c = false ->
    cstep s (mkState (core s) (Frontdoor.ui_open id (bus s))
               (<[id := mkConsole true (c_asked c) (c_seen c) false]> (consoles s)) (unnotified s))
| cs_event s id c out b' :
    consoles s !! id = Some c -> Frontdoor.ui_loop id [Frontdoor.UIEvent true] (bus s) = ([out], b', false) ->
    cstep s (mkState (core s) b' (<[id := mkConsole (c_stream c) true (c_seen c) (c_since c)]> (consoles s)) (unnotified s))
| cs_ask s id c :
    consoles s !! id = Some c -> c_asked c = true ->
    cstep s (mkState (core s) (bus s) (<[id := ask c (mgr (core s))]> (consoles s)) (unnotified s))
| cs_unanswered s id c :
    consoles s !! id = Some c -> c_asked c = true ->
    cstep s (mkState (core s) (bus s)
               (<[id := mkConsole (c_stream c) false (c_seen c) false]> (consoles s)) (unnotified s))
| cs_lost s id c :
    consoles s !! id = Some c ->
    cstep s (mkState (core s) (Frontdoor.ui_close id (bus s))
               (<[id := mkConsole false (c_asked c) (c_seen c) false]> (consoles s)) (unnotified s)).
End steps.

(** ** What publishes, and what is announced *)

(** It will publish without a further look. *)
Definition announces (p : pc) : bool := match p with ARemove _ | ASwap _ _ _ => true | _ => false end.

(** It is on the way of [Enable]. *)
Definition enabling (p : pc) : bool :=
  match p with
  | AEnable _ | ALaunch false _ _ _ _ _ | AInstall _ _ _ | AWatch false _ _ | AEnabled _ => true
  | _ => false
  end.

Notation unchanged m m' := (w_current (mw m') = w_current (mw m) /\ w_version (mw m') = w_version (mw m)).
Notation next_version m m' := (w_version (mw m') = uint64 (w_version (mw m) + 1)).

Lemma version_moves v : uint64 (v + 1) <> v.
Proof.
  unfold uint64, wrap_u. intros H. pose proof (Z.mod_pos_bound (v + 1) (2 ^ 64) ltac:(lia)) as Hb.
  destruct (decide (v + 1 = 2 ^ 64)) as [E|E].
  - rewrite E, Z_mod_same_full in H. lia.
  - rewrite Z.mod_small in H; lia.
Qed.

Lemma InstallPlugin_version reg w d w' :
  RegInv w -> InstallPlugin reg w = (d, w') -> w_version w' = uint64 (w_version w + 1).
Proof.
  intros Hi E. apply (f_equal snd) in E. cbn [snd] in E. rewrite <- E.
  set (w1 := set_regs (reg_change reg (regs w)) w).
  change ((InstallPlugin reg w).2) with (rebuildLocked w1).
  destruct (rebuildLocked_spec w1) as (_ & _ & Hv & _); [|exact Hv]. intros k p. apply (RegInv_valid w k p Hi).
Qed.

Section turning.
Context (handshake : nat -> Package -> Z -> bool) (stop alt : bool) (p : pc) (m : manager) (o : outcome).
Hypothesis Ht : turn handshake stop alt p m = Some o.
Hypothesis Hi : RegInv (mw m).

Ltac by_branches := turn_branches Ht p.

Lemma turn_version : unchanged m (o_mgr o) \/ next_version m (o_mgr o).
Proof using Ht Hi.
  by_branches; try (by left);
    match goal with
    | H : tooManyCrashes _ _ = _ |- _ => apply tooManyCrashes_frame in H as (-> & _); by left
    | H : launchOne _ _ _ _ = _ |- _ => apply launchOne_spec in H as ((? & ? & ->) & _); by left
    | H : InstallPlugin _ _ = _ |- _ => right; by apply InstallPlugin_version in H
    end.
Qed.

Lemma turn_announces : announces p = true -> next_version m (o_mgr o).
Proof using Ht Hi.
  intros Ha. by_branches; try discriminate Ha;
    match goal with H : InstallPlugin _ _ = _ |- _ => by apply InstallPlugin_version in H end.
Qed.

(** Outside [Enable] the enabled set changes only just before a publication. *)
Lemma turn_enabled : enabling p = false ->
  enabling (o_pc o) = false /\ (enabled (o_mgr o) = enabled m \/ announces (o_pc o) = true).
Proof using Ht.
  intros He. by_branches; cbn [enabling o_pc o_mgr] in *; try discriminate He;
    repeat match goal with
    | H : tooManyCrashes _ _ = _ |- _ => apply tooManyCrashes_frame in H as (_ & _ & ->)
    | H : launchOne _ _ _ _ = _ |- _ => apply launchOne_regs in H as [_ ->]
    | |- context [match ?x with _ => _ end] => destruct x
    end; try discriminate; try (split; [done|by left]); try (split; [done|by right]).
Qed.
End turning.

(** ** No console is out of date in silence *)

Section current.
Context (handshake : nat -> Package -> Z -> bool) (P : pc -> Prop).
(** Whether [Enable] is left out: then the enabled set is current too. *)
Context (strict : bool).
Hypothesis HP : strict = true -> forall p, P p -> enabling p = false.

(** The answer was made of the snapshot there is now, and of the enabled plugins
    there are, unless a change of them is about to be published. *)
Definition current_for (m0 : manager) (s : sys) : Prop :=
  w_current (mw m0) = w_current (mw (mgr s)) /\
  (strict = true -> enabled m0 = enabled (mgr s) \/ exists n p, threads s !! n = Some p /\ announces p = true).

(** A signal is on its way. *)
Definition due (s : state) (id : nat) (c : console) : Prop :=
  c_asked c = true \/ unnotified s = true \/
  exists ch, bus s !! id = Some ch /\ EventBus.ch_queue ch <> [].

Record Current (s : state) : Prop := mkCurrent {
  cu_reg : RegInv (mw (mgr (core s)));
  cu_threads : strict = true -> Forall (fun p => enabling p = false) (threads (core s));
  cu_bus : forall id c, consoles s !! id = Some c -> c_stream c = true ->
    exists ch, bus s !! id = Some ch /\ EventBus.ch_cap ch = 8%nat /\ EventBus.ch_waiting ch = 0%nat;
  cu_seen : forall id c, consoles s !! id = Some c -> c_since c = true ->
    c_stream c = true /\ (current_for (c_seen c) (core s) \/ due s id c)
}.

(** A step of Core leaves what a console saw current, or publishes. *)
Lemma step_current m0 s s' :
  step handshake P s s' -> RegInv (mw (mgr s)) -> current_for m0 s ->
  (strict = true -> Forall (fun p => enabling p = false) (threads s)) ->
  current_for m0 s' \/ published s s' = true.
Proof using Type.
  intros Hstep Hi [Hc He] Ht. unfold published.
  assert (forall s', next_version (mgr s) (mgr s') -> negb (w_version (mw (mgr s)) =? w_version (mw (mgr s'))) = true) as Hnext.
  { intros s0 ->. apply negb_true_iff, Z.eqb_neq. intros H. by apply (version_moves (w_version (mw (mgr s)))). }
  destruct Hstep as [s n p alt o _ Hn Hturn|s p _ Hq Hp|s l _|s l b d _|s j _|s d _ _|s Hm|s from len Hm _|s Hm _].
  - destruct (turn_version handshake _ _ _ _ _ Hturn Hi) as [[Hw _]|Hv]; [|right; by apply Hnext].
    destruct (announces p) eqn:Ha; [right; by apply Hnext, (turn_announces handshake _ _ _ _ _ Hturn Hi)|].
    left. split; [cbn [mgr]; congruence|]. intros Hs. cbn [mgr threads].
    destruct (turn_enabled handshake _ _ _ _ _ Hturn (list.Forall_lookup_1 _ _ _ _ (Ht Hs) Hn)) as [_ [->|Hann]].
    + destruct (He Hs) as [|(j & q & Hj & Hq)]; [by left|right]. exists j, q. split; [|done].
      apply lookup_app_l_Some. rewrite list_lookup_insert_ne; [done|]. intros <-. congruence.
    + right. exists n, (o_pc o). split; [|done]. apply lookup_app_l_Some, list_lookup_insert_eq.
      by eapply lookup_lt_Some.
  - left. split; [done|]. intros Hs. destruct (He Hs) as [|(j & q & Hj & Hann)]; [by left|right].
    exists j, q. split; [by apply lookup_app_l_Some|done].
  - by left.
  - by left.
  - left. destruct (RegistryTarget_inv j _ Hi) as (_ & _ & _). unfold current_for.
    cbn [set_mgr mgr upd_w set_mw mw enabled threads].
    assert (w_current (RegistryTarget j (mw (mgr s))).2 = w_current (mw (mgr s))) as ->; [|done].
    unfold RegistryTarget, Pick. destruct (s_plugins _ !! j); [|done]. destruct (rsets _ !! _); [|done].
    by destruct (pick _ _).
  - by left.
  - right. apply Hnext. cbn [mgr set_mw mw].
    destruct (rebuildLocked_spec (set_regs ∅ (mw (mgr s)))) as (_ & _ & Hv & _); [|exact Hv].
    intros k p. apply (RegInv_valid _ _ _ Hi).
  - by left.
  - by left.
Qed.

Lemma step_reg s s' : step handshake P s s' -> RegInv (mw (mgr s)) -> RegInv (mw (mgr s')).
Proof using Type.
  intros Hstep Hi.
  destruct Hstep as [s n p alt o _ Hn Hturn|s p _ Hq Hp|s l _|s l b d _|s j _|s d _ _|s Hm|s from len Hm _|s Hm _];
    try done.
  - by destruct (turn_conserve _ _ _ _ _ _ Hi Hturn).
  - by apply upd_i_inv.
  - by apply upd_i_inv.
  - by destruct (RegistryTarget_inv j _ Hi).
  - cbn. by destruct Hi; split.
  - by destruct (clear_regs _ Hi).
Qed.

Lemma step_threads s s' :
  step handshake P s s' -> strict = true -> Forall (fun p => enabling p = false) (threads s) ->
  Forall (fun p => enabling p = false) (threads s').
Proof using HP.
  intros Hstep Hs Ht.
  destruct Hstep as [s n p alt o _ Hn Hturn|s p _ Hq Hp|s l _|s l b d _|s j _|s d _ _|s Hm|s from len Hm _|s Hm _];
    try done; apply list.Forall_app; (split; [|]).
  - apply list.Forall_insert; [done|]. apply (turn_enabled handshake _ _ _ _ _ Hturn).
    exact (list.Forall_lookup_1 _ _ _ _ Ht Hn).
  - apply list.Forall_forall. intros q Hq. by destruct (turn_spawn _ _ _ _ _ _ Hturn q Hq) as [[l ->]|[l ->]].
  - done.
  - by apply list.Forall_singleton, HP.
  - done.
  - apply list.Forall_forall. by intros q (x & -> & _)%list_elem_of_fmap.
Qed.
Lemma core_current s core' :
  step handshake P (core s) core' -> Current s ->
  Current (mkState core' (bus s) (consoles s) (unnotified s || published (core s) core')).
Proof using HP.
  intros Hstep [H1 H2 H3 H4]. split; cbn [core bus consoles].
  - by eapply step_reg.
  - intros Hs. eapply step_threads; eauto.
  - done.
  - intros id c Hc Hsince. destruct (H4 id c Hc Hsince) as [Hst Hor]. split; [done|].
    destruct Hor as [Hcur|[Ha|[Hu|Hq]]].
    + destruct (step_current _ _ _ Hstep H1 Hcur H2) as [|Hp]; [by left|right; right; left].
      cbn. by rewrite Hp, orb_true_r.
    + right. by left.
    + right. right. left. cbn. by rewrite Hu.
    + right. right. by right.
Qed.

Lemma signalled s id c ch :
  consoles s !! id = Some c -> bus s !! id = Some ch -> EventBus.ch_cap ch = 8%nat -> EventBus.ch_waiting ch = 0%nat ->
  exists ch', onChange (bus s) !! id = Some ch' /\ EventBus.ch_cap ch' = 8%nat /\ EventBus.ch_waiting ch' = 0%nat /\
    EventBus.ch_queue ch' <> [].
Proof using Type.
  intros _ Hb Hcap Hw. destruct (Frontdoor.ui_signalled "registry.changed" _ _ _ Hb) as (ch' & Hch & Hor); [lia|].
  exists ch'. split; [done|]. destruct Hor as [Hq|Hlt]; [|lia].
  unfold Frontdoor.ui_Publish in Hch. rewrite lookup_fmap, Hb in Hch. cbn in Hch. injection Hch as <-.
  unfold EventBus.try_send in *. rewrite Hw in *. by destruct (Nat.ltb _ _).
Qed.

(** Changing one console, and its channel, leaves the others as they were. *)
Lemma update_current s id c b' :
  Current s -> (forall id', id' <> id -> b' !! id' = bus s !! id') ->
  (c_stream c = true -> exists ch, b' !! id = Some ch /\ EventBus.ch_cap ch = 8%nat /\ EventBus.ch_waiting ch = 0%nat) ->
  (c_since c = true -> c_stream c = true /\ (current_for (c_seen c) (core s) \/ c_asked c = true)) ->
  Current (mkState (core s) b' (<[id := c]> (consoles s)) (unnotified s)).
Proof using Type.
  intros [H1 H2 H3 H4] Hb Hch Hseen. split; cbn [core bus consoles]; [done|done|..]; intros id' c' Hc';
    (destruct (decide (id = id')) as [<-|Hne];
     [rewrite lookup_insert_eq in Hc'; injection Hc' as <-|rewrite lookup_insert_ne in Hc' by done]).
  - exact Hch.
  - rewrite Hb by done. by apply H3.
  - intros Hs. destruct (Hseen Hs) as [Hst [Hc|Ha]]; (split; [done|]); [by left|right; by left].
  - intros Hs. destruct (H4 id' c' Hc' Hs) as [Hst [Hc|Hd]]; (split; [done|]); [by left|right].
    destruct Hd as [Ha|[Hu|(ch & Hl & Hq)]]; [by left|right; by left|right; right].
    exists ch. cbn [bus]. by rewrite Hb.
Qed.

Lemma event_inv id b out b' :
  Frontdoor.ui_loop id [Frontdoor.UIEvent true] b = ([out], b', false) ->
  exists cap ev q w r, b !! id = Some (EventBus.mkChan cap (ev :: q) w r) /\
    b' = <[id := EventBus.mkChan cap q w (r ++ [ev])]> b.
Proof using Type.
  cbn [Frontdoor.ui_loop]. destruct (b !! id) as [[cap [|ev q] w r]|]; [done| |done].
  intros [= _ <-]. by exists cap, ev, q, w, r.
Qed.

Lemma cstep_current s s' : cstep handshake P s s' -> Current s -> Current s'.
Proof using HP.
  intros Hstep Hs. destruct Hstep as [s core' Hc|s Hu|s id Hn|s id c Hc Hst|s id c out b' Hc Hl|s id c Hc Ha|s id c Hc Ha|s id c Hc].
  - by apply core_current.
  - destruct Hs as [H1 H2 H3 H4]. split; cbn [core bus consoles]; [done|done|..]; intros id c Hc.
    + intros Hst. destruct (H3 id c Hc Hst) as (ch & Hch & Hcap & Hw).
      destruct (signalled s id c ch Hc Hch Hcap Hw) as (ch' & ? & ? & ? & _). eauto.
    + intros Hsince. destruct (H4 id c Hc Hsince) as [Hst _]. split; [done|]. right. right. right.
      destruct (H3 id c Hc Hst) as (ch & Hch & Hcap & Hw).
      destruct (signalled s id c ch Hc Hch Hcap Hw) as (ch' & ? & _ & _ & ?). by exists ch'.
  - by apply update_current.
  - apply update_current; [done| | |done].
    + intros id' Hne. unfold Frontdoor.ui_open. by rewrite lookup_insert_ne.
    + intros _. unfold Frontdoor.ui_open. rewrite lookup_insert_eq. eauto.
  - destruct (event_inv _ _ _ _ Hl) as (cap & ev & q & w & r & Hb & ->). apply update_current; [done|..]; cbn [c_stream c_since c_asked].
    + intros id' Hne. by rewrite lookup_insert_ne.
    + intros Hst. destruct (cu_bus s Hs id c Hc Hst) as (ch & Hch & Hcap & Hw). rewrite Hb in Hch. injection Hch as <-.
      rewrite lookup_insert_eq. eauto.
    + intros Hsince. split; [|by right]. by destruct (cu_seen s Hs id c Hc Hsince).
  - apply update_current; [done|done|apply (cu_bus s Hs id c Hc)|]. intros Hst. split; [done|]. left.
    split; [done|]. intros _. by left.
  - apply update_current; [done|done|apply (cu_bus s Hs id c Hc)|done].
  - apply update_current; [done| |done|done].
    intros id' Hne. unfold Frontdoor.ui_close. by rewrite lookup_delete_ne.
Qed.
End current.


(** ** Schedules *)

Inductive cmove :=
| Core (v : move) | Notify | Load (id : nat) | Open_ (id : nat) | Event (id : nat) | Ask (id : nat).

Section playing.
Context (handshake : nat -> Package -> Z -> bool) (allowed : pc -> bool).

Definition cplay1 (v : cmove) (s : state) : option state :=
  match v with
  | Core v =>
      core' ← play1 handshake allowed v (core s);
      Some (mkState core' (bus s) (consoles s) (unnotified s || published (core s) core'))
  | Notify => if unnotified s then Some (mkState (core s) (onChange (bus s)) (consoles s) false) else None
  | Load id =>
      match consoles s !! id with
      | None => Some (mkState (core s) (bus s) (<[id := mkConsole false false (mgr (core s)) false]> (consoles s)) (unnotified s))
      | Some _ => None
      end
  | Open_ id =>
      c ← consoles s !! id;
      if c_stream c then None
      else Some (mkState (core s) (Frontdoor.ui_open id (bus s))
                   (<[id := mkConsole true (c_asked c) (c_seen c) false]> (consoles s)) (unnotified s))
  | Event id =>
      c ← consoles s !! id;
      match Frontdoor.ui_loop id [Frontdoor.UIEvent true] (bus s) with
      | ([_], b', false) =>
          Some (mkState (core s) b' (<[id := mkConsole (c_stream c) true (c_seen c) (c_since c)]> (consoles s)) (unnotified s))
      | _ => None
      end
  | Ask id =>
      c ← consoles s !! id;
      if c_asked c then Some (mkState (core s) (bus s) (<[id := ask c (mgr (core s))]> (consoles s)) (unnotified s))
      else None
  end.

Fixpoint cplay (vs : list cmove) (s : state) : option state :=
  match vs with [] => Some s | v :: vs => s' ← cplay1 v s; cplay vs s' end.

Lemma cplay1_step v s s' : cplay1 v s = Some s' -> cstep handshake (fun p => allowed p = true) s s'.
Proof using Type.
  destruct v as [v| |id|id|id|id]; cbn [cplay1].
  - destruct (play1 _ _ _ _) as [core'|] eqn:E; [|done]. simpl. intros [= <-].
    apply cs_core. by eapply play1_step.
  - destruct (unnotified s) eqn:E; [|done]. intros [= <-]. by apply cs_notify.
  - destruct (consoles s !! id) eqn:E; [done|]. intros [= <-]. by apply cs_load.
  - destruct (consoles s !! id) as [c|] eqn:E; [|done]. simpl. destruct (c_stream c) eqn:Ec; [done|].
    intros [= <-]. by apply cs_open.
  - destruct (consoles s !! id) as [c|] eqn:E; [|done]. cbn [mbind option_bind].
    destruct (Frontdoor.ui_loop id [Frontdoor.UIEvent true] (bus s)) as [[outs b'] ended] eqn:El.
    intros H. destruct outs as [|out [|]], ended; try discriminate H. injection H as <-. by eapply cs_event.
  - destruct (consoles s !! id) as [c|] eqn:E; [|done]. simpl. destruct (c_asked c) eqn:Ec; [|done].
    intros [= <-]. by apply cs_ask.
Qed.

Lemma cplay_rtc vs s s' : cplay vs s = Some s' -> rtc (cstep handshake (fun p => allowed p = true)) s s'.
Proof using Type.
  revert s. induction vs as [|v vs IH]; intros s; cbn [cplay]; [by intros [= <-]|].
  destruct (cplay1 v s) as [s1|] eqn:E; [|done]. simpl. intros H. eapply rtc_l; [by eapply cplay1_step|eauto].
Qed.
End playing.

(** A plugin with a page of its own. *)
Definition with_page : Package :=
  mkPackage "plugins/notes" (mkManifest "notes" "" "1.0.0" 0 (mkRuntime "notes" [] 1) [] [] [] [] [] [] [])
    "plugins/notes/notes" "" "plugins/notes/frontend" [].

Definition zero (k : string) : Z := 0.

(** The keys an answer lists. *)
Definition listed (m : manager) : list string := Menu.a_Key <$> (apps_answer zero zero "" m).1.

(** The directory has been scanned, no console is open. *)
Definition scanned : option state :=
  s ← play starts any [Request (AScan ([with_page], ∅)); Turn 0 false] (start DefaultSupervisorConfig 0);
  Some (mkState s ∅ ∅ false).

Definition shown (s : state) (id : nat) : list string :=
  match consoles s !! id with Some c => listed (c_seen c) | None => [] end.

(** Nothing is on its way to the console. *)
Definition settled (s : state) (id : nat) : bool :=
  negb (unnotified s) &&
  match consoles s !! id, bus s !! id with
  | Some c, Some ch => negb (c_asked c) && match EventBus.ch_queue ch with [] => true | _ => false end
  | _, _ => false
  end.

Lemma scanned_cases vs q :
  from_option q false (s0 ← scanned; cplay starts any vs s0) = true ->
  exists s0 s, consoles s0 = ∅ /\ RegInv (mw (mgr (core s0))) /\
    rtc (cstep starts (fun p => any p = true)) s0 s /\ q s = true.
Proof.
  unfold scanned. destruct (play _ _ _ _) as [c|] eqn:E; [|done]. cbn [mbind option_bind].
  destruct (cplay starts any vs _) as [s|] eqn:Ec; [|done]. intros Hq. eexists _, s.
  split; [|split; [|split; [by eapply cplay_rtc|done]]]; [done|].
  apply play_rtc in E. exact (ow_reg _ _ (rtc_owned _ _ _ _ E (start_owned _ _))).
Qed.

(** The console is open when the plugin is disabled; the signal reaches it and it
    asks. *)
Definition told : list cmove :=
  [Core (Request (AEnable "notes"))] ++ replicate 8 (Core (Turn 1 false)) ++
  [Notify; Load 0; Open_ 0; Core (Request (ADisable "notes")); Core (Turn 3 false); Core (Turn 3 false); Notify;
   Event 0; Ask 0].


(** [Enable] publishes the plugin, which sends the signal, and records it as enabled
    afterwards. A console that asks in between is told of no plugin, and nothing
    tells it to ask again: it goes on showing none. *)
Example enable_seen_too_early :
  exists s0 s, consoles s0 = ∅ /\ rtc (cstep starts (fun p => any p = true)) s0 s /\
    settled s 0 = true /\ threads (core s) !! 1%nat = Some Done /\
    shown s 0 = [] /\ listed (mgr (core s)) = ["notes"].
Proof.
  destruct (scanned_cases
    ([Load 0; Open_ 0; Core (Request (AEnable "notes"))] ++ replicate 4 (Core (Turn 1 false)) ++
     [Notify; Event 0; Ask 0] ++ replicate 4 (Core (Turn 1 false)))
    (fun s => settled s 0 && match threads (core s) !! 1%nat with Some Done => true | _ => false end &&
       bool_decide (shown s 0 = []) && bool_decide (listed (mgr (core s)) = ["notes"])))
    as (s0 & s & Hn & _ & Hs & [[[Hset Hd]%andb_true_iff Hsh]%andb_true_iff Hl]%andb_true_iff); [vm_compute; reflexivity|].
  apply bool_decide_eq_true in Hsh, Hl. exists s0, s. do 3 (split; [done|]). split; [|done].
  by destruct (threads (core s) !! 1%nat) as [[]|].
Qed.

(** A console asks before it opens its stream, and not when it opens: what changes
    between, or while a lost stream is being reopened, it does not learn of. *)
Example missed_before_open :
  exists s0 s, consoles s0 = ∅ /\ rtc (cstep starts (fun p => any p = true)) s0 s /\
    settled s 0 = true /\ shown s 0 = ["notes"] /\ listed (mgr (core s)) = [].
Proof.
  destruct (scanned_cases
    ([Core (Request (AEnable "notes"))] ++ replicate 8 (Core (Turn 1 false)) ++
     [Notify; Load 0; Core (Request (ADisable "notes")); Core (Turn 3 false); Core (Turn 3 false); Notify; Open_ 0])
    (fun s => settled s 0 && bool_decide (shown s 0 = ["notes"]) && bool_decide (listed (mgr (core s)) = [])))
    as (s0 & s & Hn & _ & Hs & [[Hset Hsh]%andb_true_iff Hl]%andb_true_iff); [vm_compute; reflexivity|].
  apply bool_decide_eq_true in Hsh, Hl. by exists s0, s.
Qed.
