(* ===== verification/Startup.v ===== *)
(** * core/main.go: what Core is started with, and the plugins it starts

    The settings main reads from the environment, the capabilities and routes
    they switch on, and the start of the plugins: the scan of the directory and
    [EnableAll]. What main does after the signal is in Supervision.v, its routes and
    audit log in Frontdoor.v, the host's backends in HostWorld.v. *)

From S2P Require Import Prelude GoStrings Manifest Wire StableSort Chain Pipeline Breaker Instance Registry Manager.
From S2P Require Egress HostServer Admin Frontdoor Storage.

Open Scope Z_scope.

(** ** The environment *)

Section environment.
Context (Getenv : string -> string).

Definition env (key def : string) : string := if negb (String.eqb (Getenv key) "") then Getenv key else def.

Record settings := mkSettings {
  HTTP_ADDR : string; DATABASE_URL : string; ADMIN_USERNAME : string; ADMIN_PASSWORD : string;
  obs_level : string          (** of what plugins log through the host *);
  PLUGIN_DIR : string; PLUGIN_DATA_DIR : string;
  launch_level : string       (** handed to a plugin when it is launched *);
  HOST_FRONTEND_DIR : string
}.

Definition settings_of_env : settings :=
  mkSettings (env "HTTP_ADDR" ":80") (Getenv "DATABASE_URL") (env "ADMIN_USERNAME" "admin")
    (env "ADMIN_PASSWORD" "admin123") (env "PLUGIN_LOG_LEVEL" "info") (env "PLUGIN_DIR" "./plugins")
    (env "PLUGIN_DATA_DIR" "") (env "PLUGIN_LOG_LEVEL" "warn") (env "HOST_FRONTEND_DIR" "./core/frontend/dist").

(** The configuration the S3 SDK loads. *)
Context {C : Type} (LoadDefaultConfig : string -> string * string -> result string C).

Definition buildStorage : option (Storage.RustFSClient (C := C)) :=
  let endpoint := Getenv "RUSTFS_ENDPOINT" in
  let bucket := Getenv "RUSTFS_BUCKET" in
  if String.eqb endpoint "" || String.eqb bucket "" then None
  else res_to_option (Storage.NewRustFSClient LoadDefaultConfig endpoint bucket
                        (Getenv "RUSTFS_ACCESS_KEY") (Getenv "RUSTFS_SECRET_KEY")).

(** What main goes on with, and [None] where it ends the process because the
    database does not open: [InitDB] is that of Storage.v on its library. *)
Context {D : Type} (InitDB : string -> D -> result string Storage.pool * D).

Record resources := mkResources { r_conn : option Storage.pool; r_storage : option (Storage.RustFSClient (C := C)) }.

Definition open_resources (d : D) : option resources * D :=
  let url := Getenv "DATABASE_URL" in
  if String.eqb url "" then (Some (mkResources None None), d)
  else match InitDB url d with
       | (Ok c, d) => (Some (mkResources (Some c) buildStorage), d)
       | (Err _, d) => (None, d)
       end.
End environment.

(** ** What a plugin is given *)

Section deps.
Context {W F : Type}.
(** The backends of hostsvc, over what was opened. *)
Context (data : HostServer.DataBackend (W := W) (F := F)) (queue : HostServer.QueueBackend (W := W))
  (cache : HostServer.CacheBackend (W := W)) (locks : HostServer.LockBackend (W := W))
  (config : string -> W -> result string (gmap string string) * W) (files : HostServer.FileBackend (W := W))
  (events : HostServer.EventBackend (W := W))
  (egress : string -> Egress.EgressRequest -> W -> result HostServer.egress_failure Egress.EgressResponse * W)
  (obs : HostServer.ObsBackend (W := W) (F := F)).

(** [hostDeps] as the factory copies it at a launch: by then main has set all it
    is going to set. *)
Definition host_deps_of (db storage : bool) : HostServer.Deps (W := W) (F := F) :=
  HostServer.mkDeps (if db then Some data else None) (if db then Some queue else None) (Some cache) (Some locks)
    (Some config) (if db && storage then Some files else None) (Some events) (Some egress) (Some obs).
End deps.

(** ** Starting the plugins *)

Section boot.
Context (handshake : nat -> Package -> Z -> bool).

Definition boot (found : list Package * gmap string package_error) (m : manager) : manager :=
  (EnableAll handshake (Scan found m)).2.
End boot.

(** What main logs of each plugin. *)
Inductive boot_line :=
| NotLoaded (key : string) (e : plugin_error)
| Loaded (key version : string) (ready replicas : Z) (filters : nat).

Definition boot_report (sts : list Status) : list boot_line :=
  (fun st => match st_LoadError st with
             | Some e => NotLoaded (st_Key st) e
             | None => Loaded (st_Key st) (st_Version st) (st_Ready st) (st_Replicas st) (st_Filters st)
             end) <$> sts.

(** ** [EnableAll] *)

Section enabling.
Context (handshake : nat -> Package -> Z -> bool).

(** The plugin serves with all its replicas. *)
Definition started (m : manager) (key : string) : Prop :=
  exists pkg insts, packages m !! key = Some pkg /\ key ∈ enabled m /\
    SnapReplicas (w_current (mw m)) key (mw m) = insts /\
    Z.of_nat (length insts) = ReplicaCount (p_Manifest pkg) /\
    Forall (fun l => exists i, heap (mw m) !! l = Some i /\ i_state i = StateReady /\ i_Key i = p_Key pkg) insts.

(** It does not, and the console is told why. *)
Definition not_started (m : manager) (key : string) : Prop :=
  key ∉ enabled m /\ regs (mw m) !! key = None /\ exists e, m_errors m !! key = Some (EnableError e).

Lemma Enable_errors key m : m_errors (Enable handshake key m).2 = m_errors m.
Proof using Type.
  unfold Enable. destruct (packages m !! key) as [pkg|]; [|done].
  destruct (launchAll handshake pkg m) as [r m1] eqn:E. apply launchAll_spec in E.
  destruct r as [insts|].
  - destruct E as (_ & _ & [(h & n & ->) _ _ _]). done.
  - by destruct E as ((h & n & ->) & _).
Qed.

Lemma SnapReplicas_none w k : RegInv w -> regs w !! k = None -> SnapReplicas (w_current w) k w = [].
Proof using Type.
  intros Hi Hn. unfold SnapReplicas. destruct (s_plugins (w_current w) !! k) as [p|] eqn:E; [|done].
  destruct (proj2 (ri_keys w Hi k) (ex_intro _ _ E)). congruence.
Qed.

Lemma SnapReplicas_some w k reg :
  RegInv w -> regs w !! k = Some reg -> SnapReplicas (w_current w) k w = r_Instances reg.
Proof using Type.
  intros Hi Hk. unfold SnapReplicas. destruct (proj1 (ri_keys w Hi k) (ex_intro _ _ Hk)) as [p Hp].
  destruct (ri_sets w Hi k p reg Hp Hk) as (rs & Hrs & He). by rewrite Hp, Hrs.
Qed.

(** Another plugin's enabling leaves one that was started as it is. *)
Lemma started_frame m m' key :
  RegInv (mw m) -> RegInv (mw m') -> keeps (heap (mw m)) (heap (mw m')) -> packages m' = packages m ->
  enabled m ⊆ enabled m' -> regs (mw m') !! key = regs (mw m) !! key -> started m key -> started m' key.
Proof using Type.
  intros Hi Hi' Hk Hp He Hr (pkg & insts & H1 & H2 & H3 & H4 & H5). exists pkg, insts.
  split; [by rewrite Hp|]. split; [set_solver|]. split; [|split; [done|]].
  - rewrite <- H3. destruct (regs (mw m) !! key) as [reg|] eqn:E.
    + by rewrite (SnapReplicas_some _ _ _ Hi' Hr), (SnapReplicas_some _ _ _ Hi E).
    + by rewrite !SnapReplicas_none.
  - eapply list.Forall_impl; [exact H5|]. intros l (i & Hl & Hs). exists i. split; [|done]. by eapply lookup_weaken.
Qed.

(** The keys [ks] have been tried; the others are as they were in [m0]. *)
Record Tried (m0 : manager) (ks : list string) (err : option manager_error) (m : manager) : Prop := mkTried {
  tr_reg : RegInv (mw m);
  tr_packages : packages m = packages m0;
  tr_each : forall key, key ∈ ks -> (started m key /\ m_errors m !! key = m_errors m0 !! key) \/ not_started m key;
  tr_rest : forall key, key ∉ ks -> key ∉ enabled m /\ regs (mw m) !! key = None /\ m_errors m !! key = m_errors m0 !! key;
  tr_err : err = None <-> forall key, key ∈ ks -> started m key
}.

(** A plugin that fails to start is reported; nothing else changes. *)
Lemma try_failed m0 ks err m key e h n :
  Tried m0 ks err m -> key ∉ ks ->
  let m1 := mkManager (set_heap h (mw m)) (packages m) (enabled m) (m_errors m) (scfg m) (crashes m) (quarantined m)
              (watched m) n in
  keeps (heap (mw m)) h ->
  Tried m0 (ks ++ [key]) (match err with None => Some e | Some _ => err end)
    (set_packages (packages m1) (<[key := EnableError e]> (m_errors m1)) m1).
Proof using Type.
  clear handshake.
  intros [Hi Hp Heach Hrest Herr] Hnew m1 Hk. destruct (Hrest key Hnew) as (Hne & Hnr & Hme).
  set (m2 := set_packages _ _ m1).
  assert (forall k, started m k -> started m2 k) as Hst.
  { intros k. apply started_frame; [done|by apply RegInv_set_heap|done..]. }
  split.
  - by apply RegInv_set_heap.
  - done.
  - intros k [Hin| ->%list_elem_of_singleton]%elem_of_app; cbn.
    + assert (k <> key) as Hkk by (intros ->; done). unfold not_started. cbn. rewrite lookup_insert_ne by done.
      destruct (Heach k Hin) as [[H1 H2]|H1]; [left; split; [by apply Hst|done]|by right].
    + right. split; [done|]. split; [done|]. exists e. apply lookup_insert_eq.
  - intros k [Hin Hkk%not_elem_of_cons]%not_elem_of_app. cbn. rewrite lookup_insert_ne by naive_solver. by apply Hrest.
  - split; [by destruct err|]. intros H. exfalso.
    destruct (H key) as (? & ? & _ & He & _); [apply elem_of_app; right; by left|done].
Qed.

Lemma try_started m0 ks err m key pkg insts m1 :
  Tried m0 ks err m -> key ∉ ks -> keeps (heap (mw m)) (heap (mw m1)) -> packages m1 = packages m ->
  m_errors m1 = m_errors m -> packages m !! key = Some pkg -> Published key pkg insts m m1 ->
  Tried m0 (ks ++ [key]) err m1.
Proof using Type.
  clear handshake.
  intros [Hi Hp Heach Hrest Herr] Hnew Hk Hpk Hm Hpkg [H1 H2 H3 H4 H5 H6 H7 H8 H9].
  assert (forall k, k <> key -> started m k -> started m1 k) as Hst.
  { intros k Hkk. apply started_frame; [done..|set_solver|]. by rewrite H5, lookup_insert_ne. }
  assert (started m1 key) as Hnow.
  { exists pkg, insts. split; [by rewrite Hpk|]. split; [set_solver|]. split; [done|]. split; [done|].
    eapply list.Forall_impl; [exact H3|]. intros l (_ & i & Hl). by exists i. }
  assert (forall k, k ∈ ks -> k <> key) as Hkey by (intros k Hin ->; done).
  split; [done|by rewrite Hpk| | |].
  - intros k [Hin| ->%list_elem_of_singleton]%elem_of_app; [|left; split; [done|rewrite Hm; by apply Hrest]].
    destruct (Heach k Hin) as [[Ha Hb]|(Ha & Hb & Hc)]; [left|right].
    + split; [by apply Hst; [apply Hkey|]|by rewrite Hm].
    + pose proof (Hkey k Hin). split; [set_solver|]. by rewrite H5, lookup_insert_ne, Hm.
  - intros k [Hin Hkk%not_elem_of_cons]%not_elem_of_app. destruct (Hrest k Hin) as (Ha & Hb & Hc).
    split; [set_solver|]. rewrite H5, lookup_insert_ne, Hm by naive_solver. done.
  - rewrite Herr. split.
    + intros H k [Hin| ->%list_elem_of_singleton]%elem_of_app; [|done]. apply Hst; [by apply Hkey|by apply H].
    + intros H k Hin. destruct (Heach k Hin) as [[? _]|(Hns & _)]; [done|]. exfalso. pose proof (Hkey k Hin).
      destruct (H k) as (? & ? & _ & He & _); [apply elem_of_app; by left|]. set_solver.
Qed.

Lemma try_all m0 todo : forall ks err m,
  Tried m0 ks err m -> NoDup (ks ++ todo) ->
  let '(err', m') := foldl (fun '(firstErr, m) key =>
           match Enable handshake key m with
           | (Some e, m) =>
               (match firstErr with None => Some e | Some _ => firstErr end,
                set_packages (packages m) (<[key := EnableError e]> (m_errors m)) m)
           | (None, m) => (firstErr, m)
           end) (err, m) todo in
  Tried m0 (ks ++ todo) err' m'.
Proof using Type.
  induction todo as [|key todo IH]; intros ks err m H Hn; cbn [foldl]; [by rewrite app_nil_r|].
  assert (key ∉ ks) as Hnew.
  { apply list.NoDup_app in Hn as (_ & Hd & _). intros Hin. apply (Hd key Hin). by left. }
  replace (ks ++ key :: todo) with ((ks ++ [key]) ++ todo) in Hn |- * by (by rewrite <- app_assoc).
  pose proof (Enable_spec handshake key m (tr_reg _ _ _ _ H)) as Hs. pose proof (Enable_errors key m) as Hm.
  destruct (Enable handshake key m) as [[e|] m1]; cbn [snd] in Hm; destruct Hs as (Hk & Hpk & Hs).
  - apply IH; [|done]. destruct Hs as [((h & n & ->) & _) _]. by apply try_failed.
  - apply IH; [|done]. destruct Hs as (pkg & insts & Hp & Hpub). by eapply try_started.
Qed.
End enabling.

(** At its start Core brings up what it can. From a manager that runs nothing,
    [EnableAll] leaves every installed plugin in one of two states: enabled and
    routed to as many Ready replicas of its package as the manifest asks for,
    with nothing new reported of it; or neither enabled nor routed, with the
    reason recorded for the console. One that fails keeps no other from
    starting, nothing but an installed plugin is started, and the error
    returned is nil exactly when all of them were. *)
Lemma EnableAll_each handshake m :
  RegInv (mw m) -> enabled m = ∅ -> regs (mw m) = ∅ ->
  let '(err, m') := EnableAll handshake m in
  RegInv (mw m') /\ packages m' = packages m /\
  (forall key, is_Some (packages m !! key) ->
     (started m' key /\ m_errors m' !! key = m_errors m !! key) \/ not_started m' key) /\
  (forall key, packages m !! key = None ->
     key ∉ enabled m' /\ regs (mw m') !! key = None /\ m_errors m' !! key = m_errors m !! key) /\
  (err = None <-> forall key, is_Some (packages m !! key) -> started m' key).
Proof.
  intros Hi He Hr. unfold EnableAll. set (ks := sort_stable _ _).
  assert (forall key, key ∈ ks <-> is_Some (packages m !! key)) as Hks.
  { intros key. unfold ks. rewrite sort_stable_perm, list_elem_of_fmap. split.
    - intros ([k pkg] & -> & Hin). apply elem_of_map_to_list in Hin. by exists pkg.
    - intros [pkg Hp]. exists (key, pkg). by rewrite elem_of_map_to_list. }
  assert (NoDup ks) as Hn by (unfold ks; rewrite sort_stable_perm; apply NoDup_fst_map_to_list).
  assert (Tried m [] None m) as H0.
  { split; [done|done|by intros ? ?%not_elem_of_nil| |].
    - intros key _. rewrite He, Hr, lookup_empty. split; [set_solver|done].
    - split; [by intros _ ? ?%not_elem_of_nil|done]. }
  pose proof (try_all handshake m ks [] None m H0 Hn) as H. cbn [app] in H.
  destruct (foldl _ _ _) as [err m']. destruct H as [H1 H2 H3 H4 H5]. split; [done|]. split; [done|]. split; [|split].
  - intros key Hk. by apply H3, Hks.
  - intros key Hk. apply H4. rewrite Hks, Hk. by intros [].
  - rewrite H5. by setoid_rewrite Hks.
Qed.

(** ** Without a database *)

(** The calls that need what DATABASE_URL switches on. *)
Definition needs_store {F} (q : HostServer.rpc_call (F := F)) : bool :=
  match q with
  | HostServer.RPut _ | HostServer.RGet _ | HostServer.RDelete _ | HostServer.RFind _ _ _ _ _
  | HostServer.RQuery _ _ _ _ _ _ | HostServer.RAggregate _ _ _ _ _ _ | HostServer.RBatchWrite _ _
  | HostServer.RBeginTx _ | HostServer.RCommitTx _ | HostServer.RRollbackTx _
  | HostServer.REnqueue _ _ _ _ _ _ _ | HostServer.RConsume _ _ _ | HostServer.RAck _ | HostServer.RNack _ _ _
  | HostServer.RPutFile _ _ | HostServer.RDeleteFile _ | HostServer.RGenerateDownloadToken _ _ _
  | HostServer.RGetFileMetadata _ => true
  | _ => false
  end.

Section without.
Context {W F : Type} (data : HostServer.DataBackend (W := W) (F := F)) (queue : HostServer.QueueBackend (W := W))
  (cache : HostServer.CacheBackend (W := W)) (locks : HostServer.LockBackend (W := W))
  (config : string -> W -> result string (gmap string string) * W) (files : HostServer.FileBackend (W := W))
  (events : HostServer.EventBackend (W := W))
  (egress : string -> Egress.EgressRequest -> W -> result HostServer.egress_failure Egress.EgressResponse * W)
  (obs : HostServer.ObsBackend (W := W) (F := F)).
Notation deps := (host_deps_of data queue cache locks config files events egress obs).

Lemma require_in key perms p : p ∈ perms -> HostServer.require key perms p = Ok ().
Proof using Type. intros H. unfold HostServer.require, HostServer.perm_has. by rewrite bool_decide_eq_true_2. Qed.

Lemma requireTx_in key perms tx : Forall (.∈ perms) (HostServer.needs_tx tx) -> HostServer.requireTx key perms tx = Ok ().
Proof using Type.
  unfold HostServer.requireTx, HostServer.needs_tx. destruct (String.eqb tx ""); [done|].
  intros [H _]%list.Forall_cons. by apply require_in.
Qed.

(** A plugin on a Core without a database keeps its other capabilities, and is
    told Unavailable, with nothing done, by each call it has the permission for
    that would need one. *)
Lemma without_database storage key perms md now q c :
  needs_store q = true -> Forall (.∈ perms) (HostServer.permissions_of q) ->
  exists what, HostServer.serve key perms (deps false storage) md now q c = (Err (HostServer.unavailable what), c).
Proof using Type.
  intros Hq Hp. destruct q; try discriminate Hq; cbn [HostServer.permissions_of] in Hp;
    apply list.Forall_cons in Hp as [Hp Htx]; cbn [HostServer.serve];
    unfold HostServer.outcome, HostServer.Put, HostServer.Get, HostServer.Delete, HostServer.Find, HostServer.Query,
      HostServer.Aggregate, HostServer.BatchWrite, HostServer.with_data, HostServer.BeginTx, HostServer.CommitTx,
      HostServer.RollbackTx, HostServer.dataBackend, HostServer.Enqueue, HostServer.Consume, HostServer.Ack,
      HostServer.Nack, HostServer.with_queue, HostServer.PutFile, HostServer.DeleteFile,
      HostServer.GenerateDownloadToken, HostServer.GetFileMetadata, HostServer.with_files;
    rewrite (require_in _ _ _ Hp); try rewrite (requireTx_in _ _ _ Htx); by eexists.
Qed.

End without.

(** *** The administration's manager *)

(** [gateway.PluginManager] is the manager; [found] and [reload] are what the
    directory holds, [accepts] whether a replica takes the new settings, and the
    texts are those of the errors. *)
Definition plugin_manager (handshake : nat -> Package -> Z -> bool) (QueueDepth QueueDead : string -> Z)
    (found : list Package * gmap string package_error) (reload : string -> result package_error Package)
    (obs : loc -> list (Z * wait_event)) (accepts : loc -> bool)
    (text : manager_error -> string) (drain_text : drain_result -> string) (push_text : loc -> string)
    : Admin.PluginManager (W := manager) :=
  Admin.mkPluginManager (Scan found) (List QueueDepth QueueDead)
    (fun k m => let '(e, m) := Enable handshake k m in (text <$> e, m))
    (fun k m => let '(e, m) := Disable obs k m in (drain_text <$> e, m))
    (fun k m => let '(e, m) := Upgrade handshake k (reload k) m in (text <$> e, m))
    (fun k cfg m => (push_text <$> (SetConfig accepts k cfg m).2, m)).

(** [adminAuth]: nil on a Core that opened no database. *)
Definition admin_auth {C} (r : resources (C := C))
    (resolve : string -> option Auth.User) : option (string -> option Auth.User) :=
  match r_conn r with Some _ => Some resolve | None => None end.

(** ** A plugin that starts, and one that does not *)

Definition package_of (key : string) : Package :=
  mkPackage ("plugins/" +:+ key) (mkManifest key "" "1.0.0" 0 (mkRuntime key [] 1) [] [] [] [] [] [] [])
    ("plugins/" +:+ key +:+ "/" +:+ key) "" "" [].

Definition nothing_runs : manager := NewManager DefaultSupervisorConfig (NewRegistry 0 ∅).

Definition two_found : list Package * gmap string package_error := ([package_of "broken"; package_of "notes"], ∅).

(** The process of one of them does not come up: the other runs all the same. *)
Definition notes_only (n : nat) (pkg : Package) (index : Z) : bool := String.eqb (p_Key pkg) "notes".

Example one_of_two_starts :
  let '(err, m') := EnableAll notes_only (Scan two_found nothing_runs) in
  err = Some LaunchFailed /\
  boot_report (List (fun _ => 0) (fun _ => 0) m') =
    [NotLoaded "broken" (EnableError LaunchFailed); Loaded "notes" "1.0.0" 1 1 0].
Proof. vm_compute. split; reflexivity. Qed.

(** ** Where the documents and the code differ *)

(** Nothing takes a failure at the start off the record but the next scan: a
    plugin that did not come up with Core and was enabled later, and runs, is
    still listed with its load error. *)
Definition second_try (n : nat) (pkg : Package) (index : Z) : bool := negb (Nat.eqb n 0).

Example load_error_stays :
  let m := boot second_try ([package_of "notes"], ∅) nothing_runs in
  let '(err, m') := Enable second_try "notes" m in
  err = None /\ (fun st => (st_Key st, st_Enabled st, st_Ready st, st_LoadError st)) <$> List (fun _ => 0) (fun _ => 0) m' =
    [("notes", true, 1, Some (EnableError LaunchFailed))].
Proof. vm_compute. split; reflexivity. Qed.

(** One variable, two defaults: docs/deployment.md gives the second. *)
Example log_levels Getenv :
  Getenv "PLUGIN_LOG_LEVEL" = "" ->
  obs_level (settings_of_env Getenv) = "info" /\ launch_level (settings_of_env Getenv) = "warn".
Proof. intros H. unfold settings_of_env, env. cbn [obs_level launch_level]. by rewrite H. Qed.

(** docs/deployment.md asks for all four RUSTFS variables; the keys may be missing. *)
Example storage_without_keys {C} Getenv (load : string -> string * string -> result string C) cfg :
  load "us-east-1" ("", "") = Ok cfg ->
  Getenv "RUSTFS_ENDPOINT" = "http://s3" -> Getenv "RUSTFS_BUCKET" = "files" ->
  Getenv "RUSTFS_ACCESS_KEY" = "" -> Getenv "RUSTFS_SECRET_KEY" = "" ->
  buildStorage Getenv load = Some (Storage.mkRustFSClient (Storage.mkS3Client cfg "http://s3" true) "files").
Proof. intros H H1 H2 H3 H4. unfold buildStorage, Storage.NewRustFSClient. rewrite H1, H2, H3, H4. cbn. by rewrite H. Qed.

(** Without a database the administration of plugins, every route of which is
    said to require an admin session, asks nobody for one: a request with no
    header at all enables a plugin. *)
Example anyone_enables resolve :
  let auth := admin_auth (C := unit) (mkResources None None) resolve in
  let mgr := plugin_manager starts (fun _ => 0) (fun _ => 0) two_found (fun _ => Err PkgNoBinary) (fun _ => [])
               (fun _ => true) (fun _ => "") (fun _ => "") (fun _ => "") in
  let r := Gateway.mkRequest "POST" "/api/system/plugins/notes/enable" "" ∅ "203.0.113.9:40000" Gateway.NoBody in
  let '((status, _), m') := Admin.PluginsServe auth mgr None None (fun _ => None) (fun _ _ => "") r (Scan two_found nothing_runs) in
  (status =? 200) && bool_decide ("notes" ∈ enabled m') = true.
Proof. vm_compute. reflexivity. Qed.
