(* ===== verification/Sdk.v ===== *)
(** * sdk/plugin: a plugin process on its side of the connection

    context.go, bridge.go and sdk.go, with pluginapi: what a handler and a
    filter see of a request, how a filter's decision is built and sent back, and
    the life of the process between Configure and Shutdown. The author's
    functions are parameters, over a state [P] of their own. The theorems join
    this side to Core's pipeline: what a filter says is what the request
    becomes.

    A Go map that is ranged over is handed to [range], its entries in whatever
    order the range visits them. *)

From Stdlib Require Import Ascii.
From S2P Require Import Prelude GoStrings Manifest Wire Chain Pipeline.

(** ** context.go: the caller *)

Record UserContext := mkUserContext { UserID : string; Username : string; Roles : list string }.

#[export] Instance UserContext_eq_dec : EqDecision UserContext.
Proof. solve_decision. Defined.

(** A nil pointer is [None]. *)
Definition Name (u : option UserContext) : string :=
  match u with None => "" | Some u => Username u end.
Definition ID (u : option UserContext) : string :=
  match u with None => "" | Some u => UserID u end.
Definition Authenticated (u : option UserContext) : bool :=
  match u with None => false | Some u => negb (String.eqb (UserID u) "") end.
Definition HasRole (u : option UserContext) (role : string) : bool :=
  match u with None => false | Some u => existsb (fun r => String.eqb r role) (Roles u) end.

(** What a [context.Context] carries under the three keys of the package. *)
Record context := mkContext {
  cx_user : option UserContext; cx_trace : string; cx_values : gmap string string
}.
Definition Background : context := mkContext None "" ∅.

Definition User (c : context) : option UserContext := cx_user c.
Definition TraceID (c : context) : string := cx_trace c.
Definition Values (c : context) : gmap string string := cx_values c.

Definition WithUser (c : context) (u : option UserContext) : context := mkContext u (cx_trace c) (cx_values c).
Definition withTrace (c : context) (traceID : string) : context :=
  if String.eqb traceID "" then c else mkContext (cx_user c) traceID (cx_values c).

Definition identityFrom (i : Identity) : UserContext :=
  mkUserContext (id_UserId i) (id_Username i) (id_Roles i).

Definition withIdentity (c : context) (i : option Identity) : context :=
  match i with Some i => WithUser c (Some (identityFrom i)) | None => c end.

Definition withRequestValues (c : context) (r : HttpRequest) : context :=
  withIdentity (withTrace c (hr_TraceId r)) (hr_Identity r).

Definition withFilterValues (c : context) (r : Wire.FilterRequest) : context :=
  let c := withIdentity (withTrace c (fr_TraceId r)) (fr_Identity r) in
  if decide (fr_Context r = ∅) then c else mkContext (cx_user c) (cx_trace c) (fr_Context r).

(** The metadata a call back into Core carries. *)
Definition outgoing (c : context) : list string := if String.eqb (TraceID c) "" then [] else [TraceID c].

(** ** Headers (bridge.go) *)

Definition headersFrom (l : header_edits) : Header :=
  foldl (fun out kv => <[CanonicalHeaderKey kv.1 := kv.2]> out) ∅ l.

(** [None] is a nil map; an empty one is sent as nil as well. *)
Definition headersTo (h : option Header) : Header := default ∅ h.

(** ** FilterRequest *)

Definition PhasePreRoute : Z := 0.
Definition PhaseAuthenticate : Z := 1.
Definition PhaseAuthorize : Z := 2.
Definition PhasePreHandler : Z := 3.
Definition PhasePostHandler : Z := 4.
Definition PhaseOnError : Z := 5.
Definition PhaseLog : Z := 6.

Record FilterRequest := mkSdkRequest {
  sq_Phase : Z; sq_TraceID : string; sq_Method : string; sq_Name : string; sq_Path : string;
  sq_Query : string; sq_ClientIP : string; sq_Header : Header; sq_Identity : option UserContext;
  sq_Body : string; sq_ResponseStatus : Z; sq_ResponseHeader : Header; sq_ResponseBody : string;
  sq_Values : gmap string string
}.

Section sdk.
Context (range : Header -> header_edits) (range_values : gmap string string -> list (string * string)).

(** [Phase(req.GetPhase() - 1)], in 32 bits. *)
Definition sdk_phase (p : Phase) : Z := int32 (p - 1).

Definition filterRequestFrom (r : Wire.FilterRequest) : FilterRequest :=
  mkSdkRequest (sdk_phase (fr_Phase r)) (fr_TraceId r) (fr_Method r) (fr_FilterName r) (fr_Path r)
    (fr_Query r) (fr_ClientIp r) (headersFrom (range (fr_Headers r))) (identityFrom <$> fr_Identity r)
    (fr_Body r) (fr_UpstreamStatus r) (headersFrom (range (fr_UpstreamHeaders r))) (fr_UpstreamBody r)
    (fr_Context r).

(** ** FilterResult *)

(** The header maps and the values may be nil. *)
Record FilterResult := mkFilterResult {
  res_action : Action; res_status : Z; res_body : string; res_stopHdr : option Header;
  res_setReqHeaders : option Header; res_removeReqHeaders : list string;
  res_setRespHeaders : option Header; res_removeRespHdrs : list string;
  res_rewritePath : string; res_identity : option UserContext; res_values : option (gmap string string)
}.

Definition Continue : FilterResult :=
  mkFilterResult ACTION_CONTINUE 0 "" None None [] None [] "" None None.
Definition Stop (status : Z) (body : string) : FilterResult :=
  mkFilterResult ACTION_SHORT_CIRCUIT status body (Some ∅) None [] None [] "" None None.
Definition Mutate : FilterResult :=
  mkFilterResult ACTION_MUTATE 0 "" None (Some ∅) [] (Some ∅) [] "" None (Some ∅).

Definition WithHeader (r : FilterResult) (key value : string) : FilterResult :=
  mkFilterResult (res_action r) (res_status r) (res_body r)
    (Some (Header_Add (default ∅ (res_stopHdr r)) key value))
    (res_setReqHeaders r) (res_removeReqHeaders r) (res_setRespHeaders r) (res_removeRespHdrs r)
    (res_rewritePath r) (res_identity r) (res_values r).

(** The next one and [SetResponseHeader] panic on a result whose map is nil,
    one that [Mutate] did not make: [None]. *)
Definition SetRequestHeader (r : FilterResult) (key value : string) : option FilterResult :=
  h ← res_setReqHeaders r;
  Some (mkFilterResult (res_action r) (res_status r) (res_body r) (res_stopHdr r)
    (Some (Header_Set key value h)) (res_removeReqHeaders r) (res_setRespHeaders r) (res_removeRespHdrs r)
    (res_rewritePath r) (res_identity r) (res_values r)).

Definition RemoveRequestHeader (r : FilterResult) (key : string) : FilterResult :=
  mkFilterResult (res_action r) (res_status r) (res_body r) (res_stopHdr r)
    (res_setReqHeaders r) (res_removeReqHeaders r ++ [key]) (res_setRespHeaders r) (res_removeRespHdrs r)
    (res_rewritePath r) (res_identity r) (res_values r).

Definition SetResponseHeader (r : FilterResult) (key value : string) : option FilterResult :=
  h ← res_setRespHeaders r;
  Some (mkFilterResult (res_action r) (res_status r) (res_body r) (res_stopHdr r)
    (res_setReqHeaders r) (res_removeReqHeaders r) (Some (Header_Set key value h)) (res_removeRespHdrs r)
    (res_rewritePath r) (res_identity r) (res_values r)).

Definition RemoveResponseHeader (r : FilterResult) (key : string) : FilterResult :=
  mkFilterResult (res_action r) (res_status r) (res_body r) (res_stopHdr r)
    (res_setReqHeaders r) (res_removeReqHeaders r) (res_setRespHeaders r) (res_removeRespHdrs r ++ [key])
    (res_rewritePath r) (res_identity r) (res_values r).

Definition RewritePath (r : FilterResult) (path : string) : FilterResult :=
  mkFilterResult (res_action r) (res_status r) (res_body r) (res_stopHdr r)
    (res_setReqHeaders r) (res_removeReqHeaders r) (res_setRespHeaders r) (res_removeRespHdrs r)
    path (res_identity r) (res_values r).

Definition SetIdentity (r : FilterResult) (u : option UserContext) : FilterResult :=
  mkFilterResult (res_action r) (res_status r) (res_body r) (res_stopHdr r)
    (res_setReqHeaders r) (res_removeReqHeaders r) (res_setRespHeaders r) (res_removeRespHdrs r)
    (res_rewritePath r) u (res_values r).

Definition SetValue (r : FilterResult) (key value : string) : FilterResult :=
  mkFilterResult (res_action r) (res_status r) (res_body r) (res_stopHdr r)
    (res_setReqHeaders r) (res_removeReqHeaders r) (res_setRespHeaders r) (res_removeRespHdrs r)
    (res_rewritePath r) (res_identity r) (Some (<[key := value]> (default ∅ (res_values r)))).

Definition toProto (r : FilterResult) : FilterResponse :=
  match res_action r with
  | ACTION_SHORT_CIRCUIT =>
      mkFilterResponse (res_action r)
        (Some (mkHttpResponse (int32 (res_status r)) (headersTo (res_stopHdr r)) (res_body r))) None
  | ACTION_MUTATE =>
      mkFilterResponse (res_action r) None
        (Some (mkRequestMutation (range (headersTo (res_setReqHeaders r))) (res_removeReqHeaders r)
                 (range (headersTo (res_setRespHeaders r))) (res_removeRespHdrs r) (res_rewritePath r)
                 ((fun u => mkIdentity (UserID u) (Username u) (Roles u)) <$> res_identity r)
                 (range_values (default ∅ (res_values r)))))
  | ACTION_CONTINUE => mkFilterResponse ACTION_CONTINUE None None
  end.

(** [Inspect], for an author's tests. [None] is a nil result. *)
Inductive action := ActionContinue | ActionStop | ActionMutate | ActionUnrecognised.

Record FilterDecision := mkDecision {
  fd_Action : action; fd_Status : Z; fd_Body : string; fd_Header : Header;
  fd_Identity : option UserContext; fd_Path : string; fd_SetRequest : Header; fd_RemoveRequest : list string;
  fd_SetResponse : Header; fd_RemoveResponse : list string; fd_Values : gmap string string
}.

Definition Inspect (r : option FilterResult) : FilterDecision :=
  match r with
  | None => mkDecision ActionUnrecognised 0 "" ∅ None "" ∅ [] ∅ [] ∅
  | Some r =>
      mkDecision
        (match res_action r with
         | ACTION_CONTINUE => ActionContinue
         | ACTION_SHORT_CIRCUIT => ActionStop
         | ACTION_MUTATE => ActionMutate
         end)
        (res_status r) (res_body r) (default ∅ (res_stopHdr r)) (res_identity r) (res_rewritePath r)
        (default ∅ (res_setReqHeaders r)) (res_removeReqHeaders r) (default ∅ (res_setRespHeaders r))
        (res_removeRespHdrs r) (default ∅ (res_values r))
  end.
End sdk.

(** ** bridge.go: serving a request *)

(** What a handler does with the [http.ResponseWriter] it is given: edits of
    the header map [Header()] returns, and the other three methods. *)
Inductive rw_op := RwHeader (f : Header -> Header) | RwWriteHeader (status : Z) | RwWrite (p : string) | RwFlush.

Record responseRecorder := mkRecorder { rec_header : Header; rec_body : string; rec_status : Z; rec_wroteHeader : bool }.

Definition WriteHeader (status : Z) (r : responseRecorder) : responseRecorder :=
  if rec_wroteHeader r then r else mkRecorder (rec_header r) (rec_body r) status true.

Definition Write (p : string) (r : responseRecorder) : responseRecorder :=
  let r := if rec_wroteHeader r then r else WriteHeader 200 r in
  mkRecorder (rec_header r) (rec_body r +:+ p) (rec_status r) (rec_wroteHeader r).

Definition recorded (r : responseRecorder) (op : rw_op) : responseRecorder :=
  match op with
  | RwHeader f => mkRecorder (f (rec_header r)) (rec_body r) (rec_status r) (rec_wroteHeader r)
  | RwWriteHeader status => WriteHeader status r
  | RwWrite p => Write p r
  | RwFlush => r
  end.

Definition methodOr (m : string) : string := if String.eqb m "" then "GET" else m.

Definition hostFrom (h : Header) : string :=
  match h !! "Host" with Some (v :: _) => v | _ => "plugin.local" end.

Record Job := mkJob { Job_Name : string; Job_TraceID : string; Job_Scheduled : Z }.

Section bridge.
(** The author's state, and a parsed URL. *)
Context {P U : Type}.
Context (range : Header -> header_edits) (range_values : gmap string string -> list (string * string)).
(** [url.ParseRequestURI]. *)
Context (parse_uri : string -> option U).

(** The [*http.Request] the handler is given. *)
Record http_request := mkHttpReq {
  hq_Method : string; hq_URL : U; hq_Header : Header; hq_Body : string; hq_ContentLength : Z;
  hq_RemoteAddr : string; hq_RequestURI : string; hq_Host : string; hq_Context : context
}.

Definition FilterFunc : Type := context -> FilterRequest -> P -> result string (option FilterResult) * P.
Definition JobFunc : Type := context -> Job -> P -> option string * P.

(** sdk.go. An entry of a map may hold a nil function. The callback for
    settings may edit the map it is given, which it returns as it leaves it. Of
    [OnReady], which runs on a goroutine of its own, only whether it is set
    matters here. *)
Record Config := mkConfig {
  Handler : option (http_request -> P -> list rw_op * P);
  Filters : gmap Z (option FilterFunc);
  Jobs : gmap string (option JobFunc);
  cfg_OnConfigChanged : option (gmap string string -> P -> gmap string string * P);
  cfg_OnReady : bool;
  cfg_OnShutdown : option (P -> option string * P)
}.
Context (cfg : Config).

Definition HandleHTTP (c : context) (r : HttpRequest) (p : P) : HttpResponse * P :=
  match Handler cfg with
  | None => (mkHttpResponse 501 ∅ "this plugin serves no HTTP API", p)
  | Some serve =>
      let target := hr_Path r +:+ (if String.eqb (hr_Query r) "" then "" else "?" +:+ hr_Query r) in
      match parse_uri target with
      | None => (mkHttpResponse 400 ∅ "bad request path", p)
      | Some u =>
          let '(ops, p) := serve
            (mkHttpReq (methodOr (hr_Method r)) u (headersFrom (range (hr_Headers r))) (hr_Body r)
               (Z.of_nat (String.length (hr_Body r))) (hr_ClientIp r) target (hostFrom (hr_Headers r))
               (withRequestValues c r)) p in
          let rec_ := foldl recorded (mkRecorder ∅ "" 200 false) ops in
          (mkHttpResponse (int32 (rec_status rec_)) (headersTo (Some (rec_header rec_))) (rec_body rec_), p)
      end
  end.

Definition Filter (c : context) (r : Wire.FilterRequest) (p : P) : result string FilterResponse * P :=
  match Filters cfg !! sdk_phase (fr_Phase r) with
  | Some (Some fn) =>
      match fn (withFilterValues c r) (filterRequestFrom range r) p with
      | (Err e, p) => (Err e, p)
      | (Ok None, p) => (Ok (mkFilterResponse ACTION_CONTINUE None None), p)
      | (Ok (Some res), p) => (Ok (toProto range range_values res), p)
      end
  | _ => (Ok (mkFilterResponse ACTION_CONTINUE None None), p)
  end.

(** The answer's [Success] and [Error]. *)
Definition RunJob (c : context) (name traceID : string) (scheduled : Z) (p : P) : (bool * string) * P :=
  match Jobs cfg !! name with
  | Some (Some fn) =>
      match fn (withTrace c traceID) (mkJob name traceID scheduled) p with
      | (Some e, p) => ((false, e), p)
      | (None, p) => ((true, ""), p)
      end
  | _ => ((false, "no handler registered for job " +:+ name), p)
  end.

(** ** The life of the process *)

(** OnReady's goroutine: its context, and whether it has returned. *)
Inductive readiness := NotStarted | Started (cancelled returned : bool).

Record plugin := mkPlugin {
  pl_key : string; pl_config : gmap string string; pl_dataDir : string; pl_granted : list string;
  pl_instance : string; pl_ready : readiness
}.

Definition newPlugin : plugin := mkPlugin "" ∅ "" [] "" NotStarted.

(** What the process has called, in order: the binder of the host clients, the
    author's callbacks, the cancellation of OnReady's context. *)
Inductive event := EvBind | EvConfig (m : gmap string string) | EvReady | EvStop | EvReturned | EvShutdown.

(** [pluginServer] of pluginapi with the plugin behind it: [sv_dialed] is the
    outcome of [dialOnce], an error text or none. [Serve] has made the plugin
    the one [current] holds, which [GetConfig] and the other package functions
    read. *)
Record process := mkProcess {
  sv_dialed : option (option string); sv_plugin : plugin; sv_author : P; sv_events : list event
}.

Definition Serve (author : P) : process := mkProcess None newPlugin author [].

Definition GetConfig (s : process) : gmap string string := pl_config (sv_plugin s).
Definition Key (s : process) : string := pl_key (sv_plugin s).
Definition InstanceID (s : process) : string := pl_instance (sv_plugin s).
Definition DataDir (s : process) : string := pl_dataDir (sv_plugin s).

Record ConfigureRequest := mkConfigureRequest {
  cq_PluginKey : string; cq_InstanceId : string; cq_DataDir : string; cq_GrantedPermissions : list string;
  cq_Config : gmap string string
}.

Definition put_plugin (pl : plugin) (s : process) : process :=
  mkProcess (sv_dialed s) pl (sv_author s) (sv_events s).
Definition put_config (m : gmap string string) (s : process) : process :=
  let pl := sv_plugin s in
  put_plugin (mkPlugin (pl_key pl) m (pl_dataDir pl) (pl_granted pl) (pl_instance pl) (pl_ready pl)) s.
Definition put_ready (r : readiness) (s : process) : process :=
  let pl := sv_plugin s in
  put_plugin (mkPlugin (pl_key pl) (pl_config pl) (pl_dataDir pl) (pl_granted pl) (pl_instance pl) r) s.
Definition happened (e : event) (s : process) : process :=
  mkProcess (sv_dialed s) (sv_plugin s) (sv_author s) (sv_events s ++ [e]).

(** The callback on a map, and the map as it leaves it. *)
Definition tell_config (m : gmap string string) (s : process) : gmap string string * process :=
  match cfg_OnConfigChanged cfg with
  | None => (m, s)
  | Some f =>
      let '(m', a) := f m (sv_author s) in
      (m', mkProcess (sv_dialed s) (sv_plugin s) a (sv_events s ++ [EvConfig m]))
  end.

(** The settings are handed out as a copy here. *)
Definition Configure (r : ConfigureRequest) (s : process) : process :=
  let s := put_plugin (mkPlugin (cq_PluginKey r) (cq_Config r) (cq_DataDir r) (cq_GrantedPermissions r)
                         (cq_InstanceId r) (pl_ready (sv_plugin s))) s in
  let s := (tell_config (GetConfig s) s).2 in
  match pl_ready (sv_plugin s) with
  | NotStarted => if cfg_OnReady cfg then happened EvReady (put_ready (Started false false) s) else s
  | Started _ _ => s
  end.

(** pluginServer.Configure: [dial] is what dialling back answers if it is
    tried, an error or none. *)
Definition server_Configure (dial : option string) (r : ConfigureRequest) (s : process)
    : result string () * process :=
  let s := match sv_dialed s with
           | Some _ => s
           | None =>
               mkProcess (Some dial) (sv_plugin s) (sv_author s)
                 (sv_events s ++ match dial with None => [EvBind] | Some _ => [] end)
           end in
  match sv_dialed s with
  | Some (Some e) => (Err e, s)
  | _ => (Ok (), Configure r s)
  end.

(** The callback gets the very map the plugin keeps. *)
Definition OnConfigChanged (m : gmap string string) (s : process) : process :=
  let '(m', s) := tell_config m (put_config m s) in put_config m' s.

(** The goroutine of OnReady returns. *)
Definition ready_returns (s : process) : process :=
  match pl_ready (sv_plugin s) with
  | Started c false => happened EvReturned (put_ready (Started c true) s)
  | _ => s
  end.

(** How long Shutdown waits, in nanoseconds. *)
Definition drain_budget (drain_seconds : Z) : Z :=
  (let budget := int64 (drain_seconds * 10 ^ 9) in if budget <=? 0 then 10 * 10 ^ 9 else budget)%Z.

(** [returns]: OnReady returns before the call's context or the budget ends. *)
Definition Shutdown (returns : bool) (s : process) : option string * process :=
  let s := match pl_ready (sv_plugin s) with
           | NotStarted => s
           | Started _ d =>
               let s := happened EvStop (put_ready (Started true d) s) in
               if returns then ready_returns s else s
           end in
  match cfg_OnShutdown cfg with
  | None => (None, s)
  | Some f =>
      let '(e, a) := f (sv_author s) in
      (e, mkProcess (sv_dialed s) (sv_plugin s) a (sv_events s ++ [EvShutdown]))
  end.

(** Everything that can happen to the process. *)
Inductive life :=
| LConfigure (dial : option string) (r : ConfigureRequest) | LConfigChanged (m : gmap string string)
| LReturns | LShutdown (returns : bool).

Definition live (s : process) (l : life) : process :=
  match l with
  | LConfigure dial r => (server_Configure dial r s).2
  | LConfigChanged m => OnConfigChanged m s
  | LReturns => ready_returns s
  | LShutdown returns => (Shutdown returns s).2
  end.

Definition lives (author : P) (ls : list life) : process := foldl live (Serve author) ls.
End bridge.

(** ** What a filter says is what the request becomes *)

(** The builder methods of a result. *)
Inductive edit :=
| SetReq (k v : string) | RemoveReq (k : string) | SetResp (k v : string) | RemoveResp (k : string)
| Rewrite (p : string) | Identify (u : option UserContext) | Value (k v : string).

Definition edited (r : FilterResult) (e : edit) : option FilterResult :=
  match e with
  | SetReq k v => SetRequestHeader r k v
  | RemoveReq k => Some (RemoveRequestHeader r k)
  | SetResp k v => SetResponseHeader r k v
  | RemoveResp k => Some (RemoveResponseHeader r k)
  | Rewrite p => Some (RewritePath r p)
  | Identify u => Some (SetIdentity r u)
  | Value k v => Some (SetValue r k v)
  end.

(** [sdk.Mutate()] and a chain of calls on it. *)
Definition built (es : list edit) : option FilterResult := foldl (fun r e => r ≫= fun r => edited r e) (Some Mutate) es.

(** The last call of a kind. *)
Definition last_of {A} (f : edit -> option A) (es : list edit) : option A := list.last (omap f es).

Definition sets_request (k : string) (e : edit) : option string :=
  match e with SetReq k' v => if decide (CanonicalHeaderKey k' = k) then Some v else None | _ => None end.
Definition removes_request (e : edit) : option string := match e with RemoveReq k => Some k | _ => None end.
Definition sets_response (k : string) (e : edit) : option string :=
  match e with SetResp k' v => if decide (CanonicalHeaderKey k' = k) then Some v else None | _ => None end.
Definition removes_response (e : edit) : option string := match e with RemoveResp k => Some k | _ => None end.
Definition rewrites (e : edit) : option string := match e with Rewrite p => Some p | _ => None end.
Definition identifies (e : edit) : option (option UserContext) := match e with Identify u => Some u | _ => None end.
Definition sets_value (k : string) (e : edit) : option string :=
  match e with Value k' v => if decide (k' = k) then Some v else None | _ => None end.

Definition canonical (h : Header) : Prop := forall k, is_Some (h !! k) -> CanonicalHeaderKey k = k.

Lemma last_of_snoc {A} (f : edit -> option A) es e :
  last_of f (es ++ [e]) = match f e with Some a => Some a | None => last_of f es end.
Proof.
  unfold last_of. rewrite omap_app. simpl. destruct (f e); simpl; [apply list.last_snoc|by rewrite app_nil_r].
Qed.

Lemma Header_Set_canonical k v h : canonical h -> canonical (Header_Set k v h).
Proof.
  intros Hc k'. unfold Header_Set. destruct (decide (CanonicalHeaderKey k = k')) as [<-|Hne].
  - intros _. apply CanonicalHeaderKey_idem.
  - rewrite lookup_insert_ne by done. apply Hc.
Qed.

Lemma Header_Set_lookup k v h k' :
  Header_Set k v h !! k' = if decide (CanonicalHeaderKey k = k') then Some [v] else h !! k'.
Proof.
  unfold Header_Set. destruct (decide _) as [<-|Hne]; [apply lookup_insert_eq|by apply lookup_insert_ne].
Qed.

(** A result under construction, against the calls made on it. *)
Record says (es : list edit) (r : FilterResult) : Prop := mkSays {
  say_action : res_action r = ACTION_MUTATE;
  say_req : exists h, res_setReqHeaders r = Some h /\ canonical h /\
    forall k, h !! k = (fun v => [v]) <$> last_of (sets_request k) es;
  say_rem_req : res_removeReqHeaders r = omap removes_request es;
  say_resp : exists h, res_setRespHeaders r = Some h /\ canonical h /\
    forall k, h !! k = (fun v => [v]) <$> last_of (sets_response k) es;
  say_rem_resp : res_removeRespHdrs r = omap removes_response es;
  say_path : res_rewritePath r = default "" (last_of rewrites es);
  say_identity : res_identity r = default None (last_of identifies es);
  say_values : forall k, default ∅ (res_values r) !! k = last_of (sets_value k) es
}.

Lemma edited_says es r e : says es r -> exists r', edited r e = Some r' /\ says (es ++ [e]) r'.
Proof.
  intros [Ha (h & Eh & Hc & Hh) Hrr (h' & Eh' & Hc' & Hh') Hrs Hp Hi Hv].
  assert (exists r', edited r e = Some r') as [r' E].
  { destruct e; simpl; unfold SetRequestHeader, SetResponseHeader; rewrite ?Eh, ?Eh'; simpl; eauto. }
  exists r'. split; [done|].
  destruct e; simpl in E; unfold SetRequestHeader, SetResponseHeader in E; rewrite ?Eh, ?Eh' in E;
    simpl in E; injection E as <-; split; simpl; rewrite ?omap_app, ?last_of_snoc; simpl; rewrite ?app_nil_r;
    try done; try (by rewrite ?Hrr, ?Hrs);
    try (eexists; split; [done|]; split; [done|]; intros k0; rewrite ?last_of_snoc; simpl; auto; fail);
    try (intros k0; rewrite last_of_snoc; simpl; auto; fail).
  - eexists. split; [done|]. split; [by apply Header_Set_canonical|]. intros k'.
    rewrite Header_Set_lookup, last_of_snoc. simpl. by destruct (decide _).
  - eexists. split; [done|]. split; [by apply Header_Set_canonical|]. intros k'.
    rewrite Header_Set_lookup, last_of_snoc. simpl. by destruct (decide _).
  - intros k'. rewrite last_of_snoc. simpl. destruct (decide (k = k')) as [<-|Hne].
    + by rewrite lookup_insert_eq.
    + by rewrite lookup_insert_ne.
Qed.

Lemma built_says es : exists r, built es = Some r /\ says es r.
Proof.
  induction es as [|e es IH] using rev_ind.
  { exists Mutate. split; [done|]. split; try done; try (eexists; split; [done|]; split; [|done]); by intros ? [? ?]. }
  destruct IH as (r & E & Hs). destruct (edited_says es r e Hs) as (r' & E' & Hs').
  exists r'. split; [|done]. unfold built in *. rewrite foldl_snoc, E. exact E'.
Qed.

Lemma header_range h l : l ≡ₚ map_to_list h -> canonical h ->
  NoDup (canon_edits l).*1 /\ (forall k v, (k, v) ∈ canon_edits l <-> h !! k = Some v).
Proof.
  intros Hp Hc.
  assert (canon_edits (map_to_list h) = map_to_list h) as Hid.
  { unfold canon_edits. rewrite <- (list_fmap_id (map_to_list h)) at 2.
    apply list_fmap_ext. intros i [k v] Hi. simpl. f_equal. apply Hc.
    apply list_elem_of_lookup_2, elem_of_map_to_list in Hi. by eexists. }
  assert (canon_edits l ≡ₚ map_to_list h) as Hpe.
  { rewrite <- Hid. unfold canon_edits. by rewrite Hp. }
  split.
  - rewrite Hpe. apply NoDup_fst_map_to_list.
  - intros k v. rewrite Hpe. apply elem_of_map_to_list.
Qed.

(** The headers after a filter's edits: the last value set, else removed if the
    filter removes it, else as before. *)
Lemma header_edits_applied h0 h range_h removed k :
  range_h ≡ₚ map_to_list h -> canonical h ->
  applyHeaderMutation h0 range_h removed !! k =
    match h !! k with
    | Some v => Some v
    | None => if decide (k ∈ CanonicalHeaderKey <$> removed) then None else h0 !! k
    end.
Proof.
  intros Hp Hc. destruct (header_range h range_h Hp Hc) as [Hn Hin].
  destruct (applyHeaderMutation_spec h0 range_h removed k Hn) as (Hset & Hother & _).
  destruct (h !! k) as [v|] eqn:E; [by apply Hset, Hin|].
  apply Hother. rewrite list_elem_of_fmap. intros ([k' v] & Hk & Hkv). simpl in Hk. subst k'.
  apply Hin in Hkv. congruence.
Qed.

Lemma set_values_lookup {T} (rc : RequestContext T) m l k : l ≡ₚ map_to_list m ->
  Pipeline.Values (foldl (fun rc kv => Pipeline.SetValue kv.1 kv.2 rc) rc l) !! k =
    match m !! k with Some v => Some v | None => Pipeline.Values rc !! k end.
Proof.
  intros Hp.
  assert (forall l (rc : RequestContext T), Pipeline.Values (foldl (fun rc kv => Pipeline.SetValue kv.1 kv.2 rc) rc l) =
            list_to_map (reverse l) ∪ Pipeline.Values rc) as ->.
  { clear. intros l. induction l as [|[k v] l IH]; intros rc.
    - symmetry. apply (left_id_L ∅ (∪)).
    - cbn [foldl fst snd]. rewrite IH, reverse_cons, list_to_map_app, <- (assoc_L (∪)). f_equal.
      simpl. rewrite insert_empty. apply insert_union_singleton_l. }
  assert (list_to_map (reverse l) = m) as ->.
  { transitivity (list_to_map (M := gmap string string) (map_to_list m)); [|apply list_to_map_to_list].
    apply list_to_map_proper.
    - rewrite fmap_reverse, reverse_Permutation, Hp. apply NoDup_fst_map_to_list.
    - by rewrite reverse_Permutation. }
  rewrite lookup_union. destruct (m !! k), (Pipeline.Values rc !! k); reflexivity.
Qed.

(** The parts of a request a filter's edits speak of, and the rest. *)
Lemma applyMutation_parts {T} m phase allow (rc : RequestContext T) :
  let rc' := applyMutation (Some m) phase allow rc in
  rc_Header rc' = applyHeaderMutation (rc_Header rc) (SetRequestHeaders m) (RemoveRequestHeaders m) /\
  Pipeline.ResponseHeader rc' = (if isResponsePhase phase then
    applyHeaderMutation (Pipeline.ResponseHeader rc) (SetResponseHeaders m) (RemoveResponseHeaders m)
    else Pipeline.ResponseHeader rc) /\
  Path rc' = (if isResponsePhase phase || String.eqb (Wire.RewritePath m) "" then Path rc else Wire.RewritePath m) /\
  rc_Identity rc' = (match Wire.SetIdentity m with
    | Some i => if allow then Some i else rc_Identity rc
    | None => rc_Identity rc
    end) /\
  Pipeline.Values rc' = Pipeline.Values (foldl (fun rc kv => Pipeline.SetValue kv.1 kv.2 rc) rc (SetContext m)) /\
  (Pipeline.TraceID rc', Method rc', Query rc', ClientIP rc', RequestBody rc', ResponseStatus rc', ResponseBody rc') =
  (Pipeline.TraceID rc, Method rc, Query rc, ClientIP rc, RequestBody rc, ResponseStatus rc, ResponseBody rc).
Proof.
  assert (forall l (rc : RequestContext T), let rc' := foldl (fun rc kv => Pipeline.SetValue kv.1 kv.2 rc) rc l in
    rc_Header rc' = rc_Header rc /\ Pipeline.ResponseHeader rc' = Pipeline.ResponseHeader rc /\ Path rc' = Path rc /\
    rc_Identity rc' = rc_Identity rc /\
    (Pipeline.TraceID rc', Method rc', Query rc', ClientIP rc', RequestBody rc', ResponseStatus rc', ResponseBody rc') =
    (Pipeline.TraceID rc, Method rc, Query rc, ClientIP rc, RequestBody rc, ResponseStatus rc, ResponseBody rc)) as Hf.
  { clear. intros l. induction l as [|kv l IH]; intros rc; [done|]. cbn [foldl]. exact (IH (Pipeline.SetValue kv.1 kv.2 rc)). }
  assert (forall l (a b : RequestContext T), Pipeline.Values a = Pipeline.Values b ->
    Pipeline.Values (foldl (fun rc kv => Pipeline.SetValue kv.1 kv.2 rc) a l) =
    Pipeline.Values (foldl (fun rc kv => Pipeline.SetValue kv.1 kv.2 rc) b l)) as Hv.
  { clear. intros l. induction l as [|kv l IH]; intros a b E; [done|]. cbn [foldl]. apply IH.
    unfold Pipeline.SetValue. simpl. by rewrite E. }
  unfold applyMutation. set (l := SetContext m).
  destruct (isResponsePhase phase), (String.eqb (Wire.RewritePath m) ""), (Wire.SetIdentity m), allow;
    cbn -[foldl applyHeaderMutation];
    match goal with |- context [foldl _ ?r l] => destruct (Hf l r) as (-> & -> & -> & -> & ->) end;
    repeat split; by apply Hv.
Qed.

(** C24. What a filter says on the plugin's side is what the request becomes on
    Core's. Take any chain of builder calls on [sdk.Mutate()]. None of them
    panics, and after Core has applied what the plugin sends, a header the
    filter set has the last value it set, one it only removed is gone, every
    other is as before; the same holds of the response headers in the phases
    that have a response, and they are untouched in the others; the path is the
    last non-empty rewrite before the backend has run; the identity is the last
    one named, if the filter may name one; values set replace earlier ones, the
    others stay. Nothing else of the request changes, and the order in which
    either side ranges over its maps does not matter. *)
Theorem mutation_applied {T} range range_values es phase allow (rc : RequestContext T) :
  (forall h, range h ≡ₚ map_to_list h) -> (forall m, range_values m ≡ₚ map_to_list m) ->
  exists r, built es = Some r /\
  let rc' := applyMutation (Mutation (toProto range range_values r)) phase allow rc in
  (forall k, rc_Header rc' !! k =
     match last_of (sets_request k) es with
     | Some v => Some [v]
     | None => if decide (k ∈ CanonicalHeaderKey <$> omap removes_request es) then None else rc_Header rc !! k
     end) /\
  (if isResponsePhase phase then forall k, Pipeline.ResponseHeader rc' !! k =
     match last_of (sets_response k) es with
     | Some v => Some [v]
     | None => if decide (k ∈ CanonicalHeaderKey <$> omap removes_response es) then None
               else Pipeline.ResponseHeader rc !! k
     end
   else Pipeline.ResponseHeader rc' = Pipeline.ResponseHeader rc) /\
  Path rc' = (if isResponsePhase phase then Path rc else
    match last_of rewrites es with
    | Some p => if String.eqb p "" then Path rc else p
    | None => Path rc
    end) /\
  rc_Identity rc' = (match last_of identifies es with
    | Some (Some u) => if allow then Some (mkIdentity (UserID u) (Username u) (Roles u)) else rc_Identity rc
    | _ => rc_Identity rc
    end) /\
  (forall k, Pipeline.Values rc' !! k =
     match last_of (sets_value k) es with Some v => Some v | None => Pipeline.Values rc !! k end) /\
  (Pipeline.TraceID rc', Method rc', Query rc', ClientIP rc', RequestBody rc', ResponseStatus rc', ResponseBody rc') =
  (Pipeline.TraceID rc, Method rc, Query rc, ClientIP rc, RequestBody rc, ResponseStatus rc, ResponseBody rc).
Proof.
  intros Hr Hrv. destruct (built_says es) as (r & E & Hs). exists r. split; [done|].
  destruct Hs as [Ha (h & Eh & Hc & Hh) Hrr (h' & Eh' & Hc' & Hh') Hrs Hp Hi Hv].
  unfold toProto. rewrite Ha. cbn [Mutation]. cbv zeta.
  match goal with |- context [applyMutation (Some ?m) _ _ _] =>
    destruct (applyMutation_parts m phase allow rc) as (-> & -> & -> & -> & -> & ->) end.
  cbn [SetRequestHeaders RemoveRequestHeaders SetResponseHeaders RemoveResponseHeaders Wire.RewritePath
    Wire.SetIdentity SetContext].
  rewrite Eh, Eh', Hrr, Hrs, Hp, Hi. unfold headersTo. cbn [default from_option id]. split_and!.
  - intros k. rewrite (header_edits_applied _ h) by (done || apply Hr). rewrite Hh.
    by destruct (last_of (sets_request k) es).
  - destruct (isResponsePhase phase); [|done]. intros k.
    rewrite (header_edits_applied _ h') by (done || apply Hr). rewrite Hh'.
    by destruct (last_of (sets_response k) es).
  - destruct (isResponsePhase phase); [done|]. destruct (last_of rewrites es); simpl; [|done]. by destruct (String.eqb _ "").
  - by destruct (last_of identifies es) as [[u|]|].
  - intros k. rewrite (set_values_lookup _ _ _ _ (Hrv _)). by rewrite Hv.
  - reflexivity.
Qed.

(** Two settings of one header, a removal, a rewrite, a value. *)
Definition ex_edits : list edit :=
  [SetReq "x-user" "a"; RemoveReq "cookie"; SetReq "X-User" "b"; Rewrite "/v2"; Value "tier" "gold"].
Definition ex_rc : RequestContext nat :=
  NewRequestContext "t1" "GET" "/v1" "" "10.0.0.1" {[ "Cookie" := ["c"]; "Accept" := ["*/*"] ]} 0.

Lemma mutation_applied_witness :
  exists r, built ex_edits = Some r /\
  let rc' := applyMutation (Mutation (toProto map_to_list map_to_list r)) PHASE_PRE_ROUTE false ex_rc in
  rc_Header rc' !! "X-User" = Some ["b"] /\ rc_Header rc' !! "Cookie" = None /\ Path rc' = "/v2" /\
  Pipeline.Values rc' !! "tier" = Some "gold".
Proof.
  destruct (mutation_applied map_to_list map_to_list ex_edits PHASE_PRE_ROUTE false ex_rc)
    as (r & E & Hh & _ & Hp & _ & Hv & _); [done|done|].
  exists r. split; [exact E|]. split; [|split; [|split]].
  - exact (Hh "X-User").
  - exact (Hh "Cookie").
  - exact Hp.
  - exact (Hv "tier").
Defined.

(** The last calls on a result that [Mutate] did not make: one panics, the
    other is accepted, reported by [Inspect], and not sent. *)
Example set_header_panics : SetRequestHeader Continue "X-Tier" "gold" = None.
Proof. reflexivity. Qed.
Example continue_drops_values :
  let r := SetValue Continue "tier" "gold" in
  fd_Values (Inspect (Some r)) !! "tier" = Some "gold" /\
  toProto map_to_list map_to_list r = toProto map_to_list map_to_list Continue.
Proof. split; reflexivity. Qed.

(** ** What a filter sees *)

Lemma headersFrom_id range h : range h ≡ₚ map_to_list h -> canonical h -> headersFrom (range h) = h.
Proof.
  intros Hp Hc. transitivity (FromProtoHeaders (map_to_list (ToProtoHeaders h))); [|by apply FromTo_headers].
  apply insert_all_perm; [done|]. by apply (header_range h).
Qed.

(** A filter sees the request as it stands: phase and declaration, the
    headers, the caller, the bodies its declaration asks for, and what earlier
    filters set. *)
Lemma author_sees {T} range phase f now (rc : RequestContext T) :
  (forall h, range h ≡ₚ map_to_list h) -> coherent rc -> (PHASE_PRE_ROUTE <= phase <= PHASE_LOG)%Z ->
  canonical (rc_Header rc) -> canonical (Pipeline.ResponseHeader rc) ->
  filterRequestFrom range (buildFilterRequest phase f now rc).1 =
  let resp := isResponsePhase phase in
  mkSdkRequest (phase - 1) (Pipeline.TraceID rc) (Method rc) (f_name (flt_Decl f)) (Path rc) (Query rc) (ClientIP rc)
    (rc_Header rc) (identityFrom <$> rc_Identity rc)
    (if NeedsRequestBody (flt_Decl f) then RequestBody rc else "")
    (if resp then int32 (ResponseStatus rc) else 0%Z)
    (if resp then Pipeline.ResponseHeader rc else ∅)
    (if resp && NeedsResponseBody (flt_Decl f) then ResponseBody rc else "") (Pipeline.Values rc).
Proof.
  intros Hr Hco Hph Hc Hc'.
  assert (exists rc', wireHeaders rc = (rc_Header rc, rc') /\ same_request rc rc') as (rc' & Ew & Hs).
  { unfold wireHeaders, coherent, ToProtoHeaders in *. destruct (protoHeaders rc) as [h|] eqn:Eh.
    - rewrite (Hco h eq_refl). by exists rc.
    - eexists. split; [reflexivity|]. by case_decide. }
  unfold buildFilterRequest. rewrite Ew. destruct Hs as (-> & -> & -> & -> & -> & Hh & -> & -> & -> & -> & Hrh & -> & _).
  unfold filterRequestFrom, ToProtoHeaders. simpl. rewrite Hrh in Hc'.
  rewrite (headersFrom_id range (rc_Header rc)) by done.
  assert (headersFrom (range (if isResponsePhase phase then ResponseHeader rc' else ∅)) =
          if isResponsePhase phase then ResponseHeader rc' else ∅) as ->.
  { apply headersFrom_id; [done|]. destruct (isResponsePhase phase); [done|]. by intros ? [? ?]. }
  unfold sdk_phase. rewrite int32_id by (unfold PHASE_PRE_ROUTE, PHASE_LOG in Hph; lia). by rewrite Hrh.
Qed.

(** ** What a handler answers *)

(** The status of the first call that settles it, everything written, and the
    headers as they are in the end. *)
Fixpoint answered (ops : list rw_op) : Z :=
  match ops with
  | [] | RwWrite _ :: _ => 200
  | RwWriteHeader status :: _ => status
  | _ :: ops => answered ops
  end.
Fixpoint written (ops : list rw_op) : string :=
  match ops with [] => "" | RwWrite p :: ops => p +:+ written ops | _ :: ops => written ops end.
Definition headers_after (h : Header) (ops : list rw_op) : Header :=
  foldl (fun h op => match op with RwHeader f => f h | _ => h end) h ops.

Lemma recorder_from ops r : (rec_wroteHeader r = false -> rec_status r = 200%Z) ->
  let r' := foldl recorded r ops in
  rec_header r' = headers_after (rec_header r) ops /\ rec_body r' = rec_body r +:+ written ops /\
  rec_status r' = (if rec_wroteHeader r then rec_status r else answered ops).
Proof.
  revert r. induction ops as [|op ops IH]; intros [h b st w] Hw; cbv zeta.
  { simpl in *. split_and!; [done|by rewrite sapp_nil_r|]. destruct w; [done|]. by apply Hw. }
  cbn [foldl]. specialize (IH (recorded (mkRecorder h b st w) op)). cbv zeta in IH.
  destruct IH as (-> & -> & ->).
  { destruct op, w; simpl in *; intros ?; try done; by apply Hw. }
  destruct op as [f|s|p|], w; simpl; by rewrite ?sapp_assoc.
Qed.

(** The answer of a handler: the first status settles it, 200 if there is
    none, and every write reaches the caller. The headers are those of the end:
    one set after the status, which [net/http] would not send, is sent. *)
Lemma HandleHTTP_answer {P U} range parse_uri (cfg : Config (P := P) (U := U)) c r p serve u :
  Handler cfg = Some serve ->
  parse_uri (hr_Path r +:+ (if String.eqb (hr_Query r) "" then "" else "?" +:+ hr_Query r)) = Some u ->
  exists q, hq_URL q = u /\ hq_Body q = hr_Body r /\ User (hq_Context q) = default (User c) (Some ∘ identityFrom <$> hr_Identity r) /\
  let '(ops, p') := serve q p in
  HandleHTTP range parse_uri cfg c r p =
    (mkHttpResponse (int32 (answered ops)) (headers_after ∅ ops) (written ops), p').
Proof.
  intros Hs Hu. unfold HandleHTTP. rewrite Hs, Hu.
  match goal with |- context [serve (mkHttpReq ?m ?u ?h ?b ?l ?a ?t ?o ?x) p] =>
    exists (mkHttpReq m u h b l a t o x); split; [done|]; split; [done|]; split;
      [|destruct (serve (mkHttpReq m u h b l a t o x) p) as [ops p']] end.
  - simpl. unfold withRequestValues, withIdentity, withTrace, User. destruct (hr_Identity r); simpl; [done|].
    by destruct (String.eqb (hr_TraceId r) "").
  - destruct (recorder_from ops (mkRecorder ∅ "" 200 false)) as (Hh & Hb & Hst); [done|].
    unfold headersTo. simpl in *. by rewrite Hh, Hb, Hst.
Qed.

(** An informational status is taken for the answer. *)
Example informational_is_final : answered [RwWriteHeader 103; RwWriteHeader 200; RwWrite "ok"] = 103%Z.
Proof. reflexivity. Qed.

(** ** The life of a process *)

Section life.
Context {P U : Type} (cfg : Config (P := P) (U := U)).

(** What may come after a history. *)
Definition allowed (h : list event) (e : event) : Prop :=
  match e with
  | EvBind => EvBind ∉ h
  | EvConfig _ => True
  | EvReady => EvReady ∉ h /\ EvBind ∈ h /\
      (is_Some (cfg_OnConfigChanged cfg) -> exists h0 m, h = h0 ++ [EvConfig m])
  | EvStop => EvReady ∈ h
  | EvReturned => EvReady ∈ h /\ EvReturned ∉ h
  | EvShutdown => EvReady ∈ h -> EvStop ∈ h
  end.

Definition ordered (es : list event) : Prop := forall h e t, es = h ++ e :: t -> allowed h e.

Lemma ordered_snoc es e : ordered es -> allowed es e -> ordered (es ++ [e]).
Proof.
  intros Ho Ha h e' t E. destruct t as [|e2 t _] using rev_ind.
  - by apply app_inj_tail in E as [-> ->].
  - rewrite app_comm_cons, app_assoc in E. apply app_inj_tail in E as [-> _]. by eapply Ho.
Qed.

(** The state of the process, against what has happened. *)
Record sound (s : process (P := P)) : Prop := mkSound {
  so_ordered : ordered (sv_events s);
  so_bound : sv_dialed s = Some None <-> EvBind ∈ sv_events s;
  so_ready : match pl_ready (sv_plugin s) with
             | NotStarted => EvReady ∉ sv_events s /\ EvReturned ∉ sv_events s
             | Started c d => EvReady ∈ sv_events s /\ (c = true <-> EvStop ∈ sv_events s) /\
                 (d = true <-> EvReturned ∈ sv_events s)
             end
}.

Lemma elem_snoc_ne (e x : event) es : x <> e -> x ∈ es ++ [e] <-> x ∈ es.
Proof. intros Hne. rewrite elem_of_app, list_elem_of_singleton. naive_solver. Qed.

Lemma elem_snoc (e : event) es : e ∈ es ++ [e].
Proof. apply elem_of_app. right. by apply list_elem_of_singleton. Qed.

Ltac snocs := repeat first
  [ rewrite elem_snoc_ne in * by discriminate | progress (setoid_rewrite elem_snoc_ne; [|discriminate..]) ].

(** Settings are told to the author at any time. *)
Lemma sound_tell m s : sound s -> sound (tell_config cfg m s).2 /\
  sv_dialed (tell_config cfg m s).2 = sv_dialed s /\ sv_plugin (tell_config cfg m s).2 = sv_plugin s /\
  (is_Some (cfg_OnConfigChanged cfg) -> exists h0 m0, sv_events (tell_config cfg m s).2 = h0 ++ [EvConfig m0]).
Proof.
  intros [Ho Hb Hr]. unfold tell_config. destruct (cfg_OnConfigChanged cfg) as [f|] eqn:Ec.
  - destruct (f m (sv_author s)) as [m' a]. simpl. split; [|split; [done|split; [done|eauto]]].
    split; simpl.
    + by apply ordered_snoc.
    + by rewrite elem_snoc_ne.
    + destruct (pl_ready (sv_plugin s)); by rewrite !elem_snoc_ne.
  - simpl. split; [done|]. split; [done|]. split; [done|]. by intros [? ?].
Qed.

Lemma sound_put pl s : pl_ready pl = pl_ready (sv_plugin s) -> sound s -> sound (put_plugin pl s).
Proof. intros E [Ho Hb Hr]. split; simpl; [done|done|]. by rewrite E. Qed.

Lemma sound_Configure r s : sv_dialed s = Some None -> sound s -> sound (Configure cfg r s).
Proof.
  intros Hd Hs. unfold Configure.
  set (s1 := put_plugin _ s). assert (sound s1) as Hs1 by (by apply sound_put).
  destruct (sound_tell (GetConfig s1) s1 Hs1) as (Hs2 & Hd2 & Hp2 & Hc2). revert Hs2 Hd2 Hp2 Hc2.
  generalize (tell_config cfg (GetConfig s1) s1).2. intros s2 [Ho Hb Hr] Hd2 Hp2 Hc2.
  assert (pl_ready (sv_plugin s2) = pl_ready (sv_plugin s)) as Erd by (by rewrite Hp2).
  destruct (pl_ready (sv_plugin s2)) as [|c d] eqn:Er; [|split; [done|done|by rewrite Er]].
  destruct (cfg_OnReady cfg); [|split; [done|done|by rewrite Er]].
  destruct Hr as [Hr1 Hr2]. split; simpl.
  - apply ordered_snoc; [done|]. simpl. split; [done|]. split; [|done]. apply Hb. by rewrite Hd2.
  - by rewrite elem_snoc_ne.
  - split; [apply elem_snoc|]. rewrite !elem_snoc_ne by done. split; (split; [done|intros Hin; exfalso]); [|done].
    apply list_elem_of_split in Hin as (h & t & Eh). by destruct Hr1; specialize (Ho h EvStop t Eh); simpl in Ho;
      rewrite Eh; apply elem_of_app; left.
Qed.

Lemma sound_returns s : sound s -> sound (ready_returns s).
Proof.
  intros [Ho Hb Hr]. unfold ready_returns. destruct (pl_ready (sv_plugin s)) as [|c d] eqn:Er;
    [split; [done|done|by rewrite Er]|].
  destruct d; [split; [done|done|by rewrite Er]|]. destruct Hr as (Hr & Hc & Hd). split; simpl.
  - apply ordered_snoc; [done|]. split; [done|]. intros Hin. by apply Hd in Hin.
  - by rewrite elem_snoc_ne.
  - rewrite !elem_snoc_ne by done. split; [done|]. split; [done|]. split; [intros _; apply elem_snoc|done].
Qed.

Lemma sound_Shutdown b s : sound s -> sound (Shutdown cfg b s).2.
Proof.
  intros Hs. unfold Shutdown.
  set (s1 := match pl_ready (sv_plugin s) with NotStarted => s | Started _ d => _ end).
  assert (sound s1 /\ (EvReady ∈ sv_events s1 -> EvStop ∈ sv_events s1)) as [Hs1 Hst].
  { subst s1. destruct Hs as [Ho Hb Hr]. destruct (pl_ready (sv_plugin s)) as [|c d] eqn:Er.
    { split; [split; [done|done|by rewrite Er]|]. by intros ?%Hr. }
    destruct Hr as (Hr & Hc & Hd).
    assert (sound (happened EvStop (put_ready (Started true d) s))) as Hs1.
    { split; simpl; [by apply ordered_snoc|by rewrite elem_snoc_ne|]. rewrite (elem_snoc_ne EvStop EvReady), (elem_snoc_ne EvStop EvReturned) by done.
      split; [done|]. split; [|done]. split; [intros _; apply elem_snoc|done]. }
    destruct b; [|split; [done|intros _; apply elem_snoc]]. split; [by apply sound_returns|intros _].
    unfold ready_returns. simpl. destruct d; simpl; [apply elem_snoc|]. rewrite elem_snoc_ne by done. apply elem_snoc. }
  destruct (cfg_OnShutdown cfg) as [f|]; [|done]. destruct (f (sv_author s1)) as [e a]. simpl.
  destruct Hs1 as [Ho Hb Hr]. split; simpl; [by apply ordered_snoc|by rewrite elem_snoc_ne|].
  destruct (pl_ready (sv_plugin s1)); by rewrite !elem_snoc_ne.
Qed.

Lemma sound_live s l : sound s -> sound (live cfg s l).
Proof.
  intros Hs. destruct l as [dial r|m| |b]; simpl.
  - unfold server_Configure.
    set (s1 := match sv_dialed s with Some _ => s | None => _ end).
    assert (sound s1) as Hs1.
    { subst s1. destruct Hs as [Ho Hb Hr]. destruct (sv_dialed s) eqn:Ed; [split; try done; by rewrite Ed|].
      assert (EvBind ∉ sv_events s) as Hnb by (intros ?%Hb; congruence).
      destruct dial as [e|]; simpl.
      - rewrite app_nil_r. split; simpl; [done|by split|done].
      - split; simpl; [by apply ordered_snoc|split; [intros _; apply elem_snoc|done]|].
        destruct (pl_ready (sv_plugin s)); by rewrite !elem_snoc_ne. }
    destruct (sv_dialed s1) as [[e|]|] eqn:Ed; [done|by apply sound_Configure|].
    subst s1. destruct (sv_dialed s) eqn:Es; simpl in Ed; congruence.
  - unfold OnConfigChanged. destruct (tell_config cfg m (put_config m s)) as [m' s'] eqn:Et.
    assert (sound (put_config m s)) as Hs1 by (by apply sound_put).
    apply (sound_tell m) in Hs1 as [Hs2 _]. rewrite Et in Hs2. simpl in Hs2. by apply sound_put.
  - by apply sound_returns.
  - by apply sound_Shutdown.
Qed.

Lemma lives_sound author ls : sound (lives cfg author ls).
Proof.
  induction ls as [|l ls IH] using rev_ind.
  - split; simpl; [|split; [done|by intros ?%not_elem_of_nil]|split; apply not_elem_of_nil].
    intros h e t E. by apply app_cons_not_nil in E.
  - unfold lives in *. rewrite foldl_snoc. by apply sound_live.
Qed.

(** A plugin's background work has what it needs, once. Over every sequence of
    configurations, setting changes, returns and shutdowns: OnReady is started
    at most once, not before the host clients are bound, and directly after the
    settings were handed to the author if the author takes them; its context is
    cancelled before OnShutdown runs; it returns at most once. *)
Theorem background_work_ordered author ls h t :
  let es := sv_events (lives cfg author ls) in
  (es = h ++ EvReady :: t ->
     EvBind ∈ h /\ EvReady ∉ h /\ EvReady ∉ t /\
     (is_Some (cfg_OnConfigChanged cfg) -> exists h0 m, h = h0 ++ [EvConfig m])) /\
  (es = h ++ EvShutdown :: t -> EvReady ∈ h -> EvStop ∈ h) /\
  (es = h ++ EvReturned :: t -> EvReady ∈ h /\ EvReturned ∉ h).
Proof.
  pose proof (so_ordered _ (lives_sound author ls)) as Ho. split_and!; intros E.
  - pose proof (Ho _ _ _ E) as (Hn & Hb & Hc). split_and!; try done. intros Hin.
    apply list_elem_of_split in Hin as (t1 & t2 & ->).
    destruct (Ho (h ++ EvReady :: t1) EvReady t2) as [Hn2 _]; [by rewrite E, <- app_assoc|].
    apply Hn2, elem_of_app. right. left.
  - exact (Ho _ _ _ E).
  - exact (Ho _ _ _ E).
Qed.

(** If OnReady returns within the budget, OnShutdown finds it over. *)
Lemma shutdown_waits author ls h :
  sv_events (Shutdown cfg true (lives cfg author ls)).2 = h ++ [EvShutdown] -> EvReady ∈ h ->
  EvReturned ∈ h \/ cfg_OnShutdown cfg = None.
Proof.
  pose proof (lives_sound author ls) as [Ho Hb Hr]. revert Ho Hb Hr. generalize (lives cfg author ls). intros s Ho Hb Hr.
  unfold Shutdown. destruct (cfg_OnShutdown cfg) as [f|]; [|by right]. intros E Hin. left. revert E.
  destruct (pl_ready (sv_plugin s)) as [|c d].
  - destruct (f (sv_author s)) as [e a]. simpl. intros [<- _]%app_inj_tail. by apply Hr in Hin.
  - destruct (f _) as [e a]. simpl. intros [<- _]%app_inj_tail. destruct Hr as (_ & _ & Hd).
    unfold ready_returns. simpl. destruct d; simpl; [|apply elem_snoc].
    rewrite elem_snoc_ne by done. by apply Hd.
Qed.
End life.
