(* ===== verification/SdkHost.v ===== *)
(** * sdk/plugin/host.go and errors.go: the host as a plugin's author calls it

    The clients of the host services, over an interface of remote calls on an
    abstract state [W], and that interface made of HostServer.v. JSON is a
    parameter: [Marshal] what encoding/json writes of a value of the author's,
    [Unmarshal] what it reads. A client is [None] where Core has not bound it.
    Durations are nanoseconds, and cross the wire as whole seconds. *)

From Stdlib Require Import Ascii.
From S2P Require Import Prelude GoStrings StableSort Sql TxRegistry Documents SqlText Query Wire Egress Files.
From S2P Require Import HostServer HostData Sdk.

Open Scope Z_scope.

(** ** errors.go *)

Inductive sentinel :=
| SdkVersionConflict | SdkTxExpired | SdkNotAllowed | SdkRateLimited | SdkNotFound | SdkHostUnavailable.

#[export] Instance sentinel_eq_dec : EqDecision sentinel.
Proof. solve_decision. Defined.

(** What a remote call fails with: a gRPC status, or an error that carries
    none. *)
Inductive rpc_error := RpcStatus (s : status) | RpcOther (e : string).

(** The errors the package returns: a sentinel itself, Core's error with or
    without one attached, a failure of encoding/json; and those of an author: an
    error of the author's own or of what was passed in, and another error
    wrapped by [fmt.Errorf] with [%w]. *)
Inductive error :=
| Sentinel (s : sentinel) | hostError (kind : sentinel) (err : rpc_error) | Plain (err : rpc_error)
| Encoding (what e : string) | Author (e : string) | Wrapped (what : string) (err : error).

Definition hostErr (err : rpc_error) : error :=
  match err with
  | RpcOther _ => Plain err
  | RpcStatus st =>
      match st_code st with
      | Aborted => hostError SdkVersionConflict err
      | FailedPrecondition => hostError SdkTxExpired err
      | PermissionDenied => hostError SdkNotAllowed err
      | ResourceExhausted => hostError SdkRateLimited err
      | NotFound => hostError SdkNotFound err
      | _ => Plain err
      end
  end.

(** [errors.Is(e, s)] for a sentinel [s]. *)
Fixpoint Is (e : error) (s : sentinel) : bool :=
  match e with
  | Sentinel s' | hostError s' _ => bool_decide (s' = s)
  | Wrapped _ e => Is e s
  | _ => false
  end.

(** [errors.Is(e, a)] for a variable [a] of the author's. *)
Fixpoint IsAuthor (e : error) (a : string) : bool :=
  match e with
  | Author e => String.eqb e a
  | Wrapped _ e => IsAuthor e a
  | _ => false
  end.

(** ** Durations and messages *)

Definition wholeSeconds (d : Z) : Z :=
  if d <=? 0 then 0 else int32 (int64 (int64 (d + second) - 1) `quot` second).

Record EnqueueRequest := mkEnqueueRequest {
  en_Topic : string; en_Payload : string; en_DelaySeconds : Z; en_DedupKey : string; en_Priority : Z;
  en_MaxAttempts : Z
}.
Definition EnqueueOption : Type := EnqueueRequest -> EnqueueRequest.

Definition WithDelay (d : Z) : EnqueueOption := fun r =>
  mkEnqueueRequest (en_Topic r) (en_Payload r) (wholeSeconds d) (en_DedupKey r) (en_Priority r) (en_MaxAttempts r).
Definition WithDedupKey (key : string) : EnqueueOption := fun r =>
  mkEnqueueRequest (en_Topic r) (en_Payload r) (en_DelaySeconds r) key (en_Priority r) (en_MaxAttempts r).
Definition WithPriority (p : Z) : EnqueueOption := fun r =>
  mkEnqueueRequest (en_Topic r) (en_Payload r) (en_DelaySeconds r) (en_DedupKey r) (int32 p) (en_MaxAttempts r).
Definition WithMaxAttempts (n : Z) : EnqueueOption := fun r =>
  mkEnqueueRequest (en_Topic r) (en_Payload r) (en_DelaySeconds r) (en_DedupKey r) (en_Priority r) (int32 n).

Record ConsumeRequest := mkConsumeRequest { cn_Topic : string; cn_Prefetch : Z; cn_VisibilitySeconds : Z }.
Definition ConsumeOption : Type := ConsumeRequest -> ConsumeRequest.
Definition WithVisibilityTimeout (d : Z) : ConsumeOption := fun r =>
  mkConsumeRequest (cn_Topic r) (cn_Prefetch r) (wholeSeconds d).

(** A message on the wire, and as the handler gets it. *)
Record pb_message := mkPbMessage {
  pm_id : Z; pm_topic : string; pm_payload : string; pm_attempt : Z; pm_max_attempts : Z; pm_trace_id : string;
  pm_parent_trace_id : string
}.
Record QueueMessage := mkQueueMessage {
  qm_ID : Z; qm_Topic : string; qm_Payload : string; qm_Attempt : Z; qm_MaxAttempts : Z; qm_ParentTraceID : string
}.

Section client.
Context {W F : Type}.

(** [pb.HostServicesClient]: the calls the package makes. The first argument is
    the metadata. A streaming call is opened, and what it then delivers is an
    argument of its reader; an upload takes all its chunks and how the stream
    ends, [None] for a proper end. *)
Definition remote (A : Type) : Type := W -> result rpc_error A * W.

Record HostServices := mkHostServices {
  hs_Put : list string -> pb_put -> remote Z;
  hs_Get : list string -> pb_doc -> remote (option (string * Z));
  hs_Delete : list string -> pb_doc -> remote bool;
  hs_Query : list string -> string -> list pb_filter -> list Sort -> Z -> string -> remote QueryResult;
  hs_Aggregate : list string -> string -> list pb_filter -> agg_enum -> string -> list string ->
    remote (list (gmap string string * F));
  hs_BeginTx : list string -> Z -> remote string;
  hs_CommitTx : list string -> string -> remote ();
  hs_RollbackTx : list string -> string -> remote ();
  hs_Enqueue : list string -> EnqueueRequest -> remote (Z * bool);
  hs_Consume : list string -> ConsumeRequest -> remote ();
  hs_Ack : list string -> Z -> remote ();
  hs_Nack : list string -> Z -> string -> remote ();
  hs_CacheGet : list string -> string -> remote (option string);
  hs_CacheSet : list string -> string -> string -> Z -> remote ();
  hs_CacheDelete : list string -> string -> remote ();
  hs_AcquireLock : list string -> string -> Z -> Z -> remote (option (string * Z));
  hs_RenewLock : list string -> string -> string -> Z -> remote (option (string * Z));
  hs_ReleaseLock : list string -> string -> string -> remote ();
  hs_PutFile : list string -> list pb_chunk -> option string -> remote (string * Z);
  hs_GenerateDownloadToken : list string -> string -> string -> Z -> remote (string * Z);
  hs_DeleteFile : list string -> string -> remote ();
  hs_Publish : list string -> string -> string -> remote ();
  hs_Subscribe : list string -> string -> remote ();
  hs_Fetch : list string -> EgressRequest -> remote (Z * Header * string);
  hs_Log : list string -> list pb_log -> remote ();
  hs_RecordMetric : list string -> string -> metric_kind -> F -> gmap string string -> remote ()
}.

(** An SDK call: Go's error, or the results, and the host afterwards. *)
Definition op (A : Type) : Type := W -> result error A * W.

Definition failed {A} (e : error) : op A := fun w => (Err e, w).

(** [resp, err := c.Call(...); if err != nil { return wrap(err) }] and what is
    made of the response. *)
Definition ask {A B} (call : remote A) (wrap : rpc_error -> error) (k : A -> result error B) : op B := fun w =>
  let '(r, w) := call w in
  (match r with Ok a => k a | Err e => Err (wrap e) end, w).

(** [if c == nil || c.c == nil { return ErrHostUnavailable }]. *)
Definition bound {A} (c : option HostServices) (k : HostServices -> op A) : op A :=
  match c with
  | None => failed (Sentinel SdkHostUnavailable)
  | Some c => k c
  end.

(** ** JSON *)

Context {V : Type} (Marshal : V -> result string string) (Unmarshal : string -> result string V).

(** [data, err := json.Marshal(value)]. *)
Definition encoded {A} (what : string) (v : V) (k : string -> op A) : op A :=
  match Marshal v with
  | Err e => failed (Encoding what e)
  | Ok data => k data
  end.

(** ** Documents *)

Definition Put (d : option HostServices) (ctx : context) (collection id : string) (value : V) : op Z :=
  bound d (fun c => encoded "encode document" value (fun data =>
    ask (hs_Put c (outgoing ctx) (mkPbPut collection id data "" 0)) hostErr Ok)).

Definition PutIfVersion (d : option HostServices) (ctx : context) (collection id : string) (value : V)
    (expected : Z) : op Z :=
  bound d (fun c => encoded "encode document" value (fun data =>
    ask (hs_Put c (outgoing ctx) (mkPbPut collection id data "" expected)) hostErr Ok)).

(** [found], [version] and what was written to [dest], with the error beside
    them. *)
Record read_doc := mkRead { rd_found : bool; rd_version : Z; rd_dest : option V; rd_err : option error }.

Definition not_read (e : option error) : read_doc := mkRead false 0 None e.

(** What a document read is made of. [dest] may be nil. *)
Definition decode_into (dest : bool) (data : string) (version : Z) : read_doc :=
  if dest then
    match Unmarshal data with
    | Ok v => mkRead true version (Some v) None
    | Err e => mkRead true version None (Some (Encoding "decode document" e))
    end
  else mkRead true version None None.

Definition read_with (call : remote (option (string * Z))) (dest : bool) (w : W) : read_doc * W :=
  let '(r, w) := call w in
  (match r with
   | Err e => not_read (Some (hostErr e))
   | Ok None => not_read None
   | Ok (Some (data, version)) => decode_into dest data version
   end, w).

Definition Get (d : option HostServices) (ctx : context) (collection id : string) (dest : bool) (w : W)
    : read_doc * W :=
  match d with
  | None => (not_read (Some (Sentinel SdkHostUnavailable)), w)
  | Some c => read_with (hs_Get c (outgoing ctx) (mkPbDoc collection id "")) dest w
  end.

Definition Delete (d : option HostServices) (ctx : context) (collection id : string) : op bool :=
  bound d (fun c => ask (hs_Delete c (outgoing ctx) (mkPbDoc collection id "")) hostErr Ok).

(** ** Queries *)

(** A [*Query]; the methods that build it change it and return it. *)
Record query := mkQuery {
  q_c : option HostServices; q_collection : string; q_filters : list pb_filter; q_sort : list Sort;
  q_limit : Z; q_cursor : string; q_err : option error
}.

Definition Where (d : option HostServices) (collection : string) : query :=
  match d with
  | None => mkQuery None collection [] [] 0 "" (Some (Sentinel SdkHostUnavailable))
  | Some c => mkQuery (Some c) collection [] [] 0 "" None
  end.

Definition q_add (field : string) (op : operator) (values : list string) (q : query) : query :=
  mkQuery (q_c q) (q_collection q) (q_filters q ++ [mkPbFilter field op values]) (q_sort q) (q_limit q)
    (q_cursor q) (q_err q).

Definition q_Eq (field value : string) : query -> query := q_add field OP_EQ [value].
Definition q_Ne (field value : string) : query -> query := q_add field OP_NE [value].
Definition q_Gt (field value : string) : query -> query := q_add field OP_GT [value].
Definition q_Gte (field value : string) : query -> query := q_add field OP_GTE [value].
Definition q_Lt (field value : string) : query -> query := q_add field OP_LT [value].
Definition q_Lte (field value : string) : query -> query := q_add field OP_LTE [value].
Definition q_Like (field pattern : string) : query -> query := q_add field OP_LIKE [pattern].
Definition q_In (field : string) (values : list string) : query -> query := q_add field OP_IN values.
Definition q_Between (field low high : string) : query -> query := q_add field OP_BETWEEN [low; high].
Definition q_IsNull (field : string) : query -> query := q_add field OP_IS_NULL [].
Definition q_IsNotNull (field : string) : query -> query := q_add field OP_IS_NOT_NULL [].

Definition q_add_sort (s : Sort) (q : query) : query :=
  mkQuery (q_c q) (q_collection q) (q_filters q) (q_sort q ++ [s]) (q_limit q) (q_cursor q) (q_err q).
Definition q_Sort (field : string) : query -> query := q_add_sort (mkSort field false).
Definition q_SortDesc (field : string) : query -> query := q_add_sort (mkSort field true).
Definition q_Limit (n : Z) (q : query) : query :=
  mkQuery (q_c q) (q_collection q) (q_filters q) (q_sort q) (int32 n) (q_cursor q) (q_err q).
Definition q_After (cursor : string) (q : query) : query :=
  mkQuery (q_c q) (q_collection q) (q_filters q) (q_sort q) (q_limit q) cursor (q_err q).

Record QueryFilter := mkQueryFilter { qf_Field : string; qf_Op : string; qf_Values : list string }.
Record QueryDescription := mkQueryDescription {
  qd_Collection : string; qd_Filters : list QueryFilter; qd_Sort : list Sort; qd_Limit : Z; qd_Cursor : string
}.

(** The names protoc generates. *)
Definition operator_String (op : operator) : string :=
  match op with
  | OP_UNSPECIFIED => "OP_UNSPECIFIED" | OP_EQ => "OP_EQ" | OP_NE => "OP_NE" | OP_GT => "OP_GT"
  | OP_GTE => "OP_GTE" | OP_LT => "OP_LT" | OP_LTE => "OP_LTE" | OP_LIKE => "OP_LIKE" | OP_IN => "OP_IN"
  | OP_BETWEEN => "OP_BETWEEN" | OP_IS_NULL => "OP_IS_NULL" | OP_IS_NOT_NULL => "OP_IS_NOT_NULL"
  | OP_other n => itoa n
  end.

Definition Describe (q : query) : QueryDescription :=
  mkQueryDescription (q_collection q)
    ((fun f => mkQueryFilter (pf_field f) (trim_prefix (operator_String (pf_op f)) "OP_") (pf_values f)) <$> q_filters q)
    (q_sort q) (q_limit q) (q_cursor q).

(** [if q.err != nil { return q.err }]. *)
Definition ready {A} (q : query) (k : HostServices -> op A) : op A :=
  match q_err q with
  | Some e => failed e
  | None => bound (q_c q) k
  end.

(** [decodeDocuments]: the documents as one JSON array. [UnmarshalList] is what
    encoding/json reads of it. *)
Context (UnmarshalList : string -> result string (list V)).

Definition decodeDocuments (docs : list string) : result error (list V) :=
  match UnmarshalList ("[" +:+ join "," docs +:+ "]") with
  | Ok vs => Ok vs
  | Err e => Err (Encoding "decode documents" e)
  end.

(** The page decoded, if [dest] is not nil. *)
Definition page (dest : bool) (docs : list string) : result error (list V) :=
  if dest then decodeDocuments docs else Ok [].

Definition run_query {A} (ctx : context) (q : query) (k : QueryResult -> result error A) : op A :=
  ready q (fun c =>
    ask (hs_Query c (outgoing ctx) (q_collection q) (q_filters q) (q_sort q) (q_limit q) (q_cursor q)) hostErr k).

Definition All (ctx : context) (dest : bool) (q : query) : op (string * list V) :=
  run_query ctx q (fun r => let? vs := page dest (qr_Documents r) in Ok (qr_NextCursor r, vs)).

Definition Rows (ctx : context) (dest : bool) (q : query) : op (list string * string * list V) :=
  run_query ctx q (fun r => let? vs := page dest (qr_Documents r) in Ok (qr_IDs r, qr_NextCursor r, vs)).

(** [int64(f)] of a float64. *)
Context (f64_int64 : F -> Z).

Definition Count (ctx : context) (q : query) : op Z :=
  ready q (fun c =>
    ask (hs_Aggregate c (outgoing ctx) (q_collection q) (q_filters q) AGG_COUNT "" []) hostErr
      (fun buckets => Ok (match buckets with [] => 0 | (_, v) :: _ => f64_int64 v end))).

Definition bucket_key (groupBy : list string) (keys : gmap string string) : string :=
  match groupBy with [] => "" | g :: _ => default "" (keys !! g) end.

Definition by_bucket (groupBy : list string) (buckets : list (gmap string string * F)) : gmap string F :=
  foldl (fun out b => <[bucket_key groupBy b.1 := b.2]> out) ∅ buckets.

Definition aggregate (fn : agg_enum) (ctx : context) (field : string) (groupBy : list string) (q : query)
    : op (gmap string F) :=
  ready q (fun c =>
    ask (hs_Aggregate c (outgoing ctx) (q_collection q) (q_filters q) fn field groupBy) hostErr
      (fun buckets => Ok (by_bucket groupBy buckets))).

Definition Sum := aggregate AGG_SUM.
Definition Avg := aggregate AGG_AVG.
Definition Min := aggregate AGG_MIN.
Definition Max := aggregate AGG_MAX.

(** ** Transactions *)

Record TxClient := mkTxClient { t_c : HostServices; t_id : string }.

Definition t_put (ctx : context) (collection id : string) (value : V) (expected : Z) (t : TxClient) : op Z :=
  encoded "encode document" value (fun data =>
    ask (hs_Put (t_c t) (outgoing ctx) (mkPbPut collection id data (t_id t) expected)) hostErr Ok).
Definition t_Put (ctx : context) (collection id : string) (value : V) : TxClient -> op Z :=
  t_put ctx collection id value 0.
Definition t_PutIfVersion := t_put.
Definition t_Get (ctx : context) (collection id : string) (dest : bool) (t : TxClient) (w : W) : read_doc * W :=
  read_with (hs_Get (t_c t) (outgoing ctx) (mkPbDoc collection id (t_id t))) dest w.
(** This one returns Core's error as it is. *)
Definition t_Delete (ctx : context) (collection id : string) (t : TxClient) : op () :=
  ask (hs_Delete (t_c t) (outgoing ctx) (mkPbDoc collection id (t_id t))) Plain (fun _ => Ok ()).

(** How the author's function ends, and [Tx] with it. *)
Inductive ending := Returns (err : option error) | Panics.

(** The function is a closure; [A] is what it leaves in the variables it
    captures, [None] if it did not run. The closing calls go out on the context
    the author passed: whether they reach Core, which they do not once that is
    cancelled, is up to the remote calls, as on the line of SdkServer.v. *)
Definition Tx {A} (d : option HostServices) (ctx : context) (timeout : Z) (fn : TxClient -> W -> (ending * A) * W)
    (w : W) : (ending * option A) * W :=
  match d with
  | None => ((Returns (Some (Sentinel SdkHostUnavailable)), None), w)
  | Some c =>
      match hs_BeginTx c (outgoing ctx) (wholeSeconds timeout) w with
      | (Err e, w) => ((Returns (Some (hostErr e)), None), w)
      | (Ok id, w) =>
          let rollback w := (hs_RollbackTx c (outgoing ctx) id w).2 in
          match fn (mkTxClient c id) w with
          | ((Returns None, a), w) =>
              match hs_CommitTx c (outgoing ctx) id w with
              | (Ok _, w) => ((Returns None, Some a), w)
              | (Err e, w) => ((Returns (Some (Plain e)), Some a), rollback w)
              end
          | ((e, a), w) => ((e, Some a), rollback w)
          end
      end
  end.
End client.

(** ** Durations on the wire *)

(** The whole seconds of a duration the wire can carry are not zero, cover it,
    and exceed it by less than one. *)
Lemma wholeSeconds_spec d : 0 < d <= (2 ^ 31 - 1) * second ->
  1 <= wholeSeconds d /\ d <= wholeSeconds d * second < d + second.
Proof.
  unfold wholeSeconds, second. intros Hd. rewrite (proj2 (Z.leb_gt d 0)) by lia.
  assert (forall x, 0 <= x < 2 ^ 62 -> int64 x = x) as Hi by (intros x Hx; apply int64_id; unfold in_int64; lia).
  rewrite (Hi (d + 10 ^ 9)) by lia. rewrite Hi by lia.
  pose proof (Z.quot_rem' (d + 10 ^ 9 - 1) (10 ^ 9)) as Hq.
  pose proof (Z.rem_bound_pos (d + 10 ^ 9 - 1) (10 ^ 9) ltac:(lia) ltac:(lia)) as Hr.
  revert Hq Hr. generalize ((d + 10 ^ 9 - 1) `quot` 10 ^ 9), (Z.rem (d + 10 ^ 9 - 1) (10 ^ 9)). intros q r Hq Hr.
  rewrite int32_id by lia. lia.
Qed.

Lemma wholeSeconds_none d : d <= 0 -> wholeSeconds d = 0.
Proof. intros Hd. unfold wholeSeconds. by rewrite (proj2 (Z.leb_le d 0)). Qed.

(** Beyond that it is not so: 2^32 seconds are sent as none, the longest
    duration as a negative number. *)
Example whole_seconds_lost : wholeSeconds (2 ^ 32 * second) = 0.
Proof. vm_compute. reflexivity. Qed.
Example whole_seconds_negative : wholeSeconds (2 ^ 63 - 1) < 0.
Proof. vm_compute. reflexivity. Qed.

(** ** Aggregates *)

(** Grouped by one field, every bucket comes back under its value. *)
Lemma by_bucket_spec {F} groupBy (buckets : list (gmap string string * F)) b :
  NoDup ((fun b => bucket_key groupBy b.1) <$> buckets) -> b ∈ buckets ->
  by_bucket groupBy buckets !! bucket_key groupBy b.1 = Some b.2.
Proof.
  intros Hn Hin.
  assert (by_bucket groupBy buckets =
          list_to_map (reverse ((fun b => (bucket_key groupBy b.1, b.2)) <$> buckets))) as ->.
  { unfold by_bucket. clear. induction buckets as [|x l IH] using rev_ind; [done|].
    rewrite foldl_snoc, IH, fmap_app, reverse_app. done. }
  apply elem_of_list_to_map.
  - rewrite fmap_reverse, reverse_Permutation, <- list_fmap_compose. exact Hn.
  - rewrite elem_of_reverse. apply list_elem_of_fmap. by exists b.
Qed.

(** Grouped by two, buckets that share the first value take each other's
    place. *)
Example groups_collide :
  by_bucket ["status"; "owner"] [({[ "status" := "open"; "owner" := "ann" ]}, 1); ({[ "status" := "open"; "owner" := "bob" ]}, 2)]
  = {[ "open" := 2 ]}.
Proof. vm_compute. reflexivity. Qed.
