(* ===== verification/SdkRuntime.v ===== *)
(** * sdk/plugin/host.go: queue, cache, locks, files, events, HTTP and logs

    The remaining clients, over the interface of SdkHost.v. A stream that is
    read takes what it delivers as an argument: the loops that only the other
    side ends are runs over a list of receptions. *)

From Stdlib Require Import Ascii.
From S2P Require Import Prelude GoStrings StableSort Wire Egress Files HostServer Sdk SdkHost.

Open Scope Z_scope.

(** ** Inputs *)

(** What [stream.Recv()] answers: a message, or an error, and then whether the
    consumer's context has ended. *)
Inductive reception (M : Type) := Delivery (m : M) | StreamError (e : rpc_error) (done : bool).
Arguments Delivery {M}. Arguments StreamError {M}.

(** An [io.Reader]: what its reads give, and whether it ends in EOF or in an
    error. No read gives more than the buffer holds. *)
Record reader := mkReader { rd_chunks : list string; rd_end : option string }.

(** An [http.Request], its body read to the end. *)
Record out_request := mkHttpOut { ho_Method : string; ho_URL : string; ho_Header : Header; ho_Body : option (result string string) }.

(** A field or value given to the logger: a string, an error, or anything else
    with what [fmt.Sprint] makes of it. *)
Inductive any := AString (s : string) | AError (msg : string) | AOther (printed : string).

Definition asLogValue (v : any) : string :=
  match v with AString s => s | AError m => m | AOther p => p end.

(** Field map of alternating keys and values; an odd one at the end is left
    out. *)
Fixpoint log_fields (kv : gmap string string) (fields : list any) : gmap string string :=
  match fields with
  | k :: v :: rest => log_fields (<[asLogValue k := asLogValue v]> kv) rest
  | _ => kv
  end.

Definition LogLevel_String (l : log_level) : string :=
  match l with
  | LOG_DEBUG => "LOG_DEBUG" | LOG_INFO => "LOG_INFO" | LOG_WARN => "LOG_WARN" | LOG_ERROR => "LOG_ERROR"
  | LOG_other n => itoa n
  end.

(** The line written to stderr. *)
Definition logUnbound (level : log_level) (msg : string) (fields : gmap string string) : string :=
  let keys := sort_stable String.ltb (map_to_list fields).*1 in
  "[" +:+ to_lower (trim_prefix (LogLevel_String level) "LOG_") +:+ "] " +:+ msg +:+
  foldr (fun k s => " " +:+ k +:+ "=" +:+ default "" (fields !! k) +:+ s) "" keys.

Record sdk_lease := mkSdkLease { sl_name : string; sl_id : string; sl_Expires : Z }.

Section runtime.
Context {W F V : Type}.
Notation host := (HostServices (W := W) (F := F)).
Notation op := (op (W := W)).
Context (Marshal : V -> result string string) (Unmarshal : string -> result string V).

(** ** Queue *)

Definition QueuePublish (q : option host) (ctx : context) (topic : string) (payload : V)
    (opts : list EnqueueOption) : op (Z * bool) :=
  bound q (fun c => encoded Marshal "encode payload" payload (fun data =>
    ask (hs_Enqueue c (outgoing ctx) (foldl (fun r o => o r) (mkEnqueueRequest topic data 0 "" 0 0) opts)) hostErr Ok)).

Definition consume_request (topic : string) (opts : list ConsumeOption) : ConsumeRequest :=
  foldl (fun r o => o r) (mkConsumeRequest topic 1 0) opts.

Definition message_of (m : pb_message) : QueueMessage :=
  mkQueueMessage (pm_id m) (pm_topic m) (pm_payload m) (pm_attempt m) (pm_max_attempts m) (pm_parent_trace_id m).

Definition handler : Type := context -> QueueMessage -> W -> option string * W.

(** The loop of [Consume]; [None] while the last reception is waited for. The
    outcome of a message is reported under its own trace, whether or not the
    consumer's context has ended. *)
Fixpoint consume_loop (c : host) (ctx : context) (h : handler) (rs : list (reception pb_message)) (w : W)
    : option (result error ()) * W :=
  match rs with
  | [] => (None, w)
  | StreamError e done :: _ => (Some (if done then Ok () else Err (Plain e)), w)
  | Delivery msg :: rs =>
      let mctx := withTrace ctx (pm_trace_id msg) in
      match h mctx (message_of msg) w with
      | (Some e, w) => consume_loop c ctx h rs (hs_Nack c (outgoing mctx) (pm_id msg) e w).2
      | (None, w) =>
          match hs_Ack c (outgoing mctx) (pm_id msg) w with
          | (Ok _, w) => consume_loop c ctx h rs w
          | (Err e, w) => (Some (Err (Plain e)), w)
          end
      end
  end.

Definition Consume (q : option host) (ctx : context) (topic : string) (h : handler) (opts : list ConsumeOption)
    (rs : list (reception pb_message)) (w : W) : option (result error ()) * W :=
  match q with
  | None => (Some (Err (Sentinel SdkHostUnavailable)), w)
  | Some c =>
      match hs_Consume c (outgoing ctx) (consume_request topic opts) w with
      | (Err e, w) => (Some (Err (Plain e)), w)
      | (Ok _, w) => consume_loop c ctx h rs w
      end
  end.

(** ** Cache and locks: Core's errors come back as they are *)

(** Whether it was found, what was written to [dest], the error. *)
Definition CacheGet (c : option host) (ctx : context) (key : string) (dest : bool) (w : W)
    : (bool * option V * option error) * W :=
  match c with
  | None => ((false, None, Some (Sentinel SdkHostUnavailable)), w)
  | Some c =>
      let '(r, w) := hs_CacheGet c (outgoing ctx) key w in
      (match r with
       | Err e => (false, None, Some (Plain e))
       | Ok None => (false, None, None)
       | Ok (Some data) =>
           if dest then match Unmarshal data with
                        | Ok v => (true, Some v, None)
                        | Err e => (true, None, Some (Encoding "" e))
                        end
           else (true, None, None)
       end, w)
  end.

Definition CacheSet (c : option host) (ctx : context) (key : string) (value : V) (ttl : Z) : op () :=
  bound c (fun c => encoded Marshal "encode value" value (fun data =>
    ask (hs_CacheSet c (outgoing ctx) key data (wholeSeconds ttl)) Plain Ok)).

Definition CacheDelete (c : option host) (ctx : context) (key : string) : op () :=
  bound c (fun c => ask (hs_CacheDelete c (outgoing ctx) key) Plain Ok).

(** [None] is [false] without an error. *)
Definition Acquire (l : option host) (ctx : context) (name : string) (ttl wait : Z) : op (option sdk_lease) :=
  bound l (fun c =>
    ask (hs_AcquireLock c (outgoing ctx) name (wholeSeconds ttl) (wholeSeconds wait)) Plain
      (fun r => Ok ((fun '(id, at_) => mkSdkLease name id (at_ * second)) <$> r))).

(** The lease is changed in place. A refused renewal carries no expiry, and
    sets the lease's to the epoch. *)
Definition Renew (c : option host) (ctx : context) (le : sdk_lease) (ttl : Z) (w : W)
    : (result error bool * sdk_lease) * W :=
  match c with
  | None => ((Err (Sentinel SdkHostUnavailable), le), w)
  | Some c =>
      let '(r, w) := hs_RenewLock c (outgoing ctx) (sl_name le) (sl_id le) (wholeSeconds ttl) w in
      (match r with
       | Err e => (Err (hostErr e), le)
       | Ok (Some (_, at_)) => (Ok true, mkSdkLease (sl_name le) (sl_id le) (at_ * second))
       | Ok None => (Ok false, mkSdkLease (sl_name le) (sl_id le) 0)
       end, w)
  end.

Definition Release (c : option host) (ctx : context) (le : sdk_lease) : op () :=
  bound c (fun c => ask (hs_ReleaseLock c (outgoing ctx) (sl_name le) (sl_id le)) Plain Ok).

(** ** Files *)

Definition file_buffer : Z := 2 ^ 18.

(** The chunks a reader is sent as: the name and type go with the first one,
    and an empty file is one empty chunk. *)
Fixpoint chunks_of (first : bool) (filename mime : string) (reads : list string) : list pb_chunk :=
  match reads with
  | [] => if first then [mkPbChunk filename mime ""] else []
  | r :: reads =>
      if String.eqb r "" then chunks_of first filename mime reads
      else mkPbChunk (if first then filename else "") (if first then mime else "") r ::
           chunks_of false filename mime reads
  end.

(** The chunks sent before the reader failed. *)
Definition sent_before (filename mime : string) (reads : list string) : list pb_chunk :=
  match forallb (fun r => String.eqb r "") reads with
  | true => []
  | false => chunks_of true filename mime reads
  end.

(** [send_fails]: the index of the first chunk whose [Send] fails, and with
    what. The call is then given up: nobody reads the stream's status, and
    for the host it breaks off when the caller's context ends. *)
Definition FilesPut (f : option host) (ctx : context) (filename mime : string) (r : reader)
    (send_fails : option (nat * rpc_error)) : op (string * Z) :=
  bound f (fun c w =>
    let given_up e sent := (Err e, (hs_PutFile c (outgoing ctx) sent (Some "context canceled") w).2) in
    let sending := match rd_end r with
                   | None => chunks_of true filename mime (rd_chunks r)
                   | Some _ => sent_before filename mime (rd_chunks r)
                   end in
    match send_fails with
    | Some (n, e) =>
        if (n <? length sending)%nat then given_up (Plain e) (firstn n sending)
        else match rd_end r with
             | Some e => given_up (Author e) sending
             | None => ask (hs_PutFile c (outgoing ctx) sending None) Plain Ok w
             end
    | None =>
        match rd_end r with
        | Some e => given_up (Author e) sending
        | None => ask (hs_PutFile c (outgoing ctx) sending None) Plain Ok w
        end
    end).

(** The time is in nanoseconds since the epoch. *)
Definition DownloadURL (f : option host) (ctx : context) (fileID userID : string) (expiry : Z) : op (string * Z) :=
  bound f (fun c =>
    ask (hs_GenerateDownloadToken c (outgoing ctx) fileID userID (wholeSeconds expiry)) hostErr
      (fun '(url, at_) => Ok (url, at_ * second))).

Definition FilesDelete (f : option host) (ctx : context) (fileID : string) : op () :=
  bound f (fun c => ask (hs_DeleteFile c (outgoing ctx) fileID) Plain Ok).

(** ** Events *)

Definition EventsPublish (e : option host) (ctx : context) (name : string) (payload : V) : op () :=
  bound e (fun c => encoded Marshal "encode event" payload (fun data =>
    ask (hs_Publish c (outgoing ctx) name data) Plain Ok)).

(** An event is its trace id and data. *)
Fixpoint event_loop (ctx : context) (h : context -> string -> W -> W) (rs : list (reception (string * string)))
    (w : W) : option (result error ()) * W :=
  match rs with
  | [] => (None, w)
  | StreamError e done :: _ => (Some (if done then Ok () else Err (Plain e)), w)
  | Delivery (trace, data) :: rs => event_loop ctx h rs (h (withTrace ctx trace) data w)
  end.

Definition EventsSubscribe (e : option host) (ctx : context) (name : string) (h : context -> string -> W -> W)
    (rs : list (reception (string * string))) (w : W) : option (result error ()) * W :=
  match e with
  | None => (Some (Err (Sentinel SdkHostUnavailable)), w)
  | Some c =>
      match hs_Subscribe c (outgoing ctx) name w with
      | (Err e, w) => (Some (Err (Plain e)), w)
      | (Ok _, w) => event_loop ctx h rs w
      end
  end.

(** ** Outbound HTTP *)

Context (range : Header -> header_edits).

(** Status, headers and body of the response. The wire has a timeout that the
    package leaves at zero. *)
Definition Do (h : option host) (ctx : context) (req : out_request) : op (Z * Header * string) :=
  bound h (fun c =>
    match ho_Body req with
    | Some (Err e) => failed (Author e)
    | body =>
        let data := match body with Some (Ok b) => b | _ => "" end in
        ask (hs_Fetch c (outgoing ctx) (mkEgressRequest (ho_Method req) (ho_URL req) (ho_Header req) data 0)) hostErr
          (fun '(status, hs, b) => Ok (status, headersFrom (range hs), b))
    end).

(** [http.NewRequest] refuses a URL it cannot parse. *)
Definition HTTPGet (parse : string -> result string string) (h : option host) (ctx : context) (url : string)
    : op (Z * Header * string) :=
  match parse url with
  | Err e => failed (Author e)
  | Ok u => Do h ctx (mkHttpOut "GET" u ∅ None)
  end.

(** ** Logs and metrics *)

(** The line on stderr when there is no Core. [now] is the clock. *)
Definition log (l : option host) (ctx : context) (now : Z) (level : log_level) (msg : string) (fields : list any)
    (w : W) : option string * W :=
  let kv := log_fields ∅ fields in
  match l with
  | None => (Some (logUnbound level msg kv), w)
  | Some c => (None, (hs_Log c (outgoing ctx) [mkPbLog level msg kv (TraceID ctx) now] w).2)
  end.

Definition Debug l ctx now := log l ctx now LOG_DEBUG.
Definition Info l ctx now := log l ctx now LOG_INFO.
Definition Warn l ctx now := log l ctx now LOG_WARN.
Definition Error l ctx now := log l ctx now LOG_ERROR.

Definition record (l : option host) (ctx : context) (kind : metric_kind) (name : string) (value : F)
    (labels : gmap string string) (w : W) : W :=
  match l with
  | None => w
  | Some c => (hs_RecordMetric c (outgoing ctx) name kind value labels w).2
  end.

Definition Metric l ctx := record l ctx METRIC_COUNTER.
Definition Gauge l ctx := record l ctx METRIC_GAUGE.
Definition Histogram l ctx := record l ctx METRIC_HISTOGRAM.
End runtime.

(** ** Every message is settled *)

Section settled.
Context {W F : Type} (c : HostServices (W := W) (F := F)) (ctx : context) (h : handler (W := W)).

(** The host with a record of how messages were settled: acknowledged, or sent
    back with an error. *)
Definition settlement : Type := Z * option string.

Definition on_fst {S A} (m : W -> A * W) (w : W * S) : A * (W * S) := let '(a, w1) := m w.1 in (a, (w1, w.2)).
Definition noting {A} (s : settlement) (m : W -> A * W) (w : W * list settlement) : A * (W * list settlement) :=
  let '(a, w1) := m w.1 in (a, (w1, w.2 ++ [s])).

Definition recording : HostServices (W := W * list settlement) (F := F) :=
  mkHostServices
    (fun md r => on_fst (hs_Put c md r)) (fun md r => on_fst (hs_Get c md r)) (fun md r => on_fst (hs_Delete c md r))
    (fun md co fs ss l cu => on_fst (hs_Query c md co fs ss l cu))
    (fun md co fs fn fi gb => on_fst (hs_Aggregate c md co fs fn fi gb))
    (fun md t => on_fst (hs_BeginTx c md t)) (fun md t => on_fst (hs_CommitTx c md t))
    (fun md t => on_fst (hs_RollbackTx c md t)) (fun md r => on_fst (hs_Enqueue c md r))
    (fun md r => on_fst (hs_Consume c md r))
    (fun md i => noting (i, None) (hs_Ack c md i)) (fun md i e => noting (i, Some e) (hs_Nack c md i e))
    (fun md k => on_fst (hs_CacheGet c md k)) (fun md k v t => on_fst (hs_CacheSet c md k v t))
    (fun md k => on_fst (hs_CacheDelete c md k)) (fun md n t w => on_fst (hs_AcquireLock c md n t w))
    (fun md n i t => on_fst (hs_RenewLock c md n i t)) (fun md n i => on_fst (hs_ReleaseLock c md n i))
    (fun md cs e => on_fst (hs_PutFile c md cs e)) (fun md i u e => on_fst (hs_GenerateDownloadToken c md i u e))
    (fun md i => on_fst (hs_DeleteFile c md i)) (fun md n d => on_fst (hs_Publish c md n d))
    (fun md n => on_fst (hs_Subscribe c md n)) (fun md r => on_fst (hs_Fetch c md r))
    (fun md r => on_fst (hs_Log c md r)) (fun md n k v l => on_fst (hs_RecordMetric c md n k v l)).

(** The messages received before the stream failed. *)
Fixpoint received (rs : list (reception pb_message)) : list pb_message :=
  match rs with Delivery m :: rs => m :: received rs | _ => [] end.

(** The handler's verdict on the messages, one after the other, each on the
    host the one before left, its settlement included. *)
Fixpoint verdicts (ms : list pb_message) (w : W) : list settlement :=
  match ms with
  | [] => []
  | m :: ms =>
      let mctx := withTrace ctx (pm_trace_id m) in
      let '(e, w) := h mctx (message_of m) w in
      (pm_id m, e) :: verdicts ms (match e with
                                   | Some e => (hs_Nack c (outgoing mctx) (pm_id m) e w).2
                                   | None => (hs_Ack c (outgoing mctx) (pm_id m) w).2
                                   end)
  end.

(** A consumer settles every message it is given, once, in order and before it
    asks for the next: acknowledged if the handler returned nil, sent back with
    the handler's error if not. It ends only when the stream does or when an
    acknowledgement fails, with nothing of what it was given unsettled; it
    reports no error when the stream ended with its own context. *)
Theorem consume_settles rs w log :
  let '(r, (w', log')) := consume_loop recording ctx (fun x m => on_fst (h x m)) rs (w, log) in
  exists n, log' = log ++ firstn n (verdicts (received rs) w) /\
    (r = None -> length rs = length (received rs) /\ (length (received rs) <= n)%nat) /\
    (r = Some (Ok ()) -> (exists e, StreamError e true ∈ rs) /\ (length (received rs) <= n)%nat) /\
    (forall e, r = Some (Err e) -> (length (received rs) <= n)%nat \/
       (exists m x, received rs !! pred n = Some m /\ (0 < n)%nat /\ e = Plain x)).
Proof.
  revert w log. induction rs as [|[msg|e done] rs IH]; intros w log.
  - exists 0%nat. simpl. split; [by rewrite app_nil_r|]. split; [lia|]. split; [done|]. done.
  - cbn [consume_loop]. unfold on_fst at 1. cbn [fst snd].
    cbn [received verdicts].
    destruct (h (withTrace ctx (pm_trace_id msg)) (message_of msg) w) as [[e|] w1] eqn:Eh.
    + cbn [hs_Nack recording]. unfold noting at 1. cbn [fst snd].
      destruct (hs_Nack c (outgoing (withTrace ctx (pm_trace_id msg))) (pm_id msg) e w1) as [a w2] eqn:En. cbn [fst snd].
      specialize (IH w2 (log ++ [(pm_id msg, Some e)])).
      destruct (consume_loop recording ctx _ rs _) as [r [w' log']]. destruct IH as (n & -> & H1 & H2 & H3).
      exists (S n). cbn [firstn]. rewrite <- app_assoc. split; [done|]. cbn [length]. split; [|split].
      * intros ->. destruct (H1 eq_refl). lia.
      * intros ->. destruct (H2 eq_refl) as [[x Hx] ?]. split; [exists x; by right|lia].
      * intros x ->. destruct (H3 x eq_refl) as [?|(m & y & Hm & Hn & ->)]; [left; lia|].
        right. exists m, y. destruct n; [lia|]. simpl in *. split; [done|]. split; [lia|done].
    + cbn [hs_Ack recording]. unfold noting at 1. cbn [fst snd].
      destruct (hs_Ack c (outgoing (withTrace ctx (pm_trace_id msg))) (pm_id msg) w1) as [[[]|x] w2] eqn:En; cbn [fst snd].
      * specialize (IH w2 (log ++ [(pm_id msg, None)])).
        destruct (consume_loop recording ctx _ rs _) as [r [w' log']]. destruct IH as (n & -> & H1 & H2 & H3).
        exists (S n). cbn [firstn]. rewrite <- app_assoc. split; [done|]. cbn [length]. split; [|split].
        -- intros ->. destruct (H1 eq_refl). lia.
        -- intros ->. destruct (H2 eq_refl) as [[x Hx] ?]. split; [exists x; by right|lia].
        -- intros x ->. destruct (H3 x eq_refl) as [?|(m & y & Hm & Hn & ->)]; [left; lia|].
           right. exists m, y. destruct n; [lia|]. simpl in *. split; [done|]. split; [lia|done].
      * exists 1%nat. cbn [firstn]. split; [done|]. split; [done|]. split; [done|].
        intros e [= <-]. right. exists msg, x. simpl. split; [done|]. split; [lia|done].
  - exists 0%nat. simpl. split; [by rewrite app_nil_r|]. split; [done|]. destruct done; split.
    + intros _. split; [|lia]. exists e. left.
    + done.
    + done.
    + intros x [= <-]. left. lia.
Qed.
End settled.

(** ** Uploads and log fields *)

(** An upload is at least one chunk; the first carries the name and the type,
    together they carry what was read, and none is longer than a read. *)
Lemma chunks_of_spec filename mime reads :
  exists first rest, chunks_of true filename mime reads = first :: rest /\
    pc_filename first = filename /\ pc_mime first = mime /\
    foldl (fun buf c => buf +:+ pc_data c) (pc_data first) rest = foldr String.append "" reads /\
    Forall (fun c => pc_data c = "" \/ pc_data c ∈ reads) (first :: rest).
Proof.
  assert (forall reads buf,
    foldl (fun buf c => buf +:+ pc_data c) buf (chunks_of false filename mime reads) = buf +:+ foldr String.append "" reads /\
    Forall (fun c => pc_data c = "" \/ pc_data c ∈ reads) (chunks_of false filename mime reads)) as Hrest.
  { clear. intros reads. induction reads as [|r reads IH]; intros buf; simpl; [by rewrite sapp_nil_r|].
    destruct (String.eqb_spec r "") as [->|Hr]; simpl.
    - destruct (IH buf) as [-> Hf]. split; [done|]. eapply list.Forall_impl; [exact Hf|]. intros c [?|?]; [by left|right; by right].
    - destruct (IH (buf +:+ r)) as [-> Hf]. split; [by rewrite sapp_assoc|]. constructor; [right; left|].
      eapply list.Forall_impl; [exact Hf|]. intros c [?|?]; [by left|right; by right]. }
  induction reads as [|r reads IH]; simpl.
  - eexists _, []. split; [reflexivity|]. simpl. split_and!; try done. constructor; [by left|constructor].
  - destruct (String.eqb_spec r "") as [->|Hr].
    + destruct IH as (first & rest & E & Hn & Hm & Hd & Hf). exists first, rest. split_and!; try done.
      eapply list.Forall_impl; [exact Hf|]. intros c [?|?]; [by left|right; by right].
    + eexists _, _. split; [reflexivity|]. cbn [pc_filename pc_mime pc_data]. destruct (Hrest reads r) as [Hd Hf].
      split_and!; try done. constructor; [right; left|].
      eapply list.Forall_impl; [exact Hf|]. intros c [?|?]; [by left|right; by right].
Qed.

(** Fields in pairs: the last value of a key, and nothing of an odd one out. *)
Lemma log_fields_pairs (ps : list (any * any)) tail kv : (length tail <= 1)%nat ->
  log_fields kv (mjoin ((fun '(k, v) => [k; v]) <$> ps) ++ tail) =
  list_to_map (reverse ((fun '(k, v) => (asLogValue k, asLogValue v)) <$> ps)) ∪ kv.
Proof.
  intros Ht. revert kv. induction ps as [|[k v] ps IH]; intros kv.
  - transitivity kv; [|symmetry; apply (left_id_L ∅ (∪))].
    destruct tail as [|x [|y tail]]; [done|done|simpl in Ht; lia].
  - rewrite !fmap_cons. cbn [mjoin list_join app log_fields]. rewrite IH, reverse_cons, list_to_map_app, <- (assoc_L (∪)). f_equal.
    cbn. rewrite insert_empty. apply insert_union_singleton_l.
Qed.
