(* ===== verification/SdkServer.v ===== *)
(** * The SDK on Core's own server

    The interface of SdkHost.v made of the calls of HostServer.v, and what a
    plugin's author can rely on across both: which error is which, when a
    transaction is left open, that a query asks what it describes, that a file
    arrives as it was read. For transactions the calls go over a line on which
    each may be lost or lose its answer, as with a cancelled context; the
    transport does not fail elsewhere here. *)

From Stdlib Require Import Ascii.
From S2P Require Import Prelude GoStrings Sql TxRegistry Documents SqlText Query Wire Egress Files.
From S2P Require Import HostServer HostData Sdk SdkHost SdkRuntime.

Open Scope Z_scope.

Section on_server.
Context {W F V : Type} (Marshal : V -> result string string) (Unmarshal : string -> result string V).
Context (key : string) (perms : permSet) (deps : Deps (W := W) (F := F)) (now : Z).

Definition over {A} (m : rpc (W := W) A) : remote (W := conn) A := fun c =>
  let '(r, c) := m c in
  (match r with Ok a => Ok a | Err s => Err (RpcStatus s) end, c).

(** Opening a stream only sends the request. *)
Definition opened {A} (a : A) : remote (W := conn (W := W)) A := fun c => (Ok a, c).

Definition server_host : HostServices (W := conn (W := W)) (F := F) :=
  mkHostServices
    (fun _ r => over (HostServer.Put key perms deps r))
    (fun _ r => over (HostServer.Get key perms deps r))
    (fun _ r => over (HostServer.Delete key perms deps r))
    (fun _ co fs ss l cu => over (HostServer.Query key perms deps co fs ss l cu ""))
    (fun _ co fs fn fi gb => over (HostServer.Aggregate key perms deps co fs fn fi gb ""))
    (fun _ t => over (HostServer.BeginTx key perms deps t))
    (fun _ tx => over (HostServer.CommitTx key perms deps tx))
    (fun _ tx => over (HostServer.RollbackTx key perms deps tx))
    (fun md r => over (HostServer.Enqueue key perms deps md (en_Topic r) (en_Payload r) (en_DelaySeconds r)
       (en_DedupKey r) (en_Priority r) (en_MaxAttempts r) ""))
    (fun _ _ => opened ())
    (fun _ i => over (HostServer.Ack key perms deps i))
    (fun _ i e => over (HostServer.Nack key perms deps i e 0))
    (fun _ k => over (HostServer.CacheGet key perms deps k))
    (fun _ k v t => over (HostServer.CacheSet key perms deps k v t))
    (fun _ k => over (HostServer.CacheDelete key perms deps k))
    (fun _ n t w => over (HostServer.AcquireLock key perms deps n t w))
    (fun _ n i t => over (HostServer.RenewLock key perms deps n i t))
    (fun _ n i => over (HostServer.ReleaseLock key perms deps n i))
    (fun _ cs e => over (HostServer.PutFile key perms deps cs e))
    (fun _ i u e => over (HostServer.GenerateDownloadToken key perms deps i u e))
    (fun _ i => over (HostServer.DeleteFile key perms deps i))
    (fun md n d => over (HostServer.Publish key perms deps md n d ""))
    (fun _ _ => opened ())
    (fun _ r => over (HostServer.Fetch key perms deps r))
    (fun _ rs => over (HostServer.Log key deps now rs))
    (fun _ n k v l => over (HostServer.RecordMetric key deps n k v l)).

(** ** Which error is which *)

Definition granted (l : list string) : Prop := Forall (.∈ perms) l.

(** The sentinel of a failure of the document store. *)
Definition data_kind (e : data_error) : option sentinel :=
  match e with
  | DataDb ErrVersionConflict => Some SdkVersionConflict
  | DataTx (ErrTooManyTx _ _ _) => Some SdkRateLimited
  | DataTx ErrUnknownTx => Some SdkTxExpired
  | _ => None
  end.

Lemma dataErr_kind e k : Is (hostErr (RpcStatus (dataErr e))) k = bool_decide (data_kind e = Some k).
Proof. by destruct e as [[]|[]], k. Qed.

(** What an author's document call answers, given what the store would. *)
Definition data_answer {A} (needs : list string) (store : DataBackend (W := W) (F := F) -> W -> result data_error A * W)
    (c : conn) (r : result error A) (c' : conn) : Prop :=
  if decide (granted needs) then
    match d_Data deps with
    | None => c' = c /\ exists e, r = Err e /\ forall k, Is e k = false
    | Some data =>
        let '(answer, w) := store data (world c) in
        c' = mkConn (inflight c) w /\
        match answer with
        | Ok a => r = Ok a
        | Err d => exists e, r = Err e /\ forall k, Is e k = bool_decide (data_kind d = Some k)
        end
    end
  else c' = c /\ exists e, r = Err e /\ forall k, Is e k = bool_decide (k = SdkNotAllowed).

Lemma require_case p {A} (k : () -> rpc (W := W) A) c :
  guard (require key perms p) k c = if decide (p ∈ perms) then k () c else (Err (mkStatus PermissionDenied
    ("plugin " +:+ key +:+ " is not granted " +:+ p)), c).
Proof.
  unfold guard, require, perm_has. destruct (decide (p ∈ perms)).
  - by rewrite bool_decide_true.
  - by rewrite bool_decide_false.
Qed.

Lemma not_allowed msg k : Is (hostErr (RpcStatus (mkStatus PermissionDenied msg))) k = bool_decide (k = SdkNotAllowed).
Proof. by destruct k. Qed.

Lemma data_answers {A} tx (store : DataBackend -> W -> result data_error A * W) (call_ : remote A) c r c' :
  call_ = over (with_data key perms deps tx (fun data => call (store data) dataErr id)) ->
  ask call_ hostErr Ok c = (r, c') -> data_answer (PermDB :: needs_tx tx) store c r c'.
Proof.
  intros ->. unfold ask, over, with_data, data_answer.
  rewrite require_case.
  destruct (decide (PermDB ∈ perms)) as [Hdb|Hdb].
  2: { intros [= <- <-]. rewrite decide_False by (by intros [? _]%list.Forall_cons).
       split; [done|]. eexists. split; [reflexivity|]. apply not_allowed. }
  unfold requireTx, needs_tx. destruct (String.eqb tx "").
  - cbn [guard]. unfold dataBackend, available, granted. rewrite decide_True by (by repeat constructor).
    destruct (d_Data deps) as [data|]; cbn [guard].
    + unfold call. destruct (store data (world c)) as [[a|d] w]; intros [= <- <-]; (split; [done|]); [done|].
      eexists. split; [reflexivity|]. apply dataErr_kind.
    + intros [= <- <-]. split; [done|]. eexists. split; [reflexivity|]. by intros [].
  - rewrite require_case. destruct (decide (PermDBTx ∈ perms)) as [Htx|Htx].
    + unfold dataBackend, available, granted. rewrite decide_True by (by repeat constructor).
      destruct (d_Data deps) as [data|]; cbn [guard].
      * unfold call. destruct (store data (world c)) as [[a|d] w]; intros [= <- <-]; (split; [done|]); [done|].
        eexists. split; [reflexivity|]. apply dataErr_kind.
      * intros [= <- <-]. split; [done|]. eexists. split; [reflexivity|]. by intros [].
    + intros [= <- <-]. rewrite decide_False by (intros [_ [? _]%list.Forall_cons]%list.Forall_cons; done).
      split; [done|]. eexists. split; [reflexivity|]. apply not_allowed.
Qed.

(** Two errors a retry loop has to tell apart can be told apart, and no others
    look like them. For every document call, in a transaction or not: without
    the permission it answers ErrNotAllowed, and nothing reaches the store; a
    store that reports a version conflict gives ErrVersionConflict, an unknown or
    expired transaction ErrTxExpired, too many transactions ErrRateLimited, and
    every other failure matches no sentinel; and what the store answers without
    error is what the author gets. *)
Lemma sentinels_exact ctx collection id_ value data expected tx c :
  Marshal value = Ok data ->
  (let '(r, c') := PutIfVersion Marshal (Some server_host) ctx collection id_ value expected c in
   data_answer [PermDB] (fun d => data_Put d key collection id_ data "" expected) c r c') /\
  (let '(r, c') := Put Marshal (Some server_host) ctx collection id_ value c in
   data_answer [PermDB] (fun d => data_Put d key collection id_ data "" 0) c r c') /\
  (let '(r, c') := SdkHost.Delete (Some server_host) ctx collection id_ c in
   data_answer [PermDB] (fun d => data_Delete d key collection id_ "") c r c') /\
  (let '(r, c') := t_PutIfVersion Marshal ctx collection id_ value expected (mkTxClient server_host tx) c in
   data_answer (PermDB :: needs_tx tx) (fun d => data_Put d key collection id_ data tx expected) c r c').
Proof.
  intros Hm. unfold PutIfVersion, Put, SdkHost.Delete, t_PutIfVersion, t_put, encoded, bound. rewrite Hm.
  split_and!; match goal with |- let '(_, _) := ?m in _ => destruct m as [r c'] eqn:E end.
  - by apply (data_answers "" _ _ _ _ _ eq_refl) in E.
  - by apply (data_answers "" _ _ _ _ _ eq_refl) in E.
  - by apply (data_answers "" _ _ _ _ _ eq_refl) in E.
  - by apply (data_answers tx _ _ _ _ _ eq_refl) in E.
Qed.
End on_server.

(** ** The line between a plugin and Core *)

(** What becomes of a call: it arrives and is answered; it never leaves the
    plugin, as with a context that is cancelled or past its deadline; or it
    arrives and its answer is lost. *)
Inductive fate := Delivered | NotSent (e : rpc_error) | AnswerLost (e : rpc_error).

Definition reaches (f : fate) : bool := match f with NotSent _ => false | _ => true end.

(** Core, and the fates of the next calls; those after them are delivered. *)
Record line (C : Type) := mkLine { ln_conn : C; ln_fates : list fate }.
Arguments mkLine {C}. Arguments ln_conn {C}. Arguments ln_fates {C}.

Definition next_fate {C} (l : line C) : fate := default Delivered (head (ln_fates l)).

Definition transport {C A} (m : remote (W := C) A) : remote (W := line C) A := fun l =>
  match next_fate l with
  | NotSent e => (Err e, mkLine (ln_conn l) (tail (ln_fates l)))
  | Delivered => let '(r, c) := m (ln_conn l) in (r, mkLine c (tail (ln_fates l)))
  | AnswerLost e => let '(_, c) := m (ln_conn l) in (Err e, mkLine c (tail (ln_fates l)))
  end.

(** The calls of [h], over a line. *)
Definition on_line {C F} (h : HostServices (W := C) (F := F)) : HostServices (W := line C) (F := F) :=
  mkHostServices
    (fun md r => transport (hs_Put h md r)) (fun md r => transport (hs_Get h md r))
    (fun md r => transport (hs_Delete h md r)) (fun md co fs ss l cu => transport (hs_Query h md co fs ss l cu))
    (fun md co fs fn fi gb => transport (hs_Aggregate h md co fs fn fi gb))
    (fun md t => transport (hs_BeginTx h md t)) (fun md tx => transport (hs_CommitTx h md tx))
    (fun md tx => transport (hs_RollbackTx h md tx)) (fun md r => transport (hs_Enqueue h md r))
    (fun md r => transport (hs_Consume h md r)) (fun md i => transport (hs_Ack h md i))
    (fun md i e => transport (hs_Nack h md i e)) (fun md k => transport (hs_CacheGet h md k))
    (fun md k v t => transport (hs_CacheSet h md k v t)) (fun md k => transport (hs_CacheDelete h md k))
    (fun md n t w => transport (hs_AcquireLock h md n t w)) (fun md n i t => transport (hs_RenewLock h md n i t))
    (fun md n i => transport (hs_ReleaseLock h md n i)) (fun md cs e => transport (hs_PutFile h md cs e))
    (fun md i u e => transport (hs_GenerateDownloadToken h md i u e)) (fun md i => transport (hs_DeleteFile h md i))
    (fun md n d => transport (hs_Publish h md n d)) (fun md n => transport (hs_Subscribe h md n))
    (fun md r => transport (hs_Fetch h md r)) (fun md rs => transport (hs_Log h md rs))
    (fun md n k v l => transport (hs_RecordMetric h md n k v l)).

(** A call that reaches Core leaves it as the call does; one that does not
    leaves it alone. *)
Lemma transport_conn {C A} (m : remote (W := C) A) l :
  ln_conn (transport m l).2 = if reaches (next_fate l) then (m (ln_conn l)).2 else ln_conn l.
Proof. unfold transport. destruct (next_fate l); cbn; by destruct (m (ln_conn l)). Qed.

(** ** Transactions end *)

Section transactions.
Context {S F : Type} (zero : F).
Context (ident : string -> string) (jsonb : string -> option string)
  (field_text : string -> string -> option string) (varchar : Z -> string -> bool).
Context (parse_object : string -> option (list (string * json))) (marshal_value : json -> string)
  (cursor_json : list string -> string -> string) (cursor_unjson : string -> option (list string * string)).
Context (pg : server (S := S) (F := F)) (now : Z) (txid : string).
Context (key : string) (perms : permSet) (deps : Deps (W := CMDSData (S := S)) (F := F)).

Definition store : DataBackend :=
  data_backend zero ident jsonb field_text varchar parse_object marshal_value cursor_json cursor_unjson pg now txid.

Lemma finish_closes commit k id_ w : not_open k id_ (finish pg commit k id_ w).2.
Proof.
  assert (Ht : not_open k id_ (mkCMDSData (dh_server w) (take k id_ (dh_txs w)).2)).
  { unfold not_open, take. destruct (txs (dh_txs w) !! id_) as [t|] eqn:E; simpl; intros t'.
    - destruct (decide (pluginKey t <> k)).
      + rewrite bool_decide_true by done. simpl. rewrite E. congruence.
      + rewrite bool_decide_false by done. unfold dropLocked, release. repeat case_match; simpl; by rewrite lookup_delete_eq.
    - by rewrite E. }
  unfold finish, Commit, Rollback. unfold not_open in *. simpl in Ht.
  destruct commit; destruct (take k id_ (dh_txs w)) as [[t|e] reg]; exact Ht.
Qed.

Notation host := (server_host key perms deps now).

Lemma ending_closes (commit : bool) id_ (c : conn) :
  PermDBTx ∈ perms -> d_Data deps = Some store ->
  not_open key id_ (world ((if commit then HostServer.CommitTx else HostServer.RollbackTx) key perms deps id_ c).2).
Proof.
  intros Hp Hd. pose proof (finish_closes commit key id_ (world c)) as Hf.
  destruct commit; unfold HostServer.CommitTx, HostServer.RollbackTx; rewrite require_case, decide_True by done;
    unfold guard, dataBackend, available; rewrite Hd; unfold call; cbn [store data_backend data_CommitTx data_RollbackTx].
  - by destruct (finish pg true key id_ (world c)) as [[u|e] w].
  - by destruct (finish pg false key id_ (world c)) as [[u|e] w].
Qed.

(** An ending call on the line. *)
Lemma line_closes (commit : bool) id_ (l : line conn) :
  PermDBTx ∈ perms -> d_Data deps = Some store -> reaches (next_fate l) = true ->
  not_open key id_ (world (ln_conn
    (transport (over ((if commit then HostServer.CommitTx else HostServer.RollbackTx) key perms deps id_)) l).2)).
Proof.
  intros Hp Hd Hr. rewrite transport_conn, Hr. unfold over. pose proof (ending_closes commit id_ (ln_conn l) Hp Hd) as H.
  destruct commit; [by destruct (HostServer.CommitTx key perms deps id_ (ln_conn l))|].
  by destruct (HostServer.RollbackTx key perms deps id_ (ln_conn l)).
Qed.

Lemma finish_stays_closed commit k i id_ w : not_open k id_ w -> not_open k id_ (finish pg commit k i w).2.
Proof.
  intros H. assert (Ht : not_open k id_ (mkCMDSData (dh_server w) (take k i (dh_txs w)).2)).
  { unfold not_open, take in *. destruct (txs (dh_txs w) !! i) as [t|] eqn:E; simpl; [|exact H]. destruct (bool_decide (pluginKey t <> k)); [exact H|].
    simpl. intros t'. unfold dropLocked, release.
    assert (delete i (txs (dh_txs w)) !! id_ = Some t' -> pluginKey t' <> k) as Hdel.
    { intros [_ Hl]%lookup_delete_Some. by apply (H t'). }
    repeat case_match; simpl; exact Hdel. }
  unfold finish, Commit, Rollback. unfold not_open in *. simpl in Ht.
  destruct commit; destruct (take k i (dh_txs w)) as [[t|e] reg]; exact Ht.
Qed.

Lemma line_stays_closed (commit : bool) i id_ (l : line conn) :
  PermDBTx ∈ perms -> d_Data deps = Some store -> not_open key id_ (world (ln_conn l)) ->
  not_open key id_ (world (ln_conn
    (transport (over ((if commit then HostServer.CommitTx else HostServer.RollbackTx) key perms deps i)) l).2)).
Proof.
  intros Hp Hd Hn. rewrite transport_conn. destruct (reaches _); [|exact Hn]. unfold over.
  pose proof (finish_stays_closed commit key i id_ (world (ln_conn l)) Hn) as H.
  destruct commit; unfold HostServer.CommitTx, HostServer.RollbackTx; rewrite require_case, decide_True by done;
    unfold guard, dataBackend, available; rewrite Hd; unfold call; cbn [store data_backend data_CommitTx data_RollbackTx].
  - by destruct (finish pg true key i (world (ln_conn l))) as [[u|e] w].
  - by destruct (finish pg false key i (world (ln_conn l))) as [[u|e] w].
Qed.

End transactions.

(** ** On the example server *)

Definition ex_perms : permSet := newPermSet [PermDB; PermDBTx].
Notation ex_conn := (conn (W := CMDSData (S := session database))).
Definition ex_host : HostServices (W := ex_conn) (F := Z) := server_host "shop" ex_perms ex_data_deps 10.

(** Values are their own JSON. *)
Definition json_text (s : string) : result string string := Ok s.

Definition ex_line_host : HostServices (W := line ex_conn) (F := Z) := on_line ex_host.

Definition ex_sale (t : TxClient (W := line ex_conn) (F := Z)) (l : line ex_conn) : (ending * ()) * line ex_conn :=
  match t_Put json_text Background "items" "7" "{}" t l with
  | (Ok _, l) => ((Returns None, ()), l)
  | (Err e, l) => ((Returns (Some e), ()), l)
  end.

(** The author's context is cancelled while the transaction is open. *)
Definition cancelled : rpc_error := RpcOther "context canceled".
Definition ex_cancelled (t : TxClient (W := line ex_conn) (F := Z)) (l : line ex_conn) : (ending * ()) * line ex_conn :=
  let '(r, l) := ex_sale t l in (r, mkLine (ln_conn l) [NotSent cancelled; NotSent cancelled]).

Lemma transport_up {C A} (m : remote (W := C) A) l : ln_fates l = [] -> ln_fates (transport m l).2 = [].
Proof. unfold transport, next_fate. intros ->. simpl. by destruct (m (ln_conn l)). Qed.

Lemma ex_sale_line id_ l : ln_fates l = [] -> next_fate (ex_sale (mkTxClient ex_line_host id_) l).2 = Delivered.
Proof.
  intros Hl. assert (ln_fates (ex_sale (mkTxClient ex_line_host id_) l).2 = []) as H; [|unfold next_fate; by rewrite H].
  unfold ex_sale, t_Put, t_put, encoded, json_text, ask. cbn [t_c hs_Put ex_line_host on_line].
  match goal with |- context [transport ?m l] => pose proof (transport_up m l Hl) as H; destruct (transport m l) as [[v|s] l'] end;
    exact H.
Qed.


(** The rollback goes out on the context of the author: once that is cancelled
    the transaction stays open, and holds its connection, until Core's reaper
    finds it expired. *)
Example cancelled_context_leaves_open :
  let '(r, l) := Tx (Some ex_line_host) Background second ex_cancelled (mkLine ex_open []) in
  r = (Returns (Some (Plain cancelled)), Some ()) /\
  is_Some (txs (dh_txs (world (ln_conn l))) !! "t2").
Proof. vm_compute. split; [reflexivity|by eexists]. Qed.

(** A begin whose answer is lost leaves one open, too, that nobody has the id of. *)
Example lost_begin_leaves_open :
  let '(r, l) := Tx (Some ex_line_host) Background second ex_sale (mkLine ex_open [AnswerLost cancelled]) in
  r = (Returns (Some (Plain cancelled)), None) /\ is_Some (txs (dh_txs (world (ln_conn l))) !! "t2").
Proof. vm_compute. split; [reflexivity|by eexists]. Qed.

(** ** Queries ask what they describe *)

(** The builder methods, in the order an author calls them. *)
Inductive qcall :=
| CEq (field value : string) | CNe (field value : string) | CGt (field value : string) | CGte (field value : string)
| CLt (field value : string) | CLte (field value : string) | CLike (field pattern : string)
| CIn (field : string) (values : list string) | CBetween (field low high : string)
| CIsNull (field : string) | CIsNotNull (field : string)
| CSort (field : string) | CSortDesc (field : string) | CLimit (n : Z) | CAfter (cursor : string).

(** What the operator names of a description mean in SQL. *)
Definition symbol (name : string) : string :=
  default "=" (list_to_map (M := gmap string string)
    [("EQ", "="); ("NE", "!="); ("GT", ">"); ("GTE", ">="); ("LT", "<"); ("LTE", "<="); ("LIKE", "LIKE"); ("IN", "IN");
     ("BETWEEN", "BETWEEN"); ("IS_NULL", "IS NULL"); ("IS_NOT_NULL", "IS NOT NULL")] !! name).

Section describing.
Context {W F V : Type} (UnmarshalList : string -> result string (list V)).
Context (key : string) (perms : permSet) (deps : Deps (W := W) (F := F)) (now : Z).
Notation host := (server_host key perms deps now).
Notation query := (query (W := conn (W := W)) (F := F)).

Definition called (q : query) (k : qcall) : query :=
  match k with
  | CEq f v => q_Eq f v q | CNe f v => q_Ne f v q | CGt f v => q_Gt f v q | CGte f v => q_Gte f v q
  | CLt f v => q_Lt f v q | CLte f v => q_Lte f v q | CLike f v => q_Like f v q | CIn f vs => q_In f vs q
  | CBetween f l h => q_Between f l h q | CIsNull f => q_IsNull f q | CIsNotNull f => q_IsNotNull f q
  | CSort f => q_Sort f q | CSortDesc f => q_SortDesc f q | CLimit n => q_Limit n q | CAfter c => q_After c q
  end.

(** Filters as the description spells them, for the store. *)
Definition described (fs : list QueryFilter) : list HostServer.Filter :=
  (fun f => HostServer.mkFilter (qf_Field f) (symbol (qf_Op f)) (qf_Values f)) <$> fs.

Definition well_built (q : query) : Prop :=
  q_c q = Some host /\ q_err q = None /\
  Forall (fun f => operatorName (pf_op f) = symbol (trim_prefix (operator_String (pf_op f)) "OP_")) (q_filters q).

Lemma called_well q k : well_built q -> well_built (called q k).
Proof.
  intros (Hc & He & Hf). destruct k; (split; [done|]); (split; [done|]); cbn [called q_Eq q_Ne q_Gt q_Gte q_Lt q_Lte
    q_Like q_In q_Between q_IsNull q_IsNotNull q_Sort q_SortDesc q_Limit q_After q_add q_add_sort q_filters];
    rewrite ?list.Forall_app; unfold q_Eq, q_Ne, q_Gt, q_Gte, q_Lt, q_Lte, q_Like, q_In, q_Between, q_IsNull,
      q_IsNotNull, q_Sort, q_SortDesc, q_add, q_add_sort; cbn [q_filters];
    rewrite ?list.Forall_app; try done; (split; [done|]); repeat constructor.
Qed.

Lemma where_well collection calls : well_built (foldl called (Where (Some host) collection) calls) /\
  q_collection (foldl called (Where (Some host) collection) calls) = collection.
Proof.
  induction calls as [|k calls IH] using rev_ind; [by repeat split|]. rewrite foldl_snoc. destruct IH as [Hw Hq].
  split; [by apply called_well|]. by destruct k.
Qed.

Lemma described_filters (q : query) : well_built q -> filtersFrom (q_filters q) = described (qd_Filters (Describe q)).
Proof.
  intros (_ & _ & Hf). unfold filtersFrom, described, Describe. cbn [qd_Filters]. rewrite <- list_fmap_compose.
  induction Hf as [|f fs Hop _ IH]; [done|]. cbn. rewrite IH. by rewrite Hop.
Qed.

(** A query asks Core for exactly what it describes: whatever builder methods
    are called on [sdk.DB.Where], in any order, the store is asked once, for the
    collection, filters, sort order, limit and cursor that Describe reports, each
    operator by the symbol its name stands for; and an aggregation is asked over
    the same filters. *)
Theorem describe_exact ctx collection calls dest fn field groupBy data c :
  PermDB ∈ perms -> d_Data deps = Some data ->
  let q := foldl called (Where (Some host) collection) calls in
  let d := Describe q in
  qd_Collection d = collection /\
  All UnmarshalList ctx dest q c =
    (let '(r, w) := data_Query data key collection
       (mkQueryOptions (described (qd_Filters d)) (qd_Sort d) (qd_Limit d) (qd_Cursor d)) "" (world c) in
     (match r with
      | Ok p => let? vs := page UnmarshalList dest (qr_Documents p) in Ok (qr_NextCursor p, vs)
      | Err _ => Err (Plain (RpcStatus (mkStatus InvalidArgument "query")))
      end, mkConn (inflight c) w)) /\
  (aggregate fn ctx field groupBy q c).2 =
    mkConn (inflight c) (data_Aggregate data key collection
      (mkAggregateOptions (described (qd_Filters d)) (aggregateFuncName fn) field groupBy) "" (world c)).2.
Proof.
  intros Hp Hd q d. destruct (where_well collection calls) as [Hw Hq]. change (foldl called _ calls) with q in Hw, Hq.
  pose proof (described_filters q Hw) as Hf. change (Describe q) with d in Hf. destruct Hw as (Hc & He & _).
  split; [done|]. split.
  - unfold All, run_query, ready. rewrite He, Hc. unfold bound, ask. cbn [hs_Query server_host]. unfold over, HostServer.Query, with_data.
    rewrite require_case, decide_True by done. cbn [requireTx String.eqb guard]. unfold dataBackend, available. rewrite Hd. cbn [guard].
    unfold call. rewrite Hf, Hq.
    change (qd_Sort d) with (q_sort q). change (qd_Limit d) with (q_limit q). change (qd_Cursor d) with (q_cursor q).
    by destruct (data_Query _ _ _ _ _ _) as [[p|e] w].
  - unfold aggregate, ready. rewrite He, Hc. unfold bound, ask. cbn [hs_Aggregate server_host]. unfold over, HostServer.Aggregate, with_data.
    rewrite require_case, decide_True by done. cbn [requireTx String.eqb guard]. unfold dataBackend, available. rewrite Hd. cbn [guard].
    unfold call. rewrite Hf, Hq.
    by destruct (data_Aggregate _ _ _ _ _ _) as [[p|e] w].
Qed.
End describing.

Lemma describe_exact_witness :
  let q := foldl (called (W := CMDSData (S := session database)) (F := Z)) (Where (Some ex_host) "items")
             [CEq "kind" "tea"; CGte "qty" "2"; CSortDesc "qty"; CLimit 20] in
  qd_Filters (Describe q) = [mkQueryFilter "kind" "EQ" ["tea"]; mkQueryFilter "qty" "GTE" ["2"]] /\
  described (qd_Filters (Describe q)) =
    [HostServer.mkFilter "kind" "=" ["tea"]; HostServer.mkFilter "qty" ">=" ["2"]] /\
  qd_Collection (Describe q) = "items".
Proof.
  intros q. split; [reflexivity|]. split; [vm_compute; reflexivity|].
  exact (proj1 (describe_exact (fun s => Ok [s]) "shop" ex_perms ex_data_deps 10 Background "items"
    [CEq "kind" "tea"; CGte "qty" "2"; CSortDesc "qty"; CLimit 20] false AGG_COUNT "" [] ex_data ex_open
    ltac:(apply (bool_decide_unpack _); vm_compute; exact I) eq_refl)).
Defined.

(** ** Files, delays, and the rest *)

Section others.
Context {W F V : Type} (Marshal : V -> result string string).
Context (key : string) (perms : permSet) (deps : Deps (W := W) (F := F)) (now : Z).
Notation host := (server_host key perms deps now).

(** What a reader gives is what the file store is asked to keep, under the
    name and type given; a reader that fails stores nothing. *)
Lemma upload_exact ctx filename mime r f c :
  PermFilesWrite ∈ perms -> d_Files deps = Some f ->
  FilesPut (Some host) ctx filename mime r None c =
  match rd_end r with
  | Some e => (Err (Author e), c)
  | None =>
      let '(a, w) := file_Put f key filename mime (foldr String.append "" (rd_chunks r)) (world c) in
      (match a with Ok x => Ok x | Err e => Err (Plain (RpcStatus (fileErr e))) end, mkConn (inflight c) w)
  end.
Proof.
  intros Hp Hf. unfold FilesPut, bound.
  assert (forall chunks e, PutFile key perms deps chunks (Some e) c =
    (Err (match chunks with [] => mkStatus InvalidArgument "no file content received"
          | _ => mkStatus Aborted ("receive file: " +:+ e) end), c)) as Hbreak.
  { intros chunks e. unfold PutFile, with_files. rewrite require_case, decide_True by done. unfold available.
    rewrite Hf. by destruct chunks. }
  cbn [hs_PutFile server_host]. unfold ask, over. destruct (rd_end r) as [e|]; [by rewrite Hbreak|].
  destruct (chunks_of_spec filename mime (rd_chunks r)) as (first & rest & -> & Hn & Hm & Hd & _).
  unfold PutFile, with_files. rewrite require_case, decide_True by done. unfold available. rewrite Hf. cbn [guard].
  unfold call. rewrite Hn, Hm, Hd. by destruct (file_Put f _ _ _ _ _) as [[a|e] w].
Qed.

(** A delayed message is not due before its delay, nor a second after it. *)
Lemma publish_not_before ctx topic v data d q c :
  PermQueue ∈ perms -> d_Queue deps = Some q -> topic <> "" -> Marshal v = Ok data ->
  0 < d <= (2 ^ 31 - 1) * second ->
  exists delay, d <= delay < d + second /\
    (QueuePublish Marshal (Some host) ctx topic v [WithDelay d] c).2 =
    mkConn (inflight c) (queue_Enqueue q key topic data
      (mkEnqueueOptions delay "" 0 0 (traceFrom (outgoing ctx) "")) (world c)).2.
Proof.
  intros Hp Hq Ht Hv Hd. exists (wholeSeconds d * second). split; [by apply wholeSeconds_spec|].
  unfold QueuePublish, bound, encoded, ask. rewrite Hv. cbn [hs_Enqueue server_host]. unfold over, HostServer.Enqueue, with_queue.
  rewrite require_case, decide_True by done. unfold available. rewrite Hq. cbn [guard]. unfold required.
  destruct (String.eqb_spec topic ""); [done|]. cbn [foldl en_Topic]. rewrite (proj2 (String.eqb_neq _ _)) by done. cbn [guard].
  unfold call. cbn [WithDelay en_Topic en_Payload en_DelaySeconds en_DedupKey en_Priority en_MaxAttempts].
  by destruct (queue_Enqueue _ _ _ _ _ _) as [[a|e] w].
Qed.

(** Failures an author cannot tell by a sentinel although one is documented: a
    queue at its limit, a file that is not there. *)
Lemma full_queue_unclassified ctx topic v opts q c e :
  d_Queue deps = Some q -> (forall t p o w, exists m, (queue_Enqueue q key t p o w).1 = Err m) ->
  (QueuePublish Marshal (Some host) ctx topic v opts c).1 = Err e -> Is e SdkRateLimited = false.
Proof.
  intros Hq Hfull. unfold QueuePublish, bound, encoded. destruct (Marshal v) as [data|m]; [|by intros [= <-]].
  unfold ask. cbn [hs_Enqueue server_host]. unfold over, HostServer.Enqueue, with_queue. rewrite require_case.
  case_decide; [|by intros [= <-]]. unfold available. rewrite Hq. cbn [guard]. unfold required.
  destruct (String.eqb _ ""); [by intros [= <-]|]. cbn [guard]. unfold call.
  match goal with |- context [queue_Enqueue q key ?t ?p ?o ?w] =>
    destruct (Hfull t p o w) as [m Hm]; destruct (queue_Enqueue q key t p o w) as [[a|x] w'] end; simpl in Hm; [done|].
  by intros [= <-].
Qed.

Lemma missing_file_unclassified ctx id_ f c w :
  PermFilesWrite ∈ perms -> d_Files deps = Some f -> file_Delete f key id_ (world c) = (Err (ErrFileNotFound id_), w) ->
  exists e, (FilesDelete (Some host) ctx id_ c).1 = Err e /\ (forall k, Is e k = false) /\
    Is (hostErr (RpcStatus (fileErr (ErrFileNotFound id_)))) SdkNotFound = true.
Proof.
  intros Hp Hf Hd. unfold FilesDelete, bound, ask. cbn [hs_DeleteFile server_host]. unfold over, HostServer.DeleteFile, with_files.
  rewrite require_case, decide_True by done. unfold available. rewrite Hf. cbn [guard]. unfold call. rewrite Hd.
  eexists. split; [reflexivity|]. split; [by intros []|reflexivity].
Qed.
End others.

(** Two replicas that both find a document missing, and write it at the
    version they read, both succeed: version zero is no condition at all. *)
Example missing_document_overwritten :
  let get c := Get (fun s => Ok s) (Some ex_host) Background "items" "9" true c in
  let put v c := PutIfVersion json_text (Some ex_host) Background "items" "9" v 0 c in
  let '(read, c) := get ex_open in
  let '(first, c) := put "{}" c in
  rd_found read = false /\ rd_version read = 0 /\ is_ok first = true /\ is_ok (put "{}" c).1 = true.
Proof. vm_compute. repeat split; reflexivity. Qed.

(** A transaction that is gone by the time it is to be committed: the function
    succeeded, and the error that comes back matches no sentinel. *)
Example expired_commit_unclassified :
  let reaped (c : ex_conn) := mkConn (inflight c) (mkCMDSData (dh_server (world c)) (mkTxRegistry ∅ 8 ∅)) in
  let fn (_ : TxClient (W := ex_conn) (F := Z)) (c : ex_conn) := ((Returns None, ()), reaped c) in
  (Tx (Some ex_host) Background second fn ex_open).1 =
    (Returns (Some (Plain (RpcStatus (dataErr (DataTx ErrUnknownTx))))), Some ()) /\
  data_kind (DataTx ErrUnknownTx) = Some SdkTxExpired.
Proof. split; vm_compute; reflexivity. Qed.
