(* ===== verification/Transport.v ===== *)
(** * pluginapi: the two ends of the connection between Core and a plugin

    contract.go, client.go, grpcplugin.go and serve.go: what each side hands to
    go-plugin, the limits both put on a message, and the request Core configures
    a plugin with, from [Launch] of Launch.v to the process of Sdk.v. go-plugin's
    own part, the handshake and the broker's streams, is a parameter.

    The theorem: a plugin Core has launched is the one Core believes it has
    launched, with the settings its host services answer at that moment. The
    examples at the end are the upgrade, whose processes start on the defaults
    of the manifest being replaced, and the ceiling of the request, which nobody
    reads. *)

From S2P Require Import Prelude GoStrings Manifest Breaker Instance Registry Manager Launch.
From S2P Require Sdk HostServer.

Open Scope Z_scope.

(** ** contract.go *)

Definition DispenseName : string := "moduless".
Definition TraceMetadataKey : string := "x-moduless-trace-id".
Definition DefaultMaxMessageBytes : Z := Z.shiftl 16 20.

Record HandshakeConfig := mkHandshakeConfig {
  ProtocolVersion : Z; MagicCookieKey : string; MagicCookieValue : string
}.
Definition Handshake : HandshakeConfig := mkHandshakeConfig 1 "MODULESS_PLUGIN" "moduless-plugin-v1".

(** ** grpcplugin.go *)

(** What a gRPC server or the calls of a client are limited to, in bytes. *)
Record limits := mkLimits { max_recv : Z; max_send : Z }.
Definition both (maxMsg : Z) : limits := mkLimits maxMsg maxMsg.

Section glue.
(** The author's implementation, and Core's host services for one plugin. *)
Context {I H : Type}.

Record GRPCPlugin := mkGRPCPlugin {
  gp_Impl : option I; gp_HostBinder : bool; gp_HostImpl : option H; gp_MaxMessageBytes : Z
}.

Definition maxMsg (p : GRPCPlugin) : Z :=
  if 0 <? gp_MaxMessageBytes p then gp_MaxMessageBytes p else DefaultMaxMessageBytes.

Record pluginServer := mkPluginServer { ps_impl : I; ps_binder : bool; ps_maxMsg : Z }.

Definition GRPCServer (p : GRPCPlugin) : result string pluginServer :=
  match gp_Impl p with
  | None => Err "pluginapi: GRPCPlugin.Impl is nil in the plugin process"
  | Some impl => Ok (mkPluginServer impl (gp_HostBinder p) (maxMsg p))
  end.

(** client.go *)
Record Client := mkClient { cl_hostBrokerID : Z; cl_maxMsg : Z }.

(** The server [AcceptAndServe] answers the brokered stream with. *)
Record host_server := mkHostServer { hs_id : Z; hs_limits : limits; hs_impl : H }.

(** [id] is the broker's next. *)
Definition GRPCClient (id : Z) (p : GRPCPlugin) : result string (Client * host_server) :=
  match gp_HostImpl p with
  | None => Err "pluginapi: GRPCPlugin.HostImpl is nil in Core"
  | Some impl => Ok (mkClient id (maxMsg p), mkHostServer id (both (maxMsg p)) impl)
  end.

Definition callOpts (c : Client) : limits := both (cl_maxMsg c).
(** The calls the plugin makes on the connection [Configure] dials. *)
Definition dialOpts (s : pluginServer) : limits := both (ps_maxMsg s).

(** ** serve.go *)

Record ServeConfig := mkServeConfig { sc_Impl : option I; sc_HostBinder : bool; sc_MaxMessageBytes : Z }.

(** What [plugin.Serve] is given. *)
Record served := mkServed { sd_Handshake : HandshakeConfig; sd_Plugins : gmap string GRPCPlugin; sd_limits : limits }.

(** [None] is the panic. *)
Definition Serve (cfg : ServeConfig) : option served :=
  match sc_Impl cfg with
  | None => None
  | Some impl =>
      let maxMsg := if sc_MaxMessageBytes cfg <=? 0 then DefaultMaxMessageBytes else sc_MaxMessageBytes cfg in
      Some (mkServed Handshake {[DispenseName := mkGRPCPlugin (Some impl) (sc_HostBinder cfg) None maxMsg]} (both maxMsg))
  end.

(** What [Launch] puts in the plugin set of its side. *)
Definition core_plugin (host : H) (spec : LaunchSpec) : GRPCPlugin :=
  mkGRPCPlugin None false (if sp_HostImpl spec then Some host else None)
    (cc_MaxMessageBytes (client_config DefaultMaxMessageBytes spec)).
End glue.
Arguments GRPCPlugin : clear implicits.
Arguments pluginServer : clear implicits.
Arguments host_server : clear implicits.
Arguments ServeConfig : clear implicits.
Arguments served : clear implicits.

(** ** The limit on a message *)

Section ceilings.
Context {I H : Type} (impl : I) (host : H).
(** Whether gRPC delivers a message of [size] bytes under the limits of either
    side: the documentation of MaxCallSendMsgSize and MaxRecvMsgSize and their
    likes is that each side refuses what is longer. *)
Context (delivers : limits -> limits -> Z -> bool).
Hypothesis delivers_within : forall from to size, delivers from to size = true <-> size <= max_send from /\ size <= max_recv to.

(** A unary call: the request one way, the answer the other. *)
Definition answered (caller callee : limits) (request response : Z) : bool :=
  delivers caller callee request && delivers callee caller response.

Definition ceiling (configured : Z) : Z := if configured <=? 0 then DefaultMaxMessageBytes else configured.

Lemma maxMsg_ceiling (p : GRPCPlugin I H) : maxMsg p = ceiling (gp_MaxMessageBytes p).
Proof using Type. unfold maxMsg, ceiling. destruct (Z.ltb_spec 0 (gp_MaxMessageBytes p)), (Z.leb_spec (gp_MaxMessageBytes p) 0); lia. Qed.

Lemma ceiling_positive z : 0 < ceiling z.
Proof using Type.
  unfold ceiling. destruct (Z.leb_spec z 0); [|lia]. unfold DefaultMaxMessageBytes. rewrite Z.shiftl_mul_pow2; lia.
Qed.

Lemma ceiling_idem z : ceiling (ceiling z) = ceiling z.
Proof using Type. pose proof (ceiling_positive z). unfold ceiling at 1. destruct (Z.leb_spec (ceiling z) 0); lia. Qed.

Lemma answered_within a b m n :
  answered (both a) (both b) m n = true <-> m <= Z.min a b /\ n <= Z.min a b.
Proof using delivers_within.
  unfold answered, both. rewrite andb_true_iff, !delivers_within. cbn [max_send max_recv]. lia.
Qed.

(** The lower of the two ceilings applies, to requests and answers, to Core's
    calls and to the plugin's, whatever each side was configured with. *)
Lemma lower_ceiling cfg sv spec id c hs ps m n :
  Serve (I := I) (H := H) cfg = Some sv -> sd_Plugins sv !! DispenseName = Some ps ->
  GRPCClient id (core_plugin host spec : GRPCPlugin I H) = Ok (c, hs) ->
  exists srv, GRPCServer ps = Ok srv /\
  let low := Z.min (ceiling (sc_MaxMessageBytes cfg)) (ceiling (sp_MaxMessageBytes spec)) in
  (answered (callOpts c) (sd_limits sv) m n = true <-> m <= low /\ n <= low) /\
  (answered (dialOpts srv) (hs_limits hs) m n = true <-> m <= low /\ n <= low).
Proof using delivers_within.
  unfold Serve. destruct (sc_Impl cfg) as [i|]; [|done]. intros [= <-] Hp Hc. cbn [sd_Plugins] in Hp.
  rewrite lookup_singleton_eq in Hp. injection Hp as <-. unfold GRPCServer. cbn [gp_Impl]. eexists. split; [reflexivity|].
  unfold GRPCClient, core_plugin in Hc. cbn [gp_HostImpl] in Hc. destruct (sp_HostImpl spec); [|discriminate Hc].
  injection Hc as <- <-. unfold callOpts, dialOpts. cbn [sd_limits cl_maxMsg ps_maxMsg hs_limits].
  fold (ceiling (sc_MaxMessageBytes cfg)). rewrite !maxMsg_ceiling. cbn [gp_MaxMessageBytes client_config cc_MaxMessageBytes].
  fold (ceiling (sp_MaxMessageBytes spec)). rewrite !ceiling_idem, !answered_within. cbv zeta. split; lia.
Qed.
End ceilings.

(** ** From [Launch] to the plugin's own Configure *)

(** The message: what [Launch] puts in it and what [Client.Configure] adds. *)
Record configure_message := mkConfigureMessage {
  cm_request : Launch.ConfigureRequest; cm_HostBrokerId : Z; cm_MaxMessageBytes : Z
}.

Definition Client_Configure (c : Client) (r : Launch.ConfigureRequest) : configure_message :=
  mkConfigureMessage r (cl_hostBrokerID c) (int32 (cl_maxMsg c)).

(** The fields the SDK reads. *)
Definition received (q : configure_message) : Sdk.ConfigureRequest :=
  let r := cm_request q in
  Sdk.mkConfigureRequest (cq_PluginKey r) (cq_InstanceId r) (cq_DataDir r) (cq_GrantedPermissions r) (cq_Config r).

Section started.
Context {P U H : Type} (cfg : Sdk.Config (P := P) (U := U)) (author : P) (host : H).
(** Dialling a stream of the broker, and go-plugin's handshake with the process. *)
Context (Dial : Z -> option string) (handshaken : ClientConfig -> bool) (id : Z).

(** The plugin process once Core has configured it. *)
Definition configured (c : Client) (r : Launch.ConfigureRequest) : result string () * Sdk.process (P := P) :=
  let q := Client_Configure c r in
  Sdk.server_Configure cfg (Dial (cm_HostBrokerId q)) (received q) (Sdk.Serve author).

(** The plugin process as [Launch] meets it. *)
Definition plugin_process (spec : LaunchSpec) : Launch.process :=
  let dispensed := GRPCClient id (core_plugin host spec : GRPCPlugin () H) in
  Launch.mkProcess handshaken (is_ok dispensed) true (fun r =>
    match dispensed with
    | Ok (c, _) => match (configured c r).1 with Ok _ => Some (true, "") | Err _ => None end
    | Err _ => None
    end).

Lemma configured_ok c r s :
  configured c r = (Ok (), s) ->
  Dial (cl_hostBrokerID c) = None /\ Sdk.Key s = cq_PluginKey r /\ Sdk.InstanceID s = cq_InstanceId r /\
  Sdk.DataDir s = cq_DataDir r /\ Sdk.GetConfig s = cq_Config r /\
  Sdk.pl_granted (Sdk.sv_plugin s) = cq_GrantedPermissions r /\ head (Sdk.sv_events s) = Some Sdk.EvBind.
Proof using Type.
  unfold configured, Sdk.server_Configure. cbn [Sdk.Serve Sdk.sv_dialed cm_HostBrokerId Client_Configure].
  destruct (Dial (cl_hostBrokerID c)) as [e|]; [done|]. intros [= <-]. split; [done|].
  unfold Sdk.Configure, Sdk.tell_config, Sdk.GetConfig. cbn [Sdk.put_plugin Sdk.sv_plugin Sdk.sv_events Sdk.sv_author Sdk.pl_config].
  destruct (Sdk.cfg_OnConfigChanged cfg) as [f|]; [destruct (f _ _) as [m' a]|]; cbn;
    destruct (Sdk.cfg_OnReady cfg); cbn; done.
Qed.

Lemma Launch_ok dmax (p : Launch.process) now spec i killed :
  Launch dmax p now spec = (Ok i, killed) ->
  pr_Dispense p = true /\ (exists e, pr_Configure p (configure_request spec) = Some (true, e)) /\
  i_Key i = sp_Key spec /\ InstanceID i = sp_InstanceID spec.
Proof using Type.
  unfold Launch. destruct (negb (sp_HostImpl spec)); [done|]. destruct (negb (pr_Client p _)); [done|].
  destruct (pr_Dispense p); [|done]. cbn [negb]. destruct (negb (pr_IsClient p)); [done|].
  destruct (pr_Configure p _) as [[[] e]|]; cbn [negb]; [|done..]. intros [= <- _]. split_and!; [done|by eexists|done..].
Qed.

(** C19. A plugin Core has launched is the one Core believes it has launched. When
    [Launch], given the specification [launchOne] builds of a package, be it
    enabled, restarted or the new version of an upgrade, returns an instance,
    then the plugin process has bound its host clients before any of its
    author's code ran, and knows itself under the key and instance id of that
    instance, with the data directory and the permissions of that package; and
    the settings it was started with are what its own host services answer at
    that moment: entry by entry, what the operator set, over the defaults of the
    manifest installed under the key, which in an upgrade is still the one being
    replaced. *)
Theorem launched_as_declared {W F} now BaseEnv LogLevel maxBytes dataDir set m pkg index i killed
    (deps : HostServer.Deps (W := W) (F := F)) (mgr_in : W -> manager) (set_in : W -> gmap string string) conn :
  HostServer.d_Config deps = Some (fun key w => (Ok (ConfigFor key (set_in w) (mgr_in w)), w)) ->
  mgr_in (HostServer.world conn) = m -> set_in (HostServer.world conn) = set ->
  let spec := launch_spec BaseEnv LogLevel maxBytes dataDir set m pkg index in
  Launch DefaultMaxMessageBytes (plugin_process spec) now spec = (Ok i, killed) ->
  exists c s, configured c (configure_request spec) = (Ok (), s) /\
    head (Sdk.sv_events s) = Some Sdk.EvBind /\
    Sdk.Key s = i_Key i /\ i_Key i = p_Key pkg /\ Sdk.InstanceID s = InstanceID i /\ Sdk.DataDir s = dataDir /\
    Sdk.pl_granted (Sdk.sv_plugin s) = Permissions (p_Manifest pkg) /\
    (HostServer.GetConfig (i_Key i) deps conn).1 = Ok (Sdk.GetConfig s) /\
    (packages m !! p_Key pkg = None -> Sdk.GetConfig s = set) /\
    (forall cur, packages m !! p_Key pkg = Some cur -> Validate (p_Manifest cur) = Ok tt ->
     forall k, Sdk.GetConfig s !! k =
       match set !! k with
       | Some v => Some v
       | None => match list_find (fun c => c_key c = k) (Config (p_Manifest cur)) with
                 | Some (_, c) => if String.eqb (c_default c) "" then None else Some (c_default c)
                 | None => None
                 end
       end).
Proof using Type.
  intros Hd <- <- spec HL. set (m := mgr_in (HostServer.world conn)) in *.
  set (set := set_in (HostServer.world conn)) in *.
  destruct (Launch_ok _ _ _ _ _ _ HL) as (Hdisp & [er Hconf] & Hik & Hii). cbn [plugin_process Launch.pr_Dispense Launch.pr_Configure] in *.
  destruct (GRPCClient id _) as [[c hs]|e]; [|discriminate Hdisp].
  destruct (configured c (configure_request spec)) as [[[]|e] s] eqn:Ec; [|discriminate Hconf].
  exists c, s. destruct (configured_ok _ _ _ Ec) as (_ & Hk & Hid & Hdir & Hcfg & Hg & Hb).
  change (sp_Key spec) with (p_Key pkg) in Hik.
  assert (Sdk.GetConfig s = ConfigFor (p_Key pkg) set m) as Hm by exact Hcfg.
  split_and!; [done|done|by rewrite Hik|done|by rewrite Hii|done|done|..].
  - unfold HostServer.GetConfig, HostServer.call. rewrite Hd. cbn. fold m set. by rewrite Hik, Hm.
  - intros Hn. rewrite Hm. unfold ConfigFor. by rewrite Hn.
  - intros cur Hp Hv k. rewrite Hm. unfold ConfigFor. rewrite Hp. by apply MergeConfig_spec.
Qed.
End started.

(** ** A launch *)

Definition notes (version : string) (settings : list ConfigDecl) : Package :=
  mkPackage "plugins/notes" (mkManifest "notes" "" version 0 (mkRuntime "notes" [] 1) ["db"] [] [] [] [] [] settings)
    "plugins/notes/notes" "" "" [].
Definition setting (key default : string) : ConfigDecl := mkConfigDecl key "" "" "" default false false.

Definition first_version : Package := notes "1.0.0" [setting "page" "10"].
Definition second_version : Package := notes "1.1.0" [setting "page" "20"; setting "limit" "5"].

Definition installed : manager := Scan ([first_version], ∅) (NewManager DefaultSupervisorConfig (NewRegistry 0 ∅)).

(** An author who sets nothing but a callback for the settings, which changes the map it is given. *)
Definition ex_plugin : Sdk.Config (P := option string) (U := ()) :=
  Sdk.mkConfig None ∅ ∅ (Some (fun m _ => (∅, m !! "page"))) true None.

Definition ex_deps : HostServer.Deps (W := manager) (F := ()) :=
  HostServer.mkDeps None None None None (Some (fun key w => (Ok (ConfigFor key {["owner" := "ops"]} w), w))) None None None None.

Lemma launched_as_declared_witness :
  let spec := launch_spec [] "warn" 0 "data/notes" {["owner" := "ops"]} installed second_version 0 in
  exists i (s : Sdk.process (P := option string)), Launch DefaultMaxMessageBytes
      (plugin_process ex_plugin None tt (fun _ => None) (fun _ => true) 7 spec) 0 spec = (Ok i, false) /\
    InstanceID i = "notes-0" /\ Sdk.Key s = "notes" /\ head (Sdk.sv_events s) = Some Sdk.EvBind /\
    (HostServer.GetConfig (i_Key i) ex_deps (HostServer.mkConn 0 installed)).1 = Ok (Sdk.GetConfig s) /\
    (Sdk.GetConfig s !! "page", Sdk.GetConfig s !! "owner") = (Some "10", Some "ops").
Proof.
  cbv zeta. eexists.
  pose proof (launched_as_declared ex_plugin None tt (fun _ => None) (fun _ => true) 7 0 [] "warn" 0 "data/notes"
    {["owner" := "ops"]} installed second_version 0 _ false ex_deps (fun w => w) (fun _ => {["owner" := "ops"]})
    (HostServer.mkConn 0 installed) eq_refl eq_refl eq_refl eq_refl)
    as (c & s & _ & Hb & Hk & Hp & Hid & _ & _ & Hg & _ & Hs).
  exists s. split; [reflexivity|]. split; [reflexivity|]. split; [by rewrite Hk, Hp|]. split; [exact Hb|].
  split; [exact Hg|]. rewrite !(Hs first_version) by reflexivity. reflexivity.
Defined.

(** ** Where the documents and the code differ *)

(** The first replicas of an upgrade started, the next is launched with the package
    that is installed still: it is replaced when all of them are up. *)
Lemma launches_keep_packages handshake pkg todo m ls m' :
  launch_loop handshake pkg todo 0 [] m = (Some ls, m') -> packages m' = packages m.
Proof.
  intros E. apply (launch_loop_spec handshake m) in E.
  - by destruct E as [_ [(h & n & ->) _ _ _]].
  - split; [done|apply NoDup_nil_2|by apply list.Forall_nil|done].
Qed.

(** The processes an upgrade starts are configured with the defaults of the
    manifest it replaces, and keep them: the settings the host services answer
    afterwards are those of the new one. *)
Lemma upgrade_settings handshake key old pkg m m' set BaseEnv LogLevel maxBytes dataDir :
  p_Key pkg = key -> packages m !! key = Some old -> Upgrade handshake key (Ok pkg) m = (None, m') ->
  (forall todo ls m1 index, launch_loop handshake pkg todo 0 [] m = (Some ls, m1) ->
     cq_Config (configure_request (launch_spec BaseEnv LogLevel maxBytes dataDir set m1 pkg index)) =
       MergeConfig (p_Manifest old) set) /\
  ConfigFor key set m' = MergeConfig (p_Manifest pkg) set.
Proof.
  intros Hk Ho Hu. split.
  - intros todo ls m1 index E. cbn. unfold ConfigFor. by rewrite (launches_keep_packages _ _ _ _ _ _ E), Hk, Ho.
  - unfold Upgrade in Hu. destruct (launchAll handshake pkg m) as [[ls|] m1]; [|done]. injection Hu as <-.
    unfold ConfigFor. cbn. by rewrite lookup_insert_eq.
Qed.

(** The new version declares a setting and changes the default of another: its
    processes start without the one and with the old value of the other, and
    asking the host gives both. *)
Example upgraded_on_old_defaults :
  let m := (Enable starts "notes" installed).2 in
  let '(err, m') := Upgrade starts "notes" (Ok second_version) m in
  let given := cq_Config (configure_request (launch_spec [] "warn" 0 "" ∅ m second_version 0)) in
  let asked := ConfigFor "notes" ∅ m' in
  err = None /\ (given !! "page", given !! "limit") = (Some "10", None) /\
  (asked !! "page", asked !! "limit") = (Some "20", Some "5").
Proof. vm_compute. repeat split. Qed.

(** The ceiling Core sends along is read by nobody, where the documents speak of
    a negotiation: each side keeps its own. *)
Example ceiling_not_read r id a b : received (mkConfigureMessage r id a) = received (mkConfigureMessage r id b).
Proof. reflexivity. Qed.
