(* ===== verification/Goroutine.v ===== *)
(** * Handlers that run side by side

    A handler of a plugin is a function on the state behind its remote calls.
    Here that state is a script: the answers its calls will get, and the record
    of the calls it makes. Run on every script, a handler has all the runs the
    code has; and goroutines interleave at their calls, each call of a run taking
    place when the system does it, if what the script has is what the system
    answers then. *)

From S2P Require Import Prelude Query HostServer SdkHost.

Open Scope Z_scope.

Section traces.
(** Calls of a plugin on state of its own process that its goroutines share,
    and what they answer. *)
Context {L R F : Type}.

Inductive host_call :=
| CallPut (p : pb_put) | CallGet (d : pb_doc) | CallBeginTx (timeout : Z) | CallCommitTx (id : string)
| CallRollbackTx (id : string) | CallCacheGet (key : string) | CallCacheSet (key value : string) (seconds : Z)
| CallCacheDelete (key : string) | CallOwn (l : L) | CallOther.

Inductive reply :=
| RepVersion (v : Z) | RepDoc (d : option (string * Z)) | RepName (id : string) | RepUnit
| RepValue (v : option string) | RepOwn (r : R).

Definition answer : Type := result rpc_error reply.
Definition event : Type := host_call * answer.

(** The calls made so far, and the answers to the next ones; calls beyond those
    fail. *)
Record script := mkScript { sc_log : list event; sc_rest : list answer }.

Definition next_answer (w : script) : answer := default (Err (RpcOther "no answer")) (head (sc_rest w)).
Definition after_call (c : host_call) (w : script) : script :=
  mkScript (sc_log w ++ [(c, next_answer w)]) (tail (sc_rest w)).

Definition perform {A} (c : host_call) (read : reply -> option A) : remote (W := script) A := fun w =>
  (let? r := next_answer w in
   match read r with Some a => Ok a | None => Err (RpcOther "another answer") end, after_call c w).

Definition as_version (r : reply) : option Z := match r with RepVersion v => Some v | _ => None end.
Definition as_doc (r : reply) : option (option (string * Z)) := match r with RepDoc d => Some d | _ => None end.
Definition as_name (r : reply) : option string := match r with RepName id => Some id | _ => None end.
Definition as_unit (r : reply) : option () := match r with RepUnit => Some () | _ => None end.
Definition as_value (r : reply) : option (option string) := match r with RepValue v => Some v | _ => None end.
Definition as_own (r : reply) : option R := match r with RepOwn r => Some r | _ => None end.

(** A call on the process's own state does not fail: [d] is what a script
    gives that has something else for it. *)
Definition own (l : L) (d : R) (w : script) : R * script :=
  (match next_answer w with Ok (RepOwn r) => r | _ => d end, after_call (CallOwn l) w).

Definition other {A} : remote (W := script) A := perform CallOther (fun _ => None).

Definition scripted : HostServices (W := script) (F := F) :=
  mkHostServices
    (fun _ p => perform (CallPut p) as_version) (fun _ d => perform (CallGet d) as_doc)
    (fun _ _ => other) (fun _ _ _ _ _ _ => other) (fun _ _ _ _ _ _ => other)
    (fun _ t => perform (CallBeginTx t) as_name) (fun _ id => perform (CallCommitTx id) as_unit)
    (fun _ id => perform (CallRollbackTx id) as_unit) (fun _ _ => other) (fun _ _ => other) (fun _ _ => other)
    (fun _ _ _ => other) (fun _ k => perform (CallCacheGet k) as_value)
    (fun _ k v s => perform (CallCacheSet k v s) as_unit) (fun _ k => perform (CallCacheDelete k) as_unit)
    (fun _ _ _ _ => other) (fun _ _ _ _ => other) (fun _ _ _ => other) (fun _ _ _ => other)
    (fun _ _ _ _ => other) (fun _ _ => other) (fun _ _ _ => other) (fun _ _ => other) (fun _ _ => other)
    (fun _ _ => other) (fun _ _ _ _ _ => other).

(** The calls of a handler on a script, and what it comes to. *)
Definition trace {A} (h : script -> A * script) (ans : list answer) : list event := sc_log (h (mkScript [] ans)).2.
Definition outcome_on {A} (h : script -> A * script) (ans : list answer) : A := (h (mkScript [] ans)).1.

(** What is left of the calls of [w'] when those of [w] are done. *)
Definition goes_on (w : script) (evs : list event) (w' : script) : Prop := sc_log w' = sc_log w ++ evs.

Lemma goes_on_refl w : goes_on w [] w.
Proof. unfold goes_on. by rewrite app_nil_r. Qed.
Lemma goes_on_snoc c w evs w' : goes_on w evs w' -> goes_on w (evs ++ [(c, next_answer w')]) (after_call c w').
Proof. unfold goes_on. intros H. unfold after_call. cbn. by rewrite H, <- app_assoc. Qed.
Lemma goes_on_trans w e1 w1 e2 w2 : goes_on w e1 w1 -> goes_on w1 e2 w2 -> goes_on w (e1 ++ e2) w2.
Proof. unfold goes_on. intros H1 H2. by rewrite H2, H1, <- app_assoc. Qed.

(** A call has the answer the script has, if that is an answer to it. *)
Lemma perform_case {A} c (read : reply -> option A) w :
  (exists r a, next_answer w = Ok r /\ read r = Some a /\ perform c read w = (Ok a, after_call c w)) \/
  (exists e, perform c read w = (Err e, after_call c w)).
Proof.
  unfold perform. destruct (next_answer w) as [r|e]; cbn; [|eauto].
  destruct (read r) as [a|] eqn:E; [left|right]; eauto.
Qed.

Lemma as_version_Some r v : as_version r = Some v -> r = RepVersion v.
Proof. by destruct r; try done; intros [= ->]. Qed.
Lemma as_doc_Some r d : as_doc r = Some d -> r = RepDoc d.
Proof. by destruct r; try done; intros [= ->]. Qed.
Lemma as_name_Some r id : as_name r = Some id -> r = RepName id.
Proof. by destruct r; try done; intros [= ->]. Qed.
Lemma as_value_Some r v : as_value r = Some v -> r = RepValue v.
Proof. by destruct r; try done; intros [= ->]. Qed.
End traces.

Arguments host_call : clear implicits.
Arguments reply : clear implicits.
Arguments answer : clear implicits.
Arguments event : clear implicits.
Arguments script : clear implicits.

(** The calls that lead to a script. *)
Ltac calls := repeat eapply goes_on_snoc; first [eassumption|eapply goes_on_refl].

(** Steps over the next call of a handler, with its answer. *)
Ltac call_step :=
  let r := fresh "r" in let a := fresh "a" in let e := fresh "e" in
  let Ha := fresh "Ha" in let Hr := fresh "Hr" in let H := fresh "Hcall" in
  match goal with
  | |- context [perform ?c ?read ?w] =>
      destruct (perform_case c read w) as [(r & a & Ha & Hr & H)|[e H]]; rewrite !H; cbn [fst snd];
      [first [apply as_version_Some in Hr|apply as_doc_Some in Hr|apply as_name_Some in Hr|apply as_value_Some in Hr|idtac];
       try subst r|]; clear H
  end.
