(* ===== verification/Plugins.v ===== *)
(** * extension-example: what the example plugins share

    The HTTP helpers their handlers use, as calls on the response writer of
    Sdk.v, and the request of a handler as far as they look at it. encoding/json
    is a parameter; a value that is written is a [json] of Query.v. *)

From Stdlib Require Import Ascii.
From S2P Require Import Prelude GoStrings Wire Query Sdk.

Open Scope Z_scope.

(** [http.Error]. *)
Definition http_Error (msg : string) (code : Z) : list rw_op :=
  [RwHeader (fun h => Header_Set "X-Content-Type-Options" "nosniff"
      (Header_Set "Content-Type" "text/plain; charset=utf-8" (Header_Del "Content-Length" h)));
   RwWriteHeader code; RwWrite (msg +:+ String (ascii_of_nat 10) "")].

(** [writeJSON], which every example has a copy of. *)
Definition writeJSON (encode : json -> string) (ctype : string) (status : Z) (v : json) : list rw_op :=
  [RwHeader (Header_Set "Content-Type" ctype); RwWriteHeader status; RwWrite (encode v)].

Definition jnum (z : Z) : json := JNum (Some z) (itoa z).
Definition jstrings (l : list string) : json := JArr (JStr <$> l).

(** The status of an answer. *)
Definition status_of (ops : list rw_op) : Z := answered ops.

Lemma http_Error_status msg code : status_of (http_Error msg code) = code.
Proof. reflexivity. Qed.
Lemma writeJSON_status encode ctype status v : status_of (writeJSON encode ctype status v) = status.
Proof. reflexivity. Qed.
