(* ===== verification/Inventory.v ===== *)
(** * extension-example/inventory: stock that is not sold twice

    The reservation handler of main.go over the SDK's transactions, and the
    system in which any number of reservations and restocks interleave on one
    database. The latter is cut at the statements: a read sees what is
    committed, a conditional update takes the lock of the row it changes and
    holds it to the end of its transaction, as PostgreSQL does at its default
    isolation level. *)

From Stdlib Require Import Ascii.
From S2P Require Import Prelude GoStrings Wire Query HostServer Sdk SdkHost Plugins.

Open Scope Z_scope.

(** ** Data *)

Record Item := mkItem { SKU : string; ItemName : string; OnHand : Z; Reserved : Z }.
Record Reservation := mkReservation { rv_ID : string; rv_SKU : string; rv_Qty : Z; rv_For : string; rv_Created : string }.

#[export] Instance Item_eq_dec : EqDecision Item.
Proof. solve_decision. Defined.

Definition errNoSuchItem := "no such item".
Definition errNotEnough := "not enough stock".

(** What a reservation makes of the item it read. *)
Definition available (i : Item) : Z := int64 (OnHand i - Reserved i).
Definition with_reserved (i : Item) (qty : Z) : Item := mkItem (SKU i) (ItemName i) (OnHand i) (int64 (Reserved i + qty)).
Definition take_stock (i : Item) (qty : Z) : option Item :=
  if available i <? qty then None else Some (with_reserved i qty).
Definition with_on_hand (i : Item) (qty : Z) : Item := mkItem (SKU i) (ItemName i) (int64 (OnHand i + qty)) (Reserved i).

(** ** The handlers *)

Section handlers.
Context {W F : Type}.
Context (MarshalItem : Item -> result string string) (UnmarshalItem : string -> result string Item)
  (MarshalReservation : Reservation -> result string string) (encode : json -> string).
Notation host := (HostServices (W := W) (F := F)).

Definition item_json (i : Item) : json :=
  JObj [("sku", JStr (SKU i)); ("name", JStr (ItemName i)); ("on_hand", jnum (OnHand i)); ("reserved", jnum (Reserved i))].
Definition reservation_json (r : Reservation) : json :=
  JObj [("id", JStr (rv_ID r)); ("sku", JStr (rv_SKU r)); ("qty", jnum (rv_Qty r)); ("for", JStr (rv_For r));
        ("created", JStr (rv_Created r))].

(** The function given to the transaction. [taken] and [remaining] are the
    variables it captures; [id] is what NewID draws, [created] the clock. *)
Definition reserve_fn (ctx : context) (sku : string) (qty : Z) (forWhom id created : string)
    (captured : option Reservation * Z) (tx : TxClient (W := W) (F := F)) (w : W)
    : (ending * (option Reservation * Z)) * W :=
  let '(rd, w) := t_Get UnmarshalItem ctx "items" sku true tx w in
  match rd_err rd, rd_dest rd with
  | Some e, _ => ((Returns (Some (Wrapped ("read " +:+ sku) e)), captured), w)
  | None, None => ((Returns (Some (Author errNoSuchItem)), captured), w)
  | None, Some item =>
      match take_stock item qty with
      | None =>
          ((Returns (Some (Wrapped (itoa (available item) +:+ " available, " +:+ itoa qty +:+ " requested")
              (Author errNotEnough))), captured), w)
      | Some item' =>
          match t_PutIfVersion MarshalItem ctx "items" sku item' (rd_version rd) tx w with
          | (Err e, w) => ((Returns (Some (Wrapped ("update " +:+ sku) e)), captured), w)
          | (Ok _, w) =>
              let taken := mkReservation id sku qty forWhom created in
              match t_Put MarshalReservation ctx "reservations" id taken tx w with
              | (Err e, w) => ((Returns (Some (Wrapped "write reservation" e)), (Some taken, captured.2)), w)
              | (Ok _, w) => ((Returns None, (Some taken, int64 (OnHand item' - Reserved item'))), w)
              end
          end
      end
  end.

Definition reserveOnce (db : option host) (ctx : context) (sku : string) (qty : Z) (forWhom id created : string)
    (captured : option Reservation * Z) (w : W) : (ending * (option Reservation * Z)) * W :=
  let '((e, c), w) := Tx db ctx (10 * second) (reserve_fn ctx sku qty forWhom id created captured) w in
  ((e, default captured c), w).

Definition maxReserveAttempts : nat := 8.

Definition retriable (e : ending) : bool :=
  match e with
  | Returns (Some e) => Is e SdkVersionConflict || Is e SdkRateLimited
  | _ => false
  end.

(** The retry loop. [draws]: the id and the time of each attempt; [meanwhile]:
    what the rest of the world does while the handler sleeps. *)
Fixpoint reserve_loop (attempts : nat) (n : nat) (draws : nat -> string * string) (meanwhile : nat -> W -> W)
    (db : option host) (ctx : context) (sku : string) (qty : Z) (forWhom : string)
    (captured : option Reservation * Z) (w : W) : (ending * (option Reservation * Z)) * W :=
  match attempts with
  | O => ((Returns None, captured), w)
  | S attempts' =>
      let '((e, captured), w) := reserveOnce db ctx sku qty forWhom (draws n).1 (draws n).2 captured w in
      match attempts' with
      | O => ((e, captured), w)
      | _ => if retriable e
             then reserve_loop attempts' (S n) draws meanwhile db ctx sku qty forWhom captured (meanwhile n w)
             else ((e, captured), w)
      end
  end.

(** The text of the refusal. *)
Definition refusal (e : error) : string :=
  match e with
  | Wrapped what (Author a) => a +:+ ": " +:+ what
  | _ => errNotEnough
  end.

(** What the handler answers for the outcome of the loop. [None]: it panics. *)
Definition reserve_answer (e : ending) (captured : option Reservation * Z) : option (list rw_op) :=
  match e with
  | Panics => None
  | Returns None =>
      Some (writeJSON encode "application/json" 201
        (JObj [("remaining", jnum captured.2);
               ("reservation", match captured.1 with Some r => reservation_json r | None => JNull end)]))
  | Returns (Some e) =>
      Some (if Is e SdkVersionConflict || Is e SdkRateLimited then http_Error "inventory is busy, try again" 503
            else if IsAuthor e errNoSuchItem then http_Error "no such item" 404
            else if IsAuthor e errNotEnough then http_Error (refusal e) 409
            else http_Error "could not reserve" 500)
  end.

(** [body]: the quantity and for whom, if the body decodes. *)
Definition reserve (draws : nat -> string * string) (meanwhile : nat -> W -> W) (db : option host) (ctx : context)
    (sku : string) (body : option (Z * string)) (w : W) : option (list rw_op) * W :=
  match body with
  | None => (Some (http_Error "invalid JSON" 400), w)
  | Some (qty, forWhom) =>
      if qty <=? 0 then (Some (http_Error "qty must be positive" 400), w)
      else
        let '((e, captured), w) :=
          reserve_loop maxReserveAttempts 0 draws meanwhile db ctx sku qty forWhom (None, 0) w in
        (reserve_answer e captured, w)
  end.

(** Three attempts of a read and a conditional write. *)
Fixpoint restock_loop (attempts : nat) (db : option host) (ctx : context) (sku : string) (qty : Z) (w : W)
    : list rw_op * W :=
  match attempts with
  | O => ([], w)
  | S attempts' =>
      let '(rd, w) := SdkHost.Get UnmarshalItem db ctx "items" sku true w in
      match rd_err rd, rd_dest rd with
      | Some _, _ => (http_Error "could not read item" 500, w)
      | None, None => (http_Error "no such item" 404, w)
      | None, Some item =>
          let item := with_on_hand item qty in
          match PutIfVersion MarshalItem db ctx "items" sku item (rd_version rd) w with
          | (Ok _, w) => (writeJSON encode "application/json" 200 (item_json item), w)
          | (Err e, w) =>
              if negb (Is e SdkVersionConflict) then (http_Error "could not restock" 500, w)
              else match attempts' with
                   | O => (http_Error "item is being updated too often, try again" 409, w)
                   | _ => restock_loop attempts' db ctx sku qty w
                   end
          end
      end
  end.

Definition restock (db : option host) (ctx : context) (sku : string) (body : option Z) (w : W) : list rw_op * W :=
  match body with
  | None => (http_Error "qty must be a positive integer" 400, w)
  | Some qty =>
      if qty <=? 0 then (http_Error "qty must be a positive integer" 400, w)
      else restock_loop 3 db ctx sku qty w
  end.

Context (UnmarshalItems : string -> result string (list Item)).

Definition listItems (db : option host) (ctx : context) (after : string) (w : W) : list rw_op * W :=
  let q := q_Limit 100 (q_Sort "sku" (Where db "items")) in
  let q := if String.eqb after "" then q else q_After after q in
  match All UnmarshalItems ctx true q w with
  | (Err _, w) => (http_Error "could not list items" 500, w)
  | (Ok (next, items), w) =>
      (writeJSON encode "application/json" 200 (JObj [("items", JArr (item_json <$> items)); ("next", JStr next)]), w)
  end.

Definition putItem (db : option host) (ctx : context) (sku : string) (body : option Item) (w : W) : list rw_op * W :=
  match body with
  | None => (http_Error "invalid JSON" 400, w)
  | Some i =>
      let item := mkItem sku (ItemName i) (OnHand i) (Reserved i) in
      match SdkHost.Put MarshalItem db ctx "items" sku item w with
      | (Err _, w) => (http_Error "could not save item" 500, w)
      | (Ok _, w) => (writeJSON encode "application/json" 200 (item_json item), w)
      end
  end.
End handlers.

(** The settings callback: the low-stock level, kept when it does not parse
    and is set already. *)
Definition low_stock_setting (text : string) (current : Z) : Z :=
  match atoi text with
  | Some n => if 0 <=? n then n else if current =? 0 then 5 else current
  | None => if current =? 0 then 5 else current
  end.

(** ** Reservations and restocks on one database *)

Inductive txn :=
| Reading (sku : string) (qty : Z)
| Read (sku : string) (qty : Z) (item : Item) (version : Z)
| Updated (sku : string) (qty : Z) (item : Item) (version : Z)
| Recorded (sku : string) (qty : Z) (item : Item) (version : Z) (r : Reservation)
| RestockRead (sku : string) (qty : Z) (item : Item) (version : Z).

(** The committed documents of both collections with the versions of the items,
    who holds the lock of an item's row, the calls under way, and, for the
    statement only, what restocks have added. *)
Record stock := mkStock {
  items : gmap string (Item * Z); reservations : list Reservation; locks : gmap string nat; calls : gmap nat txn;
  delivered : list (string * Z)
}.

Definition set_call (t : nat) (x : txn) (s : stock) : stock :=
  mkStock (items s) (reservations s) (locks s) (<[t := x]> (calls s)) (delivered s).

(** A call ends and with it its transaction: the locks it held are free. *)
Definition ended (t : nat) (s : stock) : stock :=
  mkStock (items s) (reservations s) (filter (fun kv => kv.2 <> t) (locks s)) (delete t (calls s)) (delivered s).

Inductive step : stock -> stock -> Prop :=
| S_reserve s t sku qty : calls s !! t = None -> 0 < qty -> step s (set_call t (Reading sku qty) s)
| S_read s t sku qty item v : calls s !! t = Some (Reading sku qty) -> items s !! sku = Some (item, v) ->
    step s (set_call t (Read sku qty item v) s)
| S_update s t sku qty item v item' now_ : calls s !! t = Some (Read sku qty item v) -> take_stock item qty = Some item' ->
    locks s !! sku = None -> items s !! sku = Some (now_, v) ->
    step s (mkStock (items s) (reservations s) (<[sku := t]> (locks s))
              (<[t := Updated sku qty item' (v + 1)]> (calls s)) (delivered s))
| S_record s t sku qty item v r : calls s !! t = Some (Updated sku qty item v) -> rv_SKU r = sku -> rv_Qty r = qty ->
    step s (set_call t (Recorded sku qty item v r) s)
| S_commit s t sku qty item v r : calls s !! t = Some (Recorded sku qty item v r) ->
    step s (ended t (mkStock (<[sku := (item, v)]> (items s)) (reservations s ++ [r]) (locks s) (calls s) (delivered s)))
  (** Refused, a conflict, an error, a timeout, a crash: at any moment. *)
| S_rollback s t : step s (ended t s)
| S_restock s t sku qty item v : calls s !! t = None -> 0 < qty -> items s !! sku = Some (item, v) ->
    step s (set_call t (RestockRead sku qty item v) s)
| S_restocked s t sku qty item v now_ : calls s !! t = Some (RestockRead sku qty item v) ->
    locks s !! sku = None -> items s !! sku = Some (now_, v) -> OnHand item + qty < 2 ^ 63 ->
    step s (ended t (mkStock (<[sku := (with_on_hand item qty, v + 1)]> (items s)) (reservations s) (locks s) (calls s)
              (delivered s ++ [(sku, qty)]))).

Definition reserved_of (sku : string) (rs : list Reservation) : Z :=
  zsum ((fun r => if decide (rv_SKU r = sku) then rv_Qty r else 0) <$> rs).
Definition delivered_of (sku : string) (ds : list (string * Z)) : Z :=
  zsum ((fun d => if decide (d.1 = sku) then d.2 else 0) <$> ds).

(** A shop that opens: stock on hand, nothing reserved. *)
Definition opening (s : stock) : Prop :=
  reservations s = [] /\ locks s = ∅ /\ calls s = ∅ /\ delivered s = [] /\
  forall sku i v, items s !! sku = Some (i, v) -> Reserved i = 0 /\ 0 <= OnHand i < 2 ^ 63.

Section conservation.
Context (s0 : stock).

Definition level (s : stock) (sku : string) : option Item := fst <$> items s !! sku.

(** An item against what has been reserved and delivered of it. *)
Definition accounted (s : stock) (sku : string) (i : Item) : Prop :=
  exists i0, level s0 sku = Some i0 /\ 0 <= Reserved i <= OnHand i /\ OnHand i < 2 ^ 63 /\
    Reserved i = reserved_of sku (reservations s) /\ OnHand i = OnHand i0 + delivered_of sku (delivered s).

(** What a call has seen, and what it holds. *)
Definition call_ok (s : stock) (t : nat) (x : txn) : Prop :=
  match x with
  | Reading _ qty => 0 < qty
  | Read sku qty item v | RestockRead sku qty item v =>
      0 < qty /\ exists i v', items s !! sku = Some (i, v') /\ v <= v' /\ (v = v' -> item = i)
  | Updated sku qty item v =>
      0 < qty /\ locks s !! sku = Some t /\ exists i, items s !! sku = Some (i, v - 1) /\ take_stock i qty = Some item
  | Recorded sku qty item v r =>
      0 < qty /\ locks s !! sku = Some t /\ rv_SKU r = sku /\ rv_Qty r = qty /\
      exists i, items s !! sku = Some (i, v - 1) /\ take_stock i qty = Some item
  end.

Record stock_ok (s : stock) : Prop := mkStockOk {
  st_items : forall sku i v, items s !! sku = Some (i, v) -> accounted s sku i;
  st_calls : forall t x, calls s !! t = Some x -> call_ok s t x
}.

Lemma reserved_snoc sku rs r :
  reserved_of sku (rs ++ [r]) = reserved_of sku rs + if decide (rv_SKU r = sku) then rv_Qty r else 0.
Proof. unfold reserved_of. rewrite fmap_app, zsum_app. simpl. lia. Qed.
Lemma delivered_snoc sku ds d :
  delivered_of sku (ds ++ [d]) = delivered_of sku ds + if decide (d.1 = sku) then d.2 else 0.
Proof. unfold delivered_of. rewrite fmap_app, zsum_app. simpl. lia. Qed.

(** A reservation that an accounted item allows. *)
Lemma take_stock_accounted s sku i qty item r : accounted s sku i -> 0 < qty -> take_stock i qty = Some item ->
  rv_SKU r = sku -> rv_Qty r = qty ->
  OnHand item = OnHand i /\ Reserved item = Reserved i + qty /\ Reserved i + qty <= OnHand i.
Proof.
  intros (i0 & _ & Hr & Hh & _) Hq. unfold take_stock, available. rewrite int64_id by (unfold in_int64; lia).
  destruct (OnHand i - Reserved i <? qty) eqn:E; [done|]. zbool. intros [= <-] _ _. simpl.
  rewrite int64_id by (unfold in_int64; lia). lia.
Qed.

(** What a call has seen outlives changes to the calls and to other locks. *)
Lemma call_ok_frame s s' t x : call_ok s t x -> items s' = items s ->
  (forall sku, locks s !! sku = Some t -> locks s' !! sku = Some t) -> call_ok s' t x.
Proof. intros Hx Hi Hl. destruct x; simpl in *; rewrite ?Hi; naive_solver. Qed.

Lemma ended_locks s t t' sku : t' <> t -> locks s !! sku = Some t' -> locks (ended t s) !! sku = Some t'.
Proof. intros Hne Hl. simpl. by apply map_lookup_filter_Some. Qed.

Lemma ended_ok s t : stock_ok s -> stock_ok (ended t s).
Proof.
  intros [Hi Hc]. split; [exact Hi|]. simpl. intros t' x [Hne Hx]%lookup_delete_Some.
  eapply call_ok_frame; [by apply Hc|done|]. intros sku. by apply ended_locks.
Qed.

Lemma set_call_ok s t x : stock_ok s -> call_ok s t x -> stock_ok (set_call t x s).
Proof.
  intros [Hi Hc] Hx. split; [exact Hi|]. simpl. intros t' y. rewrite lookup_insert_Some. intros [[<- <-]|[Hne Hy]].
  - by eapply call_ok_frame.
  - eapply call_ok_frame; [by apply Hc|done|done].
Qed.

(** A new committed version of an item is seen by no call under way, and
    disturbs none: [holder] is the call that commits it, if one has the lock. *)
Lemma publish_ok s sku i v item rs ds (holder : option nat) :
  stock_ok s -> items s !! sku = Some (i, v) -> locks s !! sku = holder ->
  (forall sku' i', sku' <> sku -> accounted s sku' i' ->
     reserved_of sku' rs = reserved_of sku' (reservations s) /\ delivered_of sku' ds = delivered_of sku' (delivered s)) ->
  (accounted s sku i -> accounted (mkStock (items s) rs (locks s) (calls s) ds) sku item) ->
  let s' := mkStock (<[sku := (item, v + 1)]> (items s)) rs (locks s) (calls s) ds in
  (forall sku' i' v', items s' !! sku' = Some (i', v') -> accounted s' sku' i') /\
  (forall t x, calls s !! t = Some x -> holder <> Some t -> call_ok s' t x).
Proof.
  intros [Hi Hc] Hs Hl Hother Hnew s'. split.
  - intros sku' i' v'. subst s'. simpl. rewrite lookup_insert_Some. intros [[<- [= <- <-]]|[Hne Hs']].
    + exact (Hnew (Hi _ _ _ Hs)).
    + pose proof (Hi _ _ _ Hs') as Ha. destruct (Hother sku' i' (not_eq_sym Hne) Ha) as [Er Ed].
      destruct Ha as (i0 & H1 & H2 & H3 & H4 & H5). exists i0. simpl. rewrite Er, Ed. done.
  - intros t x Hx Hh. pose proof (Hc t x Hx) as Hok.
    assert (forall sku' a w, items s !! sku' = Some (a, w) -> sku' <> sku -> items s' !! sku' = Some (a, w)) as Hkeep.
    { intros sku' a w Ha Hne. subst s'. simpl. by rewrite lookup_insert_ne. }
    assert (items s' !! sku = Some (item, v + 1)) as Hsk by (subst s'; apply lookup_insert_eq).
    destruct x as [k q|k q it w|k q it w|k q it w r|k q it w]; simpl in Hok |- *; [done| | | |].
    + destruct Hok as [Hq (a & w' & Ha & Hle & Heq)]. split; [done|]. destruct (decide (k = sku)) as [->|Hne].
      * rewrite Hs in Ha. injection Ha as <- <-. exists item, (v + 1). split; [done|]. split; [lia|lia].
      * exists a, w'. split; [by apply Hkeep|done].
    + destruct Hok as (Hq & Hlk & a & Ha & Ht). assert (k <> sku) as Hne by congruence.
      split; [done|]. split; [done|]. exists a. split; [by apply Hkeep|done].
    + destruct Hok as (Hq & Hlk & H1 & H2 & a & Ha & Ht). assert (k <> sku) as Hne by congruence.
      split_and!; try done. exists a. split; [by apply Hkeep|done].
    + destruct Hok as [Hq (a & w' & Ha & Hle & Heq)]. split; [done|]. destruct (decide (k = sku)) as [->|Hne].
      * rewrite Hs in Ha. injection Ha as <- <-. exists item, (v + 1). split; [done|]. split; [lia|lia].
      * exists a, w'. split; [by apply Hkeep|done].
Qed.

Lemma step_ok s s' : step s s' -> stock_ok s -> stock_ok s'.
Proof.
  intros Hst Hok. destruct Hst as
    [s t sku qty Hn Hq|s t sku qty item v Hx Hs|s t sku qty item v item' now_ Hx Ht Hl Hs|s t sku qty item v r Hx H1 H2
    |s t sku qty item v r Hx|s t|s t sku qty item v Hn Hq Hs|s t sku qty item v now_ Hx Hl Hs Hb].
  - by apply set_call_ok.
  - apply set_call_ok; [done|]. pose proof (st_calls _ Hok t _ Hx) as Hq. simpl in *. split; [done|].
    exists item, v. done.
  - pose proof (st_calls _ Hok t _ Hx) as (Hq & a & w & Ha & Hle & Heq). rewrite Hs in Ha. injection Ha as <- <-.
    specialize (Heq eq_refl) as ->. destruct Hok as [Hi Hc]. split; [exact Hi|]. simpl. intros t' y.
    rewrite lookup_insert_Some. intros [[<- <-]|[Hne Hy]].
    + simpl. split; [done|]. split; [apply lookup_insert_eq|]. exists now_. split; [|done].
      by replace (v + 1 - 1) with v by lia.
    + eapply call_ok_frame; [by apply Hc|done|]. simpl. intros k Hk. rewrite lookup_insert_ne; [done|].
      intros <-. congruence.
  - apply set_call_ok; [done|]. pose proof (st_calls _ Hok t _ Hx) as (Hq & Hlk & Hi). simpl. done.
  - pose proof (st_calls _ Hok t _ Hx) as (Hq & Hlk & H1 & H2 & a & Ha & Ht).
    destruct (publish_ok s sku a (v - 1) item (reservations s ++ [r]) (delivered s) (Some t) Hok Ha Hlk) as [Hi Hc].
    + intros sku' i' Hne _. rewrite reserved_snoc, decide_False by congruence. lia.
    + intros Hacc. destruct (take_stock_accounted s sku a qty item r Hacc Hq Ht H1 H2) as (Eo & Er & Hle).
      destruct Hacc as (i0 & A1 & A2 & A3 & A4 & A5). exists i0. simpl. rewrite reserved_snoc, decide_True by done.
      rewrite Eo, Er. split; [done|]. split; [lia|]. split; [done|]. lia.
    + replace (v - 1 + 1) with v in * by lia. split; [exact Hi|]. simpl. intros t' x [Hne Hy]%lookup_delete_Some.
      eapply call_ok_frame; [apply Hc; [exact Hy|congruence]|done|]. intros k Hk. by apply (ended_locks _ t t' k).
  - by apply ended_ok.
  - apply set_call_ok; [done|]. simpl. split; [done|]. exists item, v. done.
  - pose proof (st_calls _ Hok t _ Hx) as (Hq & a & w & Ha & Hle & Heq). rewrite Hs in Ha. injection Ha as <- <-.
    specialize (Heq eq_refl) as ->.
    destruct (publish_ok s sku now_ v (with_on_hand now_ qty) (reservations s) (delivered s ++ [(sku, qty)]) None Hok Hs Hl)
      as [Hi Hc].
    + intros sku' i' Hne _. rewrite delivered_snoc. simpl. rewrite decide_False by congruence. lia.
    + intros (i0 & A1 & A2 & A3 & A4 & A5). exists i0. simpl. rewrite delivered_snoc. simpl. rewrite decide_True by done.
      rewrite int64_id by (unfold in_int64; lia). split; [done|]. split; [lia|]. split; [lia|]. split; [done|]. lia.
    + apply ended_ok. split; [exact Hi|]. intros t' x Hy. by apply Hc.
Qed.
End conservation.


(** One item, two customers for its last unit: the second finds its version
    gone, and has to begin again. *)
Definition ex_shop : stock := mkStock {[ "tea" := (mkItem "tea" "Tea" 1 0, 1) ]} [] ∅ ∅ [].
Definition ex_sold : stock :=
  mkStock {[ "tea" := (mkItem "tea" "Tea" 1 1, 2) ]} [mkReservation "r1" "tea" 1 "ann" ""] ∅
    {[ 2%nat := Read "tea" 1 (mkItem "tea" "Tea" 1 0) 1 ]} [].

Lemma ex_sold_reached : rtc step ex_shop ex_sold.
Proof.
  eapply rtc_l; [apply (S_reserve _ 1 "tea" 1); [reflexivity|lia]|].
  eapply rtc_l; [apply (S_reserve _ 2 "tea" 1); [reflexivity|lia]|].
  eapply rtc_l; [eapply (S_read _ 1); reflexivity|].
  eapply rtc_l; [eapply (S_read _ 2); reflexivity|].
  eapply rtc_l; [eapply (S_update _ 1); reflexivity|].
  eapply rtc_l; [apply (S_record _ 1 "tea" 1 (mkItem "tea" "Tea" 1 1) 2 (mkReservation "r1" "tea" 1 "ann" "")); reflexivity|].
  eapply rtc_l; [eapply (S_commit _ 1); reflexivity|].
  match goal with |- rtc step ?a ?b => replace a with b by (vm_compute; reflexivity) end. apply rtc_refl.
Qed.


(** ** The handler and the system *)

(** A reservation that returns nil has read the item, found enough of it,
    written it back under the version it read, and then written the reservation:
    the statements of [S_read], [S_update] and [S_record]. *)
Lemma reserve_fn_statements {W F} MI UI MR ctx sku qty forWhom id created captured (tx : TxClient (W := W) (F := F)) w c w' :
  reserve_fn MI UI MR ctx sku qty forWhom id created captured tx w = ((Returns None, c), w') ->
  exists data v item item' d1 d2 w1 w2 v1 v2,
    let md := outgoing ctx in
    hs_Get (t_c tx) md (mkPbDoc "items" sku (t_id tx)) w = (Ok (Some (data, v)), w1) /\ UI data = Ok item /\
    take_stock item qty = Some item' /\
    MI item' = Ok d1 /\ hs_Put (t_c tx) md (mkPbPut "items" sku d1 (t_id tx) v) w1 = (Ok v1, w2) /\
    MR (mkReservation id sku qty forWhom created) = Ok d2 /\
    hs_Put (t_c tx) md (mkPbPut "reservations" id d2 (t_id tx) 0) w2 = (Ok v2, w') /\
    c = (Some (mkReservation id sku qty forWhom created), int64 (OnHand item' - Reserved item')).
Proof.
  unfold reserve_fn, t_Get, read_with.
  destruct (hs_Get (t_c tx) (outgoing ctx) (mkPbDoc "items" sku (t_id tx)) w) as [[[[data v]|]|e] w1] eqn:Eg; try done.
  unfold decode_into. destruct (UI data) as [item|e] eqn:Eu; [|done]. cbn [rd_err rd_dest rd_version].
  destruct (take_stock item qty) as [item'|] eqn:Et; [|done].
  unfold t_PutIfVersion, t_Put, t_put, encoded, ask.
  destruct (MI item') as [d1|] eqn:Em; [|done].
  destruct (hs_Put (t_c tx) (outgoing ctx) (mkPbPut "items" sku d1 (t_id tx) v) w1) as [[v1|] w2] eqn:Ep; [|done].
  destruct (MR (mkReservation id sku qty forWhom created)) as [d2|] eqn:Er; [|done].
  destruct (hs_Put (t_c tx) (outgoing ctx) (mkPbPut "reservations" id d2 (t_id tx) 0) w2) as [[v2|] w3] eqn:Eq; [|done].
  intros [= <- <-]. exists data, v, item, item', d1, d2, w1, w2, v1, v2. done.
Qed.

(** What the system leaves out: an administrator's PUT writes the whole item,
    so a body without the reserved count sells what is reserved once more; and a
    restock beyond the range of an integer makes stock out of nothing. *)
Example put_item_resells :
  let sold := mkItem "tea" "Tea" 1 1 in let body := mkItem "" "Tea" 1 0 in
  take_stock sold 1 = None /\ take_stock (mkItem "tea" (ItemName body) (OnHand body) (Reserved body)) 1 <> None.
Proof. split; [reflexivity|discriminate]. Qed.
Example restock_overflows :
  let i := with_on_hand (mkItem "tea" "Tea" 1 1) (2 ^ 63 - 1) in
  OnHand i = - 2 ^ 63 /\ available i = 2 ^ 63 - 1.
Proof. split; vm_compute; reflexivity. Qed.
