(* ===== verification/ApiKey.v ===== *)
(** * extension-example/apikey: identities from API keys

    The authenticate and authorize filters of main.go, the two caches in front
    of the key store, and the handlers. Then the system of several replicas
    that share one cache and one store, in which any number of lookups and
    revocations interleave: how long a revoked key still works.

    SHA-256, encoding/json and time.ParseDuration are parameters. Times and
    durations are nanoseconds. *)

From Stdlib Require Import Ascii.
From S2P Require Import Prelude GoStrings Wire Query HostMemory HostServer Sdk SdkHost SdkRuntime Plugins.

Open Scope Z_scope.

Record KeyDoc := mkKey {
  k_Hash : string; k_Label : string; k_UserID : string; k_Name : string; k_Roles : list string; k_Revoked : bool;
  k_Created : string
}.

#[export] Instance KeyDoc_eq_dec : EqDecision KeyDoc.
Proof. solve_decision. Defined.

Record settings := mkSettings { cacheTTL : Z; localTTL : Z; protected : list string }.

(** ** The process's own cache *)

Definition localEntry : Type := KeyDoc * Z.

Definition localGet (hash : string) (now : Z) (l : gmap string localEntry) : option KeyDoc :=
  match l !! hash with
  | Some (k, expires) => if expires <? now then None else Some k
  | None => None
  end.

Definition localPut (hash : string) (k : KeyDoc) (ttl now : Z) (l : gmap string localEntry) : gmap string localEntry :=
  let l := if 4096 <=? Z.of_nat (size l) then ∅ else l in
  <[hash := (k, now + ttl)]> l.

Definition localDrop (hash : string) (l : gmap string localEntry) : gmap string localEntry := delete hash l.

(** ** Strings *)

Definition quoted (s : string) : string := let q := String (ascii_of_nat 34) "" in q +:+ s +:+ q.

Definition bearerKey (header : string) : string :=
  match cut_prefix "Bearer " header with
  | Some rest => trim_space rest
  | None => match cut_prefix "ApiKey " header with Some rest => trim_space rest | None => "" end
  end.

Definition splitList (raw : string) : list string :=
  filter (fun p => p <> "") (trim_space <$> split_byte "," raw).

Definition isProtected (s : settings) (path : string) : bool := existsb (has_prefix path) (protected s).

Section plugin.
Context {W F : Type}.
Context (sha256 : string -> list Z) (Marshal : KeyDoc -> result string string) (Unmarshal : string -> result string KeyDoc)
  (UnmarshalList : string -> result string (list KeyDoc)) (encode : json -> string)
  (parse_duration : string -> option Z).
Notation host := (HostServices (W := W) (F := F)).

(** The host and this process's cache. *)
Definition state : Type := W * gmap string localEntry.

Definition hashKey (raw : string) : string := hex_encode (sha256 raw).

Definition duration_setting (text : string) (current default_ : Z) : Z :=
  match parse_duration text with
  | Some d => if 0 <? d then d else if current =? 0 then default_ else current
  | None => if current =? 0 then default_ else current
  end.

Definition configure (cfg : gmap string string) (s : settings) : settings :=
  let get k := default "" (cfg !! k) in
  mkSettings (duration_setting (get "cache_ttl") (cacheTTL s) (60 * second))
    (duration_setting (get "local_ttl") (localTTL s) (5 * second)) (splitList (get "protected_prefixes")).

(** [now]: the clock at the look into the local cache and when an entry is put
    there. *)
Definition lookup (s : settings) (cache db : option host) (ctx : context) (hash : string) (now1 now2 : Z) (w : state)
    : result error (option KeyDoc) * state :=
  match localGet hash now1 w.2 with
  | Some k => (Ok (Some k), w)
  | None =>
      let '((found, k, err), h) := CacheGet Unmarshal cache ctx ("k:" +:+ hash) true w.1 in
      match err, k with
      | None, Some k => (Ok (Some k), (h, localPut hash k (localTTL s) now2 w.2))
      | _, _ =>
          let '(rd, h) := SdkHost.Get Unmarshal db ctx "keys" hash true h in
          match rd_err rd, rd_dest rd with
          | Some e, _ => (Err e, (h, w.2))
          | None, None => (Ok None, (h, w.2))
          | None, Some k =>
              let h := (CacheSet Marshal cache ctx ("k:" +:+ hash) k (cacheTTL s) h).2 in
              (Ok (Some k), (h, localPut hash k (localTTL s) now2 w.2))
          end
      end
  end.

Definition authenticate (s : settings) (cache db : option host) (now1 now2 : Z) (ctx : context) (req : FilterRequest)
    (w : state) : result error FilterResult * state :=
  let raw := bearerKey (Header_Get (sq_Header req) "Authorization") in
  if String.eqb raw "" then (Ok Continue, w)
  else
    match lookup s cache db ctx (hashKey raw) now1 now2 w with
    | (Err e, w) => (Err e, w)
    | (Ok None, w) => (Ok Continue, w)
    | (Ok (Some k), w) =>
        (Ok (if k_Revoked k then Continue
             else SetIdentity Mutate (Some (mkUserContext (k_UserID k) (k_Name k) (k_Roles k)))), w)
    end.

Definition authorize (s : settings) (req : FilterRequest) : FilterResult :=
  if negb (isProtected s (sq_Path req)) then Continue
  else if Authenticated (sq_Identity req) then Continue
  else WithHeader (Stop 401 ("{" +:+ quoted "error" +:+ ":" +:+ quoted "an API key is required for this path" +:+ "}"))
         "WWW-Authenticate" ("Bearer realm=" +:+ quoted "moduless").

(** ** The handlers *)

Definition key_json (k : KeyDoc) : json :=
  JObj [("hash", JStr (k_Hash k)); ("label", JStr (k_Label k)); ("user_id", JStr (k_UserID k)); ("name", JStr (k_Name k));
        ("roles", jstrings (k_Roles k)); ("revoked", JBool (k_Revoked k)); ("created", JStr (k_Created k))].

Definition forbidden : list rw_op := http_Error "forbidden" 403.

(** [body]: label, user id, name and roles, if it decodes. [id1], [id2]: what
    NewID draws. *)
Definition issueKey (db : option host) (ctx : context) (body : option (string * string * string * list string))
    (id1 id2 created : string) (w : W) : list rw_op * W :=
  if negb (HasRole (User ctx) "admin") then (forbidden, w)
  else
    match body with
    | None => (http_Error "invalid JSON" 400, w)
    | Some (label, user, name, roles) =>
        if String.eqb user "" then (http_Error "user_id is required" 400, w)
        else
          let plaintext := id1 +:+ id2 in
          let k := mkKey (hashKey plaintext) label user name roles false created in
          match SdkHost.Put Marshal db ctx "keys" (k_Hash k) k w with
          | (Err _, w) => (http_Error "could not store the key" 500, w)
          | (Ok _, w) =>
              (writeJSON encode "application/json" 201
                 (JObj [("hash", JStr (k_Hash k)); ("key", JStr plaintext);
                        ("note", JStr "this is the only time the key is shown")]), w)
          end
    end.

Definition revoked (k : KeyDoc) : KeyDoc :=
  mkKey (k_Hash k) (k_Label k) (k_UserID k) (k_Name k) (k_Roles k) true (k_Created k).

Definition revokeKey (cache db : option host) (ctx : context) (hash : string) (w : state) : list rw_op * state :=
  if negb (HasRole (User ctx) "admin") then (forbidden, w)
  else
    let '(rd, h) := SdkHost.Get Unmarshal db ctx "keys" hash true w.1 in
    match rd_err rd, rd_dest rd with
    | Some _, _ => (http_Error "could not read the key" 500, (h, w.2))
    | None, None => (http_Error "no such key" 404, (h, w.2))
    | None, Some k =>
        match PutIfVersion Marshal db ctx "keys" hash (revoked k) (rd_version rd) h with
        | (Err _, h) => (http_Error "could not revoke the key" 409, (h, w.2))
        | (Ok _, h) =>
            let h := (CacheDelete cache ctx ("k:" +:+ hash) h).2 in
            (writeJSON encode "application/json" 200
               (JObj [("fully_effect", JStr "after cache_ttl on other replicas"); ("revoked", JStr hash)]),
             (h, localDrop hash w.2))
        end
    end.

Definition listKeys (db : option host) (ctx : context) (w : W) : list rw_op * W :=
  if negb (HasRole (User ctx) "admin") then (forbidden, w)
  else
    match All UnmarshalList ctx true (q_Limit 100 (q_Sort "created" (Where db "keys"))) w with
    | (Err _, w) => (http_Error "could not list keys" 500, w)
    | (Ok (_, ks), w) => (writeJSON encode "application/json" 200 (JObj [("keys", JArr (key_json <$> ks))]), w)
    end.

(** ** What the filters decide *)

(** A filter answers with an identity only for a key that was presented, found
    under its hash and not revoked as found, and it is that key's identity; when
    the lookup fails the filter does, and the caller stays anonymous in every
    other case. *)
Lemma authenticate_spec s cache db now1 now2 ctx req w r w' :
  authenticate s cache db now1 now2 ctx req w = (r, w') ->
  let raw := bearerKey (Header_Get (sq_Header req) "Authorization") in
  match r with
  | Err e => raw <> "" /\ (lookup s cache db ctx (hashKey raw) now1 now2 w).1 = Err e
  | Ok res =>
      res_identity res = None /\ res = Continue \/
      raw <> "" /\ exists k, (lookup s cache db ctx (hashKey raw) now1 now2 w).1 = Ok (Some k) /\ k_Revoked k = false /\
        res_identity res = Some (mkUserContext (k_UserID k) (k_Name k) (k_Roles k))
  end.
Proof.
  unfold authenticate. cbv zeta. set (raw := bearerKey _). intros H. destruct (String.eqb_spec raw "") as [E|E].
  { injection H as <- <-. by left. }
  destruct (lookup s cache db ctx (hashKey raw) now1 now2 w) as [[[k|]|e] w1]; injection H as <- <-.
  - destruct (k_Revoked k) eqn:Ek; [by left|]. right. split; [done|]. by exists k.
  - by left.
  - done.
Qed.

(** Nobody without an identity gets past a protected prefix. *)
Lemma authorize_spec s req :
  res_action (authorize s req) = ACTION_SHORT_CIRCUIT <->
  (exists p, p ∈ protected s /\ has_prefix (sq_Path req) p = true) /\ ID (sq_Identity req) = "".
Proof.
  assert (isProtected s (sq_Path req) = true <-> exists p, p ∈ protected s /\ has_prefix (sq_Path req) p = true) as Hp
    by apply existsb_elem.
  assert (Authenticated (sq_Identity req) = false <-> ID (sq_Identity req) = "") as Ha.
  { unfold Authenticated, ID. destruct (sq_Identity req) as [u|]; [|done].
    rewrite negb_false_iff. apply String.eqb_eq. }
  rewrite <- Hp, <- Ha. unfold authorize. destruct (isProtected s (sq_Path req)), (Authenticated (sq_Identity req)); simpl; naive_solver.
Qed.

(** Only an administrator reaches the key store through the handlers. *)
Lemma handlers_admin_only cache db ctx body id1 id2 created hash (w : state) :
  HasRole (User ctx) "admin" = false ->
  issueKey db ctx body id1 id2 created w.1 = (forbidden, w.1) /\
  revokeKey cache db ctx hash w = (forbidden, w) /\ listKeys db ctx w.1 = (forbidden, w.1).
Proof. intros H. unfold issueKey, revokeKey, listKeys. by rewrite H. Qed.
End plugin.

(** ** Replicas, the shared cache and the store *)

(** A lookup under way: where it found the key, when, and the key. *)
Inductive origin := FromDB | FromShared.
Record found := mkFound { fd_replica : nat; fd_hash : string; fd_origin : origin; fd_at : Z; fd_key : KeyDoc }.

(** An answer of the authenticate filter that names someone. *)
Record answer := mkAnswer { an_at : Z; an_hash : string; an_key : KeyDoc }.

(** The clock, the key store, the cache Core keeps, each replica's own, the
    lookups under way; and for the statement the answers given and, for each
    key, what was issued and when it was first revoked. *)
Record world := mkWorld {
  clock : Z; keys : gmap string KeyDoc; shared : MemoryCache; locals : gmap nat (gmap string localEntry);
  lookups : list found; answers : list answer; issued : gmap string KeyDoc; revoked_at : gmap string Z
}.

Definition identity_of (k : KeyDoc) : UserContext := mkUserContext (k_UserID k) (k_Name k) (k_Roles k).

Section replicas.
Context (Marshal : KeyDoc -> result string string) (Unmarshal : string -> result string KeyDoc).
Context (s : settings) (plugin : string).
(** A lookup stores what it found no later than this after it found it. *)
Context (slack : Z).

Definition local_of (w : world) (i : nat) : gmap string localEntry := default ∅ (locals w !! i).
Definition shared_ttl : Z := wholeSeconds (cacheTTL s) * second.

Definition answered_with (w : world) (hash : string) (k : KeyDoc) : list answer :=
  if k_Revoked k then answers w else answers w ++ [mkAnswer (clock w) hash k].

Inductive step : world -> world -> Prop :=
| S_tick w d : 0 <= d ->
    step w (mkWorld (clock w + d) (keys w) (shared w) (locals w) (lookups w) (answers w) (issued w) (revoked_at w))
| S_issue w k : keys w !! k_Hash k = None -> k_Revoked k = false ->
    step w (mkWorld (clock w) (<[k_Hash k := k]> (keys w)) (shared w) (locals w) (lookups w) (answers w)
              (<[k_Hash k := k]> (issued w)) (revoked_at w))
  (** A PutIfVersion that succeeds finds the key its Get has read. *)
| S_revoke w hash k : keys w !! hash = Some k ->
    step w (mkWorld (clock w) (<[hash := revoked k]> (keys w)) (shared w) (locals w) (lookups w) (answers w) (issued w)
              (match revoked_at w !! hash with Some _ => revoked_at w | None => <[hash := clock w]> (revoked_at w) end))
| S_drop_shared w hash :
    step w (mkWorld (clock w) (keys w) (HostMemory.Delete plugin ("k:" +:+ hash) (shared w)) (locals w) (lookups w)
              (answers w) (issued w) (revoked_at w))
| S_drop_local w i hash :
    step w (mkWorld (clock w) (keys w) (shared w) (<[i := localDrop hash (local_of w i)]> (locals w)) (lookups w)
              (answers w) (issued w) (revoked_at w))
| S_local_hit w i hash k : localGet hash (clock w) (local_of w i) = Some k ->
    step w (mkWorld (clock w) (keys w) (shared w) (locals w) (lookups w) (answered_with w hash k) (issued w) (revoked_at w))
| S_shared_hit w i hash data c k :
    HostMemory.Get (clock w) plugin ("k:" +:+ hash) (shared w) = (Some data, c) -> Unmarshal data = Ok k ->
    step w (mkWorld (clock w) (keys w) c (locals w) (mkFound i hash FromShared (clock w) k :: lookups w) (answers w)
              (issued w) (revoked_at w))
  (** The shared cache does not have it, or cannot be asked. *)
| S_read w i hash k : keys w !! hash = Some k ->
    step w (mkWorld (clock w) (keys w) (shared w) (locals w) (mkFound i hash FromDB (clock w) k :: lookups w) (answers w)
              (issued w) (revoked_at w))
| S_set_shared w f data order : f ∈ lookups w -> fd_origin f = FromDB -> clock w <= fd_at f + slack ->
    Marshal (fd_key f) = Ok data ->
    step w (mkWorld (clock w) (keys w)
              (HostMemory.Set_ (clock w) order plugin ("k:" +:+ fd_hash f) data shared_ttl (shared w))
              (locals w) (lookups w) (answers w) (issued w) (revoked_at w))
| S_put_local w f : f ∈ lookups w -> clock w <= fd_at f + slack ->
    step w (mkWorld (clock w) (keys w) (shared w)
              (<[fd_replica f := localPut (fd_hash f) (fd_key f) (localTTL s) (clock w) (local_of w (fd_replica f))]> (locals w))
              (lookups w) (answered_with w (fd_hash f) (fd_key f)) (issued w) (revoked_at w))
  (** It is over, finished or not. *)
| S_done w ls : (forall f, f ∈ ls -> f ∈ lookups w) ->
    step w (mkWorld (clock w) (keys w) (shared w) (locals w) ls (answers w) (issued w) (revoked_at w)).
End replicas.

(** ** The window of a revoked key *)

Section window.
Context (Marshal : KeyDoc -> result string string) (Unmarshal : string -> result string KeyDoc).
Context (Round : forall k data, Marshal k = Ok data -> Unmarshal data = Ok k).
Context (s : settings) (plugin : string) (NoNul : has_byte Ascii.zero plugin = false).
Context (slack : Z) (Slack : 0 <= slack) (Shared : 0 < shared_ttl s) (Local : 0 <= localTTL s).

(** The time a copy of a key is judged by: when the key was revoked, or now. *)
Definition judged (w : world) (hash : string) : Z := default (clock w) (revoked_at w !! hash).

(** A copy of an issued key that is not revoked is used no later than [limit]
    after that. *)
Definition copy_ok (w : world) (hash : string) (k : KeyDoc) (until limit : Z) : Prop :=
  (exists k0, issued w !! hash = Some k0 /\ identity_of k = identity_of k0) /\
  (k_Revoked k = false -> until <= judged w hash + limit).

Definition shared_limit : Z := slack + shared_ttl s.
Definition local_limit : Z := slack + shared_ttl s + slack + localTTL s.

Record world_ok (w : world) : Prop := mkWorldOk {
  w_keys : forall hash k, keys w !! hash = Some k ->
    (exists k0, issued w !! hash = Some k0 /\ identity_of k = identity_of k0) /\
    (k_Revoked k = false -> revoked_at w !! hash = None);
  w_known : forall hash k, issued w !! hash = Some k -> keys w !! hash <> None;
  w_revoked : forall hash t, revoked_at w !! hash = Some t -> t <= clock w /\ keys w !! hash <> None;
  w_shared : forall hash e, HostMemory.entries (shared w) !! cacheKey plugin ("k:" +:+ hash) = Some e ->
    exists k t, Unmarshal (ce_value e) = Ok k /\ ce_expiresAt e = Some t /\ copy_ok w hash k t shared_limit;
  w_locals : forall i hash k t, local_of w i !! hash = Some (k, t) -> copy_ok w hash k t local_limit;
  w_lookups : forall f, f ∈ lookups w ->
    copy_ok w (fd_hash f) (fd_key f) (fd_at f) (match fd_origin f with FromDB => 0 | FromShared => shared_limit end);
  w_answers : forall a, a ∈ answers w -> k_Revoked (an_key a) = false /\
    copy_ok w (an_hash a) (an_key a) (an_at a) local_limit
}.

(** Nothing that is known of a copy is lost as time passes and keys are issued
    and revoked. *)
Lemma copy_ok_mono w w' hash k t l : copy_ok w hash k t l ->
  issued w' !! hash = issued w !! hash -> judged w hash <= judged w' hash -> copy_ok w' hash k t l.
Proof. intros [(k0 & H1 & H2) Ht] Hi Hj. split; [exists k0; by rewrite Hi|]. intros Hr. specialize (Ht Hr). lia. Qed.

(** A step that leaves the caches and lookups, or takes from them, keeps the
    invariant if it does so for the keys and the answers. *)
Lemma world_ok_sub w w' : world_ok w ->
  (forall hash, issued w !! hash <> None -> issued w' !! hash = issued w !! hash) ->
  (forall hash, issued w !! hash <> None -> judged w hash <= judged w' hash) ->
  entries (shared w') ⊆ entries (shared w) ->
  (forall i hash e, local_of w' i !! hash = Some e -> local_of w i !! hash = Some e) ->
  (forall f, f ∈ lookups w' -> f ∈ lookups w) ->
  (forall hash k, keys w' !! hash = Some k ->
    (exists k0, issued w' !! hash = Some k0 /\ identity_of k = identity_of k0) /\
    (k_Revoked k = false -> revoked_at w' !! hash = None)) ->
  (forall hash k, issued w' !! hash = Some k -> keys w' !! hash <> None) ->
  (forall hash t, revoked_at w' !! hash = Some t -> t <= clock w' /\ keys w' !! hash <> None) ->
  answers w' = answers w -> world_ok w'.
Proof.
  intros [Hk Hkn Hr Hs Hl Hu Ha] Hi Hj Hsh Hlo Hlk Hk' Hkn' Hr' Han.
  assert (forall hash k t l, copy_ok w hash k t l -> copy_ok w' hash k t l) as Hm.
  { intros hash k t l Hc. assert (issued w !! hash <> None) by (destruct Hc as [(k0 & -> & _) _]; done).
    eapply copy_ok_mono; [exact Hc|by apply Hi|by apply Hj]. }
  split; try done.
  - intros hash e He. destruct (Hs hash e) as (k & t & H1 & H2 & H3); [by eapply lookup_weaken|]. exists k, t. auto.
  - intros i hash k t He. eapply Hm, Hl, Hlo, He.
  - intros f Hf. apply Hm, Hu, Hlk, Hf.
  - intros a. rewrite Han. intros Hin. destruct (Ha a Hin). auto.
Qed.

Lemma judged_le w w' hash : clock w <= clock w' -> revoked_at w' !! hash = revoked_at w !! hash ->
  judged w hash <= judged w' hash.
Proof. intros Hc Hr. unfold judged. rewrite Hr. by destruct (revoked_at w !! hash). Qed.

(** An answer made of a copy that is still good. *)
Lemma answered_ok w locals' lookups' shared' hash k : world_ok w ->
  copy_ok w hash k (clock w) local_limit ->
  (forall i h k t, default ∅ (locals' !! i) !! h = Some (k, t) -> copy_ok w h k t local_limit) ->
  (forall f, f ∈ lookups' -> f ∈ lookups w) -> entries shared' ⊆ entries (shared w) ->
  world_ok (mkWorld (clock w) (keys w) shared' locals' lookups' (answered_with w hash k) (issued w) (revoked_at w)).
Proof.
  intros [Hk Hkn Hr Hs Hl Hu Ha] Hc Hl' Hf Hsub. split; try done.
  - intros h e He. apply Hs. by eapply lookup_weaken.
  - intros f Hin. exact (Hu f (Hf f Hin)).
  - intros a. cbn [answers]. unfold answered_with. destruct (k_Revoked k) eqn:Ek; [apply Ha|].
    rewrite elem_of_app, list_elem_of_singleton. intros [Hin| ->]; [by apply Ha|]. by split.
Qed.

Lemma local_of_insert w i i' l hash e :
  local_of (mkWorld (clock w) (keys w) (shared w) (<[i := l]> (locals w)) (lookups w) (answers w) (issued w) (revoked_at w)) i'
    !! hash = Some e -> (i = i' /\ l !! hash = Some e) \/ local_of w i' !! hash = Some e.
Proof.
  unfold local_of. cbn [locals]. destruct (decide (i = i')) as [->|Hne].
  - rewrite lookup_insert_eq. by left.
  - rewrite lookup_insert_ne by done. by right.
Qed.

(** The cases of a step that do more than take away. *)
Lemma tick_ok w d : 0 <= d -> world_ok w ->
  world_ok (mkWorld (clock w + d) (keys w) (shared w) (locals w) (lookups w) (answers w) (issued w) (revoked_at w)).
Proof.
  intros Hd Hw. apply (world_ok_sub w); try done.
  - intros hash _. apply judged_le; simpl; [lia|done].
  - apply (w_keys _ Hw).
  - apply (w_known _ Hw).
  - intros hash t Ht. destruct (w_revoked _ Hw hash t Ht). simpl. split; [lia|done].
Qed.

Lemma issue_ok w k : keys w !! k_Hash k = None -> k_Revoked k = false -> world_ok w ->
  world_ok (mkWorld (clock w) (<[k_Hash k := k]> (keys w)) (shared w) (locals w) (lookups w) (answers w)
    (<[k_Hash k := k]> (issued w)) (revoked_at w)).
Proof.
  intros Hn Hk Hw. apply (world_ok_sub w); try done; simpl.
  - intros hash Hh. apply lookup_insert_ne. intros <-. destruct (issued w !! k_Hash k) eqn:E; [|done].
    by apply (w_known _ Hw) in E.
  - intros hash k'. rewrite lookup_insert_Some. intros [[<- <-]|[Hne Hl]].
    + split; [exists k; by rewrite lookup_insert_eq|]. intros _. destruct (revoked_at w !! k_Hash k) eqn:E; [|done].
      by destruct (w_revoked _ Hw _ _ E).
    + rewrite lookup_insert_ne by done. by apply (w_keys _ Hw).
  - intros hash k'. rewrite lookup_insert_Some. intros [[<- <-]|[Hne Hl]]; [by rewrite lookup_insert_eq|].
    rewrite lookup_insert_ne by done. by apply (w_known _ Hw hash k').
  - intros hash t Ht. destruct (w_revoked _ Hw _ _ Ht) as [H1 H2]. split; [done|].
    destruct (decide (k_Hash k = hash)) as [<-|Hne]; [by rewrite lookup_insert_eq|by rewrite lookup_insert_ne].
Qed.

Lemma revoke_ok w hash k : keys w !! hash = Some k -> world_ok w ->
  world_ok (mkWorld (clock w) (<[hash := revoked k]> (keys w)) (shared w) (locals w) (lookups w) (answers w) (issued w)
    (match revoked_at w !! hash with Some _ => revoked_at w | None => <[hash := clock w]> (revoked_at w) end)).
Proof.
  intros Hk Hw.
  pose (rv := match revoked_at w !! hash with Some _ => revoked_at w | None => <[hash := clock w]> (revoked_at w) end).
  assert (forall h, h <> hash -> rv !! h = revoked_at w !! h) as Hrv.
  { intros h Hne. subst rv. destruct (revoked_at w !! hash); [done|]. by rewrite lookup_insert_ne. }
  assert (forall h, default (clock w) (rv !! h) = judged w h) as Hj.
  { intros h. unfold judged. destruct (decide (h = hash)) as [->|Hne]; [|by rewrite Hrv].
    subst rv. destruct (revoked_at w !! hash) eqn:E; [by rewrite E|]. by rewrite lookup_insert_eq. }
  fold rv. apply (world_ok_sub w); try done; simpl.
  - intros h _. unfold judged at 2. simpl. by rewrite Hj.
  - intros h k'. rewrite lookup_insert_Some. intros [[<- <-]|[Hne Hl]].
    + destruct (w_keys _ Hw _ _ Hk) as [(k0 & H1 & H2) _]. split; [|done]. exists k0. split; [done|].
      rewrite <- H2. reflexivity.
    + destruct (w_keys _ Hw _ _ Hl) as [H1 H2]. split; [done|]. intros Hr. rewrite Hrv by done. by apply H2.
  - intros h k' Hi. destruct (decide (hash = h)) as [<-|Hne]; [by rewrite lookup_insert_eq|].
    rewrite lookup_insert_ne by done. by apply (w_known _ Hw h k').
  - intros h t Ht.
    assert (t <= clock w) as Hc.
    { destruct (decide (h = hash)) as [->|Hne].
      - subst rv. destruct (revoked_at w !! hash) as [t'|] eqn:E; [by apply (w_revoked _ Hw hash)|].
        rewrite lookup_insert_eq in Ht. injection Ht as <-. lia.
      - rewrite Hrv in Ht by done. by apply (w_revoked _ Hw h). }
    split; [done|]. destruct (decide (hash = h)) as [<-|Hne]; [by rewrite lookup_insert_eq|].
    rewrite lookup_insert_ne by done. rewrite Hrv in Ht by congruence. by apply (w_revoked _ Hw h t).
Qed.

Lemma lookup_ok w c i hash o k : world_ok w -> entries c ⊆ entries (shared w) ->
  copy_ok w hash k (clock w) (match o with FromDB => 0 | FromShared => shared_limit end) ->
  world_ok (mkWorld (clock w) (keys w) c (locals w) (mkFound i hash o (clock w) k :: lookups w) (answers w)
    (issued w) (revoked_at w)).
Proof.
  intros [Hk Hkn Hr Hs Hl Hu Ha] Hc Hok. split; try done.
  - intros h e He. apply Hs. by eapply lookup_weaken.
  - intros f. cbn [lookups]. rewrite list_elem_of_In. intros [<-|Hin]; [exact Hok|].
    apply Hu. by apply list_elem_of_In.
Qed.

Lemma shared_key_inj h1 h2 : cacheKey plugin ("k:" +:+ h1) = cacheKey plugin ("k:" +:+ h2) -> h1 = h2.
Proof. intros E. apply cacheKey_inj in E as [_ E]; [|done..]. by injection E. Qed.

Lemma copy_ok_later w hash k t l t' l' : copy_ok w hash k t l -> t' - t <= l' - l -> copy_ok w hash k t' l'.
Proof. intros [H1 H2] Hle. split; [done|]. intros Hr. specialize (H2 Hr). lia. Qed.

Lemma set_shared_ok w f data order : f ∈ lookups w -> fd_origin f = FromDB -> clock w <= fd_at f + slack ->
  Marshal (fd_key f) = Ok data -> world_ok w ->
  world_ok (mkWorld (clock w) (keys w)
    (HostMemory.Set_ (clock w) order plugin ("k:" +:+ fd_hash f) data (shared_ttl s) (shared w))
    (locals w) (lookups w) (answers w) (issued w) (revoked_at w)).
Proof.
  intros Hf Ho Ht Hd [Hk Hkn Hr Hs Hl Hu Ha]. split; try done. intros hash e. cbn [shared]. unfold HostMemory.Set_.
  cbn [entries]. rewrite (proj2 (Z.ltb_lt 0 (shared_ttl s)) Shared), lookup_insert_Some.
  intros [[E <-]|[_ He]].
  - apply shared_key_inj in E as <-. exists (fd_key f), (clock w + shared_ttl s).
    split; [by apply Round|]. split; [done|]. pose proof (Hu f Hf) as Hc. rewrite Ho in Hc.
    eapply copy_ok_later; [exact Hc|]. unfold shared_limit. lia.
  - apply Hs. destruct (_ <=? _); [|done]. eapply lookup_weaken; [exact He|apply evict_sub].
Qed.

Lemma put_local_ok w f : f ∈ lookups w -> clock w <= fd_at f + slack -> world_ok w ->
  world_ok (mkWorld (clock w) (keys w) (shared w)
    (<[fd_replica f := localPut (fd_hash f) (fd_key f) (localTTL s) (clock w) (local_of w (fd_replica f))]> (locals w))
    (lookups w) (answered_with w (fd_hash f) (fd_key f)) (issued w) (revoked_at w)).
Proof.
  intros Hf Ht Hw. pose proof (w_lookups _ Hw f Hf) as Hc.
  assert (copy_ok w (fd_hash f) (fd_key f) (clock w + localTTL s) local_limit) as Hc'.
  { eapply copy_ok_later; [exact Hc|]. unfold local_limit, shared_limit. destruct (fd_origin f); lia. }
  apply answered_ok; try done.
  - eapply copy_ok_later; [exact Hc'|]. lia.
  - intros i h k t Hl. apply local_of_insert in Hl as [[<- Hl]|Hl]; [|by apply (w_locals _ Hw i)].
    revert Hl. unfold localPut. rewrite lookup_insert_Some. intros [[<- [= <- <-]]|[_ Hl]]; [exact Hc'|].
    destruct (_ <=? _); [by rewrite lookup_empty in Hl|]. by apply (w_locals _ Hw (fd_replica f)).
Qed.

Lemma replica_step_ok w w' : step Marshal Unmarshal s plugin slack w w' -> world_ok w -> world_ok w'.
Proof.
  intros Hst Hw. destruct Hst as [w d Hd|w k Hn Hk|w hash k Hk|w hash|w i hash|w i hash k Hh|w i hash data c k Hg Hu
    |w i hash k Hk|w f data order Hf Ho Ht Hd|w f Hf Ht|w ls Hls].
  - by apply tick_ok.
  - by apply issue_ok.
  - by apply revoke_ok.
  - apply (world_ok_sub w); try done; [|apply Hw..]. apply delete_subseteq.
  - apply (world_ok_sub w); try done; [|apply Hw..]. intros i' h e He.
    apply local_of_insert in He as [[<- He]|He]; [|done].
    unfold localDrop in He. by apply lookup_delete_Some in He as [_ He].
  - unfold localGet in Hh. destruct (local_of w i !! hash) as [[k' e]|] eqn:E; [|done].
    destruct (Z.ltb_spec e (clock w)); [done|]. injection Hh as ->.
    apply answered_ok; try done; [|apply (w_locals _ Hw)]. eapply copy_ok_later; [by apply (w_locals _ Hw i)|]. lia.
  - unfold HostMemory.Get in Hg. destruct (entries (shared w) !! cacheKey plugin ("k:" +:+ hash)) as [e|] eqn:E; [|done].
    destruct (expired (clock w) (ce_expiresAt e)) eqn:Ex; [done|]. injection Hg as <- <-.
    destruct (w_shared _ Hw hash e E) as (k' & t & H1 & H2 & H3). assert (k' = k) as -> by congruence.
    apply lookup_ok; [done..|]. eapply copy_ok_later; [exact H3|]. rewrite H2 in Ex. simpl in Ex.
    apply negb_false_iff, Z.ltb_lt in Ex. lia.
  - apply lookup_ok; [done..|]. destruct (w_keys _ Hw hash k Hk) as [H1 H2]. split; [done|]. intros Hr.
    unfold judged. rewrite (H2 Hr). simpl. lia.
  - by apply set_shared_ok.
  - by apply put_local_ok.
  - apply (world_ok_sub w); try done; apply Hw.
Qed.
End window.

(** Replicas that have just started, before any key. *)
Definition start (now : Z) (maxEntries : Z) : world := mkWorld now ∅ (NewMemoryCache maxEntries) ∅ [] [] ∅ ∅.

Lemma start_ok Unmarshal s plugin slack now n : world_ok Unmarshal s plugin slack (start now n).
Proof.
  split; unfold start, local_of; cbn; intros *; rewrite ?lookup_empty; try done; intros H; by apply elem_of_nil in H.
Qed.


(** One replica reads the key just before it is revoked and stores it in the
    shared cache just after; another finds it there as it is about to expire,
    and keeps it for its own while. A code with one byte is enough to write the
    keys down. *)
Definition ex_settings : settings := mkSettings (60 * second) (5 * second) [].
Definition ex_key : KeyDoc := mkKey "h" "ci" "u1" "Ann" ["dev"] false "".
Definition ex_Marshal (k : KeyDoc) : result string string :=
  if decide (k = ex_key) then Ok "k" else Err "not this one".
Definition ex_Unmarshal (data : string) : result string KeyDoc :=
  if String.eqb data "k" then Ok ex_key else Err "not this one".
Definition ex_answer : answer := mkAnswer (67 * second - 1) "h" ex_key.

Lemma ex_round k data : ex_Marshal k = Ok data -> ex_Unmarshal data = Ok k.
Proof. unfold ex_Marshal. destruct (decide (k = ex_key)) as [->|]; [|done]. by intros [= <-]. Qed.

Definition ex_step := step ex_Marshal ex_Unmarshal ex_settings "apikey" second.

(** Before the second replica asks, and after its answer. *)
Definition ex_shared : MemoryCache :=
  mkMemoryCache {[ cacheKey "apikey" "k:h" := mkCacheEntry "k" (Some (62 * second)) ]} DefaultCacheEntries.
Definition ex_reads : list found := [mkFound 1 "h" FromDB second ex_key].
Definition ex_asked (t : Z) (ls : gmap nat (gmap string localEntry)) (fs : list found) (an : list answer) : world :=
  mkWorld t {[ "h" := revoked ex_key ]} ex_shared ls fs an {[ "h" := ex_key ]} {[ "h" := second ]}.
Definition ex_local : gmap nat (gmap string localEntry) := {[ 2%nat := {[ "h" := (ex_key, 67 * second - 1) ]} ]}.
Definition ex_found : found := mkFound 2 "h" FromShared (62 * second - 1) ex_key.
Definition ex_end : world :=
  ex_asked (67 * second - 1) ex_local (ex_found :: ex_reads) [mkAnswer (62 * second - 1) "h" ex_key; ex_answer].

Ltac step_by t := eapply rtc_l; [t|cbn [clock keys shared locals lookups answers issued revoked_at]].

Lemma ex_cached : rtc ex_step (start 0 0) (ex_asked (62 * second - 1) ∅ ex_reads []).
Proof.
  step_by ltac:(apply (S_issue _ _ _ _ _ _ ex_key); reflexivity).
  step_by ltac:(apply (S_tick _ _ _ _ _ _ second); unfold second; lia).
  step_by ltac:(apply (S_read _ _ _ _ _ _ 1 "h" ex_key); reflexivity).
  step_by ltac:(apply (S_revoke _ _ _ _ _ _ "h" ex_key); reflexivity).
  step_by ltac:(apply (S_tick _ _ _ _ _ _ second); unfold second; lia).
  step_by ltac:(eapply (S_set_shared _ _ _ _ _ _ (mkFound 1 "h" FromDB second ex_key) "k" (fun _ => []));
    [by left|reflexivity|vm_compute; discriminate|reflexivity]).
  step_by ltac:(apply (S_tick _ _ _ _ _ _ (60 * second - 1)); unfold second; lia).
  match goal with |- rtc _ ?a ?b => replace a with b by (vm_compute; reflexivity) end. apply rtc_refl.
Qed.

Lemma ex_window : rtc ex_step (start 0 0) ex_end.
Proof.
  etransitivity; [exact ex_cached|].
  step_by ltac:(apply (S_shared_hit ex_Marshal ex_Unmarshal ex_settings "apikey" second (ex_asked (62 * second - 1) ∅ ex_reads [])
             2 "h" "k" ex_shared ex_key); [vm_compute; reflexivity|reflexivity]).
  step_by ltac:(apply (S_put_local ex_Marshal ex_Unmarshal ex_settings "apikey" second
             (ex_asked (62 * second - 1) ∅ (ex_found :: ex_reads) []) ex_found); [by left|vm_compute; discriminate]).
  step_by ltac:(apply (S_tick _ _ _ _ _ _ (5 * second)); unfold second; lia).
  step_by ltac:(apply (S_local_hit ex_Marshal ex_Unmarshal ex_settings "apikey" second
             (ex_asked (67 * second - 1) ex_local (ex_found :: ex_reads) [mkAnswer (62 * second - 1) "h" ex_key])
             2 "h" ex_key); vm_compute; reflexivity).
  apply rtc_refl.
Qed.


(** That is longer than what the handler and the manifest promise. *)
Example window_exceeds_cache_ttl :
  ex_answer ∈ answers ex_end /\ revoked_at ex_end !! "h" = Some second /\ second + cacheTTL ex_settings < an_at ex_answer.
Proof. split; [right; left|]. split; reflexivity. Qed.
