(* ===== verification/Redact.v ===== *)
(** * extension-example/redact: fields removed from responses

    The post_handler filter of main.go: what it replaces in a document, when it
    leaves a response alone, and what a replaced response carries. A document is
    a [json] of Query.v, as encoding/json decodes it into an [any]; decoding,
    encoding, strings.ToLower and the order in which Go visits a map are
    parameters. *)

From Stdlib Require Import Ascii.
From S2P Require Import Prelude GoStrings Wire Query Sdk Plugins.

Open Scope Z_scope.

Record settings := mkSettings { fields : gset string; mask : string }.

Section plugin.
Context (ToLower : string -> string) (Unmarshal : string -> option json) (Marshal encode : json -> result string string)
  (range : Header -> header_edits) (range_fields : gset string -> list string).

Definition configure (cfg : gmap string string) : settings :=
  let names := filter (fun f => f <> "") (trim_space <$> split_byte "," (default "" (cfg !! "fields"))) in
  let m := default "" (cfg !! "mask") in
  mkSettings (list_to_set (ToLower <$> names)) (if String.eqb m "" then "[redacted]" else m).

Definition configured (s : settings) (key : string) : bool := bool_decide (ToLower key ∈ fields s).

Fixpoint walk (s : settings) (node : json) : json * bool :=
  match node with
  | JObj fs =>
      let r := (fun '(key, val) =>
                  if configured s key then ((key, JStr (mask s)), true)
                  else let '(sub, subChanged) := walk s val in ((key, sub), subChanged)) <$> fs in
      (JObj (fst <$> r), existsb snd r)
  | JArr l => let r := walk s <$> l in (JArr (fst <$> r), existsb snd r)
  | _ => (node, false)
  end.

Definition isJSON (h : Header) : bool := contains "json" (Header_Get h "Content-Type").

(** The headers of a response on the answer that replaces it. *)
Definition with_headers (res : FilterResult) (h : Header) : FilterResult :=
  foldl (fun res kv => foldl (fun res v => WithHeader res kv.1 v) res kv.2) res (range h).

Definition redact (s : settings) (req : FilterRequest) : result string FilterResult :=
  if negb (isJSON (sq_ResponseHeader req)) || String.eqb (sq_ResponseBody req) "" then Ok Continue
  else if Nat.eqb (size (fields s)) 0 then Ok Continue
  else
    match Unmarshal (sq_ResponseBody req) with
    | None => Ok Continue
    | Some doc =>
        let '(cleaned, changed) := walk s doc in
        if negb changed then Ok Continue
        else
          match Marshal cleaned with
          | Err e => Err e
          | Ok out => Ok (with_headers (Stop (sq_ResponseStatus req) out) (sq_ResponseHeader req))
          end
    end.

Definition showSettings (s : settings) (ctx : context) : list rw_op :=
  if negb (HasRole (User ctx) "admin") then http_Error "forbidden" 403
  else
    RwHeader (Header_Set "Content-Type" "application/json") ::
    match encode (JObj [("fields", jstrings (range_fields (fields s))); ("mask", JStr (mask s))]) with
    | Ok body => [RwWrite body]
    | Err _ => []
    end.
End plugin.

(** ** Places in a document *)

Inductive place := Key (k : string) | Index (n : nat).

(** [At doc p j]: [j] is what [doc] has at [p]. *)
Inductive At : json -> list place -> json -> Prop :=
| At_here j : At j [] j
| At_key fs k v p j : (k, v) ∈ fs -> At v p j -> At (JObj fs) (Key k :: p) j
| At_index l n v p j : l !! n = Some v -> At v p j -> At (JArr l) (Index n :: p) j.

Definition scalar (j : json) : Prop := match j with JObj _ | JArr _ => False | _ => True end.

Lemma json_nested_ind (P : json -> Prop) :
  (forall j, scalar j -> P j) -> (forall l, Forall P l -> P (JArr l)) -> (forall fs, Forall (fun kv => P kv.2) fs -> P (JObj fs)) ->
  forall j, P j.
Proof.
  intros Hs Ha Ho. fix IH 1. intros [| | | |l|fs]; try by apply Hs.
  - apply Ha. induction l as [|j l IHl]; constructor; [apply IH|exact IHl].
  - apply Ho. induction fs as [|[k j] fs IHl]; constructor; [apply IH|exact IHl].
Qed.

Lemma existsb_false {A} (f : A -> bool) l : existsb f l = false <-> forall a, a ∈ l -> f a = false.
Proof.
  rewrite <- not_true_iff_false, existsb_elem. split.
  - intros Hn a Ha. apply not_true_iff_false. intros Hf. apply Hn. by exists a.
  - intros Hf (a & Ha & Hfa). by rewrite (Hf a Ha) in Hfa.
Qed.
Lemma existsb_fmap_ext {A B} (f : B -> bool) (g : A -> B) (h : A -> bool) l :
  (forall a, f (g a) = h a) -> existsb f (g <$> l) = existsb h l.
Proof. intros Hg. induction l as [|a l IH]; [done|]. rewrite fmap_cons. cbn [existsb]. by rewrite Hg, IH. Qed.
Lemma fmap_same {A} (f : A -> A) (l : list A) : (forall a, a ∈ l -> f a = a) -> f <$> l = l.
Proof.
  intros Hf. induction l as [|a l IH]; [done|]. rewrite fmap_cons, Hf, IH by (set_solver || left). done.
Qed.

Lemma At_app j p j' q j'' : At j p j' -> At j' q j'' -> At j (p ++ q) j''.
Proof.
  induction 1; intros Hq; simpl; [done| |]; econstructor; eauto.
Qed.

Section facts.
Context (ToLower : string -> string) (s : settings).
Notation walk := (walk ToLower s).
Notation configured := (configured ToLower s).

(** What [walk] makes of one field. *)
Definition field (kv : string * json) : string * json :=
  (kv.1, if configured kv.1 then JStr (mask s) else (walk kv.2).1).

Lemma walk_obj fs : (walk (JObj fs)).1 = JObj (field <$> fs).
Proof.
  simpl. f_equal. rewrite <- list_fmap_compose. apply list_fmap_ext. intros i [k v] _. simpl. unfold field. simpl.
  destruct (configured k); [done|]. by destruct (walk v).
Qed.
Lemma walk_arr l : (walk (JArr l)).1 = JArr ((fun j => (walk j).1) <$> l).
Proof. simpl. f_equal. by rewrite <- list_fmap_compose. Qed.
Lemma walk_scalar j : scalar j -> walk j = (j, false).
Proof. by destruct j. Qed.

Definition open (p : list place) : Prop := forall k, Key k ∈ p -> configured k = false.

Lemma open_cons x p : open (x :: p) -> (forall k, x = Key k -> configured k = false) /\ open p.
Proof. intros H. split; [intros k ->|intros k Hk]; apply H; [left|by right]. Qed.

(** Nothing but the mask is left where a configured field is. *)
Lemma walk_masks doc p k j : At (walk doc).1 (p ++ [Key k]) j -> configured k = true -> j = JStr (mask s).
Proof.
  revert p. induction doc as [doc Hs|l IH|fs IH] using json_nested_ind; intros p.
  - rewrite (walk_scalar doc Hs). simpl. intros Ha. destruct doc; try done; inversion Ha; by destruct p.
  - rewrite walk_arr. intros Ha Hk. inversion Ha as [j0 E|?? ?? ? ? ? E|l0 n v p0 j0 Hn Hv E1 E2]; subst; [by destruct p|].
    destruct p as [|x p]; [done|]. simpl in E2. injection E2 as <- ->.
    apply list_lookup_fmap_Some in Hn as (v0 & -> & Hn).
    apply (list.Forall_lookup_1 _ _ _ _ IH Hn p); done.
  - rewrite walk_obj. intros Ha Hk. inversion Ha as [j0 E|fs0 k0 v p0 j0 Hin Hv E1 E2|]; subst; [by destruct p|].
    apply list_elem_of_fmap in Hin as ([k1 v1] & [= -> ->] & Hin).
    destruct p as [|x p]; simpl in E2; injection E2 as <- E2; simpl in Hv.
    + subst p0. rewrite Hk in Hv. by inversion Hv.
    + subst p0. destruct (configured k1); [inversion Hv; by destruct p|].
      pose proof (proj1 (list.Forall_forall _ _) IH _ Hin p) as Hi. by apply Hi.
Qed.

(** Elsewhere there is what there was. *)
Lemma walk_keeps doc p j : At doc p j -> open p -> At (walk doc).1 p (walk j).1.
Proof.
  induction 1 as [j|fs k v p j Hin Ha IH|l n v p j Hn Ha IH]; intros Ho; [constructor| |];
    apply open_cons in Ho as [Hk Ho].
  - rewrite walk_obj. apply (At_key _ k (walk v).1); [|by apply IH].
    apply list_elem_of_fmap. exists (k, v). split; [|done]. unfold field. simpl. by rewrite (Hk k).
  - rewrite walk_arr. apply (At_index _ n (walk v).1); [|by apply IH]. by rewrite list_lookup_fmap, Hn.
Qed.

Lemma walk_adds_nothing doc p j : At (walk doc).1 p j -> open p -> exists j0, At doc p j0 /\ j = (walk j0).1.
Proof.
  revert p. induction doc as [doc Hs|l IH|fs IH] using json_nested_ind; intros p.
  - rewrite (walk_scalar doc Hs). intros Ha _. exists j. split; [exact Ha|]. simpl in Ha.
    destruct Ha; [by rewrite walk_scalar|done..].
  - rewrite walk_arr. intros Ha Ho. inversion Ha as [j0 E|?? ?? ? ? ? E|l0 n v p0 j0 Hn Hv E1 E2]; subst.
    { exists (JArr l). split; [constructor|by rewrite walk_arr]. }
    apply open_cons in Ho as [_ Ho]. apply list_lookup_fmap_Some in Hn as (v0 & -> & Hn).
    destruct (list.Forall_lookup_1 _ _ _ _ IH Hn p0 Hv Ho) as (j0 & H1 & H2).
    exists j0. split; [by econstructor|done].
  - rewrite walk_obj. intros Ha Ho. inversion Ha as [j0 E|fs0 k0 v p0 j0 Hin Hv E1 E2|]; subst.
    { exists (JObj fs). split; [constructor|by rewrite walk_obj]. }
    apply open_cons in Ho as [Hk Ho]. apply list_elem_of_fmap in Hin as ([k1 v1] & [= -> ->] & Hin).
    simpl in Hv, Hk. rewrite (Hk k1) in Hv by done.
    destruct (proj1 (list.Forall_forall _ _) IH _ Hin p0 Hv Ho) as (j0 & H1 & H2).
    exists j0. split; [by econstructor|done].
Qed.

Lemma walk_scalars doc p j : open p -> scalar j -> (At doc p j <-> At (walk doc).1 p j).
Proof.
  intros Ho Hs. split.
  - intros Ha. pose proof (walk_keeps doc p j Ha Ho) as Hk. by rewrite (walk_scalar j Hs) in Hk.
  - intros Ha. destruct (walk_adds_nothing doc p j Ha Ho) as (j0 & Hj & ->).
    destruct j0 as [| | | |l|fs]; try exact Hj; [rewrite walk_arr in Hs|rewrite walk_obj in Hs]; done.
Qed.

Lemma walk_obj_changed fs : (walk (JObj fs)).2 = existsb (fun kv => configured kv.1 || (walk kv.2).2) fs.
Proof.
  simpl. apply existsb_fmap_ext. intros [k v]. simpl. destruct (configured k); [done|]. by destruct (walk v).
Qed.
Lemma walk_arr_changed l : (walk (JArr l)).2 = existsb (fun v => (walk v).2) l.
Proof. simpl. by apply existsb_fmap_ext. Qed.

(** No change is reported exactly when there is none to make; then the document
    comes back as it was. *)
Lemma walk_unchanged doc : (walk doc).2 = false ->
  (walk doc).1 = doc /\ forall p k j, At doc (p ++ [Key k]) j -> configured k = false.
Proof.
  induction doc as [doc Hs|l IH|fs IH] using json_nested_ind.
  - rewrite (walk_scalar doc Hs). intros _. split; [done|]. intros p k j Ha.
    destruct doc; try done; inversion Ha; by destruct p.
  - rewrite walk_arr, walk_arr_changed, existsb_false. intros Hc.
    assert (forall v, v ∈ l -> (walk v).1 = v /\ forall p k j, At v (p ++ [Key k]) j -> configured k = false) as Hl.
    { intros v Hv. apply (proj1 (list.Forall_forall _ _) IH v Hv). by apply Hc. }
    split; [f_equal; apply fmap_same; intros v Hv; by apply Hl|]. intros p k j Ha.
    inversion Ha as [? E|?? ?? ? ? ? E|l0 n v p0 j0 Hn Hv E1 E2]; subst; [by destruct p|].
    destruct p as [|x p]; [done|]. injection E2 as <- ->.
    eapply (proj2 (Hl v ltac:(by eapply list_elem_of_lookup_2))). exact Hv.
  - rewrite walk_obj, walk_obj_changed, existsb_false. intros Hc.
    assert (forall kv, kv ∈ fs -> configured kv.1 = false /\ (walk kv.2).1 = kv.2 /\
              forall p k j, At kv.2 (p ++ [Key k]) j -> configured k = false) as Hl.
    { intros kv Hv. destruct (proj1 (orb_false_iff _ _) (Hc kv Hv)) as [H1 H2]. split; [done|].
      by apply (proj1 (list.Forall_forall _ _) IH kv Hv). }
    split.
    { f_equal. apply fmap_same. intros [k v] Hv. destruct (Hl _ Hv) as (H1 & H2 & _). unfold field. simpl in *. by rewrite H1, H2. }
    intros p k j Ha. inversion Ha as [? E|fs0 k0 v p0 j0 Hin Hv E1 E2|]; subst; [by destruct p|].
    destruct (Hl _ Hin) as (H1 & _ & H3). destruct p as [|x p]; simpl in E2; injection E2 as <- E2; subst; [exact H1|].
    by apply (H3 p k j).
Qed.
End facts.

(** The headers of the answer are those of the response. *)
Lemma with_values (res : FilterResult) k vs h : res_stopHdr res = Some h ->
  let res' := foldl (fun res v => WithHeader res k v) res vs in
  res_stopHdr res' = Some (if decide (vs = []) then h else <[CanonicalHeaderKey k := default [] (h !! CanonicalHeaderKey k) ++ vs]> h) /\
  res_action res' = res_action res /\ res_status res' = res_status res /\ res_body res' = res_body res.
Proof.
  revert res h. induction vs as [|v vs IH]; intros res h Hh; simpl; [done|].
  destruct (IH (WithHeader res k v) (Header_Add h k v)) as (H1 & H2 & H3 & H4); [simpl; by rewrite Hh|].
  split; [|by rewrite H2, H3, H4]. rewrite H1. unfold Header_Add. f_equal.
  rewrite lookup_insert_eq, insert_insert_eq. simpl. destruct (decide (vs = [])) as [->|_]; [done|].
  by rewrite <- app_assoc.
Qed.

Lemma with_headers_over (l : list (string * list string)) res g : NoDup l.*1 -> res_stopHdr res = Some g ->
  (forall kv, kv ∈ l -> CanonicalHeaderKey kv.1 = kv.1 /\ g !! kv.1 = None) ->
  let res' := foldl (fun res kv => foldl (fun res v => WithHeader res kv.1 v) res kv.2) res l in
  res_stopHdr res' = Some (list_to_map (filter (fun kv => kv.2 <> []) l) ∪ g) /\
  res_action res' = res_action res /\ res_status res' = res_status res /\ res_body res' = res_body res.
Proof.
  revert res g. induction l as [|[k vs] l IH]; intros res g Hn Hg Hl; simpl.
  { split; [|done]. rewrite Hg. f_equal. symmetry. apply (left_id_L ∅ (∪)). }
  apply list.NoDup_cons in Hn as [Hk Hn]. destruct (Hl (k, vs) ltac:(left)) as [Hck Hgk]. simpl in Hck, Hgk, Hk.
  destruct (with_values res k vs g Hg) as (H1 & H2 & H3 & H4). rewrite Hck, Hgk in H1. simpl in H1.
  edestruct (IH (foldl (fun res v => WithHeader res k v) res vs) _ Hn H1) as (E1 & E2 & E3 & E4).
  { intros [k' vs'] Hin. split; [by apply Hl; right|]. assert (k <> k') as Hne.
    { intros ->. apply Hk, list_elem_of_fmap. by exists (k', vs'). }
    destruct (decide (vs = [])); [by apply (Hl (k', vs')); right|].
    simpl. rewrite lookup_insert_ne by done. by apply (Hl (k', vs')); right. }
  split; [|by rewrite E2, E3, E4]. rewrite E1. f_equal.
  destruct (decide (vs = [])) as [->|Hv].
  - by rewrite list.filter_cons_False by naive_solver.
  - rewrite list.filter_cons_True by done.
    change (list_to_map ((k, vs) :: filter (fun kv => kv.2 <> []) l))
      with (<[k := vs]> (list_to_map (filter (fun kv => kv.2 <> []) l)) : Header).
    rewrite <- insert_union_l, <- insert_union_r; [done|]. apply not_elem_of_list_to_map. intros Hin. apply Hk.
    apply list_elem_of_fmap in Hin as ([k' vs'] & -> & Hin). apply list_elem_of_filter in Hin as [_ Hin].
    apply list_elem_of_fmap. by exists (k', vs').
Qed.

Lemma with_headers_spec range st out h : range h ≡ₚ map_to_list h -> canonical h ->
  let res := with_headers range (Stop st out) h in
  res_stopHdr res = Some (filter (fun kv => kv.2 <> []) h) /\
  res_action res = ACTION_SHORT_CIRCUIT /\ res_status res = st /\ res_body res = out.
Proof.
  intros Hp Hc. assert (NoDup (range h).*1) as Hn by (rewrite Hp; apply NoDup_fst_map_to_list).
  destruct (with_headers_over (range h) (Stop st out) ∅ Hn eq_refl) as (H1 & H2 & H3 & H4).
  { intros [k v]. rewrite Hp, elem_of_map_to_list. simpl. intros Hk. split; [apply Hc; by exists v|apply lookup_empty]. }
  split; [|done]. unfold with_headers. rewrite H1. f_equal.
  transitivity (list_to_map (filter (fun kv => kv.2 <> []) (range h)) : Header); [apply (right_id_L ∅ (∪))|].
  assert (NoDup (filter (fun kv => kv.2 <> []) (range h)).*1) as Hnf.
  { eapply sublist_NoDup; [exact Hn|]. apply (fmap_sublist fst), sublist_filter. }
  apply map_eq. intros k. apply option_eq. intros v.
  rewrite <- elem_of_list_to_map by done. rewrite list_elem_of_filter, Hp, elem_of_map_to_list, map_lookup_filter_Some. naive_solver.
Qed.

(** What the filter lets through. A response it leaves alone is not JSON, or
    empty, or nothing is configured, or it does not parse, or it has no configured
    field at any depth. One it replaces keeps its status and its headers; every
    configured field in it, at any depth, holds the mask and nothing else; and
    every number, string, boolean and null outside of them is where it was. *)
Lemma redact_spec ToLower Unmarshal Marshal range s req res :
  range (sq_ResponseHeader req) ≡ₚ map_to_list (sq_ResponseHeader req) -> canonical (sq_ResponseHeader req) ->
  redact ToLower Unmarshal Marshal range s req = Ok res ->
  (res = Continue /\
    (isJSON (sq_ResponseHeader req) = false \/ sq_ResponseBody req = "" \/ fields s = ∅ \/
     Unmarshal (sq_ResponseBody req) = None \/
     exists doc, Unmarshal (sq_ResponseBody req) = Some doc /\
       forall p k j, At doc (p ++ [Key k]) j -> configured ToLower s k = false)) \/
  exists doc cleaned, Unmarshal (sq_ResponseBody req) = Some doc /\ Marshal cleaned = Ok (res_body res) /\
    res_action res = ACTION_SHORT_CIRCUIT /\ res_status res = sq_ResponseStatus req /\
    res_stopHdr res = Some (filter (fun kv => kv.2 <> []) (sq_ResponseHeader req)) /\
    (forall p k j, At cleaned (p ++ [Key k]) j -> configured ToLower s k = true -> j = JStr (mask s)) /\
    (forall p j, open ToLower s p -> scalar j -> (At doc p j <-> At cleaned p j)).
Proof.
  intros Hp Hc. unfold redact. destruct (isJSON (sq_ResponseHeader req)) eqn:Ej; [|intros [= <-]; by left; auto].
  destruct (String.eqb_spec (sq_ResponseBody req) "") as [Eb|Eb]; [intros [= <-]; by left; auto|]. simpl.
  destruct (Nat.eqb_spec (size (fields s)) 0) as [Ef|Ef].
  { intros [= <-]. left. split; [done|]. right; right; left. by apply size_empty_inv, leibniz_equiv in Ef. }
  destruct (Unmarshal (sq_ResponseBody req)) as [doc|] eqn:Eu.
  2: { intros [= <-]. left. split; [done|]. do 3 right. by left. }
  destruct (walk ToLower s doc) as [cleaned changed] eqn:Ew. destruct changed; simpl.
  - destruct (Marshal cleaned) as [out|e] eqn:Em; [|done]. intros [= <-]. right. exists doc, cleaned.
    destruct (with_headers_spec range (sq_ResponseStatus req) out _ Hp Hc) as (H1 & H2 & H3 & H4).
    rewrite H1, H2, H3, H4. split_and!; try done.
    + intros p k j. replace cleaned with (walk ToLower s doc).1 by (by rewrite Ew). apply walk_masks.
    + intros p j. replace cleaned with (walk ToLower s doc).1 by (by rewrite Ew). apply walk_scalars.
  - intros [= <-]. left. split; [done|]. do 4 right. exists doc. split; [done|].
    apply (walk_unchanged ToLower s doc). by rewrite Ew.
Qed.

(** A response with two secrets, one in a list, and a number. *)
Definition ex_settings : settings := configure to_lower (<["fields" := " SSN ,"]> ∅).
Definition ex_doc : json :=
  JObj [("ssn", JStr "111"); ("n", jnum 7); ("rows", JArr [JObj [("Ssn", JStr "222")]])].
Definition ex_cleaned : json :=
  JObj [("ssn", JStr "[redacted]"); ("n", jnum 7); ("rows", JArr [JObj [("Ssn", JStr "[redacted]")]])].
Definition ex_header : Header := <["Content-Length" := ["3"]]> {[ "Content-Type" := ["application/json"] ]}.
Definition ex_request : FilterRequest :=
  mkSdkRequest PhasePostHandler "" "GET" "strip-fields" "/api/plugins/notes/items" "" "" ∅ None "" 200 ex_header "doc" ∅.
Definition ex_Unmarshal (body : string) : option json := if String.eqb body "doc" then Some ex_doc else None.
Definition ex_Marshal (j : json) : result string string := Ok "cleaned".
Definition ex_answer : FilterResult := with_headers map_to_list (Stop 200 "cleaned") ex_header.

Lemma ex_redacts : redact to_lower ex_Unmarshal ex_Marshal map_to_list ex_settings ex_request = Ok ex_answer.
Proof. vm_compute. reflexivity. Qed.

(** Every header of the response is carried over, the length of the body it
    replaces among them. *)
Example length_of_the_other_body :
  (fun h => Header_Get h "Content-Length") <$> res_stopHdr ex_answer = Some "3" /\ String.length (res_body ex_answer) = 7%nat.
Proof. split; vm_compute; reflexivity. Qed.
