(* ===== verification/Syncer.v ===== *)
(** * extension-example/syncer: work serialised across replicas by a lock

    The consumer of main.go: a message is decoded, its account locked, and the
    work done while the lease is renewed; an account that is busy goes back to
    the queue or is waited for. What the select of the loop finds ready, round
    after round, is an argument, and so is the clock. *)

From Stdlib Require Import Ascii.
From S2P Require Import Prelude GoStrings Wire Query HostServer Sdk SdkHost SdkRuntime Plugins.

Open Scope Z_scope.

Record job := mkJob { Account : string; Requeues : Z }.
Record settings := mkSettings { lockWait : Z; work : Z }.

#[export] Instance job_eq_dec : EqDecision job.
Proof. solve_decision. Defined.

Definition maxRequeues : Z := 20.
Definition leaseMargin : Z := 30 * second.
Definition maxSync : Z := 20 * second.
Definition busyHoldWait : Z := 10 * second.
Definition visibility : Z := busyHoldWait + maxSync + 5 * second.

Definition initial : settings := mkSettings (5 * second) (2 * second).

(** [strconv.Atoi] and [time.Duration(n) * time.Second]. *)
Definition seconds_setting (text : string) (current : Z) : Z :=
  match atoi text with Some n => int64 (n * second) | None => current end.
Definition configure (cfg : gmap string string) (s : settings) : settings :=
  let get k := default "" (cfg !! k) in
  mkSettings (seconds_setting (get "lock_wait_seconds") (lockWait s)) (seconds_setting (get "work_seconds") (work s)).

(** What the handler fails with. *)
Inductive failure := HostFailure (e : error) | errStuck | errLostLock | WorkError (e : string) | ContextErr.

(** A case of the select that is ready: the work has ended, the ticker has
    ticked, the context is done. *)
Inductive wake := Done (err : option string) | Tick | CtxDone.

(** How [syncAccount] ends: it returns; [NewTicker] panics, on an interval that
    is not positive. *)
Inductive sync_end := Returned (err : option failure) | TickerPanics.

Section plugin.
Context {W F : Type}.
Notation host := (HostServices (W := W) (F := F)).
Context (Marshal : job -> result string string) (Unmarshal : string -> result string job)
  (locks queue logs : option host) (now : Z) (replica : string) (one seconds : F) (show : error -> string).

Definition info (ctx : context) (msg : string) (fields : list any) (w : W) : W := (Info logs ctx now msg fields w).2.
Definition warn (ctx : context) (msg : string) (fields : list any) (w : W) : W := (Warn logs ctx now msg fields w).2.
Definition error_ (ctx : context) (msg : string) (fields : list any) (w : W) : W :=
  (SdkRuntime.Error logs ctx now msg fields w).2.

(** [body]: the job, if the body decodes. *)
Definition enqueue (ctx : context) (body : option job) (w : W) : list rw_op * W :=
  match body with
  | None => (http_Error "account is required" 400, w)
  | Some j =>
      if String.eqb (Account j) "" then (http_Error "account is required" 400, w)
      else
        match QueuePublish Marshal queue ctx "accounts" j [] w with
        | (Err e, w) => (http_Error (show e) 500, w)
        | (Ok _, w) => ([RwWriteHeader 202], w)
        end
  end.

Definition lock_name (account : string) : string := "account:" +:+ account.

Definition acquire (ctx : context) (name : string) (ttl wait : Z) : op (W := W) (option sdk_lease) :=
  Acquire locks ctx name ttl wait.

Definition republish (ctx : context) (j : job) : op (W := W) (Z * bool) :=
  QueuePublish Marshal queue ctx "accounts" j [WithDelay second].

Definition requeued (j : job) : job := mkJob (Account j) (int64 (Requeues j + 1)).

(** What acquiring comes to once the account is busy: put back, or a lease, or
    an error. [context.WithoutCancel] carries the same values. *)
Inductive busy := PutBack | Leased (l : sdk_lease) | Refused (e : failure).

Definition hold (ctx : context) (j : job) (ttl : Z) (w : W) : busy * W :=
  let w := info ctx "account busy and nowhere to requeue; waiting for the lock"
             [AString "account"; AString (Account j); AString "requeues"; AOther (itoa (Requeues j))] w in
  match acquire ctx (lock_name (Account j)) ttl busyHoldWait w with
  | (Err e, w) => (Refused (HostFailure e), w)
  | (Ok None, w) => (Refused errStuck, w)
  | (Ok (Some l), w) => (Leased l, w)
  end.

Definition handleBusy (ctx : context) (j : job) (ttl : Z) (w : W) : busy * W :=
  if Requeues j <? maxRequeues then
    let j := requeued j in
    match republish ctx j w with
    | (Ok _, w) =>
        (PutBack, info ctx "account busy, requeued"
                    [AString "account"; AString (Account j); AString "requeues"; AOther (itoa (Requeues j))] w)
    | (Err _, w) => hold ctx j ttl w
    end
  else hold ctx j ttl w.

(** The loop of [syncAccount]; [None] while nothing more is ready. *)
Fixpoint watch (ctx : context) (account : string) (ttl : Z) (wakes : list wake) (l : sdk_lease) (w : W)
    : option (option failure) * (sdk_lease * W) :=
  match wakes with
  | [] => (None, (l, w))
  | Done err :: _ =>
      let w := Metric logs ctx "syncer_account_synced" one {[ "account" := account ]} w in
      let w := Histogram logs ctx "syncer_sync_seconds" seconds ∅ w in
      (Some (WorkError <$> err), (l, w))
  | Tick :: wakes =>
      let '((held, l), w) := Renew locks ctx l ttl w in
      match held with
      | Ok true => watch ctx account ttl wakes l w
      | _ =>
          let shown := match held with Err e => show e | Ok _ => "<nil>" end in
          (Some (Some errLostLock), (l, error_ ctx "lost the lock mid-sync"
             [AString "account"; AString account; AString "err"; AString shown] w))
      end
  | CtxDone :: _ => (Some (Some ContextErr), (l, w))
  end.

(** The deferred release. *)
Definition release (ctx : context) (account : string) (l : sdk_lease) (w : W) : W :=
  match Release locks ctx l w with
  | (Err e, w) => warn ctx "releasing lock" [AString "account"; AString account; AString "err"; AString (show e)] w
  | (Ok _, w) => w
  end.

(** From the lease on. *)
Definition sync_held (s : settings) (ctx : context) (j : job) (wakes : list wake) (l : sdk_lease) (w : W)
    : option sync_end * W :=
  let account := Account j in
  let ttl := int64 (work s + leaseMargin) in
  let w := info ctx "syncing" [AString "account"; AString account; AString "replica"; AString replica] w in
  if ttl `quot` 3 <=? 0 then (Some TickerPanics, release ctx account l w)
  else
    match watch ctx account ttl wakes l w with
    | (None, (_, w)) => (None, w)
    | (Some e, (l, w)) => (Some (Returned e), release ctx account l w)
    end.

Definition syncAccount (s : settings) (ctx : context) (j : job) (wakes : list wake) (w : W) : option sync_end * W :=
  let ttl := int64 (work s + leaseMargin) in
  match acquire ctx (lock_name (Account j)) ttl (lockWait s) w with
  | (Err e, w) => (Some (Returned (Some (HostFailure e))), w)
  | (Ok (Some l), w) => sync_held s ctx j wakes l w
  | (Ok None, w) =>
      match handleBusy ctx j ttl w with
      | (PutBack, w) => (Some (Returned None), w)
      | (Refused e, w) => (Some (Returned (Some e)), w)
      | (Leased l, w) => sync_held s ctx j wakes l w
      end
  end.

Definition doWork (cancelled : bool) : option string := if cancelled then Some "context canceled" else None.

(** The handler of the consumer. *)
Definition handle (s : settings) (wakes : list wake) (ctx : context) (m : QueueMessage) (w : W) : option sync_end * W :=
  match Unmarshal (qm_Payload m) with
  | Err e =>
      (Some (Returned None),
       error_ ctx "undecodable job" [AString "id"; AOther (itoa (qm_ID m)); AString "err"; AString e] w)
  | Ok j =>
      syncAccount s ctx j wakes
        (info ctx "received" [AString "id"; AOther (itoa (qm_ID m)); AString "account"; AString (Account j);
                              AString "replica"; AString replica] w)
  end.

(** [OnReady]. [h] is the handler as the consumer calls it; [cancelled] is
    [errors.Is(err, context.Canceled)]. *)
Definition consume (ctx : context) (h : context -> QueueMessage -> W -> option string * W) (cancelled : error -> bool)
    (rs : list (reception pb_message)) (w : W) : option () * W :=
  let w := info ctx "consumer starting" [AString "replica"; AString replica] w in
  match Consume queue ctx "accounts" h [WithVisibilityTimeout visibility] rs w with
  | (None, w) => (None, w)
  | (Some (Ok _), w) => (Some (), w)
  | (Some (Err e), w) =>
      (Some (), if cancelled e then w else error_ ctx "consumer stopped" [AString "err"; AString (show e)] w)
  end.
End plugin.

(** ** What an acknowledgement means *)

Section facts.
Context {W F : Type}.
Notation host := (HostServices (W := W) (F := F)).
Context (Marshal : job -> result string string) (Unmarshal : string -> result string job)
  (locks queue logs : option host) (now : Z) (replica : string) (one seconds : F) (show : error -> string).

(** [n] renewals in a row that Core has granted. *)
Inductive renewed (ctx : context) (ttl : Z) : nat -> sdk_lease -> W -> Prop :=
| renewed_none l w : renewed ctx ttl 0 l w
| renewed_more n l w l' w' : Renew locks ctx l ttl w = ((Ok true, l'), w') -> renewed ctx ttl n l' w' ->
    renewed ctx ttl (S n) l w.

(** The loop reports success when the work has ended well and the lease was
    renewed every time until then, and in no other case. *)
Lemma watch_success ctx account ttl wakes l w l' w' :
  watch locks logs now one seconds show ctx account ttl wakes l w = (Some None, (l', w')) ->
  exists n rest, wakes = repeat Tick n ++ Done None :: rest /\ renewed ctx ttl n l w /\ sl_id l' = sl_id l /\ sl_name l' = sl_name l.
Proof.
  revert l w. induction wakes as [|[[e|]| |] wakes IH]; intros l w; simpl; try done.
  - intros [= <- <-]. exists 0%nat, wakes. split_and!; [done|constructor|done|done].
  - destruct (Renew locks ctx l ttl w) as [[[[|]|e] l1] w1] eqn:Er; try done. intros Hw.
    destruct (IH l1 w1 Hw) as (n & rest & -> & Hr & H1 & H2). exists (S n), rest.
    assert (sl_id l1 = sl_id l /\ sl_name l1 = sl_name l) as [E1 E2].
    { revert Er. unfold Renew. destruct locks as [c|]; [|done].
      destruct (hs_RenewLock c _ _ _ _ w) as [[[[id at_]|]|e] w2]; try done; by intros [= <- <-]. }
    split; [done|]. split; [by eapply renewed_more|]. by rewrite H1, H2.
Qed.

(** A lease that is a while in use is given back as it was taken. *)
Lemma sync_held_releases s ctx j wakes l w e w' :
  sync_held locks logs now replica one seconds show s ctx j wakes l w = (Some e, w') ->
  exists l1 w1, w' = release locks logs now show ctx (Account j) l1 w1 /\ (e = Returned None -> sl_id l1 = sl_id l /\ sl_name l1 = sl_name l).
Proof.
  unfold sync_held. destruct (_ <=? 0); [intros [= <- <-]; by eexists _, _|].
  destruct (watch _ _ _ _ _ _ _ _ _ _ _ _) as [[e1|] [l1 w1]] eqn:Ew; [|done]. intros [= <- <-].
  exists l1, w1. split; [done|]. intros [= ->]. by apply watch_success in Ew as (n & rest & _ & _ & H).
Qed.

Lemma sync_held_success s ctx j wakes l w w' :
  sync_held locks logs now replica one seconds show s ctx j wakes l w = (Some (Returned None), w') ->
  exists n rest w1, wakes = repeat Tick n ++ Done None :: rest /\ renewed ctx (int64 (work s + leaseMargin)) n l w1.
Proof.
  unfold sync_held. destruct (_ <=? 0); [done|].
  destruct (watch _ _ _ _ _ _ _ _ _ _ _ _) as [[e1|] [l1 w1]] eqn:Ew; [|done]. intros [= -> _].
  apply watch_success in Ew as (n & rest & -> & Hr & _). by exists n, rest, (info logs now ctx "syncing"
    [AString "account"; AString (Account j); AString "replica"; AString replica] w).
Qed.

Lemma republish_sent ctx j w r w' : republish Marshal queue ctx j w = (Ok r, w') ->
  exists c data, queue = Some c /\ Marshal j = Ok data /\
    hs_Enqueue c (outgoing ctx) (mkEnqueueRequest "accounts" data 1 "" 0 0) w = (Ok r, w').
Proof.
  unfold republish, QueuePublish, bound. destruct queue as [c|]; [|done]. unfold encoded, ask.
  destruct (Marshal j) as [data|e] eqn:Em; [|done]. simpl. change (wholeSeconds second) with 1.
  destruct (hs_Enqueue c _ _ w) as [[r0|e] w0] eqn:Ee; [|done]. intros [= <- <-]. by exists c, data.
Qed.

(** A delivery is acknowledged for one of three reasons only: it did not
    decode; its job was put back on the queue as a new message, for the same
    account, with its count of requeues raised by one and not past the limit; or
    its account was locked, the work was done and succeeded, and every renewal
    of the lease until then was granted. In all other cases the handler returns
    an error, on which the queue delivers the message again. *)
Lemma acked_means s wakes ctx m w w' :
  handle Marshal Unmarshal locks queue logs now replica one seconds show s wakes ctx m w = (Some (Returned None), w') ->
  (exists e, Unmarshal (qm_Payload m) = Err e) \/
  exists j, Unmarshal (qm_Payload m) = Ok j /\
    ((Requeues j < maxRequeues /\ exists c data w1 r w2, queue = Some c /\
        Marshal (mkJob (Account j) (int64 (Requeues j + 1))) = Ok data /\
        hs_Enqueue c (outgoing ctx) (mkEnqueueRequest "accounts" data 1 "" 0 0) w1 = (Ok r, w2)) \/
     exists l wait w1 w2 w3 n rest,
        Acquire locks ctx (lock_name (Account j)) (int64 (work s + leaseMargin)) wait w1 = (Ok (Some l), w2) /\
        renewed ctx (int64 (work s + leaseMargin)) n l w3 /\ wakes = repeat Tick n ++ Done None :: rest).
Proof.
  unfold handle. destruct (Unmarshal (qm_Payload m)) as [j|e]; [|intros _; left; by exists e]. intros H. right.
  exists j. split; [done|]. revert H. unfold syncAccount, acquire.
  set (w0 := info _ _ _ _ _ w). clearbody w0. set (ttl := int64 (work s + leaseMargin)).
  destruct (Acquire locks ctx (lock_name (Account j)) ttl (lockWait s) w0) as [[[l|]|e] w1] eqn:Ea; [| |done].
  { intros (n & rest & w2 & -> & Hr)%sync_held_success. right. by exists l, (lockWait s), w0, w1, w2, n, rest. }
  assert (forall j' w2 r, Account j' = Account j -> hold locks logs now ctx j' ttl w2 = r -> match r with
            | (Leased l, w3) => sync_held locks logs now replica one seconds show s ctx j wakes l w3
            | (PutBack, w3) => (Some (Returned None), w3) | (Refused e, w3) => (Some (Returned (Some e)), w3) end =
            (Some (Returned None), w') ->
          exists l wait w1 w2 w3 n rest, Acquire locks ctx (lock_name (Account j)) ttl wait w1 = (Ok (Some l), w2) /\
            renewed ctx ttl n l w3 /\ wakes = repeat Tick n ++ Done None :: rest) as Hhold.
  { intros j' w2 r Hj <-. unfold hold, acquire. rewrite Hj. set (w3 := info _ _ _ _ _ w2). clearbody w3.
    destruct (Acquire locks ctx (lock_name (Account j)) ttl busyHoldWait w3) as [[[l|]|e] w4] eqn:Eb; try done.
    intros (n & rest & w5 & -> & Hr)%sync_held_success. by exists l, busyHoldWait, w3, w4, w5, n, rest. }
  unfold handleBusy. destruct (Z.ltb_spec (Requeues j) maxRequeues) as [Hlt|Hge].
  - destruct (republish Marshal queue ctx (requeued j) w1) as [[r|e] w2] eqn:Er.
    + intros _. left. split; [done|]. apply republish_sent in Er as (c & data & Hq & Hm & He).
      by exists c, data, w1, r, w2.
    + intros H. right. exact (Hhold (requeued j) _ _ eq_refl eq_refl H).
  - intros H. right. exact (Hhold j _ _ eq_refl eq_refl H).
Qed.
End facts.

(** ** A run *)

(** A host with one account that another replica holds, then lets go; renewals
    are granted. The state counts the calls of the lock. *)
Definition ex_host : HostServices (W := nat) (F := ()) :=
  let no {A} : remote (W := nat) A := fun w => (Err (RpcOther "no"), w) in
  mkHostServices (fun _ _ => no) (fun _ _ => no) (fun _ _ => no) (fun _ _ _ _ _ _ => no) (fun _ _ _ _ _ _ => no)
    (fun _ _ => no) (fun _ _ => no) (fun _ _ => no) (fun _ _ => no) (fun _ _ => no) (fun _ _ => no) (fun _ _ _ => no)
    (fun _ _ => no) (fun _ _ _ _ => no) (fun _ _ => no)
    (fun _ _ _ _ n => (Ok (if (n <? 1)%nat then None else Some ("lease", 40)), S n))
    (fun _ _ _ _ n => (Ok (if (n <? 4)%nat then Some ("lease", 50) else None), S n))
    (fun _ _ _ n => (Ok (), S n))
    (fun _ _ _ => no) (fun _ _ _ _ => no) (fun _ _ => no) (fun _ _ _ => no) (fun _ _ => no) (fun _ _ => no)
    (fun _ _ n => (Ok (), n)) (fun _ _ _ _ _ n => (Ok (), n)).

Definition ex_Unmarshal (data : string) : result string job := Ok (mkJob data 20).
Definition ex_Marshal (j : job) : result string string := Ok (Account j).
Definition ex_handle (wakes : list wake) : option sync_end * nat :=
  handle ex_Marshal ex_Unmarshal (Some ex_host) (Some ex_host) (Some ex_host) 0 "r1" () () (fun _ => "error")
    initial wakes (mkContext None "" ∅) (mkQueueMessage 1 "accounts" "acct" 1 5 "") 0%nat.

Lemma acked_means_witness : ex_handle [Tick; Tick; Done None] = (Some (Returned None), 5%nat) /\
  exists j n rest, ex_Unmarshal "acct" = Ok j /\ [Tick; Tick; Done None] = repeat Tick n ++ Done None :: rest.
Proof.
  assert (ex_handle [Tick; Tick; Done None] = (Some (Returned None), 5%nat)) as Hh by (vm_compute; reflexivity).
  split; [exact Hh|].
  destruct (acked_means _ _ _ _ _ _ _ _ _ _ _ _ _ _ _ _ Hh)
    as [[e He]|(j & Hj & [[Hlt _]|(l & wait & w1 & w2 & w3 & n & rest & _ & _ & Hw)])].
  - discriminate He.
  - injection Hj as <-. vm_compute in Hlt. discriminate Hlt.
  - exists j, n, rest. split; [exact Hj|exact Hw].
Defined.

(** When a renewal is refused the handler returns at once, and the work's end
    finds nobody waiting: it was started on the context of the delivery, which
    the return does not cancel. *)
Example lost_lock_leaves_the_work : (ex_handle [Tick; Tick; Tick; Tick; Done None]).1 = Some (Returned (Some errLostLock)).
Proof. vm_compute. reflexivity. Qed.

(** A setting of minus thirty seconds of work takes the process down with the
    first message. *)
Example negative_work_panics :
  (handle ex_Marshal ex_Unmarshal (Some ex_host) (Some ex_host) (Some ex_host) 0 "r1" () () (fun _ => "error")
     (configure (<["work_seconds" := "-30"]> ∅) initial) [] (mkContext None "" ∅)
     (mkQueueMessage 1 "accounts" "acct" 1 5 "") 1%nat).1 = Some TickerPanics.
Proof. vm_compute. reflexivity. Qed.

(** The visibility timeout has no time for the first wait: with the settings it
    starts with, the three waits of a delivery take all of it, and with a longer
    [lock_wait_seconds] more. *)
Example visibility_spent : lockWait initial + busyHoldWait + maxSync = visibility.
Proof. reflexivity. Qed.
