(* ===== verification/Digest.v ===== *)
(** * extension-example/digest: an outside resource archived when it changes

    The job of main.go over the three interfaces it declares, fetcher, filestore
    and index, as one record of operations; the handlers over the SDK. SHA-256
    and the printing of numbers and errors are parameters. A body is the bytes
    its reader gives before it ends, in EOF or in an error. *)

From Stdlib Require Import Ascii.
From S2P Require Import Prelude GoStrings Wire Query HostServer Sdk SdkHost SdkRuntime Plugins.

Open Scope Z_scope.

Definition collection := "snapshots".
Definition latestID := "_latest".
Definition maxBody : Z := 2 ^ 23.
Definition downloadValid : Z := 300 * second.

Record snapshot := mkSnapshot {
  sn_ID : string; sn_Source : string; sn_SHA256 : string; sn_Bytes : Z; sn_FileID : string; sn_TakenAt : Z
}.

#[export] Instance snapshot_eq_dec : EqDecision snapshot.
Proof. solve_decision. Defined.

(** A document of the index: a snapshot, or the marker with its digest. *)
Inductive value := VSnapshot (s : snapshot) | VMarker (sha : string).

Record response := mkResponse { rs_StatusCode : Z; rs_Header : Header; rs_Body : reader }.

(** The seams, [index_Get] as the job uses it: the digest of the marker, if it is
    found; and the logger and the counter of the SDK. *)
Record seams (W : Type) := mkSeams {
  http_Get : string -> W -> result string response * W;
  files_Put : string -> string -> string -> W -> result string (string * Z) * W;
  index_Put : string -> string -> value -> W -> result string Z * W;
  index_Get : string -> string -> W -> result string (option string) * W;
  log_line : log_level -> string -> list any -> W -> W;
  count : string -> W -> W
}.
Arguments http_Get {W}. Arguments files_Put {W}. Arguments index_Put {W}. Arguments index_Get {W}.
Arguments log_line {W}. Arguments count {W}.

(** How the job ends: nothing to do, unchanged, archived, or failed. *)
Inductive outcome := NotConfigured | Unchanged | Archived (s : snapshot) | Failed (e : string).

Section job.
Context {W : Type} (a : seams W) (sha256 : string -> list Z).

(** [io.ReadAll(io.LimitReader(r, n))]: the error of the reader is met only
    within the limit. *)
Definition read_limited (n : Z) (r : reader) : result string string :=
  let data := foldr String.append "" (rd_chunks r) in
  if n <=? Z.of_nat (String.length data) then Ok (String.substring 0 (Z.to_nat n) data)
  else match rd_end r with None => Ok data | Some e => Err e end.

Definition digest_of (body : string) : string := hex_encode (sha256 body).

Definition contentType (h : Header) : string :=
  let ct := Header_Get h "Content-Type" in
  if String.eqb ct "" then "application/octet-stream" else ct.

(** Content that has changed: stored, indexed, and then the marker moved to it.
    [id]: what NewID draws. *)
Definition store_changed (source : string) (scheduled : Z) (id mime body : string) (w : W) : outcome * W :=
  let digest := digest_of body in
  match files_Put a ("digest-" +:+ itoa scheduled +:+ ".bin") mime body w with
  | (Err e, w) => (Failed ("storing the snapshot: " +:+ e), w)
  | (Ok (fileID, size), w) =>
      let rec_ := mkSnapshot id source digest size fileID scheduled in
      match index_Put a collection id (VSnapshot rec_) w with
      | (Err e, w) => (Failed ("indexing the snapshot: " +:+ e), w)
      | (Ok _, w) =>
          match index_Put a collection latestID (VMarker digest) w with
          | (Err e, w) => (Failed ("recording the digest: " +:+ e), w)
          | (Ok _, w) =>
              let w := log_line a LOG_INFO "archived a changed source"
                [AString "sha256"; AString digest; AString "bytes"; AOther (itoa size); AString "file"; AString fileID] w in
              (Archived rec_, count a "digest_snapshots_stored" w)
          end
      end
  end.

Definition archive (source : string) (scheduled : Z) (id : string) (w : W) : outcome * W :=
  if String.eqb source "" then (NotConfigured, log_line a LOG_WARN "no source_url configured, nothing to archive" [] w)
  else
    match http_Get a source w with
    | (Err e, w) => (Failed ("fetching " +:+ source +:+ ": " +:+ e), w)
    | (Ok resp, w) =>
        if negb (rs_StatusCode resp =? 200) then (Failed (source +:+ " answered " +:+ itoa (rs_StatusCode resp)), w)
        else
          match read_limited (maxBody + 1) (rs_Body resp) with
          | Err e => (Failed ("reading " +:+ source +:+ ": " +:+ e), w)
          | Ok body =>
              if maxBody <? Z.of_nat (String.length body)
              then (Failed (source +:+ " returned more than " +:+ itoa maxBody +:+ " bytes"), w)
              else
                match index_Get a collection latestID w with
                | (Err e, w) => (Failed ("reading the last digest: " +:+ e), w)
                | (Ok prev, w) =>
                    if bool_decide (prev = Some (digest_of body))
                    then (Unchanged, log_line a LOG_INFO "source unchanged, nothing archived"
                            [AString "sha256"; AString (digest_of body); AString "bytes";
                             AOther (itoa (Z.of_nat (String.length body)))] w)
                    else store_changed source scheduled id (contentType (rs_Header resp)) body w
                end
          end
    end.
End job.

Definition configure (cfg : gmap string string) : string := default "" (cfg !! "source_url").

(** ** The handlers *)

Section handlers.
Context {W F : Type}.
Notation host := (HostServices (W := W) (F := F)).
Context (UnmarshalSnapshots : string -> result string (list snapshot)) (UnmarshalSnapshot : string -> result string snapshot)
  (encode : json -> string) (logs : option host) (now : Z) (show : error -> string).

Definition snapshot_json (s : snapshot) : json :=
  JObj [("id", JStr (sn_ID s)); ("source", JStr (sn_Source s)); ("sha256", JStr (sn_SHA256 s)); ("bytes", jnum (sn_Bytes s));
        ("file_id", JStr (sn_FileID s)); ("taken_at", jnum (sn_TakenAt s))].

(** The status is not written: the first write makes it 200. *)
Definition encoded_json (v : json) : list rw_op := [RwHeader (Header_Set "Content-Type" "application/json"); RwWrite (encode v)].

Definition list_ (db : option host) (ctx : context) (w : W) : list rw_op * W :=
  match All UnmarshalSnapshots ctx true (q_Limit 50 (q_SortDesc "taken_at" (q_IsNotNull "file_id" (Where db collection)))) w with
  | (Err e, w) =>
      (http_Error "listing snapshots" 500,
       (SdkRuntime.Error logs ctx now "listing snapshots" [AString "err"; AString (show e)] w).2)
  | (Ok (_, out), w) => (encoded_json (JObj [("snapshots", JArr (snapshot_json <$> out))]), w)
  end.

(** [until]: the whole seconds until the link expires. *)
Definition download (db files : option host) (ctx : context) (id : string) (until : Z -> Z) (w : W) : list rw_op * W :=
  let '(rd, w) := SdkHost.Get UnmarshalSnapshot db ctx collection id true w in
  match rd_err rd, rd_found rd, rd_dest rd with
  | Some _, _, _ => (http_Error "reading the snapshot" 500, w)
  | None, true, Some rec_ =>
      match User ctx with
      | None => (http_Error "sign in to download" 401, w)
      | Some user =>
          match DownloadURL files ctx (sn_FileID rec_) (UserID user) downloadValid w with
          | (Err e, w) =>
              (http_Error "minting a download link" 500,
               (SdkRuntime.Error logs ctx now "minting a download link"
                  [AString "err"; AString (show e); AString "file"; AString (sn_FileID rec_)] w).2)
          | (Ok (url, expires), w) =>
              (encoded_json (JObj [("expires_at", jnum (expires / second)); ("expires_in", JStr (itoa (until expires) +:+ "s"));
                                   ("url", JStr url)]), w)
          end
      end
  | None, _, _ => (http_Error "no such snapshot" 404, w)
  end.
End handlers.

(** ** What is archived *)

Section archived.
Context {W : Type} (a : seams W) (sha256 : string -> list Z).

(** What the host promises, in terms of the documents of the collection and the
    stored files: reads change neither, and a write that reports an error may or
    may not have taken place. A process that dies after a call is one whose last
    call reported an error. *)
Record host_laws (docs : W -> gmap string value) (content : W -> gmap string string) : Prop := mkLaws {
  law_fetch : forall url w, let w' := (http_Get a url w).2 in docs w' = docs w /\ content w' = content w;
  law_read : forall w, let r := index_Get a collection latestID w in
    docs r.2 = docs w /\ content r.2 = content w /\
    (forall p, r.1 = Ok p -> p = match docs w !! latestID with Some (VMarker d) => Some d | _ => None end);
  law_store : forall name mime body w, let r := files_Put a name mime body w in
    docs r.2 = docs w /\ content w ⊆ content r.2 /\ (forall id n, r.1 = Ok (id, n) -> content r.2 !! id = Some body);
  law_put : forall id v w, let r := index_Put a collection id v w in
    content r.2 = content w /\
    (docs r.2 = <[id := v]> (docs w) \/ docs r.2 = docs w /\ exists e, r.1 = Err e);
  law_log : forall level msg fields w, let w' := log_line a level msg fields w in docs w' = docs w /\ content w' = content w;
  law_count : forall name w, let w' := count a name w in docs w' = docs w /\ content w' = content w
}.

Context (docs : W -> gmap string value) (content : W -> gmap string string) (Laws : host_laws docs content).

(** A digest whose content is there: indexed, and stored. *)
Definition kept (w : W) (d : string) : Prop :=
  exists id s body, id <> latestID /\ docs w !! id = Some (VSnapshot s) /\ sn_SHA256 s = d /\
    content w !! sn_FileID s = Some body /\ digest_of sha256 body = d.

Definition indexed (w : W) : Prop := forall d, docs w !! latestID = Some (VMarker d) -> kept w d.

Lemma kept_mono w w' d : kept w d -> content w ⊆ content w' ->
  (forall id s, id <> latestID -> docs w !! id = Some (VSnapshot s) -> docs w' !! id = Some (VSnapshot s)) -> kept w' d.
Proof.
  intros (id & s & body & H1 & H2 & H3 & H4 & H5) Hc Hd. exists id, s, body. split_and!; try done; [by apply Hd|].
  by eapply lookup_weaken.
Qed.

Lemma indexed_same w w' : docs w' = docs w /\ content w' = content w -> indexed w -> indexed w'.
Proof. intros [Hd Hc]. unfold indexed, kept. by rewrite Hd, Hc. Qed.

(** The last two writes: the snapshot, then the marker. *)
Lemma put_snapshot w id v : docs w !! id = None -> id <> latestID -> indexed w ->
  indexed (index_Put a collection id (VSnapshot v) w).2.
Proof.
  intros Hn Hid Hi d Hd. destruct (law_put _ _ Laws id (VSnapshot v) w) as [Hc Hw].
  destruct Hw as [Hw|[Hw _]]; rewrite Hw in Hd.
  - rewrite lookup_insert_ne in Hd by done. eapply kept_mono; [by apply Hi|by rewrite Hc|].
    intros id' s Hne Hs. rewrite Hw, lookup_insert_ne; [done|]. intros ->. congruence.
  - eapply kept_mono; [by apply Hi|by rewrite Hc|]. intros id' s _ Hs. by rewrite Hw.
Qed.

Lemma put_marker w d : kept w d -> indexed w -> indexed (index_Put a collection latestID (VMarker d) w).2.
Proof.
  intros Hk Hi d' Hd. destruct (law_put _ _ Laws latestID (VMarker d) w) as [Hc Hw].
  assert (kept w d') as Hk'.
  { destruct Hw as [Hw|[Hw _]]; rewrite Hw in Hd; [|by apply Hi]. rewrite lookup_insert_eq in Hd. by injection Hd as <-. }
  eapply kept_mono; [exact Hk'|by rewrite Hc|]. intros id s Hne Hs.
  destruct Hw as [Hw|[Hw _]]; rewrite Hw; [by rewrite lookup_insert_ne|done].
Qed.

(** What the outcome of a run says of the documents and files it leaves. *)
Definition told (id : string) (o : outcome) (w w' : W) : Prop :=
  match o with
  | NotConfigured | Unchanged => docs w' = docs w /\ content w' = content w
  | Archived s => sn_ID s = id /\ docs w' = <[latestID := VMarker (sn_SHA256 s)]> (<[id := VSnapshot s]> (docs w)) /\
      exists body, content w' !! sn_FileID s = Some body /\ sn_SHA256 s = digest_of sha256 body
  | Failed _ => True
  end.

Lemma store_changed_keeps source scheduled id mime body w o w' :
  indexed w -> docs w !! id = None -> id <> latestID ->
  store_changed a sha256 source scheduled id mime body w = (o, w') ->
  indexed w' /\ content w ⊆ content w' /\ told id o w w' /\ (forall s, o = Archived s -> sn_SHA256 s = digest_of sha256 body).
Proof.
  intros Hi Hn Hid. unfold store_changed. cbv zeta. set (digest := digest_of sha256 body).
  destruct (law_store _ _ Laws ("digest-" +:+ itoa scheduled +:+ ".bin") mime body w) as (Hd3 & Hc3 & Hs).
  destruct (files_Put a _ _ body w) as [[[fileID size]|e] w3]; simpl in Hd3, Hc3, Hs;
    (assert (indexed w3) as Hi3; [intros d Hd; rewrite Hd3 in Hd; eapply kept_mono; [by apply Hi|done|];
       intros id' s' _ Hs'; by rewrite Hd3|]).
  2: { intros [= <- <-]. by split_and!. }
  set (v := mkSnapshot id source digest size fileID scheduled).
  assert (indexed (index_Put a collection id (VSnapshot v) w3).2) as Hi4 by (apply put_snapshot; by rewrite ?Hd3).
  destruct (law_put _ _ Laws id (VSnapshot v) w3) as [Hc4 Hd4].
  destruct (index_Put a collection id (VSnapshot v) w3) as [[ver|e] w4]; simpl in Hi4, Hc4, Hd4.
  2: { intros [= <- <-]. rewrite Hc4. by split_and!. }
  destruct Hd4 as [Hd4|[_ [e He]]]; [|done].
  assert (content w4 !! fileID = Some body) as Hf by (rewrite Hc4; by apply (Hs fileID size)).
  assert (kept w4 digest) as Hk by (exists id, v, body; rewrite Hd4, lookup_insert_eq; by split_and!).
  pose proof (put_marker w4 digest Hk Hi4) as Hi5. destruct (law_put _ _ Laws latestID (VMarker digest) w4) as [Hc5 Hd5].
  destruct (index_Put a collection latestID (VMarker digest) w4) as [[ver'|e] w5]; simpl in Hi5, Hc5, Hd5.
  2: { intros [= <- <-]. rewrite Hc5, Hc4. by split_and!. }
  destruct Hd5 as [Hd5|[_ [e He]]]; [|done]. intros [= <- <-].
  match goal with |- context [count a ?n (log_line a ?l ?m ?f w5)] =>
    destruct (law_log _ _ Laws l m f w5) as [Hd6 Hc6]; destruct (law_count _ _ Laws n (log_line a l m f w5)) as [Hd7 Hc7] end.
  cbv zeta in Hd6, Hc6, Hd7, Hc7. rewrite Hd6 in Hd7. rewrite Hc6 in Hc7.
  split; [by apply (indexed_same w5)|]. unfold told. rewrite Hd7, Hc7, Hd5, Hd4, Hd3, Hc5.
  split; [by rewrite Hc4|]. split; [|by intros s [= <-]]. split_and!; try done. by exists body.
Qed.

(** Whatever fails and wherever the job breaks off, the marker never names
    content that is not there: a snapshot with that digest is indexed, and the
    file it names holds bytes with that digest. Nothing is written when the
    source is as the marker has it; and a run that reports a snapshot has stored
    and indexed it, and left the marker at it, which was elsewhere before. *)
Lemma archive_keeps source scheduled id w o w' :
  indexed w -> docs w !! id = None -> id <> latestID ->
  archive a sha256 source scheduled id w = (o, w') ->
  indexed w' /\ content w ⊆ content w' /\ told id o w w' /\
  (forall s, o = Archived s -> docs w !! latestID <> Some (VMarker (sn_SHA256 s))).
Proof.
  intros Hi Hn Hid. unfold archive. destruct (String.eqb source "").
  { intros [= <- <-]. match goal with |- context [log_line a ?l ?m ?f w] => pose proof (law_log _ _ Laws l m f w) as Hw end.
    split; [by apply (indexed_same w)|]. destruct Hw as [Hd Hc]. unfold told. by rewrite Hd, Hc. }
  destruct (law_fetch _ _ Laws source w) as [Hd1 Hc1]. destruct (http_Get a source w) as [[resp|e] w1]; simpl in Hd1, Hc1;
    (assert (indexed w1) as Hi1 by (by apply (indexed_same w))).
  2: { intros [= <- <-]. by rewrite Hc1. }
  destruct (negb _); [intros [= <- <-]; by rewrite Hc1|].
  destruct (read_limited _ _) as [body|e]; [|intros [= <- <-]; by rewrite Hc1].
  destruct (_ <? _); [intros [= <- <-]; by rewrite Hc1|].
  destruct (law_read _ _ Laws w1) as (Hd2 & Hc2 & Hr). destruct (index_Get a collection latestID w1) as [[prev|e] w2];
    simpl in Hd2, Hc2, Hr; (assert (indexed w2) as Hi2 by (by apply (indexed_same w1))); rewrite Hd1 in Hd2; rewrite Hc1 in Hc2.
  2: { intros [= <- <-]. by rewrite Hc2. }
  rewrite (Hr prev eq_refl), Hd1. case_bool_decide as Hp.
  { intros [= <- <-]. match goal with |- context [log_line a ?l ?m ?f w2] => pose proof (law_log _ _ Laws l m f w2) as Hw end.
    split; [by apply (indexed_same w2)|]. destruct Hw as [Hd Hc]. unfold told. by rewrite Hd, Hc, Hd2, Hc2. }
  intros H. apply store_changed_keeps in H as (H1 & H2 & H3 & H4); [|done|by rewrite Hd2|done].
  rewrite Hc2 in H2. split_and!; try done.
  - unfold told in *. by rewrite Hd2, Hc2 in H3.
  - intros s Hs Hl. apply Hp. by rewrite Hl, (H4 s Hs).
Qed.
End archived.

(** ** A run *)

(** A store in memory; the source answers what the third part of the state
    says. A file is named by its bytes, and is not stored twice. *)
Definition ex_state : Type := gmap string value * gmap string string * string.
Definition ex_seams : seams ex_state := {|
  http_Get := fun _ w => (Ok (mkResponse 200 ∅ (mkReader [w.2] None)), w);
  files_Put := fun _ _ body w =>
    match w.1.2 !! body with
    | None => (Ok (body, Z.of_nat (String.length body)), (w.1.1, <[body := body]> w.1.2, w.2))
    | Some _ => (Err "exists", w)
    end;
  index_Put := fun _ id v w => (Ok 1, (<[id := v]> w.1.1, w.1.2, w.2));
  index_Get := fun _ id w => (Ok (match w.1.1 !! latestID with Some (VMarker d) => Some d | _ => None end), w);
  log_line := fun _ _ _ w => w;
  count := fun _ w => w
|}.
Definition ex_sha (body : string) : list Z := [Z.of_nat (String.length body)].

Lemma ex_seams_laws : host_laws ex_seams (fun w => w.1.1) (fun w => w.1.2).
Proof.
  split.
  - done.
  - intros w r. split_and!; try done. by intros p [= <-].
  - intros name mime body w. simpl. destruct (w.1.2 !! body) eqn:E; simpl; [done|].
    split_and!; [done|by apply insert_subseteq|]. intros id n [= <- _]. apply lookup_insert_eq.
  - intros id v w. simpl. split; [done|]. by left.
  - done.
  - done.
Qed.

Definition ex_first : outcome * ex_state := archive ex_seams ex_sha "http://feed" 7 "s1" (∅, ∅, "abc").

(** The same again is not archived; something else is. *)
Example unchanged_then_changed :
  let again := archive ex_seams ex_sha "http://feed" 8 "s2" ex_first.2 in
  let w := (again.2.1, "abcd") : ex_state in
  again.1 = Unchanged /\ again.2 = ex_first.2 /\
  (archive ex_seams ex_sha "http://feed" 9 "s3" w).1 = Archived (mkSnapshot "s3" "http://feed" "04" 4 "abcd" 9).
Proof. vm_compute. by split_and!. Qed.

(** The marker is no snapshot to list, but it is one to download by its id. *)
Example marker_is_a_document : ex_first.2.1.1 !! latestID = Some (VMarker "03").
Proof. vm_compute. reflexivity. Qed.
