(* ===== verification/AuditTrail.v ===== *)
(** * extension-example/audit: a record of every write

    The log filter, the retention setting, the job that drops what has expired
    and the administrator's view of main.go, over the SDK. The job's loop takes
    fuel; how much is enough is a theorem. The formatting of the cutoff and
    encoding/json are parameters. *)

From Stdlib Require Import Ascii.
From S2P Require Import Prelude GoStrings Wire Query HostServer Sdk SdkHost SdkRuntime Plugins.

Open Scope Z_scope.

Record AuditEntry := mkEntry {
  ae_ID : string; ae_User : string; ae_Method : string; ae_Path : string; ae_Status : Z; ae_At : string
}.

#[export] Instance AuditEntry_eq_dec : EqDecision AuditEntry.
Proof. solve_decision. Defined.

Definition collection := "audit_log".
Definition defaultRetentionDays : Z := 30.
Definition defaultPageLimit : Z := 50.
Definition maxPageLimit : Z := 200.

(** The page size of a request. *)
Definition pageLimit (raw : string) : Z :=
  if String.eqb raw "" then defaultPageLimit
  else match atoi raw with
       | None => defaultPageLimit
       | Some n => if (n <=? 0) || (maxPageLimit <? n) then defaultPageLimit else n
       end.

Section plugin.
Context {W F : Type}.
Notation host := (HostServices (W := W) (F := F)).
Context (Marshal : AuditEntry -> result string string) (UnmarshalList : string -> result string (list AuditEntry))
  (encode : json -> string) (db logs : option host) (now : Z) (show : error -> string) (cutoff : Z -> Z -> string).

(** [id], [at_]: what NewID draws, and the clock as RFC 3339. *)
Definition recordWrite (id at_ : string) (ctx : context) (req : FilterRequest) (w : W) : FilterResult * W :=
  let entry := mkEntry id (Name (User ctx)) (sq_Method req) (sq_Path req) (sq_ResponseStatus req) at_ in
  match SdkHost.Put Marshal db ctx collection id entry w with
  | (Ok _, w) => (Continue, w)
  | (Err e, w) =>
      (Continue, (SdkRuntime.Error logs ctx now "audit: failed to record entry" [AString "err"; AString (show e)] w).2)
  end.

Definition background : context := mkContext None "" ∅.

Definition onConfigChanged (cfg : gmap string string) (w : W) : Z * W :=
  match cfg !! "retention_days" with
  | None => (defaultRetentionDays, w)
  | Some v =>
      let invalid := (defaultRetentionDays,
        (SdkRuntime.Error logs background now "audit: invalid retention_days, using default"
           [AString "value"; AString v; AString "default"; AOther (itoa defaultRetentionDays)] w).2) in
      match atoi v with
      | Some n => if 0 <? n then (n, w) else invalid
      | None => invalid
      end
  end.

Definition expiredQuery (scheduled days : Z) : query :=
  q_Limit 200 (q_SortDesc "at" (q_Lt "at" (cutoff scheduled days) (Where db collection))).

Fixpoint delete_entries (ctx : context) (stale : list AuditEntry) (w : W) : option error * W :=
  match stale with
  | [] => (None, w)
  | e :: stale =>
      match SdkHost.Delete db ctx collection (ae_ID e) w with
      | (Err err, w) => (Some err, w)
      | (Ok _, w) => delete_entries ctx stale w
      end
  end.

Fixpoint purgeExpired (fuel : nat) (ctx : context) (scheduled days : Z) (w : W) : option (option error) * W :=
  match fuel with
  | O => (None, w)
  | S fuel =>
      match All UnmarshalList ctx true (expiredQuery scheduled days) w with
      | (Err e, w) => (Some (Some e), w)
      | (Ok (_, []), w) => (Some None, w)
      | (Ok (_, stale), w) =>
          match delete_entries ctx stale w with
          | (Some e, w) => (Some (Some e), w)
          | (None, w) => purgeExpired fuel ctx scheduled days w
          end
      end
  end.

(** The parameters of the request's query string; an absent one is empty. *)
Definition entriesQuery (user limit cursor : string) : query :=
  let q := Where db collection in
  let q := if String.eqb user "" then q else q_Eq "user" user q in
  let q := q_Limit (pageLimit limit) (q_SortDesc "at" q) in
  if String.eqb cursor "" then q else q_After cursor q.

Definition entry_json (e : AuditEntry) : json :=
  JObj [("id", JStr (ae_ID e)); ("user", JStr (ae_User e)); ("method", JStr (ae_Method e)); ("path", JStr (ae_Path e));
        ("status", jnum (ae_Status e)); ("at", JStr (ae_At e))].

Definition listEntries (ctx : context) (user limit cursor : string) (w : W) : list rw_op * W :=
  if negb (HasRole (User ctx) "admin") then (http_Error "forbidden" 403, w)
  else
    match All UnmarshalList ctx true (entriesQuery user limit cursor) w with
    | (Err e, w) =>
        (http_Error "query failed" 500,
         (SdkRuntime.Error logs ctx now "audit: list query failed" [AString "err"; AString (show e)] w).2)
    | (Ok (next, entries), w) =>
        ([RwHeader (Header_Set "Content-Type" "application/json");
          RwWrite (encode (JObj [("entries", JArr (entry_json <$> entries)); ("next", JStr next)]))], w)
    end.

(** ** The purge *)

Context (rows : W -> gmap string AuditEntry) (ctx : context) (scheduled days : Z).

(** Old enough to go. *)
Definition expired (e : AuditEntry) : bool := String.ltb (ae_At e) (cutoff scheduled days).

Definition stale (w : W) : gmap string AuditEntry := filter (fun ie => expired ie.2 = true) (rows w).

(** What the job needs of Core: a query that succeeds returns documents that are
    there and match, and some if there are any; a deletion that succeeds has
    removed that document, and one that fails that document or nothing. *)
Record store_laws : Prop := mkStoreLaws {
  law_query : forall w, let r := All UnmarshalList ctx true (expiredQuery scheduled days) w in
    rows r.2 = rows w /\
    forall next l, r.1 = Ok (next, l) ->
      (forall e, e ∈ l -> exists id, stale w !! id = Some e) /\ (l = [] -> stale w = ∅);
  law_delete : forall id w, let r := SdkHost.Delete db ctx collection id w in
    (rows r.2 = delete id (rows w) \/ rows r.2 = rows w /\ exists e, r.1 = Err e)
}.

(** A document is stored under its own id, as [recordWrite] does. *)
Definition keyed (w : W) : Prop := forall id e, rows w !! id = Some e -> ae_ID e = id.

(** What has not expired stays. *)
Definition spared (w w' : W) : Prop :=
  rows w' ⊆ rows w /\ forall id e, rows w !! id = Some e -> expired e = false -> rows w' !! id = Some e.

Lemma spared_refl w : spared w w.
Proof. by split. Qed.
Lemma spared_trans w1 w2 w3 : spared w1 w2 -> spared w2 w3 -> spared w1 w3.
Proof. intros [A B] [C D]. split; [by transitivity (rows w2)|]. intros id e H He. apply D, He. by apply B. Qed.

Lemma stale_lookup w id e : stale w !! id = Some e <-> rows w !! id = Some e /\ expired e = true.
Proof. unfold stale. by rewrite map_lookup_filter_Some. Qed.

Lemma keyed_spared w w' : keyed w -> spared w w' -> keyed w'.
Proof. intros Hk [Hs _] id e H. apply (Hk id e). by eapply lookup_weaken. Qed.

Context (Laws : store_laws).

Lemma delete_entries_spec l w r w' : delete_entries ctx l w = (r, w') ->
  (forall e e', e ∈ l -> rows w !! ae_ID e = Some e' -> expired e' = true) ->
  spared w w' /\ (r = None -> forall e, e ∈ l -> rows w' !! ae_ID e = None).
Proof using Laws.
  revert w. induction l as [|e l IH]; intros w; simpl; [intros [= <- <-] _; split; [apply spared_refl|]; intros _ e He; by apply elem_of_nil in He|].
  pose proof (law_delete Laws (ae_ID e) w) as Hd. destruct (SdkHost.Delete db ctx collection (ae_ID e) w) as [r1 w1] eqn:Ed.
  simpl in Hd. intros H He.
  assert (spared w w1) as Hsp.
  { destruct Hd as [Hd|[Hd _]]; unfold spared; rewrite Hd; [|done]. split; [apply delete_subseteq|].
    intros id e1 Hl Hx. rewrite lookup_delete_ne; [done|]. intros <-.
    rewrite (He e e1) in Hx; [done|by left|done]. }
  destruct r1 as [b|err]; [|injection H as <- <-; by split].
  destruct Hd as [Hd|[_ [err Herr]]]; [|done].
  destruct (IH w1 H) as [H1 H2].
  { intros e1 e2 Hin Hl. apply (He e1 e2); [by right|]. destruct Hsp as [Hs _]. by eapply lookup_weaken. }
  split; [by eapply spared_trans|]. intros Hr e1 [->|Hin]%elem_of_cons; [|by apply H2].
  destruct (rows w' !! ae_ID e) as [e2|] eqn:E; [|done]. destruct H1 as [H1 _].
  pose proof (lookup_weaken _ _ _ _ E H1) as E1. by rewrite Hd, lookup_delete_eq in E1.
Qed.

Lemma stale_shrinks w w' : spared w w' -> stale w' ⊆ stale w.
Proof.
  intros [Hs _]. apply map_subseteq_spec. intros id e. rewrite !stale_lookup. intros [H1 H2]. split; [|done].
  by eapply lookup_weaken.
Qed.

(** The job ends, after no more rounds than there are expired records and
    one more, if records are stored under their own ids. Whenever it ends it has
    dropped nothing that has not expired; and if it ends without an error nothing
    that has expired is left. *)
Lemma purge_terminates w fuel : keyed w -> (size (stale w) < fuel)%nat ->
  exists r w', purgeExpired fuel ctx scheduled days w = (Some r, w') /\
    spared w w' /\ (r = None -> stale w' = ∅).
Proof using Laws.
  revert w. induction fuel as [|fuel IH]; intros w Hk Hf; [lia|]. simpl.
  destruct (law_query Laws w) as [Hr Hq].
  destruct (All UnmarshalList ctx true (expiredQuery scheduled days) w) as [[[next l]|e] w1]; simpl in Hr, Hq.
  2: { exists (Some e), w1. split; [done|]. unfold spared. by rewrite Hr. }
  assert (spared w w1) as Hs1 by (unfold spared; by rewrite Hr). destruct (Hq next l eq_refl) as [Hl Hnil].
  destruct l as [|e l].
  { exists None, w1. split; [done|]. split; [done|]. intros _. unfold stale. rewrite Hr. by apply Hnil. }
  assert (forall e0 e', e0 ∈ e :: l -> rows w1 !! ae_ID e0 = Some e' -> expired e' = true) as Hx.
  { rewrite Hr. intros e0 e' Hin He'. destruct (Hl e0 Hin) as [id Hst]. apply stale_lookup in Hst as [Hrow Hex].
    rewrite (Hk id e0 Hrow) in He'. congruence. }
  destruct (delete_entries ctx (e :: l) w1) as [[err|] w2] eqn:Ed;
    destruct (delete_entries_spec _ _ _ _ Ed Hx) as [Hs2 Hgone].
  { exists (Some err), w2. split; [done|]. split; [by eapply spared_trans|done]. }
  assert (spared w w2) as Hs by (by eapply spared_trans).
  destruct (IH w2) as (r & w' & H1 & H2 & H3).
  - by eapply keyed_spared.
  - enough (size (stale w2) < size (stale w))%nat by lia. apply map_subset_size. split; [by apply stale_shrinks|].
    intros Hsub. destruct (Hl e ltac:(left)) as [id Hst]. pose proof Hst as [Hrow _]%stale_lookup.
    pose proof (lookup_weaken _ _ _ _ Hst Hsub) as [E _]%stale_lookup. rewrite <- (Hk id e Hrow) in E.
    rewrite (Hgone eq_refl e) in E; [done|left].
  - exists r, w'. split; [exact H1|]. split; [by eapply spared_trans|done].
Qed.
End plugin.

(** ** A run *)

(** One record that has expired and one that has not; the state is whether the
    first is still there. *)
Definition ex_old : AuditEntry := mkEntry "a1" "ann" "POST" "/x" 200 "2025-01-01T00:00:00Z".
Definition ex_new : AuditEntry := mkEntry "a2" "bob" "PUT" "/y" 200 "2026-01-01T00:00:00Z".
Definition ex_rows (w : bool) : gmap string AuditEntry :=
  if w then <["a1" := ex_old]> {[ "a2" := ex_new ]} else {[ "a2" := ex_new ]}.
Definition ex_cutoff (scheduled days : Z) : string := "2025-06-01T00:00:00Z".
Definition ex_UnmarshalList (data : string) : result string (list AuditEntry) :=
  Ok (if contains "old" data then [ex_old] else []).

Definition ex_host : HostServices (W := bool) (F := ()) :=
  let no {A} : remote (W := bool) A := fun w => (Err (RpcOther "no"), w) in
  mkHostServices (fun _ _ => no) (fun _ _ => no)
    (fun _ d w => if String.eqb (pd_doc_id d) "a1" then (Ok w, false) else (Err (RpcOther "no"), w))
    (fun _ _ _ _ _ _ w => (Ok (mkQueryResult (if w then ["old"] else []) [] "" false), w))
    (fun _ _ _ _ _ _ => no) (fun _ _ => no) (fun _ _ => no) (fun _ _ => no) (fun _ _ => no) (fun _ _ => no) (fun _ _ => no)
    (fun _ _ _ => no) (fun _ _ => no) (fun _ _ _ _ => no) (fun _ _ => no) (fun _ _ _ _ => no) (fun _ _ _ _ => no)
    (fun _ _ _ => no) (fun _ _ _ => no) (fun _ _ _ _ => no) (fun _ _ => no) (fun _ _ _ => no) (fun _ _ => no) (fun _ _ => no)
    (fun _ _ => no) (fun _ _ _ _ _ => no).

Definition ex_ctx : context := mkContext None "" ∅.

Lemma ex_store_laws : store_laws ex_UnmarshalList (Some ex_host) ex_cutoff ex_rows ex_ctx 0 30.
Proof.
  split.
  - intros [|]; split; try done; intros next l [= <- <-]; (split; [|done || intros _; by vm_compute]).
    + intros e He. apply list_elem_of_singleton in He as ->. exists "a1". vm_compute. reflexivity.
    + intros e He. by apply elem_of_nil in He.
  - intros id w. unfold SdkHost.Delete. simpl. destruct (String.eqb_spec id "a1") as [->|Hne].
    + left. destruct w; vm_compute; reflexivity.
    + right. split; [done|by eexists].
Qed.

Lemma purge_terminates_witness :
  (size (stale ex_cutoff ex_rows 0 30 true) = 1)%nat /\
  exists r w', purgeExpired ex_UnmarshalList (Some ex_host) ex_cutoff 2 ex_ctx 0 30 true = (Some r, w').
Proof.
  assert (size (stale ex_cutoff ex_rows 0 30 true) = 1)%nat as Hs by (vm_compute; reflexivity).
  assert (keyed ex_rows true) as Hk.
  { intros id e He. unfold ex_rows in He. apply lookup_insert_Some in He as [[<- <-]|[_ He]]; [reflexivity|].
    apply lookup_singleton_Some in He as [<- <-]. reflexivity. }
  assert (size (stale ex_cutoff ex_rows 0 30 true) < 2)%nat as Hlt by (rewrite Hs; lia).
  split; [exact Hs|].
  destruct (purge_terminates ex_UnmarshalList (Some ex_host) ex_cutoff ex_rows ex_ctx 0 30 ex_store_laws true 2 Hk Hlt)
    as (r & w' & H & _). exists r, w'. exact H.
Defined.

(** The loop needs the records' ids: if an expired one is stored under another,
    the deletion finds nothing, reports no error, and the query has it again. *)
Definition ex_stuck : HostServices (W := ()) (F := ()) :=
  let no {A} : remote (W := ()) A := fun w => (Err (RpcOther "no"), w) in
  mkHostServices (fun _ _ => no) (fun _ _ => no) (fun _ _ w => (Ok false, w))
    (fun _ _ _ _ _ _ w => (Ok (mkQueryResult ["old"] [] "" false), w))
    (fun _ _ _ _ _ _ => no) (fun _ _ => no) (fun _ _ => no) (fun _ _ => no) (fun _ _ => no) (fun _ _ => no) (fun _ _ => no)
    (fun _ _ _ => no) (fun _ _ => no) (fun _ _ _ _ => no) (fun _ _ => no) (fun _ _ _ _ => no) (fun _ _ _ _ => no)
    (fun _ _ _ => no) (fun _ _ _ => no) (fun _ _ _ _ => no) (fun _ _ => no) (fun _ _ _ => no) (fun _ _ => no) (fun _ _ => no)
    (fun _ _ => no) (fun _ _ _ _ _ => no).
Lemma purge_spins fuel : (purgeExpired ex_UnmarshalList (Some ex_stuck) ex_cutoff fuel ex_ctx 0 30 ()).1 = None.
Proof. induction fuel as [|fuel IH]; [done|]. simpl. exact IH. Qed.

(** The page size is always within its bounds. *)
Lemma pageLimit_bounds raw : 1 <= pageLimit raw <= maxPageLimit.
Proof.
  unfold pageLimit, defaultPageLimit, maxPageLimit. destruct (String.eqb raw ""); [lia|]. destruct (atoi raw) as [n|]; [|lia].
  destruct (_ || _) eqn:E; zbool; lia.
Qed.
