(* ===== verification/Notes.v ===== *)
(** * extension-example/notes: the complete example

    The handlers, filters and the job of main.go over the SDK. The clock and its
    formatting, encoding/json and the conversion of a float64 are parameters. *)

From Stdlib Require Import Ascii.
From S2P Require Import Prelude GoStrings Wire Query HostServer Sdk SdkHost SdkRuntime Plugins.

Open Scope Z_scope.

Record Note := mkNote { nt_ID : string; nt_Title : string; nt_Body : string; nt_Author : string; nt_Created : string }.

#[export] Instance Note_eq_dec : EqDecision Note.
Proof. solve_decision. Defined.

(** The payload of a summary: when, and how many notes. *)
Record summary := mkSummary { sm_generated_at : string; sm_note_count : Z }.

Section plugin.
Context {W F : Type}.
Notation host := (HostServices (W := W) (F := F)).
Context (Marshal : Note -> result string string) (MarshalSummary : summary -> result string string)
  (Unmarshal : string -> result string Note) (UnmarshalList : string -> result string (list Note))
  (f64_int64 : F -> Z) (encode : json -> string)
  (db events queue logs : option host) (now : Z) (show : error -> string).

Definition write (status : Z) (v : json) : list rw_op := writeJSON encode "application/json; charset=utf-8" status v.

Definition httpError (status : Z) (err : string) : list rw_op := write status (JObj [("error", JStr (trim_space err))]).

Definition note_json (n : Note) : json :=
  JObj [("id", JStr (nt_ID n)); ("title", JStr (nt_Title n)); ("body", JStr (nt_Body n)); ("author", JStr (nt_Author n));
        ("created", JStr (nt_Created n))].

(** The parameters of the query string; an absent one is empty. *)
Definition notesQuery (author after : string) : query :=
  let q := q_Limit 50 (q_SortDesc "created" (Where db "notes")) in
  let q := if String.eqb author "" then q else q_Eq "author" author q in
  if String.eqb after "" then q else q_After after q.

Definition listNotes (ctx : context) (author after : string) (w : W) : list rw_op * W :=
  match All UnmarshalList ctx true (notesQuery author after) w with
  | (Err e, w) => (httpError 500 (show e), w)
  | (Ok (next, notes), w) => (write 200 (JObj [("next", JStr next); ("notes", JArr (note_json <$> notes))]), w)
  end.

(** What is stored of a body: the caller's name if there is a caller, and an
    id and a time of the server's. *)
Definition stamped (user : option UserContext) (id created : string) (n : Note) : Note :=
  mkNote id (nt_Title n) (nt_Body n) (match user with Some u => Username u | None => nt_Author n end) created.

(** [body]: the note, or why it does not decode; [nanos], [created]: the two
    looks at the clock. *)
Definition createNote (ctx : context) (body : result string Note) (nanos : Z) (created : string) (w : W) : list rw_op * W :=
  match body with
  | Err e => (httpError 400 e, w)
  | Ok n =>
      if String.eqb (nt_Title n) "" then (httpError 400 "title is required", w)
      else
        let n := stamped (User ctx) ("note-" +:+ itoa nanos) created n in
        match SdkHost.Put Marshal db ctx "notes" (nt_ID n) n w with
        | (Err e, w) => (httpError 500 (show e), w)
        | (Ok _, w) =>
            let w := (EventsPublish Marshal events ctx "note.created" n w).2 in
            let w := (Info logs ctx now "note created"
                        [AString "id"; AString (nt_ID n); AString "author"; AString (nt_Author n)] w).2 in
            (write 201 (note_json n), w)
        end
  end.

Definition getNote (ctx : context) (id : string) (w : W) : list rw_op * W :=
  let '(rd, w) := SdkHost.Get Unmarshal db ctx "notes" id true w in
  match rd_err rd, rd_dest rd with
  | Some e, _ => (httpError 500 (show e), w)
  | None, None => (httpError 404 "note not found", w)
  | None, Some n => (write 200 (note_json n), w)
  end.

Definition deleteNote (ctx : context) (id : string) (w : W) : list rw_op * W :=
  match SdkHost.Delete db ctx "notes" id w with
  | (Err e, w) => (httpError 500 (show e), w)
  | (Ok _, w) => ([RwWriteHeader 204], w)
  end.

Definition stats (ctx : context) (w : W) : list rw_op * W :=
  match Count f64_int64 ctx (Where db "notes") w with
  | (Err e, w) => (httpError 500 (show e), w)
  | (Ok total, w) => (write 200 (JObj [("total", jnum total)]), w)
  end.

(** The process counts the requests. *)
Definition rateLimit (ctx : context) (req : FilterRequest) (w : W * Z) : FilterResult * (W * Z) :=
  let count := int64 (w.2 + 1) in
  let h := if Z.rem count 1000 =? 0
           then (Warn logs ctx now "request volume checkpoint" [AString "count"; AOther (itoa count)] w.1).2 else w.1 in
  (if String.eqb (Header_Get (sq_Header req) "X-Simulate-Overload") "1"
   then WithHeader (Stop 429 "slow down") "Retry-After" "5"
   else SetValue Mutate "seen-by" "notes-plugin", (h, count)).

Definition accessLog (ctx : context) (req : FilterRequest) (w : W) : FilterResult * W :=
  (Continue, (Info logs ctx now "request"
     [AString "method"; AString (sq_Method req); AString "path"; AString (sq_Path req);
      AString "status"; AOther (itoa (sq_ResponseStatus req))] w).2).

Definition nightlySummary (ctx : context) (name : string) (scheduled : Z) (generated_at : string) (w : W) : option error * W :=
  match Count f64_int64 ctx (Where db "notes") w with
  | (Err e, w) => (Some (Wrapped "count notes" e), w)
  | (Ok n, w) =>
      let w := (Info logs ctx now "nightly summary"
                  [AString "job"; AString name; AString "notes"; AOther (itoa n)] w).2 in
      match QueuePublish MarshalSummary queue ctx "summaries" (mkSummary generated_at n)
              [WithDedupKey ("summary-" +:+ itoa scheduled)] w with
      | (Err e, w) => (Some e, w)
      | (Ok _, w) => (None, w)
      end
  end.

(** ** Facts *)

(** A note that is answered with 201 has been stored, under the id it is
    answered with: the body's title and text, an id and a time of the server's,
    and the caller for an author. *)
Lemma createNote_created ctx body nanos created w ops w' : createNote ctx body nanos created w = (ops, w') ->
  status_of ops = 201 ->
  exists n v w1, body = Ok n /\ nt_Title n <> "" /\
    let n' := stamped (User ctx) ("note-" +:+ itoa nanos) created n in
    SdkHost.Put Marshal db ctx "notes" (nt_ID n') n' w = (Ok v, w1) /\ ops = write 201 (note_json n') /\
    (forall u, User ctx = Some u -> nt_Author n' = Username u).
Proof.
  unfold createNote. destruct body as [n|e]; [|by intros [= <- <-]].
  destruct (String.eqb_spec (nt_Title n) ""); [by intros [= <- <-]|]. cbv zeta.
  destruct (SdkHost.Put Marshal db ctx "notes" _ _ w) as [[v|e] w1] eqn:Ep; [|by intros [= <- <-]].
  intros [= <- <-] _. exists n, v, w1. split_and!; try done. intros u Hu. simpl. by rewrite Hu.
Qed.
End plugin.

(** Without a caller the body names the author itself. *)
Example anonymous_author : nt_Author (stamped None "note-1" "" (mkNote "" "t" "" "ann" "")) = "ann".
Proof. reflexivity. Qed.
