(* ===== verification/Ratelimit.v ===== *)
(** * extension-example/ratelimit: token buckets

    The limiter of main.go, over the arithmetic its token counts are in: an
    interface with two instances, the rationals, in which the bound of a bucket
    is proved, and the float64 of the code as the Standard Library's
    specification of binary floating point, in which runs are evaluated. Times
    are nanoseconds; a [take] is one step, since it runs under the mutex. *)

From Stdlib Require Import Ascii QArith Qround Qminmax Lqa SpecFloat.
From S2P Require Import Prelude GoStrings Wire Query HostServer Sdk SdkHost SdkRuntime Plugins.

Open Scope Z_scope.

(** ** The arithmetic *)

Class Arith (T : Type) := {
  of_ratio : Z -> positive -> T;      (* a constant *)
  add : T -> T -> T; sub : T -> T -> T; mul : T -> T -> T; div : T -> T -> T;
  min_ : T -> T -> T; ltb : T -> T -> bool; leb : T -> T -> bool;
  of_int : Z -> T; to_int : T -> Z    (* conversion, and truncation *)
}.

(** [time.Duration.Seconds]. *)
Definition Seconds `{Arith T} (d : Z) : T :=
  add (of_int (d `quot` second)) (div (of_int (Z.rem d second)) (of_int second)).

#[export] Instance exact : Arith Q := {|
  of_ratio := fun n d => n # d;
  add := Qplus; sub := Qminus; mul := Qmult; div := Qdiv; min_ := Qmin;
  ltb := fun a b => negb (Qle_bool b a); leb := Qle_bool;
  of_int := inject_Z; to_int := fun q => Z.quot (Qnum q) (Zpos (Qden q))
|}.

(** float64: 53 bits of precision. A NaN is less than nothing, and makes a
    minimum a NaN. *)
Definition f64_of_int (z : Z) : spec_float := binary_normalize 53 1024 z 0 false.
Definition f64_trunc (f : spec_float) : Z :=
  match f with
  | S754_finite s m e =>
      let v := if 0 <=? e then Zpos m * 2 ^ e else Zpos m / 2 ^ (- e) in if s then - v else v
  | _ => 0
  end.
Definition is_nan (f : spec_float) : bool := match f with S754_nan => true | _ => false end.

#[export] Instance float64 : Arith spec_float := {|
  of_ratio := fun n d => SFdiv 53 1024 (f64_of_int n) (f64_of_int (Zpos d));
  add := SFadd 53 1024; sub := SFsub 53 1024; mul := SFmul 53 1024; div := SFdiv 53 1024;
  min_ := fun a b => if is_nan a then a else if is_nan b then b else if SFltb a b then a else b;
  ltb := SFltb; leb := SFleb; of_int := f64_of_int; to_int := f64_trunc
|}.

(** ** The limiter *)

Record bucket (T : Type) := mkBucket { tokens : T; last_ : Z }.
Arguments mkBucket {T}. Arguments tokens {T}. Arguments last_ {T}.

Record limiter (T : Type) := mkLimiter {
  rate : T; burst : T; exemptPaths : list string; buckets : gmap string (bucket T); allowed : Z; rejected : Z;
  lastSweep : Z
}.
Arguments mkLimiter {T}. Arguments rate {T}. Arguments burst {T}. Arguments exemptPaths {T}. Arguments buckets {T}.
Arguments allowed {T}. Arguments rejected {T}. Arguments lastSweep {T}.

Definition sweepEvery : Z := 60 * second.

Section limiter.
Context {T : Type} `{Arith T}.

Definition one : T := of_ratio 1 1.
Definition defaultRate : T := of_ratio 100 60.
Definition defaultBurst : T := of_ratio 20 1.

Definition newLimiter (now : Z) : limiter T := mkLimiter defaultRate defaultBurst [] ∅ 0 0 now.

Definition with_buckets (l : limiter T) (bs : gmap string (bucket T)) (sweep : Z) : limiter T :=
  mkLimiter (rate l) (burst l) (exemptPaths l) bs (allowed l) (rejected l) sweep.

Definition idle (l : limiter T) : Z := int64 (to_int (mul (div (burst l) (rate l)) (of_int second)) + sweepEvery).

Definition sweepLocked (now : Z) (l : limiter T) : limiter T :=
  if now - lastSweep l <? sweepEvery then l
  else with_buckets l (filter (fun kb => (idle l <? now - last_ kb.2) = false) (buckets l)) now.

(** The tokens of a bucket at a moment. *)
Definition credited (l : limiter T) (now : Z) (b : bucket T) : T :=
  min_ (add (tokens b) (mul (Seconds (now - last_ b)) (rate l))) (burst l).

Definition take (key : string) (now : Z) (l : limiter T) : (bool * Z) * limiter T :=
  let l := sweepLocked now l in
  let b := default (mkBucket (burst l) now) (buckets l !! key) in
  let t := credited l now b in
  let keep t := <[key := mkBucket t now]> (buckets l) in
  if ltb t one
  then ((false, int64 (to_int (mul (div (sub one t) (rate l)) (of_int second)) + second)),
        with_buckets l (keep t) (lastSweep l))
  else ((true, 0), mkLimiter (rate l) (burst l) (exemptPaths l) (keep (sub t one)) (int64 (allowed l + 1)) (rejected l)
                     (lastSweep l)).

Definition bucketKey (req : FilterRequest) : string :=
  match sq_Identity req with
  | Some u => if String.eqb (UserID u) "" then "ip:" +:+ sq_ClientIP req else "user:" +:+ UserID u
  | None => "ip:" +:+ sq_ClientIP req
  end.

Definition exempt (l : limiter T) (path : string) : bool :=
  has_prefix path "/api/plugins/ratelimit/" || existsb (has_prefix path) (exemptPaths l).

Definition quote : string := String (ascii_of_nat 34) "".
Definition rejection : string :=
  "{" +:+ quote +:+ "error" +:+ quote +:+ ":" +:+ quote +:+ "rate limit exceeded" +:+ quote +:+ "}".

(** The filter; [log] is the warning it writes of a rejection. *)
Definition check_ {W} (log : string -> W -> W) (now : Z) (req : FilterRequest) (l : limiter T) (w : W)
    : FilterResult * (limiter T * W) :=
  if exempt l (sq_Path req) then (Continue, (l, w))
  else
    let key := bucketKey req in
    match take key now l with
    | ((true, _), l) => (Continue, (l, w))
    | ((false, retryAfter), l) =>
        let l := mkLimiter (rate l) (burst l) (exemptPaths l) (buckets l) (allowed l) (int64 (rejected l + 1)) (lastSweep l) in
        (WithHeader (WithHeader (Stop 429 rejection) "Content-Type" "application/json") "Retry-After"
           (itoa (to_int (add (Seconds retryAfter) (of_ratio 1 2)))), (l, log key w))
    end.

(** [parse] is strconv.ParseFloat. *)
Definition configure (parse : string -> option T) (cfg : gmap string string) (l : limiter T) : limiter T :=
  let get k := default "" (cfg !! k) in
  let r := match parse (get "requests_per_minute") with
           | Some v => if ltb (of_int 0) v then div v (of_int 60) else defaultRate
           | None => defaultRate
           end in
  let b := match parse (get "burst") with Some v => if leb one v then v else defaultBurst | None => defaultBurst end in
  let ex := filter (fun p => p <> "") (trim_space <$> split_byte "," (get "exempt_paths")) in
  mkLimiter r b ex (buckets l) (allowed l) (rejected l) (lastSweep l).

(** What the status endpoint reports. *)
Definition handleStats (show : T -> json) (encode : json -> string) (l : limiter T) : list rw_op :=
  [RwHeader (Header_Set "Content-Type" "application/json");
   RwWrite (encode (JObj [("allowed", jnum (allowed l)); ("burst", show (burst l)); ("exempt_paths", match exemptPaths l with [] => JNull | ps => jstrings ps end);
     
      ("rejected", jnum (rejected l)); ("requests_per_minute", show (mul (rate l) (of_int 60)));
      ("tracked_callers", jnum (Z.of_nat (size (buckets l))))]))].
End limiter.

(** ** The bound, in exact arithmetic *)

Lemma Seconds_exact d : (Seconds (T := Q) d == inject_Z d * (1 # 1000000000))%Q.
Proof.
  unfold Seconds. cbn [add div of_int exact]. unfold Qdiv.
  assert (/ inject_Z second == 1 # 1000000000)%Q as -> by reflexivity.
  pose proof (Z.quot_rem' d second) as Hd.
  assert (inject_Z d == inject_Z second * inject_Z (d `quot` second) + inject_Z (Z.rem d second))%Q as ->.
  { rewrite <- inject_Z_mult, <- inject_Z_plus. by rewrite <- Hd. }
  assert (inject_Z second == 1000000000)%Q as -> by reflexivity. ring.
Qed.

Lemma Seconds_mono a b : a <= b -> (Seconds (T := Q) a <= Seconds (T := Q) b)%Q.
Proof. intros Hab. rewrite !Seconds_exact. rewrite Zle_Qle in Hab. lra. Qed.

Lemma Seconds_split a b : (Seconds (T := Q) (a + b) == Seconds (T := Q) a + Seconds (T := Q) b)%Q.
Proof. rewrite !Seconds_exact, inject_Z_plus. ring. Qed.

Section bound.
Context (r b : Q) (Rate : (0 < r)%Q) (Burst : (0 <= b)%Q) (key : string).
(** The time a bucket takes to fill is within the range of a duration. *)
Context (Fits : (b / r * inject_Z second <= inject_Z (2 ^ 62))%Q).

Definition set_up (l : limiter Q) : Prop := rate l = r /\ burst l = b.

(** The tokens the caller could draw on: a bucket that is not there is full. *)
Definition available (now : Z) (bs : gmap string (bucket Q)) : Q :=
  match bs !! key with
  | Some bk => Qmin (tokens bk + Seconds (now - last_ bk) * r) b
  | None => b
  end.

Definition sane (now : Z) (l : limiter Q) : Prop :=
  set_up l /\ forall bk, buckets l !! key = Some bk -> (0 <= tokens bk)%Q /\ last_ bk <= now.

Lemma to_int_le q : (0 <= q)%Q -> (q < inject_Z (to_int q) + 1)%Q /\ (inject_Z (to_int q) <= q)%Q.
Proof.
  destruct q as [n d]. intros Hq. cbn [to_int exact Qnum Qden].
  assert (0 <= n) as Hn by (unfold Qle in Hq; simpl in Hq; lia).
  pose proof (Z.quot_rem' n (Zpos d)) as Hd. pose proof (Z.rem_bound_pos n (Zpos d) Hn ltac:(lia)) as Hr.
  unfold Qlt, Qle, inject_Z, Qplus. simpl. nia.
Qed.

(** A bucket that is swept is full again. *)
Lemma idle_fills l d : set_up l -> idle l < d -> (b <= Seconds d * r)%Q.
Proof.
  intros [Hr Hb] Hd. set (q := (b / r * inject_Z second)%Q).
  assert (0 <= b / r)%Q as Hbr by (apply Qle_shift_div_l; lra).
  assert (0 <= q)%Q as Hq by (unfold q; assert (inject_Z second == 1000000000)%Q as -> by reflexivity; lra).
  destruct (to_int_le q Hq) as [H1 H2]. fold q in Fits.
  assert (idle l = to_int q + sweepEvery) as Hi.
  { unfold idle. cbn [mul div of_int exact]. rewrite Hr, Hb. fold q. apply int64_id.
    assert (inject_Z (to_int q) <= inject_Z (2 ^ 62))%Q as Hle by lra. rewrite <- Zle_Qle in Hle.
    assert (-1 < to_int q) as Hge.
    { rewrite Zlt_Qlt. change (inject_Z (-1)) with (-1)%Q. lra. }
    unfold in_int64, sweepEvery, second. lia. }
  assert (q <= inject_Z d)%Q as Hqd.
  { assert (inject_Z (to_int q + 1) <= inject_Z d)%Q as Hle by (rewrite <- Zle_Qle; unfold sweepEvery, second in *; lia).
    rewrite inject_Z_plus in Hle. change (inject_Z 1) with 1%Q in Hle. lra. }
  rewrite Seconds_exact. unfold q in Hqd. assert (inject_Z second == 1000000000)%Q as E by reflexivity. rewrite E in Hqd.
  assert (b == b / r * r)%Q as -> by (field; lra). apply Qmult_le_compat_r; lra.
Qed.

Lemma sane_later now now' l : sane now l -> now <= now' -> sane now' l.
Proof. intros [H1 H2] Hle. split; [done|]. intros bk Hbk. destruct (H2 bk Hbk). split; [done|lia]. Qed.

Lemma available_bounds now bs : (forall bk, bs !! key = Some bk -> (0 <= tokens bk)%Q /\ last_ bk <= now) ->
  (0 <= available now bs <= b)%Q.
Proof.
  intros Hs. unfold available. destruct (bs !! key) as [bk|]; [|lra]. destruct (Hs bk eq_refl) as [Ht Hl].
  pose proof (Seconds_mono 0 (now - last_ bk) ltac:(lia)) as Hd. rewrite (Seconds_exact 0) in Hd. change (inject_Z 0) with 0%Q in Hd.
  assert (0 <= Seconds (now - last_ bk) * r)%Q as Hm by (apply Qmult_le_0_compat; lra).
  split; [apply Q.min_glb; lra|apply Q.le_min_r].
Qed.

(** A sweep takes nothing from the caller. *)
Lemma sweep_available now l : sane now l ->
  sane now (sweepLocked now l) /\ (available now (buckets (sweepLocked now l)) == available now (buckets l))%Q.
Proof.
  intros [Hset Hs]. unfold sweepLocked. destruct (_ <? _); [split; [by split|reflexivity]|].
  assert (forall bk, filter (fun kb => (idle l <? now - last_ kb.2) = false) (buckets l) !! key = Some bk ->
    buckets l !! key = Some bk) as Hsub by (intros bk [Hbk _]%map_lookup_filter_Some; exact Hbk).
  split; [split; [exact Hset|]; intros bk Hbk; apply Hs; by apply Hsub|].
  cbn [buckets with_buckets]. unfold available.
  destruct (filter _ (buckets l) !! key) as [bk|] eqn:E; [by rewrite (Hsub bk eq_refl)|].
  destruct (buckets l !! key) as [bk|] eqn:Eb; [|reflexivity].
  apply map_lookup_filter_None in E as [E|E]; [congruence|]. specialize (E bk Eb). simpl in E.
  apply not_false_iff_true, Z.ltb_lt in E. destruct (Hs bk eq_refl) as [Ht Hl].
  pose proof (idle_fills l _ Hset E) as Hf. symmetry. apply Q.min_r. lra.
Qed.

(** As time passes no more is gained than the rate allows. *)
Lemma available_later now d bs : 0 <= d ->
  (available (now + d) bs <= available now bs + Seconds d * r)%Q.
Proof.
  intros Hd. pose proof (Seconds_mono 0 d Hd) as Hs. rewrite (Seconds_exact 0) in Hs. change (inject_Z 0) with 0%Q in Hs.
  assert (0 <= Seconds d * r)%Q as Hm by (apply Qmult_le_0_compat; lra).
  unfold available. destruct (bs !! key) as [bk|]; [|lra].
  replace (now + d - last_ bk) with ((now - last_ bk) + d) by lia. rewrite Seconds_split.
  set (x := Seconds (now - last_ bk)). set (y := Seconds d) in *.
  apply Q.min_case_strong with (n := (tokens bk + x * r)%Q) (m := b).
  - intros q1 q2 E Hq. by rewrite <- E.
  - intros Hle. apply Qle_trans with (tokens bk + (x + y) * r)%Q; [apply Q.le_min_l|]. lra.
  - intros Hle. apply Qle_trans with b; [apply Q.le_min_r|lra].
Qed.

(** One more is taken only when there is one, and it is gone then. *)
Lemma take_available k now l ok wait l' : sane now l -> take k now l = ((ok, wait), l') ->
  sane now l' /\
  (available now (buckets l') + (if decide (k = key) then if ok then 1 else 0 else 0) == available now (buckets l))%Q.
Proof.
  intros Hs. destruct (sweep_available now l Hs) as [[Hset Hs1] Ha]. unfold take.
  set (l1 := sweepLocked now l) in *. clearbody l1. set (bk := default (mkBucket (burst l1) now) (buckets l1 !! k)).
  destruct (decide (k = key)) as [->|Hne].
  - assert (credited l1 now bk == available now (buckets l1))%Q as Hc.
    { unfold credited, available, bk. destruct Hset as [Hr Hb]. cbn [min_ add mul exact].
      destruct (buckets l1 !! key) as [bk1|]; simpl; rewrite Hr, Hb; [reflexivity|].
      rewrite Z.sub_diag, (Seconds_exact 0). apply Q.min_r. change (inject_Z 0) with 0%Q. lra. }
    assert (forall t, available now (<[key := mkBucket t now]> (buckets l1)) == Qmin t b)%Q as Hk.
    { intros t. unfold available. rewrite lookup_insert_eq. simpl. rewrite Z.sub_diag, (Seconds_exact 0).
      change (inject_Z 0) with 0%Q. assert (t + 0 * (1 # 1000000000) * r == t)%Q as -> by ring. reflexivity. }
    pose proof (available_bounds now (buckets l1) Hs1) as [B1 B2].
    generalize dependent (credited l1 now bk). intros c Hc.
    destruct (ltb c one) eqn:El; intros [= <- _ <-]; cbn [buckets with_buckets].
    + split; [split; [exact Hset|]; intros bk' E; cbn [buckets with_buckets] in E; rewrite lookup_insert_eq in E;
        injection E as <-; cbn [tokens last_]; split; [lra|lia]|].
      rewrite Hk, <- Ha, Hc. rewrite (Q.min_l (available now (buckets l1)) b) by lra. lra.
    + cbn [ltb exact one of_ratio] in El. apply negb_false_iff, Qle_bool_iff in El. cbn [sub exact one of_ratio].
      split; [split; [exact Hset|]; intros bk' E; cbn [buckets with_buckets] in E; rewrite lookup_insert_eq in E;
        injection E as <-; cbn [tokens last_]; split; [lra|lia]|].
      rewrite Hk, <- Ha. rewrite (Q.min_l (c - 1) b) by lra. lra.
  - assert (forall t, <[k := mkBucket t now]> (buckets l1) !! key = buckets l1 !! key) as Hk
      by (intros t; by rewrite lookup_insert_ne).
    assert (forall t, available now (<[k := mkBucket t now]> (buckets l1)) = available now (buckets l1)) as Hk'
      by (intros t; unfold available; by rewrite Hk).
    destruct (ltb _ _); intros [= <- _ <-]; cbn [buckets with_buckets];
      (split; [split; [exact Hset|simpl; intros bk'; rewrite Hk; apply Hs1]|]); rewrite Hk', <- Ha; lra.
Qed.

(** Requests of any callers, with the time each comes after the one before. *)
Fixpoint takes (reqs : list (string * Z)) (now : Z) (l : limiter Q) : Z * limiter Q :=
  match reqs with
  | [] => (0, l)
  | (k, d) :: reqs =>
      let '((ok, _), l) := take k (now + d) l in
      let '(n, l) := takes reqs (now + d) l in
      ((if bool_decide (k = key) && ok then 1 else 0) + n, l)
  end.

Definition elapsed (reqs : list (string * Z)) : Z := zsum reqs.*2.

Lemma takes_bound reqs now l n l' : Forall (fun q => 0 <= q.2) reqs -> sane now l -> takes reqs now l = (n, l') ->
  (inject_Z n + available (now + elapsed reqs) (buckets l') <= available now (buckets l) + Seconds (elapsed reqs) * r)%Q /\
  sane (now + elapsed reqs) l'.
Proof.
  unfold elapsed. revert now l n. induction reqs as [|[k d] reqs IH]; intros now l n Hd Hs; cbn [takes fmap list_fmap zsum foldr snd].
  - intros [= <- <-]. rewrite Z.add_0_r, (Seconds_exact 0). change (inject_Z 0) with 0%Q. split; [lra|done].
  - apply list.Forall_cons in Hd as [Hd0 Hd]. simpl in Hd0.
    destruct (take k (now + d) l) as [[ok wait] l1] eqn:Et.
    pose proof (sane_later now (now + d) l Hs ltac:(lia)) as Hs'.
    destruct (take_available k (now + d) l ok wait l1 Hs' Et) as [Hs1 Ha].
    destruct (takes reqs (now + d) l1) as [n1 l2] eqn:Er. intros [= <- <-].
    destruct (IH (now + d) l1 n1 Hd Hs1 Er) as [H1 H2]. fold (zsum reqs.*2).
    replace (now + d + zsum reqs.*2) with (now + (d + zsum reqs.*2)) in * by lia.
    split; [|exact H2]. pose proof (available_later now d (buckets l) Hd0) as Hl. rewrite Seconds_split.
    assert (inject_Z ((if bool_decide (k = key) && ok then 1 else 0) + n1) ==
            (if decide (k = key) then if ok then 1 else 0 else 0) + inject_Z n1)%Q as ->.
    { rewrite inject_Z_plus. case_bool_decide as Hk; [rewrite decide_True by done|rewrite decide_False by done];
      destruct ok; reflexivity. }
    set (one_ := (if decide (k = key) then _ else 0)%Q) in *. lra.
Qed.

(** A caller, whoever else is calling, is let through no more often than the
    burst and what the rate gives in that time; forgetting idle callers changes
    nothing. *)
Lemma limiter_bound reqs now l n l' : Forall (fun q => 0 <= q.2) reqs -> sane now l -> takes reqs now l = (n, l') ->
  (inject_Z n <= b + Seconds (elapsed reqs) * r)%Q.
Proof.
  intros Hd Hs Ht. destruct (takes_bound reqs now l n l' Hd Hs Ht) as [H1 [_ H2]].
  pose proof (available_bounds _ _ H2) as [B1 _]. destruct Hs as [_ Hs]. pose proof (available_bounds now _ Hs) as [_ B2]. lra.
Qed.
End bound.

(** ** Runs, in the arithmetic of the code *)

(** A burst of three is three: the fourth is refused and told to come back in
    two seconds, at one a second. *)
Definition ex_limiter : limiter spec_float := mkLimiter (f64_of_int 1) (f64_of_int 3) [] ∅ 0 0 0.

Fixpoint ex_takes (times : list Z) (l : limiter spec_float) : list (bool * Z) :=
  match times with
  | [] => []
  | t :: times => let '(r, l) := take "ip:203.0.113.7" t l in r :: ex_takes times l
  end.

Example burst_is_spent : ex_takes [0; 0; 0; 0; second] ex_limiter =
  [(true, 0); (true, 0); (true, 0); (false, 2 * second); (true, 0)].
Proof. vm_compute. reflexivity. Qed.

(** An infinite rate, which ParseFloat reads from Inf, is a NaN in a bucket asked
    twice at the same moment; from then on nothing is refused, whatever the rate
    is set to later: a bucket keeps its tokens. *)
Definition inf : spec_float := S754_infinity false.
Definition ex_parse (s : string) : option spec_float :=
  if String.eqb s "Inf" then Some inf else if String.eqb s "1" then Some (f64_of_int 1) else None.
Definition ex_inf : limiter spec_float :=
  configure ex_parse (<["requests_per_minute" := "Inf"]> {[ "burst" := "1" ]}) (newLimiter 0).
Definition ex_fixed (l : limiter spec_float) : limiter spec_float :=
  configure ex_parse (<["requests_per_minute" := "1"]> {[ "burst" := "1" ]}) l.

Example nan_disables :
  let l := ex_fixed (take "ip:a" 0 (take "ip:a" 0 ex_inf).2).2 in
  fst <$> ex_takes [0; 0] (ex_fixed (newLimiter 0)) = [true; false] /\
  (take "ip:a" 1 l).1 = (true, 0) /\ (take "ip:a" 2 (take "ip:a" 1 l).2).1 = (true, 0) /\
  match buckets l !! "ip:a" with Some b => is_nan (tokens b) | None => false end = true.
Proof. vm_compute. by split_and!. Qed.
